(** * xQubit.AI site: theme-aware Three.js scenes

    A shallow embedding of [src/js/three-scenes.js] (the five scene classes,
    the palette table and its lookup) and of the theme toggle of
    [src/js/main.js], with the properties of the scene renderer stated
    against it.

    Modelling conventions.
    - The page (DOM attribute, containers, listeners, observers, pending
      animation frames, [Math.random], the clock) is one explicit [World]
      threaded by a state-and-exception monad [M]; a JavaScript exception is
      [Throw], and the world reached when it is thrown is kept.
    - Scene objects are records passed through the methods; a method that
      mutates [this] returns the new record.  Where it matters which object
      is written, not only what it holds afterwards, the objects live in a
      store and the scene holds references ([Store], [allocate],
      [updateColors_in_place]).
    - A JavaScript value that may be [undefined] is an [option]; reading a
      property of [undefined] throws a [TypeError].
    - Numbers that go through [Math.sin], [Math.cos] and [Math.acos]
      (angles, positions, opacities) are idealised as real numbers.  A
      number stored in a [Float32Array] is rounded to single precision by
      the store ([Float32Array.fround]).  The camera aspect ratio, where
      the special values of IEEE arithmetic matter, is a binary64 float.
      Colours are integers ([0xRRGGBB]). *)

From Stdlib Require Import ZArith List Reals Lra Lia.
From Stdlib Require Floats.
From stdpp Require Import base option list gmap strings.

Set Default Proof Using "Type".

(* ================================================================== *)
(** * The host page                                                     *)
(* ================================================================== *)

(** The five scene classes of [three-scenes.js]. *)
Inductive SceneClass :=
| QuantumHero | QuantumProcessor | NeuralNetwork | FloatingParticles | FeatureQuantum.

(** What a render loop does that the page can observe, in order. *)
Inductive Event :=
| EvRequestFrame (c : SceneClass)
| EvReadClock (c : SceneClass) (time : R)
| EvRender (c : SceneClass).

(** A DOM element looked up by id: its layout box and the canvases appended
    to it. *)
Record Element := {
  offsetWidth : Z;
  offsetHeight : Z;
  canvases : list SceneClass
}.

Record World := {
  data_theme : option string;          (* documentElement's data-theme *)
  document_elements : gmap string Element;  (* document.getElementById *)
  localStorage : gmap string string;
  click_listeners : gmap string nat;   (* click handlers, by element id *)
  resize_listeners : list SceneClass;  (* window 'resize' handlers *)
  mousemove_listeners : list SceneClass;
  observers : list SceneClass;         (* MutationObservers on documentElement *)
  frame_requests : list SceneClass;    (* pending requestAnimationFrame callbacks *)
  random_source : nat → R;             (* the k-th value Math.random() returns *)
  random_pos : nat;                    (* how many values were drawn so far *)
  elapsed : R;                         (* seconds on the scenes' THREE.Clock *)
  devicePixelRatio : R;
  log : list Event
}.

Inductive Error := TypeError (reading : string).

Inductive Outcome (A : Type) :=
| Ok (a : A)
| Throw (e : Error).
Arguments Ok {A} a.
Arguments Throw {A} e.

Definition M (A : Type) : Type := World → Outcome A * World.

#[global] Instance M_ret : MRet M := λ A a w, (Ok a, w).
#[global] Instance M_bind : MBind M := λ A B f m w,
  match m w with
  | (Ok a, w') => f a w'
  | (Throw e, w') => (Throw e, w')
  end.

#[global] Instance M_fmap : FMap M := λ A B f m, a ← m; mret (f a).

Definition throw {A} (e : Error) : M A := λ w, (Throw e, w).
Definition gets {A} (f : World → A) : M A := λ w, (Ok (f w), w).
Definition modify (f : World → World) : M unit := λ w, (Ok tt, f w).

(** [for (let i = start; i < start + count; i++) body(i)], the loop state
    passed along. *)
Fixpoint for_loop {St : Type} (count start : nat) (body : nat → St → M St) (s : St) : M St :=
  match count with
  | O => mret s
  | S count' => s' ← body start s; for_loop count' (S start) body s'
  end.

(** [xs.forEach((x, i) => body(x, i))], the loop state passed along. *)
Fixpoint forEach {A St : Type} (xs : list A) (i : nat) (body : A → nat → St → M St) (s : St) : M St :=
  match xs with
  | [] => mret s
  | x :: rest => s' ← body x i s; forEach rest (S i) body s'
  end.

(** [xs.forEach((x, i) => ...)] where the body rewrites [x] itself. *)
Fixpoint forEach_update {A : Type} (xs : list A) (i : nat) (body : A → nat → M A) : M (list A) :=
  match xs with
  | [] => mret []
  | x :: rest => x' ← body x i; rest' ← forEach_update rest (S i) body; mret (x' :: rest')
  end.

(** ** World updates *)

Definition set_data_theme (t : option string) (w : World) : World :=
  {| data_theme := t; document_elements := document_elements w; localStorage := localStorage w;
     click_listeners := click_listeners w; resize_listeners := resize_listeners w;
     mousemove_listeners := mousemove_listeners w; observers := observers w;
     frame_requests := frame_requests w; random_source := random_source w;
     random_pos := random_pos w; elapsed := elapsed w;
     devicePixelRatio := devicePixelRatio w; log := log w |}.

Definition set_elements (e : gmap string Element) (w : World) : World :=
  {| data_theme := data_theme w; document_elements := e; localStorage := localStorage w;
     click_listeners := click_listeners w; resize_listeners := resize_listeners w;
     mousemove_listeners := mousemove_listeners w; observers := observers w;
     frame_requests := frame_requests w; random_source := random_source w;
     random_pos := random_pos w; elapsed := elapsed w;
     devicePixelRatio := devicePixelRatio w; log := log w |}.

Definition set_localStorage (l : gmap string string) (w : World) : World :=
  {| data_theme := data_theme w; document_elements := document_elements w; localStorage := l;
     click_listeners := click_listeners w; resize_listeners := resize_listeners w;
     mousemove_listeners := mousemove_listeners w; observers := observers w;
     frame_requests := frame_requests w; random_source := random_source w;
     random_pos := random_pos w; elapsed := elapsed w;
     devicePixelRatio := devicePixelRatio w; log := log w |}.

Definition set_click_listeners (l : gmap string nat) (w : World) : World :=
  {| data_theme := data_theme w; document_elements := document_elements w; localStorage := localStorage w;
     click_listeners := l; resize_listeners := resize_listeners w;
     mousemove_listeners := mousemove_listeners w; observers := observers w;
     frame_requests := frame_requests w; random_source := random_source w;
     random_pos := random_pos w; elapsed := elapsed w;
     devicePixelRatio := devicePixelRatio w; log := log w |}.

Definition set_resize_listeners (l : list SceneClass) (w : World) : World :=
  {| data_theme := data_theme w; document_elements := document_elements w; localStorage := localStorage w;
     click_listeners := click_listeners w; resize_listeners := l;
     mousemove_listeners := mousemove_listeners w; observers := observers w;
     frame_requests := frame_requests w; random_source := random_source w;
     random_pos := random_pos w; elapsed := elapsed w;
     devicePixelRatio := devicePixelRatio w; log := log w |}.

Definition set_mousemove_listeners (l : list SceneClass) (w : World) : World :=
  {| data_theme := data_theme w; document_elements := document_elements w; localStorage := localStorage w;
     click_listeners := click_listeners w; resize_listeners := resize_listeners w;
     mousemove_listeners := l; observers := observers w;
     frame_requests := frame_requests w; random_source := random_source w;
     random_pos := random_pos w; elapsed := elapsed w;
     devicePixelRatio := devicePixelRatio w; log := log w |}.

Definition set_observers (l : list SceneClass) (w : World) : World :=
  {| data_theme := data_theme w; document_elements := document_elements w; localStorage := localStorage w;
     click_listeners := click_listeners w; resize_listeners := resize_listeners w;
     mousemove_listeners := mousemove_listeners w; observers := l;
     frame_requests := frame_requests w; random_source := random_source w;
     random_pos := random_pos w; elapsed := elapsed w;
     devicePixelRatio := devicePixelRatio w; log := log w |}.

Definition set_frame_requests (l : list SceneClass) (w : World) : World :=
  {| data_theme := data_theme w; document_elements := document_elements w; localStorage := localStorage w;
     click_listeners := click_listeners w; resize_listeners := resize_listeners w;
     mousemove_listeners := mousemove_listeners w; observers := observers w;
     frame_requests := l; random_source := random_source w;
     random_pos := random_pos w; elapsed := elapsed w;
     devicePixelRatio := devicePixelRatio w; log := log w |}.

Definition set_random_pos (n : nat) (w : World) : World :=
  {| data_theme := data_theme w; document_elements := document_elements w; localStorage := localStorage w;
     click_listeners := click_listeners w; resize_listeners := resize_listeners w;
     mousemove_listeners := mousemove_listeners w; observers := observers w;
     frame_requests := frame_requests w; random_source := random_source w;
     random_pos := n; elapsed := elapsed w;
     devicePixelRatio := devicePixelRatio w; log := log w |}.

Definition set_elapsed (t : R) (w : World) : World :=
  {| data_theme := data_theme w; document_elements := document_elements w; localStorage := localStorage w;
     click_listeners := click_listeners w; resize_listeners := resize_listeners w;
     mousemove_listeners := mousemove_listeners w; observers := observers w;
     frame_requests := frame_requests w; random_source := random_source w;
     random_pos := random_pos w; elapsed := t;
     devicePixelRatio := devicePixelRatio w; log := log w |}.

Definition set_log (l : list Event) (w : World) : World :=
  {| data_theme := data_theme w; document_elements := document_elements w; localStorage := localStorage w;
     click_listeners := click_listeners w; resize_listeners := resize_listeners w;
     mousemove_listeners := mousemove_listeners w; observers := observers w;
     frame_requests := frame_requests w; random_source := random_source w;
     random_pos := random_pos w; elapsed := elapsed w;
     devicePixelRatio := devicePixelRatio w; log := l |}.

(** [container.appendChild(canvas)] on the element record. *)
Definition add_canvas (c : SceneClass) (e : Element) : Element :=
  {| offsetWidth := offsetWidth e; offsetHeight := offsetHeight e;
     canvases := canvases e ++ [c] |}.

(** ** Host operations used by the scripts *)

Module Host.

(** [document.documentElement.getAttribute(name)]; only [data-theme] is
    ever read.  [None] is JavaScript's [null]. *)
Definition getAttribute : M (option string) := gets data_theme.

Definition setAttribute (v : string) : M unit := modify (set_data_theme (Some v)).

(** [document.getElementById(id)]: the element, or [null]. *)
Definition getElementById (id : string) : M (option Element) :=
  gets (λ w, document_elements w !! id).

(** [container.appendChild(renderer.domElement)]. *)
Definition appendCanvas (id : string) (c : SceneClass) : M unit :=
  modify (λ w, set_elements (alter (add_canvas c) id (document_elements w)) w).

Definition addResizeListener (c : SceneClass) : M unit :=
  modify (λ w, set_resize_listeners (resize_listeners w ++ [c]) w).

Definition addMousemoveListener (c : SceneClass) : M unit :=
  modify (λ w, set_mousemove_listeners (mousemove_listeners w ++ [c]) w).

Definition addClickListener (id : string) : M unit :=
  modify (λ w, set_click_listeners
    (<[id := S (default O (click_listeners w !! id))]> (click_listeners w)) w).

(** [new MutationObserver(cb).observe(document.documentElement, ...)]. *)
Definition observe (c : SceneClass) : M unit :=
  modify (λ w, set_observers (observers w ++ [c]) w).

Definition emit (e : Event) : M unit := modify (λ w, set_log (log w ++ [e]) w).

Definition requestAnimationFrame (c : SceneClass) : M unit :=
  modify (λ w, set_frame_requests (frame_requests w ++ [c]) w);;
  emit (EvRequestFrame c).

(** [this.clock.getElapsedTime()]. *)
Definition getElapsedTime (c : SceneClass) : M R :=
  t ← gets elapsed; emit (EvReadClock c t);; mret t.

(** [this.renderer.render(this.scene, this.camera)]. *)
Definition render (c : SceneClass) : M unit := emit (EvRender c).

(** [Math.random()]: the next value of the source. *)
Definition random : M R :=
  λ w, (Ok (random_source w (random_pos w)), set_random_pos (S (random_pos w)) w).

Definition localStorage_getItem (k : string) : M (option string) :=
  gets (λ w, localStorage w !! k).

Definition localStorage_setItem (k v : string) : M unit :=
  modify (λ w, set_localStorage (<[k := v]> (localStorage w)) w).

End Host.

(* ================================================================== *)
(** * Typed arrays                                                      *)
(* ================================================================== *)

Module Float32Array.
Local Open Scope R_scope.

(** The binade of [x]: [2 ^ (mag x - 1) <= |x| < 2 ^ mag x] for [x <> 0]. *)
Definition mag (x : R) : Z := (Zfloor (ln (Rabs x) / ln 2) + 1)%Z.

(** The integer nearest to [x], the even one of the two when [x] is half
    way between them. *)
Definition nearest_even (x : R) : Z :=
  let f := Zfloor x in
  if Rlt_dec (x - IZR f) (1 / 2) then f
  else if Rlt_dec (1 / 2) (x - IZR f) then (f + 1)%Z
  else if Z.even f then f else (f + 1)%Z.

(** The exponent of the unit in the last place of the binary32 numbers
    next to [x]: 24 significant bits, and the subnormal grid of step
    [2 ^ -149] below [2 ^ -126]. *)
Definition ulp_exponent (x : R) : Z := Z.max (mag x - 24) (-149).

(** [Math.fround(x)], the binary32 number nearest to [x] (ties to even),
    which is what a store into a [Float32Array] keeps.  Magnitudes of
    [2 ^ 128] and more, which a store turns into an infinity, are outside
    the numbers modelled. *)
Definition fround (x : R) : R :=
  IZR (nearest_even (x * powerRZ 2 (- ulp_exponent x))) * powerRZ 2 (ulp_exponent x).

(** [arr[i] = x]; a store past the end of a typed array does nothing. *)
Definition store (i : nat) (x : R) (arr : list R) : list R := <[i := fround x]> arr.

End Float32Array.

(* ================================================================== *)
(** * The parts of Three.js the scenes use                              *)
(* ================================================================== *)

Module THREE.
Local Open Scope R_scope.

Record Vector3 := { vx : R; vy : R; vz : R }.

Definition vec3 (x y z : R) : Vector3 := {| vx := x; vy := y; vz := z |}.

(** [a.distanceTo(b)]. *)
Definition distanceTo (a b : Vector3) : R :=
  sqrt ((vx a - vx b) * (vx a - vx b) + (vy a - vy b) * (vy a - vy b)
        + (vz a - vz b) * (vz a - vz b)).

(** [new THREE.Color(hex)], the channels in [0, 1]; white when no value is
    given. *)
Record Color := { red : R; green : R; blue : R }.

Definition Color_of_hex (hex : option Z) : Color :=
  match hex with
  | Some h => {| red := IZR ((h / 65536) mod 256) / 255;
                 green := IZR ((h / 256) mod 256) / 255;
                 blue := IZR (h mod 256) / 255 |}
  | None => {| red := 1; green := 1; blue := 1 |}
  end.

(** [c.clone().lerp(d, alpha)]. *)
Definition lerp (c d : Color) (alpha : R) : Color :=
  {| red := red c + (red d - red c) * alpha;
     green := green c + (green d - green c) * alpha;
     blue := blue c + (blue d - blue c) * alpha |}.

(** [MeshBasicMaterial] and [LineBasicMaterial].  [color] is what was last
    given to the constructor or to [color.setHex]. *)
Record Material := {
  color : option Z;
  opacity : option R;
  transparent : bool;
  wireframe : bool
}.

Definition default_material : Material :=
  {| color := Some 0xffffff%Z; opacity := Some 1; transparent := false; wireframe := false |}.

(** [m.color.setHex(hex)]. *)
Definition setHex (hex : option Z) (m : Material) : Material :=
  {| color := hex; opacity := opacity m; transparent := transparent m; wireframe := wireframe m |}.

(** [m.opacity = o]. *)
Definition setOpacity (o : option R) (m : Material) : Material :=
  {| color := color m; opacity := o; transparent := transparent m; wireframe := wireframe m |}.

Definition setTransparent (t : bool) (m : Material) : Material :=
  {| color := color m; opacity := opacity m; transparent := t; wireframe := wireframe m |}.

Inductive Blending := NormalBlending | AdditiveBlending.

Record PointsMaterial := {
  point_size : R;
  vertexColors : bool;
  points_transparent : bool;
  points_opacity : option R;
  blending : Blending;
  depthWrite : bool
}.

Definition setPointsOpacity (o : option R) (m : PointsMaterial) : PointsMaterial :=
  {| point_size := point_size m; vertexColors := vertexColors m;
     points_transparent := points_transparent m; points_opacity := o;
     blending := blending m; depthWrite := depthWrite m |}.

Inductive Geometry :=
| IcosahedronGeometry (radius : R) (detail : nat)
| SphereGeometry (radius : R) (widthSegments heightSegments : nat)
| TorusGeometry (radius tube : R) (radialSegments tubularSegments : nat)
| PointsGeometry (points : list Vector3)    (* BufferGeometry().setFromPoints(points) *)
| GridGeometry (size divisions : nat) (color1 color2 : option Z).

(** [Mesh], [Line] and [GridHelper]: a geometry, a material and a
    transform. *)
Record Mesh := {
  geometry : Geometry;
  material : Material;
  position : Vector3;
  rotation : Vector3;
  scale : Vector3
}.

Definition new_Mesh (g : Geometry) (m : Material) : Mesh :=
  {| geometry := g; material := m; position := vec3 0 0 0; rotation := vec3 0 0 0;
     scale := vec3 1 1 1 |}.

Definition setMaterial (m : Material) (o : Mesh) : Mesh :=
  {| geometry := geometry o; material := m; position := position o;
     rotation := rotation o; scale := scale o |}.

Definition setPosition (p : Vector3) (o : Mesh) : Mesh :=
  {| geometry := geometry o; material := material o; position := p;
     rotation := rotation o; scale := scale o |}.

Definition setRotation (r : Vector3) (o : Mesh) : Mesh :=
  {| geometry := geometry o; material := material o; position := position o;
     rotation := r; scale := scale o |}.

Definition setScale (k : Vector3) (o : Mesh) : Mesh :=
  {| geometry := geometry o; material := material o; position := position o;
     rotation := rotation o; scale := k |}.

(** [o.material.color.setHex(hex); o.material.opacity = op]. *)
Definition recolor (hex : option Z) (op : option R) (o : Mesh) : Mesh :=
  setMaterial (setOpacity op (setHex hex (material o))) o.

(** The buffer attributes of a particle cloud. *)
Record BufferGeometry := {
  position_array : list R;   (* Float32Array, three entries per point *)
  color_array : list R;
  size_array : option (list R);
  needsUpdate : bool
}.

Record Points := {
  points_geometry : BufferGeometry;
  points_material : PointsMaterial;
  points_rotation : Vector3
}.

Record PerspectiveCamera := {
  fov : R;
  aspect : PrimFloat.float;
  near : R;
  far : R;
  camera_position : Vector3;
  lookAt : option Vector3
}.

Definition new_PerspectiveCamera (fov : R) (aspect : PrimFloat.float) (near far : R) : PerspectiveCamera :=
  {| fov := fov; aspect := aspect; near := near; far := far;
     camera_position := vec3 0 0 0; lookAt := None |}.

Definition setAspect (a : PrimFloat.float) (c : PerspectiveCamera) : PerspectiveCamera :=
  {| fov := fov c; aspect := a; near := near c; far := far c;
     camera_position := camera_position c; lookAt := lookAt c |}.

Definition setCameraPosition (p : Vector3) (c : PerspectiveCamera) : PerspectiveCamera :=
  {| fov := fov c; aspect := aspect c; near := near c; far := far c;
     camera_position := p; lookAt := lookAt c |}.

Definition setLookAt (p : Vector3) (c : PerspectiveCamera) : PerspectiveCamera :=
  {| fov := fov c; aspect := aspect c; near := near c; far := far c;
     camera_position := camera_position c; lookAt := Some p |}.

Record WebGLRenderer := {
  renderer_size : Z * Z;
  pixelRatio : R;
  clearColor : Z;
  clearAlpha : R
}.

(** [new THREE.WebGLRenderer({ antialias: true, alpha: true })]: a canvas
    of the default size. *)
Definition new_WebGLRenderer : WebGLRenderer :=
  {| renderer_size := (300, 150)%Z; pixelRatio := 1; clearColor := 0%Z; clearAlpha := 0 |}.

Definition setSize (w h : Z) (r : WebGLRenderer) : WebGLRenderer :=
  {| renderer_size := (w, h); pixelRatio := pixelRatio r; clearColor := clearColor r;
     clearAlpha := clearAlpha r |}.

Definition setPixelRatio (p : R) (r : WebGLRenderer) : WebGLRenderer :=
  {| renderer_size := renderer_size r; pixelRatio := p; clearColor := clearColor r;
     clearAlpha := clearAlpha r |}.

Definition setClearColor (c : Z) (a : R) (r : WebGLRenderer) : WebGLRenderer :=
  {| renderer_size := renderer_size r; pixelRatio := pixelRatio r; clearColor := c;
     clearAlpha := a |}.

End THREE.
Import THREE.

(** The JavaScript quotient [w / h] of two layout lengths, which are
    non-negative integers: IEEE binary64 division, so [w / 0] is [Infinity]
    for [w > 0] and [0 / 0] is [NaN]. *)
Definition js_div (w h : Z) : PrimFloat.float :=
  PrimFloat.div (PrimFloat.of_uint63 (Uint63.of_Z w)) (PrimFloat.of_uint63 (Uint63.of_Z h)).

(** [v || fallback] on a string that may be [null]: [null] and the empty
    string are falsy. *)
Definition or_default (v : option string) (fallback : string) : string :=
  match v with
  | Some t => if String.eqb t "" then fallback else t
  | None => fallback
  end.

(** The result of a constructor that returns early when its container is
    missing. *)
Inductive Constructed (Scene : Type) :=
| NoContainer                (* [this.container] is null, nothing else is set *)
| Built (s : Scene).
Arguments NoContainer {Scene}.
Arguments Built {Scene} s.

(** The layout box of the element a scene is bound to; an element that is
    no longer in the document has an empty box. *)
Definition element_box (id : string) : M (Z * Z) :=
  e ← Host.getElementById id;
  mret (match e with
        | Some el => (offsetWidth el, offsetHeight el)
        | None => (0, 0)%Z
        end).

(* ================================================================== *)
(** * Theme colour management                                           *)
(* ================================================================== *)

(** A palette object; a property the object does not have reads as
    [undefined]. *)
Record Palette := {
  primary : option Z;
  secondary : option Z;
  highlight : option Z;
  depth1 : option Z;
  depth2 : option Z;
  depth3 : option Z;
  depth4 : option Z;
  depth5 : option Z;
  background : option Z;
  particleOpacity : option R;
  lineOpacity : option R;
  glowOpacity : option R;
  wireframeOpacity : option R;
  solidOpacity : option R;
  emissiveIntensity : option R
}.

Definition dark : Palette :=
  {| primary := Some 0x0EA5E9%Z;
     secondary := Some 0x06B6D4%Z;
     highlight := Some 0x14B8A6%Z;
     depth1 := None; depth2 := None; depth3 := None; depth4 := None; depth5 := None;
     background := Some 0x1a1a25%Z;
     particleOpacity := Some 0.8%R;
     lineOpacity := Some 0.3%R;
     glowOpacity := Some 0.9%R;
     wireframeOpacity := None; solidOpacity := None; emissiveIntensity := None |}.

Definition light : Palette :=
  {| primary := Some 0x1e40af%Z;
     secondary := Some 0x3b82f6%Z;
     highlight := Some 0x60a5fa%Z;
     depth1 := Some 0x1e3a8a%Z;
     depth2 := Some 0x2563eb%Z;
     depth3 := Some 0x3b82f6%Z;
     depth4 := Some 0x60a5fa%Z;
     depth5 := Some 0x93c5fd%Z;
     background := Some 0xfafbfd%Z;
     particleOpacity := Some 0.75%R;
     lineOpacity := Some 0.35%R;
     glowOpacity := Some 0.5%R;
     wireframeOpacity := Some 0.6%R;
     solidOpacity := Some 0.85%R;
     emissiveIntensity := Some 0.15%R |}.

Definition ThemeColors : gmap string Palette :=
  <["dark" := dark]> (<["light" := light]> ∅).

(** [ThemeColors] is an object literal, so a key it does not own is looked
    up on [Object.prototype]. *)
Definition object_prototype_keys : list string :=
  ["constructor"; "__proto__"; "hasOwnProperty"; "isPrototypeOf";
   "propertyIsEnumerable"; "toLocaleString"; "toString"; "valueOf";
   "__defineGetter__"; "__defineSetter__"; "__lookupGetter__"; "__lookupSetter__"].

(** What [ThemeColors[key]] evaluates to. *)
Inductive PaletteRef :=
| PaletteObject (p : Palette)
| Undefined
| PrototypeMember (key : string).

Definition getCurrentTheme : M string :=
  attr ← Host.getAttribute;
  mret (or_default attr "dark").

Definition getThemeColors : M PaletteRef :=
  theme ← getCurrentTheme;
  mret (match ThemeColors !! theme with
        | Some p => PaletteObject p
        | None => if bool_decide (theme ∈ object_prototype_keys)
                  then PrototypeMember theme
                  else Undefined
        end).

(** [colors.name]: the property when [colors] is a palette, [undefined] on
    a member of [Object.prototype] (none of them has a palette property), a
    [TypeError] when [colors] is [undefined]. *)
Definition prop {A : Type} (name : string) (field : Palette → option A)
    (colors : PaletteRef) : M (option A) :=
  match colors with
  | PaletteObject p => mret (field p)
  | PrototypeMember _ => mret None
  | Undefined => throw (TypeError name)
  end.

(** [x * k] where [x] may be [undefined] (the product is then [NaN], which
    is kept as [None]). *)
Definition times (x : option R) (k : R) : option R := (λ v, (v * k)%R) <$> x.

(** [Math.random() > 0.5 ? colors.primary : colors.secondary]. *)
Definition random_primary_or_secondary (colors : PaletteRef) : M (option Z) :=
  u ← Host.random;
  if Rgt_dec u 0.5 then prop "primary" primary colors else prop "secondary" secondary colors.

(* ================================================================== *)
(** * main.js: the theme toggle                                         *)
(* ================================================================== *)

Module Main.

(** The click handler [initTheme] installs on the toggle button. *)
Definition themeToggle_click : M unit :=
  currentTheme ← Host.getAttribute;
  let newTheme := if bool_decide (currentTheme = Some "dark") then "light" else "dark" in
  Host.setAttribute newTheme;;
  Host.localStorage_setItem "theme" newTheme.

Definition initTheme : M unit :=
  themeToggle ← Host.getElementById "theme-toggle";
  saved ← Host.localStorage_getItem "theme";
  let savedTheme := or_default saved "dark" in
  Host.setAttribute savedTheme;;
  match themeToggle with
  | Some _ => Host.addClickListener "theme-toggle"
  | None => mret tt
  end.

End Main.

(* ================================================================== *)
(** * Hero section: the quantum particle system                         *)
(* ================================================================== *)

Module QuantumHeroScene.
Local Open Scope R_scope.

Record Particle := {
  index : nat;
  radius : R;
  theta : R;
  phi : R;
  speed : R;
  phaseOffset : R
}.

Record Orbital := { orbital_mesh : Mesh; rotationSpeed : Vector3 }.

Record EntanglementLine := { line_mesh : Mesh; phase : R }.

(** The fields of [this] once [init] has run. *)
Record Scene := {
  container : string;                 (* the id [this.container] was found by *)
  camera : PerspectiveCamera;
  renderer : WebGLRenderer;
  particles : list Particle;
  quantumOrbitals : list Orbital;
  mouse : R * R;
  core : Mesh;
  innerCore : Mesh;
  glowSphere : Mesh;
  particleSystem : Points;
  entanglementLines : list EntanglementLine
}.

Definition setupThemeObserver : M unit := Host.observe QuantumHero.

Definition createQuantumCore : M (Mesh * Mesh * Mesh) :=
  colors ← getThemeColors;
  c_core ← prop "primary" primary colors;
  let coreMaterial :=
    {| color := c_core; wireframe := true; transparent := true; opacity := Some 0.8 |} in
  c_inner ← prop "secondary" secondary colors;
  let innerMaterial :=
    {| color := c_inner; wireframe := true; transparent := true; opacity := Some 0.6 |} in
  c_glow ← prop "primary" primary colors;
  o_glow ← prop "glowOpacity" glowOpacity colors;
  let glowMaterial :=
    {| color := c_glow; wireframe := false; transparent := true; opacity := o_glow |} in
  mret (new_Mesh (IcosahedronGeometry 2 2) coreMaterial,
        new_Mesh (IcosahedronGeometry 1 1) innerMaterial,
        new_Mesh (SphereGeometry 0.5 32 32) glowMaterial).

Definition particleCount : nat := 500.

(** The typed arrays and [this.particles] while [createParticles] fills
    them. *)
Record Buffers := {
  positions : list R;
  particleColors : list R;
  sizes : list R;
  stored : list Particle
}.

(** [arr[i * 3] = a; arr[i * 3 + 1] = b; arr[i * 3 + 2] = c]. *)
Definition write3 (i : nat) (a b c : R) (arr : list R) : list R :=
  Float32Array.store (i * 3 + 2) c (Float32Array.store (i * 3 + 1) b (Float32Array.store (i * 3) a arr)).

(** One iteration of the light-theme loop. *)
Definition createParticle_light (colorDark colorLight : Color) (i : nat) (b : Buffers)
    : M Buffers :=
  u_radius ← Host.random;
  let radius := 8 + u_radius * 20 in
  u_theta ← Host.random;
  let theta := u_theta * PI * 2 in
  u_phi ← Host.random;
  let phi := acos (2 * u_phi - 1) in
  let depthRatio := (radius - 8) / 20 in
  let color := lerp colorDark colorLight depthRatio in
  u_size ← Host.random;
  u_speed ← Host.random;
  u_phase ← Host.random;
  mret {| positions := write3 i (radius * sin phi * cos theta)
                                (radius * sin phi * sin theta)
                                (radius * cos phi) (positions b);
          particleColors := write3 i (red color) (green color) (blue color)
                                     (particleColors b);
          sizes := Float32Array.store i (u_size * 2 + 0.5) (sizes b);
          stored := stored b ++ [ {| index := i; radius := radius; theta := theta;
                                     phi := phi; speed := 0.001 + u_speed * 0.002;
                                     phaseOffset := u_phase * PI * 2 |} ] |}.

(** One iteration of the dark-theme loop. *)
Definition createParticle_dark (colorPrimary colorSecondary : Color) (i : nat) (b : Buffers)
    : M Buffers :=
  u_radius ← Host.random;
  let radius := 8 + u_radius * 20 in
  u_theta ← Host.random;
  let theta := u_theta * PI * 2 in
  u_phi ← Host.random;
  let phi := acos (2 * u_phi - 1) in
  mixRatio ← Host.random;
  let color := lerp colorPrimary colorSecondary mixRatio in
  u_size ← Host.random;
  u_speed ← Host.random;
  u_phase ← Host.random;
  mret {| positions := write3 i (radius * sin phi * cos theta)
                                (radius * sin phi * sin theta)
                                (radius * cos phi) (positions b);
          particleColors := write3 i (red color) (green color) (blue color)
                                     (particleColors b);
          sizes := Float32Array.store i (u_size * 2 + 0.5) (sizes b);
          stored := stored b ++ [ {| index := i; radius := radius; theta := theta;
                                     phi := phi; speed := 0.001 + u_speed * 0.002;
                                     phaseOffset := u_phase * PI * 2 |} ] |}.

Definition empty_buffers : Buffers :=
  {| positions := replicate (particleCount * 3) 0;
     particleColors := replicate (particleCount * 3) 0;
     sizes := replicate particleCount 0;
     stored := [] |}.

Definition createParticles : M (list Particle * Points) :=
  colors ← getThemeColors;
  theme ← getCurrentTheme;
  b ← (if String.eqb theme "light" then
         d2 ← prop "depth2" depth2 colors;
         d5 ← prop "depth5" depth5 colors;
         for_loop particleCount 0
           (createParticle_light (Color_of_hex d2) (Color_of_hex d5)) empty_buffers
       else
         c1 ← prop "primary" primary colors;
         c2 ← prop "secondary" secondary colors;
         for_loop particleCount 0
           (createParticle_dark (Color_of_hex c1) (Color_of_hex c2)) empty_buffers);
  po ← prop "particleOpacity" particleOpacity colors;
  mret (stored b,
        {| points_geometry := {| position_array := positions b;
                                 color_array := particleColors b;
                                 size_array := Some (sizes b);
                                 needsUpdate := false |};
           points_material := {| point_size := 0.15; vertexColors := true;
                                 points_transparent := true; points_opacity := po;
                                 blending := AdditiveBlending; depthWrite := false |};
           points_rotation := vec3 0 0 0 |}).

Definition ringCount : nat := 3.

(** The ring the loop of [createOrbitalRings] builds at index [i]. *)
Definition createOrbitalRing (ringColors : list (option Z)) (i : nat) : Orbital :=
  let radius := 5 + INR i * 3 in
  let material :=
    {| color := mjoin (ringColors !! i); transparent := true; opacity := Some 0.4;
       wireframe := false |} in
  let ring := new_Mesh (TorusGeometry radius 0.02 16 100) material in
  {| orbital_mesh := setRotation (vec3 (PI / 2 + INR i * 0.3) (INR i * 0.5) 0) ring;
     rotationSpeed := vec3 (0.001 * (INR i + 1)) (0.002 * (INR ringCount - INR i))
                           (0.0015 * (INR i + 1)) |}.

Definition createOrbitalRings : M (list Orbital) :=
  colors ← getThemeColors;
  c1 ← prop "primary" primary colors;
  c2 ← prop "secondary" secondary colors;
  c3 ← prop "highlight" highlight colors;
  mret (createOrbitalRing [c1; c2; c3] <$> seq 0 ringCount).

Definition lineCount : nat := 20.

(** The inner loop of [createEntanglementLines]: the point for [j]. *)
Definition createLinePoint (startAngle radius : R) (j : nat) (points : list Vector3)
    : M (list Vector3) :=
  let t := INR j / 50 in
  let angle := startAngle + t * PI * 2 in
  let r := radius * (1 + 0.3 * sin (t * PI * 4)) in
  u ← Host.random;
  mret (points ++ [vec3 (r * cos angle) ((u - 0.5) * 10 * sin (t * PI)) (r * sin angle)]).

Definition createEntanglementLine (colors : PaletteRef) (i : nat)
    (lines : list EntanglementLine) : M (list EntanglementLine) :=
  u_angle ← Host.random;
  let startAngle := u_angle * PI * 2 in
  u_radius ← Host.random;
  let radius := 4 + u_radius * 8 in
  points ← for_loop 51 0 (createLinePoint startAngle radius) [];
  c ← random_primary_or_secondary colors;
  let material := {| color := c; transparent := true; opacity := Some 0.2;
                     wireframe := false |} in
  u_phase ← Host.random;
  mret (lines ++ [ {| line_mesh := new_Mesh (PointsGeometry points) material;
                      phase := u_phase * PI * 2 |} ]).

Definition createEntanglementLines : M (list EntanglementLine) :=
  colors ← getThemeColors;
  for_loop lineCount 0 (createEntanglementLine colors) [].

(** The [else] branch of [updateColors] on one entanglement line. *)
Definition recolorLine_dark (colors : PaletteRef) (line : EntanglementLine) (i : nat)
    : M EntanglementLine :=
  c ← random_primary_or_secondary colors;
  mret {| line_mesh := recolor c (Some 0.2) (line_mesh line); phase := phase line |}.

Definition setOrbitalMesh (m : Mesh) (o : Orbital) : Orbital :=
  {| orbital_mesh := m; rotationSpeed := rotationSpeed o |}.

Definition setPointsMaterialOpacity (o : option R) (p : Points) : Points :=
  {| points_geometry := points_geometry p;
     points_material := setPointsOpacity o (points_material p);
     points_rotation := points_rotation p |}.

(** [updateColors].  Every mesh the guards [if (this.core)] ... test exists
    once [init] has run.  In each branch the first palette property is
    read before the first material is written, so when that read throws
    no field of [this] has changed. *)
Definition updateColors (s : Scene) : M Scene :=
  colors ← getThemeColors;
  theme ← getCurrentTheme;
  if String.eqb theme "light" then
    d1 ← prop "depth1" depth1 colors;
    wo ← prop "wireframeOpacity" wireframeOpacity colors;
    d2 ← prop "depth2" depth2 colors;
    d3 ← prop "depth3" depth3 colors;
    go ← prop "glowOpacity" glowOpacity colors;
    po ← prop "particleOpacity" particleOpacity colors;
    d4 ← prop "depth4" depth4 colors;
    lo ← prop "lineOpacity" lineOpacity colors;
    let depthColors := [d2; d3; d4] in
    mret {| container := container s; camera := camera s; renderer := renderer s;
            particles := particles s;
            quantumOrbitals :=
              imap (λ i orbital,
                      setOrbitalMesh
                        (recolor (mjoin (depthColors !! (i mod 3)%nat))
                                 (Some (0.5 - INR i * 0.1)) (orbital_mesh orbital))
                        orbital)
                   (quantumOrbitals s);
            mouse := mouse s;
            core := recolor d1 wo (core s);
            innerCore := recolor d2 (times wo 0.8) (innerCore s);
            glowSphere := recolor d3 go (glowSphere s);
            particleSystem := setPointsMaterialOpacity po (particleSystem s);
            entanglementLines :=
              (λ line, {| line_mesh := recolor d4 lo (line_mesh line);
                          phase := phase line |}) <$> entanglementLines s |}
  else
    c1 ← prop "primary" primary colors;
    c2 ← prop "secondary" secondary colors;
    go ← prop "glowOpacity" glowOpacity colors;
    po ← prop "particleOpacity" particleOpacity colors;
    c3 ← prop "highlight" highlight colors;
    let ringColors := [c1; c2; c3] in
    lines ← forEach_update (entanglementLines s) 0 (recolorLine_dark colors);
    mret {| container := container s; camera := camera s; renderer := renderer s;
            particles := particles s;
            quantumOrbitals :=
              imap (λ i orbital,
                      setOrbitalMesh
                        (recolor (mjoin (ringColors !! (i mod 3)%nat)) (Some 0.4)
                                 (orbital_mesh orbital))
                        orbital)
                   (quantumOrbitals s);
            mouse := mouse s;
            core := recolor c1 (Some 0.8) (core s);
            innerCore := recolor c2 (Some 0.6) (innerCore s);
            glowSphere := recolor c1 go (glowSphere s);
            particleSystem := setPointsMaterialOpacity po (particleSystem s);
            entanglementLines := lines |}.

(** [onMouseMove(event)], given the pointer and the window size. *)
Definition onMouseMove (clientX clientY innerWidth innerHeight : R) (s : Scene) : Scene :=
  {| container := container s; camera := camera s; renderer := renderer s;
     particles := particles s; quantumOrbitals := quantumOrbitals s;
     mouse := ((clientX / innerWidth) * 2 - 1, - (clientY / innerHeight) * 2 + 1);
     core := core s; innerCore := innerCore s; glowSphere := glowSphere s;
     particleSystem := particleSystem s; entanglementLines := entanglementLines s |}.

Definition onResize (this : Constructed Scene) : M (Constructed Scene) :=
  match this with
  | NoContainer => mret NoContainer
  | Built s =>
      '(w, h) ← element_box (container s);
      mret (Built
        {| container := container s;
           camera := setAspect (js_div w h) (camera s);
           renderer := setSize w h (renderer s);
           particles := particles s; quantumOrbitals := quantumOrbitals s;
           mouse := mouse s; core := core s; innerCore := innerCore s;
           glowSphere := glowSphere s; particleSystem := particleSystem s;
           entanglementLines := entanglementLines s |})
  end.

(** [particle.theta += particle.speed]. *)
Definition advanceParticle (p : Particle) : Particle :=
  {| index := index p; radius := radius p; theta := theta p + speed p; phi := phi p;
     speed := speed p; phaseOffset := phaseOffset p |}.

(** The radius [animate] gives a particle at elapsed time [time]. *)
Definition instantRadius (time : R) (p : Particle) : R :=
  radius p + sin (time + phaseOffset p) * 2.

(** [this.particles.forEach(particle => ...)] of [animate]: each particle
    advances its angle and its three coordinates are rewritten. *)
Fixpoint animateParticles (time : R) (ps : list Particle) (positions : list R)
    : list Particle * list R :=
  match ps with
  | [] => ([], positions)
  | p :: rest =>
      let p' := advanceParticle p in
      let r := instantRadius time p' in
      let positions' :=
        write3 (index p') (r * sin (phi p') * cos (theta p'))
                          (r * sin (phi p') * sin (theta p'))
                          (r * cos (phi p')) positions in
      let '(rest', positions'') := animateParticles time rest positions' in
      (p' :: rest', positions'')
  end.

Definition animateOrbital (orbital : Orbital) : Orbital :=
  let m := orbital_mesh orbital in
  setOrbitalMesh
    (setRotation (vec3 (vx (rotation m) + vx (rotationSpeed orbital))
                       (vy (rotation m) + vy (rotationSpeed orbital))
                       (vz (rotation m) + vz (rotationSpeed orbital))) m)
    orbital.

Definition animateLine (time : R) (line : EntanglementLine) : EntanglementLine :=
  let m := line_mesh line in
  {| line_mesh :=
       setMaterial (setOpacity (Some (0.1 + 0.1 * sin (time * 2 + phase line))) (material m))
         (setRotation (vec3 (vx (rotation m)) (time * 0.1 + phase line) (vz (rotation m))) m);
     phase := phase line |}.

(** The per-frame update: the body of [animate] between reading the clock
    and rendering. *)
Definition tick (time : R) (s : Scene) : Scene :=
  let core' := setRotation (vec3 (time * 0.2) (time * 0.3) (vz (rotation (core s)))) (core s) in
  let innerCore' :=
    setRotation (vec3 (- time * 0.3) (- time * 0.2) (vz (rotation (innerCore s))))
                (innerCore s) in
  let glowScale := 1 + 0.2 * sin (time * 2) in
  let glowSphere' := setScale (vec3 glowScale glowScale glowScale) (glowSphere s) in
  let ps := particleSystem s in
  let moved := animateParticles time (particles s) (position_array (points_geometry ps)) in
  let particleSystem' :=
    {| points_geometry := {| position_array := snd moved;
                             color_array := color_array (points_geometry ps);
                             size_array := size_array (points_geometry ps);
                             needsUpdate := true |};
       points_material := points_material ps;
       points_rotation := vec3 (vx (points_rotation ps)) (time * 0.05)
                               (vz (points_rotation ps)) |} in
  let cam := camera_position (camera s) in
  let cam_x := vx cam + (fst (mouse s) * 5 - vx cam) * 0.02 in
  let cam_y := vy cam + (snd (mouse s) * 3 - vy cam) * 0.02 in
  {| container := container s;
     camera := setLookAt (vec3 0 0 0) (setCameraPosition (vec3 cam_x cam_y (vz cam)) (camera s));
     renderer := renderer s;
     particles := fst moved;
     quantumOrbitals := animateOrbital <$> quantumOrbitals s;
     mouse := mouse s;
     core := core'; innerCore := innerCore'; glowSphere := glowSphere';
     particleSystem := particleSystem';
     entanglementLines := animateLine time <$> entanglementLines s |}.

Definition animate (s : Scene) : M Scene :=
  Host.requestAnimationFrame QuantumHero;;
  time ← Host.getElapsedTime QuantumHero;
  let s' := tick time s in
  Host.render QuantumHero;;
  mret s'.

Definition init (containerId : string) (camera0 : PerspectiveCamera)
    (renderer0 : WebGLRenderer) : M Scene :=
  '(w, h) ← element_box containerId;
  dpr ← gets devicePixelRatio;
  let renderer1 := setClearColor 0 0 (setPixelRatio (Rmin dpr 2) (setSize w h renderer0)) in
  Host.appendCanvas containerId QuantumHero;;
  let camera1 :=
    setCameraPosition (vec3 (vx (camera_position camera0)) (vy (camera_position camera0)) 30)
                      camera0 in
  '(core1, innerCore1, glowSphere1) ← createQuantumCore;
  '(particles1, particleSystem1) ← createParticles;
  orbitals ← createOrbitalRings;
  lines ← createEntanglementLines;
  Host.addResizeListener QuantumHero;;
  Host.addMousemoveListener QuantumHero;;
  setupThemeObserver;;
  animate {| container := containerId; camera := camera1; renderer := renderer1;
             particles := particles1; quantumOrbitals := orbitals; mouse := (0, 0);
             core := core1; innerCore := innerCore1; glowSphere := glowSphere1;
             particleSystem := particleSystem1; entanglementLines := lines |}.

Definition constructor (containerId : string) : M (Constructed Scene) :=
  found ← Host.getElementById containerId;
  match found with
  | None => mret NoContainer
  | Some el =>
      s ← init containerId
            (new_PerspectiveCamera 75 (js_div (offsetWidth el) (offsetHeight el)) 0.1 1000)
            new_WebGLRenderer;
      mret (Built s)
  end.

End QuantumHeroScene.

(* ================================================================== *)
(** * Technology section: the quantum processor                         *)
(* ================================================================== *)

Module QuantumProcessorScene.
Local Open Scope R_scope.

(** [ring] is also the only child of [mesh] ([qubit.add(ring)]); it is
    kept once. *)
Record Qubit := {
  mesh : Mesh;
  ring : Mesh;
  baseY : R;
  phase : R;
  frequency : R
}.

(** The fields of [this] once [init] has run.  The connection lines are
    referenced by the scene graph only. *)
Record Scene := {
  container : string;
  camera : PerspectiveCamera;
  renderer : WebGLRenderer;
  qubits : list Qubit;
  gridHelper : Mesh;
  connectionLines : list Mesh
}.

Definition setupThemeObserver : M unit := Host.observe QuantumProcessor.

Definition createQuantumGrid : M Mesh :=
  colors ← getThemeColors;
  theme ← getCurrentTheme;
  let is_light := String.eqb theme "light" in
  gridColor ← (if is_light then mret (Some 0x0284C7%Z) else prop "primary" primary colors);
  let bgColor := if is_light then Some 0xe5e7eb%Z else Some 0x1a1a25%Z in
  let helper := new_Mesh (GridGeometry 20 20 gridColor bgColor) default_material in
  mret (setMaterial
          (setTransparent true
             (setOpacity (Some (if is_light then 0.2 else 0.3)) (material helper)))
          helper).

Definition spacing : Z := 3.

(** The body of the two nested loops of [createQubits], at grid
    coordinates [x] and [z]. *)
Definition createQubit (colors : PaletteRef) (x z : Z) (qs : list Qubit) : M (list Qubit) :=
  c ← random_primary_or_secondary colors;
  let material := {| color := c; transparent := true; opacity := Some 0.9;
                     wireframe := false |} in
  let qubit :=
    setPosition (vec3 (IZR (x * spacing)) 0 (IZR (z * spacing)))
                (new_Mesh (SphereGeometry 0.3 16 16) material) in
  c_ring ← prop "primary" primary colors;
  let ringMaterial := {| color := c_ring; transparent := true; opacity := Some 0.5;
                         wireframe := false |} in
  let ring0 := new_Mesh (TorusGeometry 0.5 0.02 8 32) ringMaterial in
  let ring1 := setRotation (vec3 (PI / 2) (vy (rotation ring0)) (vz (rotation ring0))) ring0 in
  u_phase ← Host.random;
  u_frequency ← Host.random;
  mret (qs ++ [ {| mesh := qubit; ring := ring1; baseY := 0;
                   phase := u_phase * PI * 2; frequency := 1 + u_frequency |} ]).

(** [for (let x = -2; x <= 2; x++) for (let z = -2; z <= 2; z++) ...]. *)
Definition createQubits : M (list Qubit) :=
  colors ← getThemeColors;
  for_loop 5 0
    (λ i, for_loop 5 0 (λ j, createQubit colors (Z.of_nat i - 2) (Z.of_nat j - 2)))
    [].

(** The lines the two nested [forEach] of [createConnections] add, in the
    order they are added. *)
Definition connect (lineMaterial : Material) (qubits : list Qubit) : list Mesh :=
  mjoin (imap (λ i qubit,
    mjoin (imap (λ j otherQubit,
      if (i <? j)%nat then
        if Rlt_dec (distanceTo (position (mesh qubit)) (position (mesh otherQubit))) 4
        then [new_Mesh (PointsGeometry [position (mesh qubit); position (mesh otherQubit)])
                       lineMaterial]
        else []
      else []) qubits)) qubits).

Definition createConnections (qubits : list Qubit) : M (list Mesh) :=
  colors ← getThemeColors;
  c ← prop "primary" primary colors;
  let lineMaterial := {| color := c; transparent := true; opacity := Some 0.3;
                         wireframe := false |} in
  mret (connect lineMaterial qubits).

Definition setMeshes (m r : Mesh) (q : Qubit) : Qubit :=
  {| mesh := m; ring := r; baseY := baseY q; phase := phase q; frequency := frequency q |}.

(** The [else] branch of [updateColors] on one qubit. *)
Definition recolorQubit_dark (colors : PaletteRef) (qubit : Qubit) (i : nat) : M Qubit :=
  qubitColor ← random_primary_or_secondary colors;
  c ← prop "primary" primary colors;
  mret (setMeshes (recolor qubitColor (Some 0.9) (mesh qubit))
                  (recolor c (Some 0.5) (ring qubit)) qubit).

(** [updateColors].  In each branch the first palette property is read
    before the first material is written. *)
Definition updateColors (s : Scene) : M Scene :=
  colors ← getThemeColors;
  theme ← getCurrentTheme;
  grid ← (if String.eqb theme "light" then
            d4 ← prop "depth4" depth4 colors;
            mret (recolor d4 (Some 0.25) (gridHelper s))
          else
            c ← prop "primary" primary colors;
            mret (recolor c (Some 0.3) (gridHelper s)));
  qs ← (if String.eqb theme "light" then
          d2 ← prop "depth2" depth2 colors;
          d3 ← prop "depth3" depth3 colors;
          d4 ← prop "depth4" depth4 colors;
          so ← prop "solidOpacity" solidOpacity colors;
          mret (imap (λ i qubit,
                        let depthLevel := mjoin ([d2; d3; d4] !! (i mod 3)%nat) in
                        setMeshes (recolor depthLevel so (mesh qubit))
                                  (recolor depthLevel (Some 0.5) (ring qubit)) qubit)
                     (qubits s))
        else
          forEach_update (qubits s) 0 (recolorQubit_dark colors));
  mret {| container := container s; camera := camera s; renderer := renderer s;
          qubits := qs; gridHelper := grid; connectionLines := connectionLines s |}.

Definition onResize (this : Constructed Scene) : M (Constructed Scene) :=
  match this with
  | NoContainer => mret NoContainer
  | Built s =>
      '(w, h) ← element_box (container s);
      mret (Built
        {| container := container s;
           camera := setAspect (js_div w h) (camera s);
           renderer := setSize w h (renderer s);
           qubits := qubits s; gridHelper := gridHelper s;
           connectionLines := connectionLines s |})
  end.

Definition animateQubit (time : R) (qubit : Qubit) : Qubit :=
  let m := mesh qubit in
  let r := ring qubit in
  let k := 1 + 0.1 * sin (time * 3 + phase qubit) in
  setMeshes
    (setScale (vec3 k k k)
       (setPosition (vec3 (vx (position m))
                          (baseY qubit + sin (time * frequency qubit + phase qubit) * 0.5)
                          (vz (position m))) m))
    (setRotation (vec3 (vx (rotation r)) (vy (rotation r)) (time * 2)) r)
    qubit.

(** The per-frame update: the body of [animate] between reading the clock
    and rendering. *)
Definition tick (time : R) (s : Scene) : Scene :=
  let cam := camera_position (camera s) in
  {| container := container s;
     camera := setLookAt (vec3 0 0 0)
                 (setCameraPosition (vec3 (sin (time * 0.2) * 25) (vy cam)
                                          (cos (time * 0.2) * 25)) (camera s));
     renderer := renderer s;
     qubits := animateQubit time <$> qubits s;
     gridHelper := gridHelper s;
     connectionLines := connectionLines s |}.

Definition animate (s : Scene) : M Scene :=
  Host.requestAnimationFrame QuantumProcessor;;
  time ← Host.getElapsedTime QuantumProcessor;
  let s' := tick time s in
  Host.render QuantumProcessor;;
  mret s'.

Definition init (containerId : string) (camera0 : PerspectiveCamera)
    (renderer0 : WebGLRenderer) : M Scene :=
  '(w, h) ← element_box containerId;
  dpr ← gets devicePixelRatio;
  let renderer1 := setClearColor 0 0 (setPixelRatio (Rmin dpr 2) (setSize w h renderer0)) in
  Host.appendCanvas containerId QuantumProcessor;;
  let camera1 := setLookAt (vec3 0 0 0) (setCameraPosition (vec3 0 15 25) camera0) in
  grid ← createQuantumGrid;
  qs ← createQubits;
  lines ← createConnections qs;
  Host.addResizeListener QuantumProcessor;;
  setupThemeObserver;;
  animate {| container := containerId; camera := camera1; renderer := renderer1;
             qubits := qs; gridHelper := grid; connectionLines := lines |}.

Definition constructor (containerId : string) : M (Constructed Scene) :=
  found ← Host.getElementById containerId;
  match found with
  | None => mret NoContainer
  | Some el =>
      s ← init containerId
            (new_PerspectiveCamera 60 (js_div (offsetWidth el) (offsetHeight el)) 0.1 1000)
            new_WebGLRenderer;
      mret (Built s)
  end.

End QuantumProcessorScene.

(* ================================================================== *)
(** * About section: the neural network                                 *)
(* ================================================================== *)

Module NeuralNetworkScene.
Local Open Scope R_scope.

Record Node := {
  mesh : Mesh;
  layer : nat;
  index : nat;
  phase : R
}.

(** [from] and [to] refer to nodes; a node is named by its layer and its
    index in the layer. *)
Record Connection := {
  line : Mesh;
  from : nat * nat;
  to : nat * nat;
  connection_phase : R
}.

Record Scene := {
  container : string;
  camera : PerspectiveCamera;
  renderer : WebGLRenderer;
  nodes : list Node;
  connections : list Connection;
  scene_rotation : Vector3
}.

Definition setupThemeObserver : M unit := Host.observe NeuralNetwork.

Definition layers : list nat := [4; 6; 8; 6; 4]%nat.
Definition layerSpacing : R := 8.
Definition nodeSpacing : R := 4.

Definition is_outer_layer (l : nat) : bool := (l =? 0)%nat || (l =? 4)%nat.

(** The body of the [for] loop over the nodes of one layer. *)
Definition createNode (colors : PaletteRef) (nodeCount layerIndex : nat) (layerX : R)
    (i : nat) (ns : list Node) : M (list Node) :=
  let nodeY := (INR i - (INR nodeCount - 1) / 2) * nodeSpacing in
  c ← (if (layerIndex =? 0)%nat || (layerIndex =? length layers - 1)%nat
       then prop "primary" primary colors else prop "secondary" secondary colors);
  let material := {| color := c; transparent := true; opacity := Some 0.8;
                     wireframe := false |} in
  let node := setPosition (vec3 layerX nodeY 0) (new_Mesh (SphereGeometry 0.4 16 16) material) in
  u ← Host.random;
  mret (ns ++ [ {| mesh := node; layer := layerIndex; index := i; phase := u * PI * 2 |} ]).

Definition createLayer (colors : PaletteRef) (nodeCount layerIndex : nat) (ns : list Node)
    : M (list Node) :=
  let layerX := (INR layerIndex - (INR (length layers) - 1) / 2) * layerSpacing in
  for_loop nodeCount 0 (createNode colors nodeCount layerIndex layerX) ns.

(** The body of the two nested [forEach] over the nodes of consecutive
    layers. *)
Definition createConnection (colors : PaletteRef) (node nextNode : Node)
    (cs : list Connection) : M (list Connection) :=
  u ← Host.random;
  if Rgt_dec u 0.3 then
    c ← prop "primary" primary colors;
    let material := {| color := c; transparent := true; opacity := Some 0.2;
                       wireframe := false |} in
    let l := new_Mesh (PointsGeometry [position (mesh node); position (mesh nextNode)])
                      material in
    u_phase ← Host.random;
    mret (cs ++ [ {| line := l; from := (layer node, index node);
                     to := (layer nextNode, index nextNode);
                     connection_phase := u_phase * PI * 2 |} ])
  else mret cs.

Definition connectLayers (colors : PaletteRef) (ns : list Node) (l : nat)
    (cs : list Connection) : M (list Connection) :=
  let currentLayerNodes := filter (λ n, layer n = l) ns in
  let nextLayerNodes := filter (λ n, layer n = (l + 1)%nat) ns in
  forEach currentLayerNodes 0
    (λ node _, forEach nextLayerNodes 0 (λ nextNode _, createConnection colors node nextNode))
    cs.

Definition createNeuralNetwork : M (list Node * list Connection) :=
  colors ← getThemeColors;
  ns ← forEach layers 0 (createLayer colors) [];
  cs ← for_loop (length layers - 1) 0 (connectLayers colors ns) [];
  mret (ns, cs).

Definition setNodeMesh (m : Mesh) (n : Node) : Node :=
  {| mesh := m; layer := layer n; index := index n; phase := phase n |}.

Definition setLine (m : Mesh) (c : Connection) : Connection :=
  {| line := m; from := from c; to := to c; connection_phase := connection_phase c |}.

(** [updateColors].  The palette properties are read where the loops read
    them first. *)
Definition updateColors (s : Scene) : M Scene :=
  colors ← getThemeColors;
  theme ← getCurrentTheme;
  if String.eqb theme "light" then
    d2 ← prop "depth2" depth2 colors;
    d4 ← prop "depth4" depth4 colors;
    d3 ← prop "depth3" depth3 colors;
    so ← prop "solidOpacity" solidOpacity colors;
    d5 ← prop "depth5" depth5 colors;
    lo ← prop "lineOpacity" lineOpacity colors;
    mret {| container := container s; camera := camera s; renderer := renderer s;
            nodes :=
              (λ node,
                 let nodeColor :=
                   if is_outer_layer (layer node) then d2
                   else if (layer node =? 2)%nat then d4 else d3 in
                 setNodeMesh (recolor nodeColor so (mesh node)) node) <$> nodes s;
            connections :=
              (λ connection, setLine (recolor d5 (times lo 0.6) (line connection)) connection)
                <$> connections s;
            scene_rotation := scene_rotation s |}
  else
    c1 ← prop "primary" primary colors;
    c2 ← prop "secondary" secondary colors;
    mret {| container := container s; camera := camera s; renderer := renderer s;
            nodes :=
              (λ node,
                 let nodeColor := if is_outer_layer (layer node) then c1 else c2 in
                 setNodeMesh (recolor nodeColor (Some 0.8) (mesh node)) node) <$> nodes s;
            connections :=
              (λ connection, setLine (recolor c1 (Some 0.2) (line connection)) connection)
                <$> connections s;
            scene_rotation := scene_rotation s |}.

Definition onResize (this : Constructed Scene) : M (Constructed Scene) :=
  match this with
  | NoContainer => mret NoContainer
  | Built s =>
      '(w, h) ← element_box (container s);
      mret (Built
        {| container := container s;
           camera := setAspect (js_div w h) (camera s);
           renderer := setSize w h (renderer s);
           nodes := nodes s; connections := connections s;
           scene_rotation := scene_rotation s |})
  end.

Definition animateNode (time : R) (node : Node) : Node :=
  let k := 1 + 0.2 * sin (time * 2 + phase node) in
  setNodeMesh
    (setMaterial (setOpacity (Some (0.6 + 0.4 * sin (time * 3 + phase node)))
                             (material (mesh node)))
       (setScale (vec3 k k k) (mesh node)))
    node.

Definition animateConnection (time : R) (connection : Connection) : Connection :=
  setLine
    (setMaterial
       (setOpacity (Some (0.1 + 0.2 * sin (time * 4 + connection_phase connection)))
                   (material (line connection)))
       (line connection))
    connection.

(** The per-frame update: the body of [animate] between reading the clock
    and rendering. *)
Definition tick (time : R) (s : Scene) : Scene :=
  {| container := container s; camera := camera s; renderer := renderer s;
     nodes := animateNode time <$> nodes s;
     connections := animateConnection time <$> connections s;
     scene_rotation := vec3 (sin (time * 0.2) * 0.1) (sin (time * 0.3) * 0.2)
                            (vz (scene_rotation s)) |}.

Definition animate (s : Scene) : M Scene :=
  Host.requestAnimationFrame NeuralNetwork;;
  time ← Host.getElapsedTime NeuralNetwork;
  let s' := tick time s in
  Host.render NeuralNetwork;;
  mret s'.

Definition init (containerId : string) (camera0 : PerspectiveCamera)
    (renderer0 : WebGLRenderer) : M Scene :=
  '(w, h) ← element_box containerId;
  dpr ← gets devicePixelRatio;
  let renderer1 := setClearColor 0 0 (setPixelRatio (Rmin dpr 2) (setSize w h renderer0)) in
  Host.appendCanvas containerId NeuralNetwork;;
  let camera1 :=
    setCameraPosition (vec3 (vx (camera_position camera0)) (vy (camera_position camera0)) 40)
                      camera0 in
  '(ns, cs) ← createNeuralNetwork;
  Host.addResizeListener NeuralNetwork;;
  setupThemeObserver;;
  animate {| container := containerId; camera := camera1; renderer := renderer1;
             nodes := ns; connections := cs; scene_rotation := vec3 0 0 0 |}.

Definition constructor (containerId : string) : M (Constructed Scene) :=
  found ← Host.getElementById containerId;
  match found with
  | None => mret NoContainer
  | Some el =>
      s ← init containerId
            (new_PerspectiveCamera 60 (js_div (offsetWidth el) (offsetHeight el)) 0.1 1000)
            new_WebGLRenderer;
      mret (Built s)
  end.

End NeuralNetworkScene.

(* ================================================================== *)
(** * CTA section: floating particles                                   *)
(* ================================================================== *)

Module FloatingParticlesScene.
Local Open Scope R_scope.

Record Scene := {
  container : string;
  camera : PerspectiveCamera;
  renderer : WebGLRenderer;
  particles : Points
}.

Definition setupThemeObserver : M unit := Host.observe FloatingParticles.

Definition particleCount : nat := 200.

Definition write3 (i : nat) (a b c : R) (arr : list R) : list R :=
  Float32Array.store (i * 3 + 2) c (Float32Array.store (i * 3 + 1) b (Float32Array.store (i * 3) a arr)).

(** One iteration of either loop of [createParticles]; the two loops
    differ in the colours they interpolate between. *)
Definition createParticle (colorFrom colorTo : Color) (i : nat) (b : list R * list R)
    : M (list R * list R) :=
  u_x ← Host.random;
  u_y ← Host.random;
  u_z ← Host.random;
  u_mix ← Host.random;
  let color := lerp colorFrom colorTo u_mix in
  mret (write3 i ((u_x - 0.5) * 60) ((u_y - 0.5) * 30) ((u_z - 0.5) * 30) (fst b),
        write3 i (red color) (green color) (blue color) (snd b)).

Definition createParticles : M Points :=
  colors ← getThemeColors;
  theme ← getCurrentTheme;
  let empty := (replicate (particleCount * 3) 0, replicate (particleCount * 3) 0) in
  b ← (if String.eqb theme "light" then
         d3 ← prop "depth3" depth3 colors;
         d5 ← prop "depth5" depth5 colors;
         for_loop particleCount 0 (createParticle (Color_of_hex d3) (Color_of_hex d5)) empty
       else
         c1 ← prop "primary" primary colors;
         c2 ← prop "secondary" secondary colors;
         for_loop particleCount 0 (createParticle (Color_of_hex c1) (Color_of_hex c2)) empty);
  po ← prop "particleOpacity" particleOpacity colors;
  mret {| points_geometry := {| position_array := fst b; color_array := snd b;
                                size_array := None; needsUpdate := false |};
          points_material := {| point_size := 0.3; vertexColors := true;
                                points_transparent := true; points_opacity := po;
                                blending := AdditiveBlending; depthWrite := true |};
          points_rotation := vec3 0 0 0 |}.

Definition setPointsMaterialOpacity (o : option R) (p : Points) : Points :=
  {| points_geometry := points_geometry p;
     points_material := setPointsOpacity o (points_material p);
     points_rotation := points_rotation p |}.

Definition updateColors (s : Scene) : M Scene :=
  colors ← getThemeColors;
  theme ← getCurrentTheme;
  po ← prop "particleOpacity" particleOpacity colors;
  mret {| container := container s; camera := camera s; renderer := renderer s;
          particles :=
            setPointsMaterialOpacity
              (if String.eqb theme "light" then times po 0.8 else po) (particles s) |}.

Definition onResize (this : Constructed Scene) : M (Constructed Scene) :=
  match this with
  | NoContainer => mret NoContainer
  | Built s =>
      '(w, h) ← element_box (container s);
      mret (Built
        {| container := container s;
           camera := setAspect (js_div w h) (camera s);
           renderer := setSize w h (renderer s);
           particles := particles s |})
  end.

(** The per-frame update: the body of [animate] between reading the clock
    and rendering. *)
Definition tick (time : R) (s : Scene) : Scene :=
  let p := particles s in
  {| container := container s; camera := camera s; renderer := renderer s;
     particles :=
       {| points_geometry := points_geometry p; points_material := points_material p;
          points_rotation := vec3 (sin (time * 0.1) * 0.1) (time * 0.05)
                                  (vz (points_rotation p)) |} |}.

Definition animate (s : Scene) : M Scene :=
  Host.requestAnimationFrame FloatingParticles;;
  time ← Host.getElapsedTime FloatingParticles;
  let s' := tick time s in
  Host.render FloatingParticles;;
  mret s'.

Definition init (containerId : string) (camera0 : PerspectiveCamera)
    (renderer0 : WebGLRenderer) : M Scene :=
  '(w, h) ← element_box containerId;
  dpr ← gets devicePixelRatio;
  let renderer1 := setClearColor 0 0 (setPixelRatio (Rmin dpr 2) (setSize w h renderer0)) in
  Host.appendCanvas containerId FloatingParticles;;
  let camera1 :=
    setCameraPosition (vec3 (vx (camera_position camera0)) (vy (camera_position camera0)) 30)
                      camera0 in
  p ← createParticles;
  Host.addResizeListener FloatingParticles;;
  setupThemeObserver;;
  animate {| container := containerId; camera := camera1; renderer := renderer1;
             particles := p |}.

Definition constructor (containerId : string) : M (Constructed Scene) :=
  found ← Host.getElementById containerId;
  match found with
  | None => mret NoContainer
  | Some el =>
      s ← init containerId
            (new_PerspectiveCamera 75 (js_div (offsetWidth el) (offsetHeight el)) 0.1 1000)
            new_WebGLRenderer;
      mret (Built s)
  end.

End FloatingParticlesScene.

(* ================================================================== *)
(** * Feature visual: the small atom                                    *)
(* ================================================================== *)

Module FeatureQuantumScene.
Local Open Scope R_scope.

(** An orbit ring and the objects added to it (its electron). *)
Record Orbit := { orbit_mesh : Mesh; children : list Mesh }.

Record Scene := {
  container : string;
  camera : PerspectiveCamera;
  renderer : WebGLRenderer;
  core : Mesh;
  orbits : list Orbit
}.

Definition setupThemeObserver : M unit := Host.observe FeatureQuantum.

(** The orbit the loop of [createScene] builds at index [i]. *)
Definition createOrbit (c1 c2 : option Z) (i : nat) : Orbit :=
  let orbitMaterial :=
    {| color := if (i mod 2 =? 0)%nat then c1 else c2; transparent := true;
       opacity := Some 0.5; wireframe := false |} in
  let orbit0 := new_Mesh (TorusGeometry (2 + INR i * 0.8) 0.02 8 64) orbitMaterial in
  let orbit1 := setRotation (vec3 (PI / 2 + INR i * 0.4) (INR i * 0.3) 0) orbit0 in
  let electronMaterial := setHex (if (i mod 2 =? 0)%nat then c1 else c2) default_material in
  let electron0 := new_Mesh (SphereGeometry 0.15 16 16) electronMaterial in
  let electron1 :=
    setPosition (vec3 (2 + INR i * 0.8) (vy (position electron0)) (vz (position electron0)))
                electron0 in
  {| orbit_mesh := orbit1; children := [electron1] |}.

Definition createScene : M (Mesh * list Orbit) :=
  colors ← getThemeColors;
  c1 ← prop "primary" primary colors;
  let coreMaterial := {| color := c1; wireframe := true; transparent := true;
                         opacity := Some 0.8 |} in
  c2 ← prop "secondary" secondary colors;
  mret (new_Mesh (IcosahedronGeometry 1 1) coreMaterial, createOrbit c1 c2 <$> seq 0 3).

(** [if (orbit.children[0]) { ... }] on the list of children. *)
Definition update_first_child (f : Mesh → Mesh) (cs : list Mesh) : list Mesh :=
  match cs with
  | [] => []
  | c :: rest => f c :: rest
  end.

Definition updateColors (s : Scene) : M Scene :=
  colors ← getThemeColors;
  theme ← getCurrentTheme;
  if String.eqb theme "light" then
    d2 ← prop "depth2" depth2 colors;
    wo ← prop "wireframeOpacity" wireframeOpacity colors;
    d3 ← prop "depth3" depth3 colors;
    d4 ← prop "depth4" depth4 colors;
    so ← prop "solidOpacity" solidOpacity colors;
    mret {| container := container s; camera := camera s; renderer := renderer s;
            core := recolor d2 wo (core s);
            orbits :=
              imap (λ i orbit,
                      let orbitColor := mjoin ([d2; d3; d4] !! (i mod 3)%nat) in
                      {| orbit_mesh := recolor orbitColor (Some 0.6) (orbit_mesh orbit);
                         children := update_first_child (recolor orbitColor so)
                                       (children orbit) |})
                   (orbits s) |}
  else
    c1 ← prop "primary" primary colors;
    c2 ← prop "secondary" secondary colors;
    mret {| container := container s; camera := camera s; renderer := renderer s;
            core := recolor c1 (Some 0.8) (core s);
            orbits :=
              imap (λ i orbit,
                      let orbitColor := if (i mod 2 =? 0)%nat then c1 else c2 in
                      {| orbit_mesh := recolor orbitColor (Some 0.5) (orbit_mesh orbit);
                         children :=
                           update_first_child
                             (λ e, setMaterial (setHex orbitColor (material e)) e)
                             (children orbit) |})
                   (orbits s) |}.

Definition onResize (this : Constructed Scene) : M (Constructed Scene) :=
  match this with
  | NoContainer => mret NoContainer
  | Built s =>
      '(w, h) ← element_box (container s);
      mret (Built
        {| container := container s;
           camera := setAspect (js_div w h) (camera s);
           renderer := setSize w h (renderer s);
           core := core s; orbits := orbits s |})
  end.

(** The per-frame update: the body of [animate] between reading the clock
    and rendering. *)
Definition tick (time : R) (s : Scene) : Scene :=
  {| container := container s; camera := camera s; renderer := renderer s;
     core := setRotation (vec3 (time * 0.5) (time * 0.3) (vz (rotation (core s)))) (core s);
     orbits :=
       imap (λ i orbit,
               let m := orbit_mesh orbit in
               {| orbit_mesh :=
                    setRotation (vec3 (vx (rotation m)) (vy (rotation m))
                                      (time * (1 + INR i * 0.5))) m;
                  children := children orbit |})
            (orbits s) |}.

Definition animate (s : Scene) : M Scene :=
  Host.requestAnimationFrame FeatureQuantum;;
  time ← Host.getElapsedTime FeatureQuantum;
  let s' := tick time s in
  Host.render FeatureQuantum;;
  mret s'.

Definition init (containerId : string) (camera0 : PerspectiveCamera)
    (renderer0 : WebGLRenderer) : M Scene :=
  '(w, h) ← element_box containerId;
  dpr ← gets devicePixelRatio;
  let renderer1 := setClearColor 0 0 (setPixelRatio (Rmin dpr 2) (setSize w h renderer0)) in
  Host.appendCanvas containerId FeatureQuantum;;
  let camera1 :=
    setCameraPosition (vec3 (vx (camera_position camera0)) (vy (camera_position camera0)) 10)
                      camera0 in
  '(core1, orbits1) ← createScene;
  Host.addResizeListener FeatureQuantum;;
  setupThemeObserver;;
  animate {| container := containerId; camera := camera1; renderer := renderer1;
             core := core1; orbits := orbits1 |}.

Definition constructor (containerId : string) : M (Constructed Scene) :=
  found ← Host.getElementById containerId;
  match found with
  | None => mret NoContainer
  | Some el =>
      s ← init containerId
            (new_PerspectiveCamera 60 (js_div (offsetWidth el) (offsetHeight el)) 0.1 1000)
            new_WebGLRenderer;
      mret (Built s)
  end.

End FeatureQuantumScene.

(* ================================================================== *)
(** * Any of the five scenes                                            *)
(* ================================================================== *)

Inductive AnyScene :=
| Hero (s : QuantumHeroScene.Scene)
| Processor (s : QuantumProcessorScene.Scene)
| Neural (s : NeuralNetworkScene.Scene)
| Floating (s : FloatingParticlesScene.Scene)
| Feature (s : FeatureQuantumScene.Scene).

Definition class_of (s : AnyScene) : SceneClass :=
  match s with
  | Hero _ => QuantumHero
  | Processor _ => QuantumProcessor
  | Neural _ => NeuralNetwork
  | Floating _ => FloatingParticles
  | Feature _ => FeatureQuantum
  end.

Definition map_constructed {A B : Type} (f : A → B) (c : Constructed A) : Constructed B :=
  match c with
  | NoContainer => NoContainer
  | Built s => Built (f s)
  end.

(** [new C(containerId)] for the class [c]. *)
Definition construct (c : SceneClass) (containerId : string) : M (Constructed AnyScene) :=
  match c with
  | QuantumHero => map_constructed Hero <$> QuantumHeroScene.constructor containerId
  | QuantumProcessor => map_constructed Processor <$> QuantumProcessorScene.constructor containerId
  | NeuralNetwork => map_constructed Neural <$> NeuralNetworkScene.constructor containerId
  | FloatingParticles => map_constructed Floating <$> FloatingParticlesScene.constructor containerId
  | FeatureQuantum => map_constructed Feature <$> FeatureQuantumScene.constructor containerId
  end.

Definition scene_updateColors (s : AnyScene) : M AnyScene :=
  match s with
  | Hero x => Hero <$> QuantumHeroScene.updateColors x
  | Processor x => Processor <$> QuantumProcessorScene.updateColors x
  | Neural x => Neural <$> NeuralNetworkScene.updateColors x
  | Floating x => Floating <$> FloatingParticlesScene.updateColors x
  | Feature x => Feature <$> FeatureQuantumScene.updateColors x
  end.

Definition scene_tick (time : R) (s : AnyScene) : AnyScene :=
  match s with
  | Hero x => Hero (QuantumHeroScene.tick time x)
  | Processor x => Processor (QuantumProcessorScene.tick time x)
  | Neural x => Neural (NeuralNetworkScene.tick time x)
  | Floating x => Floating (FloatingParticlesScene.tick time x)
  | Feature x => Feature (FeatureQuantumScene.tick time x)
  end.

Definition scene_animate (s : AnyScene) : M AnyScene :=
  match s with
  | Hero x => Hero <$> QuantumHeroScene.animate x
  | Processor x => Processor <$> QuantumProcessorScene.animate x
  | Neural x => Neural <$> NeuralNetworkScene.animate x
  | Floating x => Floating <$> FloatingParticlesScene.animate x
  | Feature x => Feature <$> FeatureQuantumScene.animate x
  end.

(** [onResize] of a scene object whose constructor has run. *)
Definition scene_onResize (s : AnyScene) : M (Constructed AnyScene) :=
  match s with
  | Hero x => map_constructed Hero <$> QuantumHeroScene.onResize (Built x)
  | Processor x => map_constructed Processor <$> QuantumProcessorScene.onResize (Built x)
  | Neural x => map_constructed Neural <$> NeuralNetworkScene.onResize (Built x)
  | Floating x => map_constructed Floating <$> FloatingParticlesScene.onResize (Built x)
  | Feature x => map_constructed Feature <$> FeatureQuantumScene.onResize (Built x)
  end.

Definition container_of (s : AnyScene) : string :=
  match s with
  | Hero x => QuantumHeroScene.container x
  | Processor x => QuantumProcessorScene.container x
  | Neural x => NeuralNetworkScene.container x
  | Floating x => FloatingParticlesScene.container x
  | Feature x => FeatureQuantumScene.container x
  end.

Definition camera_of (s : AnyScene) : PerspectiveCamera :=
  match s with
  | Hero x => QuantumHeroScene.camera x
  | Processor x => QuantumProcessorScene.camera x
  | Neural x => NeuralNetworkScene.camera x
  | Floating x => FloatingParticlesScene.camera x
  | Feature x => FeatureQuantumScene.camera x
  end.

(** The callback every [setupThemeObserver] registers, on a batch of
    mutation records given by their [attributeName]. *)
Definition themeObserver (mutations : list string) (s : AnyScene) : M AnyScene :=
  forEach mutations 0
    (λ attributeName _ s',
       if String.eqb attributeName "data-theme" then scene_updateColors s' else mret s')
    s.

(** One theme toggle as a subscribed scene sees it: the click handler of
    [main.js] rewrites the attribute, then the scene's observer is called
    with that mutation. *)
Definition toggle (s : AnyScene) : M AnyScene :=
  Main.themeToggle_click;;
  themeObserver ["data-theme"] s.

(** [n] toggles in succession. *)
Fixpoint toggles (n : nat) (s : AnyScene) : M AnyScene :=
  match n with
  | O => mret s
  | S n' => s' ← toggle s; toggles n' s'
  end.

(** One display frame at clock reading [time]: the host advances the clock
    and runs the pending [animate] callback. *)
Definition frame (time : R) (s : AnyScene) : M AnyScene :=
  modify (set_elapsed time);;
  scene_animate s.

(** The frames at the clock readings [times], in order. *)
Fixpoint frames (times : list R) (s : AnyScene) : M AnyScene :=
  match times with
  | [] => mret s
  | t :: rest => s' ← frame t s; frames rest s'
  end.

(** The clock readings [0, 1/60, ..., n/60]. *)
Definition sixtieths (n : nat) : list R := (λ k, (INR k / 60)%R) <$> seq 0 (S n).

(** The theme the scripts resolve in a world. *)
Definition theme_of (w : World) : string := or_default (data_theme w) "dark".

(** The world after [k] more values were drawn from [Math.random]. *)
Definition advance (k : nat) (w : World) : World := set_random_pos (k + random_pos w) w.

(** ** Sample pages

    A page with the five containers of the site and the toggle button, the
    theme attribute and the random source given; [sample_page theme u] has
    [Math.random] return [u] on every call. *)
Definition site_elements : gmap string Element :=
  let box := {| offsetWidth := 800; offsetHeight := 600; canvases := [] |} in
  <["hero-canvas" := box]> (<["tech-canvas" := box]> (<["about-canvas" := box]>
  (<["cta-canvas" := box]> (<["feature-visual-1" := box]>
  (<["theme-toggle" := {| offsetWidth := 40; offsetHeight := 40; canvases := [] |}]> ∅))))).

Definition sample_page_with (theme : option string) (source : nat → R) : World :=
  {| data_theme := theme; document_elements := site_elements; localStorage := ∅;
     click_listeners := ∅; resize_listeners := []; mousemove_listeners := [];
     observers := []; frame_requests := []; random_source := source; random_pos := 0;
     elapsed := 0%R; devicePixelRatio := 1%R; log := [] |}.

Definition sample_page (theme : option string) (u : R) : World :=
  sample_page_with theme (λ _, u).

(** A random source that returns 0.25 a hundred times and 0.75 from then
    on. *)
Definition low_then_high (k : nat) : R := if (k <? 100)%nat then 0.25%R else 0.75%R.

(** The particle the dark-theme loop of [createParticles] stores first,
    from the seven values it draws for it. *)
Definition first_dark_particle (w : World) : QuantumHeroScene.Particle :=
  let u k := random_source w (k + random_pos w) in
  {| QuantumHeroScene.index := 0;
     QuantumHeroScene.radius := 8 + u 0 * 20;
     QuantumHeroScene.theta := u 1 * PI * 2;
     QuantumHeroScene.phi := acos (2 * u 2 - 1);
     QuantumHeroScene.speed := 0.001 + u 5 * 0.002;
     QuantumHeroScene.phaseOffset := u 6 * PI * 2 |}%nat%R.

(** A random source under which the first particle of the hero scene is
    built with radius 14 + 3/2^21, on the axis below the centre, and at the
    crest of its oscillation when the clock reads 0. *)
Definition crest_source (k : nat) : R :=
  match k with
  | 0 => (6 + 3 / 2097152) / 20
  | 6 => 1 / 4
  | _ => 0
  end%R.


(** A computation that ends normally, in a result and a world that
    satisfy [Q]. *)
Definition returns {A : Type} (m : M A) (w : World) (Q : A → World → Prop) : Prop :=
  ∃ a w', m w = (Ok a, w') ∧ Q a w'.

(** What one call of [animate] adds to the log. *)
Definition animate_events (c : SceneClass) (time : R) : list Event :=
  [EvRequestFrame c; EvReadClock c time; EvRender c].

(** The page once [init] of class [c] has run against the container [id],
    [k] random values drawn: one canvas more in the container, one resize
    listener, one theme observer and one pending frame more, a mousemove
    listener for the hero scene, and the log of the first [animate]. *)
Definition page_after_init (c : SceneClass) (id : string) (k : nat) (w : World) : World :=
  {| data_theme := data_theme w;
     document_elements := alter (add_canvas c) id (document_elements w);
     localStorage := localStorage w;
     click_listeners := click_listeners w;
     resize_listeners := resize_listeners w ++ [c];
     mousemove_listeners :=
       mousemove_listeners w ++ match c with QuantumHero => [c] | _ => [] end;
     observers := observers w ++ [c];
     frame_requests := frame_requests w ++ [c];
     random_source := random_source w;
     random_pos := k + random_pos w;
     elapsed := elapsed w;
     devicePixelRatio := devicePixelRatio w;
     log := log w ++ animate_events c (elapsed w) |}.

(** The themes that have a palette. *)
Definition supported (theme : string) : Prop := theme = "dark" ∨ theme = "light".

(** [Math.random] returns values in [0, 1). *)
Definition unit_interval_source (w : World) : Prop :=
  ∀ k, (0 <= random_source w k < 1)%R.

(** The shape [createParticles], [createOrbitalRings] and
    [createEntanglementLines] give a hero scene, which no method changes:
    500 particles stored in order of their index, three coordinates each
    in the position array, 3 rings and 20 lines. *)
Definition hero_shape (s : QuantumHeroScene.Scene) : Prop :=
  length (QuantumHeroScene.particles s) = 500 ∧
  (∀ j p, QuantumHeroScene.particles s !! j = Some p → QuantumHeroScene.index p = j) ∧
  length (position_array (points_geometry (QuantumHeroScene.particleSystem s))) = 1500 ∧
  length (QuantumHeroScene.quantumOrbitals s) = 3 ∧
  length (QuantumHeroScene.entanglementLines s) = 20.

(** Where the processor scene puts its [i]-th qubit: the grid is filled row
    by row, [x] and [z] from -2 to 2, three units apart. *)
Definition grid_point (i : nat) : Vector3 :=
  vec3 (IZR ((Z.of_nat (i / 5) - 2) * QuantumProcessorScene.spacing)) 0
       (IZR ((Z.of_nat (i mod 5) - 2) * QuantumProcessorScene.spacing)).

(** A particle as [createParticles] stores it, its fields computed from
    values of the random source. *)
Definition seeded (src : nat → R) (p : QuantumHeroScene.Particle) : Prop :=
  ∃ k1 k2 k3 k4 k5 : nat,
    (QuantumHeroScene.radius p = 8 + src k1 * 20 ∧
     QuantumHeroScene.theta p = src k2 * PI * 2 ∧
     QuantumHeroScene.phi p = acos (2 * src k3 - 1) ∧
     QuantumHeroScene.speed p = 0.001 + src k4 * 0.002 ∧
     QuantumHeroScene.phaseOffset p = src k5 * PI * 2)%R.

(** What the particle loops of the hero scene keep true of the buffers
    after [i] iterations that drew [k] values each. *)
Definition particle_loop_inv (k : nat) (w0 : World) (i : nat)
    (b : QuantumHeroScene.Buffers) (w' : World) : Prop :=
  w' = advance (k * i) w0 ∧
  length (QuantumHeroScene.positions b) = 1500 ∧
  length (QuantumHeroScene.stored b) = i ∧
  (∀ j p, QuantumHeroScene.stored b !! j = Some p → QuantumHeroScene.index p = j) ∧
  (∀ p, p ∈ QuantumHeroScene.stored b → seeded (random_source w0) p).

(** What [createParticles] of the hero scene returns under a supported
    theme. *)
Definition particles_created (w : World) (r : list QuantumHeroScene.Particle * Points)
    (w' : World) : Prop :=
  (∃ k, w' = advance k w) ∧
  length (fst r) = 500 ∧
  (∀ j p, fst r !! j = Some p → QuantumHeroScene.index p = j) ∧
  length (position_array (points_geometry (snd r))) = 1500 ∧
  (∀ p, p ∈ fst r → seeded (random_source w) p).

(** What the constructor of the hero scene returns when the container
    exists and the theme has a palette. *)
Definition hero_built (id : string) (w : World)
    (r : Constructed QuantumHeroScene.Scene) (w' : World) : Prop :=
  ∃ s, r = Built s ∧
       QuantumHeroScene.container s = id ∧
       hero_shape s ∧
       (∃ k, w' = page_after_init QuantumHero id k w) ∧
       (∀ p, p ∈ QuantumHeroScene.particles s →
             ∃ p0, seeded (random_source w) p0 ∧ p = QuantumHeroScene.advanceParticle p0).

(** The three coordinates of point [i] in a position array. *)
Definition read3 (arr : list R) (i : nat) : option Vector3 :=
  x ← arr !! (i * 3); y ← arr !! (i * 3 + 1); z ← arr !! (i * 3 + 2); Some (vec3 x y z).

(** The point [animate] computes for a particle at elapsed time [time],
    from the particle's own fields. *)
Definition particle_point (time : R) (p : QuantumHeroScene.Particle) : Vector3 :=
  let r := QuantumHeroScene.instantRadius time p in
  vec3 (r * sin (QuantumHeroScene.phi p) * cos (QuantumHeroScene.theta p))
       (r * sin (QuantumHeroScene.phi p) * sin (QuantumHeroScene.theta p))
       (r * cos (QuantumHeroScene.phi p))%R.

(** A point as a position buffer keeps it. *)
Definition stored_point (v : Vector3) : Vector3 :=
  vec3 (Float32Array.fround (vx v)) (Float32Array.fround (vy v))
       (Float32Array.fround (vz v)).

(** Where [animate] puts a particle at elapsed time [time]: the three
    numbers the position buffer holds for it. *)
Definition particle_position (time : R) (p : QuantumHeroScene.Particle) : Vector3 :=
  stored_point (particle_point time p).

(** A particle whose angle has advanced by [n] steps of its speed. *)
Definition after_steps (n : nat) (p : QuantumHeroScene.Particle) : QuantumHeroScene.Particle :=
  {| QuantumHeroScene.index := QuantumHeroScene.index p;
     QuantumHeroScene.radius := QuantumHeroScene.radius p;
     QuantumHeroScene.theta := (QuantumHeroScene.theta p + INR n * QuantumHeroScene.speed p)%R;
     QuantumHeroScene.phi := QuantumHeroScene.phi p;
     QuantumHeroScene.speed := QuantumHeroScene.speed p;
     QuantumHeroScene.phaseOffset := QuantumHeroScene.phaseOffset p |}.

(** The per-frame updates at the clock readings [times], in order. *)
Definition ticks (times : list R) (s : AnyScene) : AnyScene :=
  fold_left (λ s' t, scene_tick t s') times s.

(** The page after the frames of a scene of class [c] at the clock readings
    [times]: the clock, the pending frames and the log have moved and
    nothing else has. *)
Fixpoint page_after_frames (c : SceneClass) (times : list R) (w : World) : World :=
  match times with
  | [] => w
  | t :: rest =>
      page_after_frames c rest
        (set_log (log w ++ animate_events c t)
           (set_frame_requests (frame_requests w ++ [c]) (set_elapsed t w)))
  end.

Definition hero_particles (s : AnyScene) : list QuantumHeroScene.Particle :=
  match s with
  | Hero x => QuantumHeroScene.particles x
  | _ => []
  end.

Definition hero_positions (s : AnyScene) : list R :=
  match s with
  | Hero x => position_array (points_geometry (QuantumHeroScene.particleSystem x))
  | _ => []
  end.

(** ** What a recolouring computes

    The scene [updateColors] returns, as a function of the scene; under the
    dark theme also of the colours picked at random, one per entanglement
    line of the hero scene and one per qubit of the processor scene. *)

(** The colour [Math.random() > 0.5 ? colors.primary : colors.secondary]
    picks under the dark theme when [Math.random()] returns [u]. *)
Definition pick (u : R) : option Z :=
  if Rgt_dec u 0.5 then primary dark else secondary dark.

(** The values the next [n] calls of [Math.random] return. *)
Definition draws (w : World) (n : nat) : list R :=
  (λ k, random_source w (k + random_pos w)) <$> seq 0 n.

Definition random_colors_needed (s : AnyScene) : nat :=
  match s with
  | Hero x => length (QuantumHeroScene.entanglementLines x)
  | Processor x => length (QuantumProcessorScene.qubits x)
  | _ => 0
  end.

Definition recolored_light (s : AnyScene) : AnyScene :=
  match s with
  | Hero x =>
      Hero
        {| QuantumHeroScene.container := QuantumHeroScene.container x;
           QuantumHeroScene.camera := QuantumHeroScene.camera x;
           QuantumHeroScene.renderer := QuantumHeroScene.renderer x;
           QuantumHeroScene.particles := QuantumHeroScene.particles x;
           QuantumHeroScene.quantumOrbitals :=
             imap (λ i orbital,
                     QuantumHeroScene.setOrbitalMesh
                       (recolor (mjoin ([depth2 light; depth3 light; depth4 light] !! (i mod 3)))
                                (Some (0.5 - INR i * 0.1)%R)
                                (QuantumHeroScene.orbital_mesh orbital))
                       orbital)
                  (QuantumHeroScene.quantumOrbitals x);
           QuantumHeroScene.mouse := QuantumHeroScene.mouse x;
           QuantumHeroScene.core :=
             recolor (depth1 light) (wireframeOpacity light) (QuantumHeroScene.core x);
           QuantumHeroScene.innerCore :=
             recolor (depth2 light) (times (wireframeOpacity light) 0.8)
                     (QuantumHeroScene.innerCore x);
           QuantumHeroScene.glowSphere :=
             recolor (depth3 light) (glowOpacity light) (QuantumHeroScene.glowSphere x);
           QuantumHeroScene.particleSystem :=
             QuantumHeroScene.setPointsMaterialOpacity (particleOpacity light)
               (QuantumHeroScene.particleSystem x);
           QuantumHeroScene.entanglementLines :=
             (λ line, {| QuantumHeroScene.line_mesh :=
                           recolor (depth4 light) (lineOpacity light)
                                   (QuantumHeroScene.line_mesh line);
                         QuantumHeroScene.phase := QuantumHeroScene.phase line |})
               <$> QuantumHeroScene.entanglementLines x |}
  | Processor x =>
      Processor
        {| QuantumProcessorScene.container := QuantumProcessorScene.container x;
           QuantumProcessorScene.camera := QuantumProcessorScene.camera x;
           QuantumProcessorScene.renderer := QuantumProcessorScene.renderer x;
           QuantumProcessorScene.qubits :=
             imap (λ i qubit,
                     let depthLevel :=
                       mjoin ([depth2 light; depth3 light; depth4 light] !! (i mod 3)) in
                     QuantumProcessorScene.setMeshes
                       (recolor depthLevel (solidOpacity light)
                                (QuantumProcessorScene.mesh qubit))
                       (recolor depthLevel (Some 0.5%R) (QuantumProcessorScene.ring qubit))
                       qubit)
                  (QuantumProcessorScene.qubits x);
           QuantumProcessorScene.gridHelper :=
             recolor (depth4 light) (Some 0.25%R) (QuantumProcessorScene.gridHelper x);
           QuantumProcessorScene.connectionLines := QuantumProcessorScene.connectionLines x |}
  | Neural x =>
      Neural
        {| NeuralNetworkScene.container := NeuralNetworkScene.container x;
           NeuralNetworkScene.camera := NeuralNetworkScene.camera x;
           NeuralNetworkScene.renderer := NeuralNetworkScene.renderer x;
           NeuralNetworkScene.nodes :=
             (λ node,
                let nodeColor :=
                  if NeuralNetworkScene.is_outer_layer (NeuralNetworkScene.layer node)
                  then depth2 light
                  else if (NeuralNetworkScene.layer node =? 2)%nat then depth4 light
                       else depth3 light in
                NeuralNetworkScene.setNodeMesh
                  (recolor nodeColor (solidOpacity light) (NeuralNetworkScene.mesh node)) node)
               <$> NeuralNetworkScene.nodes x;
           NeuralNetworkScene.connections :=
             (λ connection,
                NeuralNetworkScene.setLine
                  (recolor (depth5 light) (times (lineOpacity light) 0.6)
                           (NeuralNetworkScene.line connection)) connection)
               <$> NeuralNetworkScene.connections x;
           NeuralNetworkScene.scene_rotation := NeuralNetworkScene.scene_rotation x |}
  | Floating x =>
      Floating
        {| FloatingParticlesScene.container := FloatingParticlesScene.container x;
           FloatingParticlesScene.camera := FloatingParticlesScene.camera x;
           FloatingParticlesScene.renderer := FloatingParticlesScene.renderer x;
           FloatingParticlesScene.particles :=
             FloatingParticlesScene.setPointsMaterialOpacity
               (times (particleOpacity light) 0.8) (FloatingParticlesScene.particles x) |}
  | Feature x =>
      Feature
        {| FeatureQuantumScene.container := FeatureQuantumScene.container x;
           FeatureQuantumScene.camera := FeatureQuantumScene.camera x;
           FeatureQuantumScene.renderer := FeatureQuantumScene.renderer x;
           FeatureQuantumScene.core :=
             recolor (depth2 light) (wireframeOpacity light) (FeatureQuantumScene.core x);
           FeatureQuantumScene.orbits :=
             imap (λ i orbit,
                     let orbitColor :=
                       mjoin ([depth2 light; depth3 light; depth4 light] !! (i mod 3)) in
                     {| FeatureQuantumScene.orbit_mesh :=
                          recolor orbitColor (Some 0.6%R) (FeatureQuantumScene.orbit_mesh orbit);
                        FeatureQuantumScene.children :=
                          FeatureQuantumScene.update_first_child
                            (recolor orbitColor (solidOpacity light))
                            (FeatureQuantumScene.children orbit) |})
                  (FeatureQuantumScene.orbits x) |}
  end.

Definition recolored_dark (cs : list (option Z)) (s : AnyScene) : AnyScene :=
  match s with
  | Hero x =>
      Hero
        {| QuantumHeroScene.container := QuantumHeroScene.container x;
           QuantumHeroScene.camera := QuantumHeroScene.camera x;
           QuantumHeroScene.renderer := QuantumHeroScene.renderer x;
           QuantumHeroScene.particles := QuantumHeroScene.particles x;
           QuantumHeroScene.quantumOrbitals :=
             imap (λ i orbital,
                     QuantumHeroScene.setOrbitalMesh
                       (recolor (mjoin ([primary dark; secondary dark; highlight dark]
                                          !! (i mod 3)))
                                (Some 0.4%R) (QuantumHeroScene.orbital_mesh orbital))
                       orbital)
                  (QuantumHeroScene.quantumOrbitals x);
           QuantumHeroScene.mouse := QuantumHeroScene.mouse x;
           QuantumHeroScene.core :=
             recolor (primary dark) (Some 0.8%R) (QuantumHeroScene.core x);
           QuantumHeroScene.innerCore :=
             recolor (secondary dark) (Some 0.6%R) (QuantumHeroScene.innerCore x);
           QuantumHeroScene.glowSphere :=
             recolor (primary dark) (glowOpacity dark) (QuantumHeroScene.glowSphere x);
           QuantumHeroScene.particleSystem :=
             QuantumHeroScene.setPointsMaterialOpacity (particleOpacity dark)
               (QuantumHeroScene.particleSystem x);
           QuantumHeroScene.entanglementLines :=
             zip_with (λ line c,
                         {| QuantumHeroScene.line_mesh :=
                              recolor c (Some 0.2%R) (QuantumHeroScene.line_mesh line);
                            QuantumHeroScene.phase := QuantumHeroScene.phase line |})
                      (QuantumHeroScene.entanglementLines x) cs |}
  | Processor x =>
      Processor
        {| QuantumProcessorScene.container := QuantumProcessorScene.container x;
           QuantumProcessorScene.camera := QuantumProcessorScene.camera x;
           QuantumProcessorScene.renderer := QuantumProcessorScene.renderer x;
           QuantumProcessorScene.qubits :=
             zip_with (λ qubit c,
                         QuantumProcessorScene.setMeshes
                           (recolor c (Some 0.9%R) (QuantumProcessorScene.mesh qubit))
                           (recolor (primary dark) (Some 0.5%R)
                                    (QuantumProcessorScene.ring qubit))
                           qubit)
                      (QuantumProcessorScene.qubits x) cs;
           QuantumProcessorScene.gridHelper :=
             recolor (primary dark) (Some 0.3%R) (QuantumProcessorScene.gridHelper x);
           QuantumProcessorScene.connectionLines := QuantumProcessorScene.connectionLines x |}
  | Neural x =>
      Neural
        {| NeuralNetworkScene.container := NeuralNetworkScene.container x;
           NeuralNetworkScene.camera := NeuralNetworkScene.camera x;
           NeuralNetworkScene.renderer := NeuralNetworkScene.renderer x;
           NeuralNetworkScene.nodes :=
             (λ node,
                let nodeColor :=
                  if NeuralNetworkScene.is_outer_layer (NeuralNetworkScene.layer node)
                  then primary dark else secondary dark in
                NeuralNetworkScene.setNodeMesh
                  (recolor nodeColor (Some 0.8%R) (NeuralNetworkScene.mesh node)) node)
               <$> NeuralNetworkScene.nodes x;
           NeuralNetworkScene.connections :=
             (λ connection,
                NeuralNetworkScene.setLine
                  (recolor (primary dark) (Some 0.2%R) (NeuralNetworkScene.line connection))
                  connection)
               <$> NeuralNetworkScene.connections x;
           NeuralNetworkScene.scene_rotation := NeuralNetworkScene.scene_rotation x |}
  | Floating x =>
      Floating
        {| FloatingParticlesScene.container := FloatingParticlesScene.container x;
           FloatingParticlesScene.camera := FloatingParticlesScene.camera x;
           FloatingParticlesScene.renderer := FloatingParticlesScene.renderer x;
           FloatingParticlesScene.particles :=
             FloatingParticlesScene.setPointsMaterialOpacity
               (particleOpacity dark) (FloatingParticlesScene.particles x) |}
  | Feature x =>
      Feature
        {| FeatureQuantumScene.container := FeatureQuantumScene.container x;
           FeatureQuantumScene.camera := FeatureQuantumScene.camera x;
           FeatureQuantumScene.renderer := FeatureQuantumScene.renderer x;
           FeatureQuantumScene.core :=
             recolor (primary dark) (Some 0.8%R) (FeatureQuantumScene.core x);
           FeatureQuantumScene.orbits :=
             imap (λ i orbit,
                     let orbitColor :=
                       if (i mod 2 =? 0)%nat then primary dark else secondary dark in
                     {| FeatureQuantumScene.orbit_mesh :=
                          recolor orbitColor (Some 0.5%R) (FeatureQuantumScene.orbit_mesh orbit);
                        FeatureQuantumScene.children :=
                          FeatureQuantumScene.update_first_child
                            (λ e, setMaterial (setHex orbitColor (material e)) e)
                            (FeatureQuantumScene.children orbit) |})
                  (FeatureQuantumScene.orbits x) |}
  end.

(** ** What a recolouring must leave alone

    [bleach] forgets the colour and the opacity of the materials that
    [updateColors] writes and keeps everything else, so two scenes with the
    same [bleach] differ in those colours and opacities only.  The
    materials of the processor's connection lines and of any child of an
    orbit after the first are never written, and [bleach] keeps them. *)

Definition bleach_mesh (o : Mesh) : Mesh := recolor None None o.

Definition bleach_points (p : Points) : Points :=
  {| points_geometry := points_geometry p;
     points_material := setPointsOpacity None (points_material p);
     points_rotation := points_rotation p |}.

Definition bleach_orbital (o : QuantumHeroScene.Orbital) : QuantumHeroScene.Orbital :=
  QuantumHeroScene.setOrbitalMesh (bleach_mesh (QuantumHeroScene.orbital_mesh o)) o.

Definition bleach_line (l : QuantumHeroScene.EntanglementLine)
    : QuantumHeroScene.EntanglementLine :=
  {| QuantumHeroScene.line_mesh := bleach_mesh (QuantumHeroScene.line_mesh l);
     QuantumHeroScene.phase := QuantumHeroScene.phase l |}.

Definition bleach_qubit (q : QuantumProcessorScene.Qubit) : QuantumProcessorScene.Qubit :=
  QuantumProcessorScene.setMeshes (bleach_mesh (QuantumProcessorScene.mesh q))
                                  (bleach_mesh (QuantumProcessorScene.ring q)) q.

Definition bleach_node (n : NeuralNetworkScene.Node) : NeuralNetworkScene.Node :=
  NeuralNetworkScene.setNodeMesh (bleach_mesh (NeuralNetworkScene.mesh n)) n.

Definition bleach_connection (c : NeuralNetworkScene.Connection)
    : NeuralNetworkScene.Connection :=
  NeuralNetworkScene.setLine (bleach_mesh (NeuralNetworkScene.line c)) c.

Definition bleach_orbit (o : FeatureQuantumScene.Orbit) : FeatureQuantumScene.Orbit :=
  {| FeatureQuantumScene.orbit_mesh := bleach_mesh (FeatureQuantumScene.orbit_mesh o);
     FeatureQuantumScene.children :=
       FeatureQuantumScene.update_first_child bleach_mesh (FeatureQuantumScene.children o) |}.

Definition bleach (s : AnyScene) : AnyScene :=
  match s with
  | Hero x =>
      Hero
        {| QuantumHeroScene.container := QuantumHeroScene.container x;
           QuantumHeroScene.camera := QuantumHeroScene.camera x;
           QuantumHeroScene.renderer := QuantumHeroScene.renderer x;
           QuantumHeroScene.particles := QuantumHeroScene.particles x;
           QuantumHeroScene.quantumOrbitals :=
             bleach_orbital <$> QuantumHeroScene.quantumOrbitals x;
           QuantumHeroScene.mouse := QuantumHeroScene.mouse x;
           QuantumHeroScene.core := bleach_mesh (QuantumHeroScene.core x);
           QuantumHeroScene.innerCore := bleach_mesh (QuantumHeroScene.innerCore x);
           QuantumHeroScene.glowSphere := bleach_mesh (QuantumHeroScene.glowSphere x);
           QuantumHeroScene.particleSystem := bleach_points (QuantumHeroScene.particleSystem x);
           QuantumHeroScene.entanglementLines :=
             bleach_line <$> QuantumHeroScene.entanglementLines x |}
  | Processor x =>
      Processor
        {| QuantumProcessorScene.container := QuantumProcessorScene.container x;
           QuantumProcessorScene.camera := QuantumProcessorScene.camera x;
           QuantumProcessorScene.renderer := QuantumProcessorScene.renderer x;
           QuantumProcessorScene.qubits := bleach_qubit <$> QuantumProcessorScene.qubits x;
           QuantumProcessorScene.gridHelper := bleach_mesh (QuantumProcessorScene.gridHelper x);
           QuantumProcessorScene.connectionLines := QuantumProcessorScene.connectionLines x |}
  | Neural x =>
      Neural
        {| NeuralNetworkScene.container := NeuralNetworkScene.container x;
           NeuralNetworkScene.camera := NeuralNetworkScene.camera x;
           NeuralNetworkScene.renderer := NeuralNetworkScene.renderer x;
           NeuralNetworkScene.nodes := bleach_node <$> NeuralNetworkScene.nodes x;
           NeuralNetworkScene.connections :=
             bleach_connection <$> NeuralNetworkScene.connections x;
           NeuralNetworkScene.scene_rotation := NeuralNetworkScene.scene_rotation x |}
  | Floating x =>
      Floating
        {| FloatingParticlesScene.container := FloatingParticlesScene.container x;
           FloatingParticlesScene.camera := FloatingParticlesScene.camera x;
           FloatingParticlesScene.renderer := FloatingParticlesScene.renderer x;
           FloatingParticlesScene.particles :=
             bleach_points (FloatingParticlesScene.particles x) |}
  | Feature x =>
      Feature
        {| FeatureQuantumScene.container := FeatureQuantumScene.container x;
           FeatureQuantumScene.camera := FeatureQuantumScene.camera x;
           FeatureQuantumScene.renderer := FeatureQuantumScene.renderer x;
           FeatureQuantumScene.core := bleach_mesh (FeatureQuantumScene.core x);
           FeatureQuantumScene.orbits := bleach_orbit <$> FeatureQuantumScene.orbits x |}
  end.

(** The geometry of every object in the scene graph, in the order the
    objects were added. *)
Definition scene_geometries (s : AnyScene) : list (Geometry + BufferGeometry) :=
  match s with
  | Hero x =>
      [inl (geometry (QuantumHeroScene.core x));
       inl (geometry (QuantumHeroScene.innerCore x));
       inl (geometry (QuantumHeroScene.glowSphere x));
       inr (points_geometry (QuantumHeroScene.particleSystem x))]
      ++ ((λ o, inl (geometry (QuantumHeroScene.orbital_mesh o)))
            <$> QuantumHeroScene.quantumOrbitals x)
      ++ ((λ l, inl (geometry (QuantumHeroScene.line_mesh l)))
            <$> QuantumHeroScene.entanglementLines x)
  | Processor x =>
      [inl (geometry (QuantumProcessorScene.gridHelper x))]
      ++ mjoin ((λ q, [inl (geometry (QuantumProcessorScene.mesh q));
                       inl (geometry (QuantumProcessorScene.ring q))])
                  <$> QuantumProcessorScene.qubits x)
      ++ ((λ l, inl (geometry l)) <$> QuantumProcessorScene.connectionLines x)
  | Neural x =>
      ((λ n, inl (geometry (NeuralNetworkScene.mesh n))) <$> NeuralNetworkScene.nodes x)
      ++ ((λ c, inl (geometry (NeuralNetworkScene.line c)))
            <$> NeuralNetworkScene.connections x)
  | Floating x => [inr (points_geometry (FloatingParticlesScene.particles x))]
  | Feature x =>
      [inl (geometry (FeatureQuantumScene.core x))]
      ++ mjoin ((λ o, inl (geometry (FeatureQuantumScene.orbit_mesh o))
                      :: ((λ e, inl (geometry e)) <$> FeatureQuantumScene.children o))
                  <$> FeatureQuantumScene.orbits x)
  end.

(** ** Repeated toggles *)

(** The page after the click handler of the theme toggle has run: the
    attribute and the stored preference hold the other theme. *)
Definition flipped (w : World) : World :=
  let newTheme := if bool_decide (data_theme w = Some "dark") then "light" else "dark" in
  set_localStorage (<["theme" := newTheme]> (localStorage w))
    (set_data_theme (Some newTheme) w).

Definition uncolor (o : Mesh) : Mesh := setMaterial (setHex None (material o)) o.

Definition unopaque (o : Mesh) : Mesh := setMaterial (setOpacity None (material o)) o.

(** A scene without the fields that a recolouring under the dark theme does
    not settle: the colour of the entanglement lines of the hero scene and
    of the qubits of the processor scene, which are picked at random each
    time, and the opacity of the electrons of the feature scene, which the
    dark branch does not write. *)
Definition settled_part (s : AnyScene) : AnyScene :=
  match s with
  | Hero x =>
      Hero
        {| QuantumHeroScene.container := QuantumHeroScene.container x;
           QuantumHeroScene.camera := QuantumHeroScene.camera x;
           QuantumHeroScene.renderer := QuantumHeroScene.renderer x;
           QuantumHeroScene.particles := QuantumHeroScene.particles x;
           QuantumHeroScene.quantumOrbitals := QuantumHeroScene.quantumOrbitals x;
           QuantumHeroScene.mouse := QuantumHeroScene.mouse x;
           QuantumHeroScene.core := QuantumHeroScene.core x;
           QuantumHeroScene.innerCore := QuantumHeroScene.innerCore x;
           QuantumHeroScene.glowSphere := QuantumHeroScene.glowSphere x;
           QuantumHeroScene.particleSystem := QuantumHeroScene.particleSystem x;
           QuantumHeroScene.entanglementLines :=
             (λ l, {| QuantumHeroScene.line_mesh := uncolor (QuantumHeroScene.line_mesh l);
                      QuantumHeroScene.phase := QuantumHeroScene.phase l |})
               <$> QuantumHeroScene.entanglementLines x |}
  | Processor x =>
      Processor
        {| QuantumProcessorScene.container := QuantumProcessorScene.container x;
           QuantumProcessorScene.camera := QuantumProcessorScene.camera x;
           QuantumProcessorScene.renderer := QuantumProcessorScene.renderer x;
           QuantumProcessorScene.qubits :=
             (λ q, QuantumProcessorScene.setMeshes (uncolor (QuantumProcessorScene.mesh q))
                                                   (QuantumProcessorScene.ring q) q)
               <$> QuantumProcessorScene.qubits x;
           QuantumProcessorScene.gridHelper := QuantumProcessorScene.gridHelper x;
           QuantumProcessorScene.connectionLines := QuantumProcessorScene.connectionLines x |}
  | Feature x =>
      Feature
        {| FeatureQuantumScene.container := FeatureQuantumScene.container x;
           FeatureQuantumScene.camera := FeatureQuantumScene.camera x;
           FeatureQuantumScene.renderer := FeatureQuantumScene.renderer x;
           FeatureQuantumScene.core := FeatureQuantumScene.core x;
           FeatureQuantumScene.orbits :=
             (λ o, {| FeatureQuantumScene.orbit_mesh := FeatureQuantumScene.orbit_mesh o;
                      FeatureQuantumScene.children :=
                        FeatureQuantumScene.update_first_child unopaque
                          (FeatureQuantumScene.children o) |})
               <$> FeatureQuantumScene.orbits x |}
  | _ => s
  end.

(** What the loops of [createQubits] keep true after [n] qubits. *)
Definition qubits_inv (w0 : World) (n : nat) (qs : list QuantumProcessorScene.Qubit)
    (w' : World) : Prop :=
  w' = advance (3 * n) w0 ∧
  length qs = n ∧
  ∀ k q, qs !! k = Some q → position (QuantumProcessorScene.mesh q) = grid_point k.

(** What the constructor of the processor scene returns when the container
    exists and the theme has the palette [p]: the 25 qubits were created
    on the grid, the connection lines were computed from them, and the
    first [animate] has then moved the qubits. *)
Definition processor_built (id : string) (w : World)
    (r : Constructed QuantumProcessorScene.Scene) (w' : World) : Prop :=
  ∃ s qs0 p,
    r = Built s ∧
    ThemeColors !! theme_of w = Some p ∧
    QuantumProcessorScene.container s = id ∧
    length qs0 = 25 ∧
    (∀ i q, qs0 !! i = Some q → position (QuantumProcessorScene.mesh q) = grid_point i) ∧
    QuantumProcessorScene.qubits s = QuantumProcessorScene.animateQubit (elapsed w) <$> qs0 ∧
    QuantumProcessorScene.connectionLines s
      = QuantumProcessorScene.connect
          {| color := primary p; transparent := true; opacity := Some 0.3%R;
             wireframe := false |} qs0 ∧
    w' = page_after_init QuantumProcessor id 75 w.

(** ** The connections of the processor grid *)

(** The integer coordinates [(x, z)] of the [i]-th qubit. *)
Definition grid_coordinates (i : nat) : Z * Z :=
  ((Z.of_nat (i / 5) - 2) * QuantumProcessorScene.spacing,
   (Z.of_nat (i mod 5) - 2) * QuantumProcessorScene.spacing)%Z.

(** Whether qubits [i] and [j] are less than 4 apart, decided on the
    squared integer distance. *)
Definition close_on_grid (i j : nat) : bool :=
  let dx := (fst (grid_coordinates i) - fst (grid_coordinates j))%Z in
  let dz := (snd (grid_coordinates i) - snd (grid_coordinates j))%Z in
  (dx * dx + dz * dz <? 16)%Z.

(** The pairs [i < j] of qubits that are less than 4 apart, in the order
    [createConnections] visits them. *)
Definition close_pairs : list (nat * nat) :=
  mjoin ((λ i, mjoin ((λ j, if (i <? j) && close_on_grid i j then [(i, j)] else [])
                        <$> seq 0 25))
           <$> seq 0 25).

(** The line geometry between the grid points of a pair of qubits. *)
Definition line_between (ij : nat * nat) : Geometry :=
  PointsGeometry [grid_point (fst ij); grid_point (snd ij)].

Definition processor_lines (s : AnyScene) : list Mesh :=
  match s with
  | Processor x => QuantumProcessorScene.connectionLines x
  | _ => []
  end.

Definition processor_qubits (s : AnyScene) : list QuantumProcessorScene.Qubit :=
  match s with
  | Processor x => QuantumProcessorScene.qubits x
  | _ => []
  end.

(** The page after the layout gave the element [id] the box [wd] × [ht]. *)
Definition resize_element (id : string) (wd ht : Z) (w : World) : World :=
  set_elements
    (alter (λ e, {| offsetWidth := wd; offsetHeight := ht; canvases := canvases e |}) id
           (document_elements w)) w.

(** The material colour of the first qubit of a processor scene, and the
    material opacity of the first electron of a feature scene. *)
Definition first_qubit_color (s : AnyScene) : option (option Z) :=
  match processor_qubits s with
  | q :: _ => Some (color (material (QuantumProcessorScene.mesh q)))
  | [] => None
  end.

Definition first_electron_opacity (s : AnyScene) : option (option R) :=
  match s with
  | Feature x =>
      match FeatureQuantumScene.orbits x with
      | o :: _ =>
          match FeatureQuantumScene.children o with
          | e :: _ => Some (opacity (material e))
          | [] => None
          end
      | [] => None
      end
  | _ => None
  end.

(* ================================================================== *)
(** * Object identity                                                   *)
(* ================================================================== *)

(** The scene records above are values: they tell what an object holds,
    not which object it is.  To tell a material that is written in place
    from one that is replaced by a fresh copy, the Three.js objects of a
    scene are kept in a store, one cell per object, and the fields of
    [this] hold references into it.  [new] is the only operation that adds
    a cell; no operation removes one. *)
Module Store.

Abbreviation Ref := nat (only parsing).

Inductive Object :=
| GeometryObject (g : Geometry)
| BufferGeometryObject (g : BufferGeometry)
| MaterialObject (m : Material)
| PointsMaterialObject (m : PointsMaterial)
| MeshObject (geometry material : Ref) (position rotation scale : Vector3)
             (children : list Ref)            (* Mesh, Line, GridHelper *)
| PointsObject (geometry material : Ref) (rotation : Vector3)
| CameraObject (c : PerspectiveCamera)
| RendererObject (r : WebGLRenderer).

Abbreviation Heap := (list Object) (only parsing).

(** A computation that creates objects. *)
Definition Alloc (A : Type) : Type := Heap → A * Heap.

(** [new ...]: the object goes into the next free cell. *)
Definition new (o : Object) : Alloc Ref := λ σ, (length σ, σ ++ [o]).

(** A mesh with the geometry and the material created for it.  In
    [three-scenes.js] no two meshes share a geometry or a material. *)
Definition alloc_mesh (o : Mesh) (children : list Ref) : Alloc Ref := λ σ,
  let '(g, σ1) := new (GeometryObject (geometry o)) σ in
  let '(m, σ2) := new (MaterialObject (material o)) σ1 in
  new (MeshObject g m (position o) (rotation o) (scale o) children) σ2.

Definition alloc_points (p : Points) : Alloc Ref := λ σ,
  let '(g, σ1) := new (BufferGeometryObject (points_geometry p)) σ in
  let '(m, σ2) := new (PointsMaterialObject (points_material p)) σ1 in
  new (PointsObject g m (points_rotation p)) σ2.

Fixpoint alloc_all {A B : Type} (f : A → Alloc B) (xs : list A) : Alloc (list B) := λ σ,
  match xs with
  | [] => ([], σ)
  | x :: rest =>
      let '(r, σ1) := f x σ in
      let '(rs, σ2) := alloc_all f rest σ1 in
      (r :: rs, σ2)
  end.

(** [x.material]. *)
Definition material_of (x : Ref) (σ : Heap) : option Ref :=
  match σ !! x with
  | Some (MeshObject _ m _ _ _ _) => Some m
  | Some (PointsObject _ m _) => Some m
  | _ => None
  end.

(** [x.children]. *)
Definition children_of (x : Ref) (σ : Heap) : list Ref :=
  match σ !! x with
  | Some (MeshObject _ _ _ _ _ children) => children
  | _ => []
  end.

Definition setHex_in (hex : option Z) (o : Object) : Object :=
  match o with
  | MaterialObject m => MaterialObject (setHex hex m)
  | _ => o
  end.

Definition setOpacity_in (op : option R) (o : Object) : Object :=
  match o with
  | MaterialObject m => MaterialObject (setOpacity op m)
  | PointsMaterialObject m => PointsMaterialObject (setPointsOpacity op m)
  | _ => o
  end.

(** [x.material.color.setHex(hex)]: the material [x] refers to is written
    where it is. *)
Definition material_color_setHex (x : Ref) (hex : option Z) (σ : Heap) : M Heap :=
  match material_of x σ with
  | Some m => mret (alter (setHex_in hex) m σ)
  | None => throw (TypeError "material")
  end.

(** [x.material.opacity = op]. *)
Definition material_opacity_set (x : Ref) (op : option R) (σ : Heap) : M Heap :=
  match material_of x σ with
  | Some m => mret (alter (setOpacity_in op) m σ)
  | None => throw (TypeError "material")
  end.

(** [x] is an object with a material. *)
Definition has_material (σ : Heap) (x : Ref) : Prop := is_Some (material_of x σ).

(** What a recolouring may do to an object: rewrite the colour and the
    opacity of a material, and nothing else. *)
Definition recoloured (o o' : Object) : Prop :=
  match o, o' with
  | MaterialObject m, MaterialObject m' =>
      transparent m' = transparent m ∧ wireframe m' = wireframe m
  | PointsMaterialObject m, PointsMaterialObject m' =>
      setPointsOpacity None m' = setPointsOpacity None m
  | _, _ => o' = o
  end.

End Store.

(** ** The hero scene by reference *)
Module QuantumHeroObjects.
Import Store.
Local Open Scope R_scope.

(** The fields of [this] that hold Three.js objects; [quantumOrbitals] and
    [entanglementLines] by the [mesh] of each entry. *)
Record This := {
  camera : Ref;
  renderer : Ref;
  core : Ref;
  innerCore : Ref;
  glowSphere : Ref;
  particleSystem : Ref;
  quantumOrbitals : list Ref;
  entanglementLines : list Ref
}.

(** The objects of a scene, created in the order of [init]. *)
Definition allocate (s : QuantumHeroScene.Scene) : Alloc This := λ σ,
  let '(camera1, σ) := new (CameraObject (QuantumHeroScene.camera s)) σ in
  let '(renderer1, σ) := new (RendererObject (QuantumHeroScene.renderer s)) σ in
  let '(core1, σ) := alloc_mesh (QuantumHeroScene.core s) [] σ in
  let '(innerCore1, σ) := alloc_mesh (QuantumHeroScene.innerCore s) [] σ in
  let '(glowSphere1, σ) := alloc_mesh (QuantumHeroScene.glowSphere s) [] σ in
  let '(particleSystem1, σ) := alloc_points (QuantumHeroScene.particleSystem s) σ in
  let '(orbitals, σ) :=
    alloc_all (λ o, alloc_mesh (QuantumHeroScene.orbital_mesh o) [])
              (QuantumHeroScene.quantumOrbitals s) σ in
  let '(lines, σ) :=
    alloc_all (λ l, alloc_mesh (QuantumHeroScene.line_mesh l) [])
              (QuantumHeroScene.entanglementLines s) σ in
  ({| camera := camera1; renderer := renderer1; core := core1; innerCore := innerCore1;
      glowSphere := glowSphere1; particleSystem := particleSystem1;
      quantumOrbitals := orbitals; entanglementLines := lines |}, σ).

(** [updateColors], statement by statement.  It assigns no field of
    [this], so [this] is an argument and the store is what it changes.
    Every object the guards [if (this.core)] ... test exists once [init]
    has run. *)
Definition updateColors (this : This) (σ : Heap) : M Heap :=
  colors ← getThemeColors;
  theme ← getCurrentTheme;
  if String.eqb theme "light" then
    d1 ← prop "depth1" depth1 colors;
    σ ← material_color_setHex (core this) d1 σ;
    wo ← prop "wireframeOpacity" wireframeOpacity colors;
    σ ← material_opacity_set (core this) wo σ;
    d2 ← prop "depth2" depth2 colors;
    σ ← material_color_setHex (innerCore this) d2 σ;
    wo ← prop "wireframeOpacity" wireframeOpacity colors;
    σ ← material_opacity_set (innerCore this) (times wo 0.8) σ;
    d3 ← prop "depth3" depth3 colors;
    σ ← material_color_setHex (glowSphere this) d3 σ;
    go ← prop "glowOpacity" glowOpacity colors;
    σ ← material_opacity_set (glowSphere this) go σ;
    po ← prop "particleOpacity" particleOpacity colors;
    σ ← material_opacity_set (particleSystem this) po σ;
    σ ← forEach (quantumOrbitals this) 0
          (λ orbital i σ,
             d2 ← prop "depth2" depth2 colors;
             d3 ← prop "depth3" depth3 colors;
             d4 ← prop "depth4" depth4 colors;
             let depthColors := [d2; d3; d4] in
             σ ← material_color_setHex orbital (mjoin (depthColors !! (i mod 3)%nat)) σ;
             material_opacity_set orbital (Some (0.5 - INR i * 0.1)) σ) σ;
    forEach (entanglementLines this) 0
      (λ line i σ,
         d4 ← prop "depth4" depth4 colors;
         σ ← material_color_setHex line d4 σ;
         lo ← prop "lineOpacity" lineOpacity colors;
         material_opacity_set line lo σ) σ
  else
    c1 ← prop "primary" primary colors;
    σ ← material_color_setHex (core this) c1 σ;
    σ ← material_opacity_set (core this) (Some 0.8) σ;
    c2 ← prop "secondary" secondary colors;
    σ ← material_color_setHex (innerCore this) c2 σ;
    σ ← material_opacity_set (innerCore this) (Some 0.6) σ;
    c1 ← prop "primary" primary colors;
    σ ← material_color_setHex (glowSphere this) c1 σ;
    go ← prop "glowOpacity" glowOpacity colors;
    σ ← material_opacity_set (glowSphere this) go σ;
    po ← prop "particleOpacity" particleOpacity colors;
    σ ← material_opacity_set (particleSystem this) po σ;
    σ ← forEach (quantumOrbitals this) 0
          (λ orbital i σ,
             c1 ← prop "primary" primary colors;
             c2 ← prop "secondary" secondary colors;
             c3 ← prop "highlight" highlight colors;
             let ringColors := [c1; c2; c3] in
             σ ← material_color_setHex orbital (mjoin (ringColors !! (i mod 3)%nat)) σ;
             material_opacity_set orbital (Some 0.4) σ) σ;
    forEach (entanglementLines this) 0
      (λ line i σ,
         c ← random_primary_or_secondary colors;
         σ ← material_color_setHex line c σ;
         material_opacity_set line (Some 0.2) σ) σ.

End QuantumHeroObjects.

(** ** The processor scene by reference *)
Module QuantumProcessorObjects.
Import Store.
Local Open Scope R_scope.

Record QubitRef := { mesh : Ref; ring : Ref }.

Record This := {
  camera : Ref;
  renderer : Ref;
  gridHelper : Ref;
  qubits : list QubitRef;
  connectionLines : list Ref
}.

(** A qubit: the ring, then the sphere it is added to. *)
Definition alloc_qubit (q : QuantumProcessorScene.Qubit) : Alloc QubitRef := λ σ,
  let '(ring1, σ) := alloc_mesh (QuantumProcessorScene.ring q) [] σ in
  let '(mesh1, σ) := alloc_mesh (QuantumProcessorScene.mesh q) [ring1] σ in
  ({| mesh := mesh1; ring := ring1 |}, σ).

Definition allocate (s : QuantumProcessorScene.Scene) : Alloc This := λ σ,
  let '(camera1, σ) := new (CameraObject (QuantumProcessorScene.camera s)) σ in
  let '(renderer1, σ) := new (RendererObject (QuantumProcessorScene.renderer s)) σ in
  let '(grid, σ) := alloc_mesh (QuantumProcessorScene.gridHelper s) [] σ in
  let '(qs, σ) := alloc_all alloc_qubit (QuantumProcessorScene.qubits s) σ in
  let '(lines, σ) :=
    alloc_all (λ l, alloc_mesh l []) (QuantumProcessorScene.connectionLines s) σ in
  ({| camera := camera1; renderer := renderer1; gridHelper := grid; qubits := qs;
      connectionLines := lines |}, σ).

Definition updateColors (this : This) (σ : Heap) : M Heap :=
  colors ← getThemeColors;
  theme ← getCurrentTheme;
  σ ← (if String.eqb theme "light" then
         d4 ← prop "depth4" depth4 colors;
         σ ← material_color_setHex (gridHelper this) d4 σ;
         material_opacity_set (gridHelper this) (Some 0.25) σ
       else
         c ← prop "primary" primary colors;
         σ ← material_color_setHex (gridHelper this) c σ;
         material_opacity_set (gridHelper this) (Some 0.3) σ);
  if String.eqb theme "light" then
    forEach (qubits this) 0
      (λ qubit i σ,
         d2 ← prop "depth2" depth2 colors;
         d3 ← prop "depth3" depth3 colors;
         d4 ← prop "depth4" depth4 colors;
         let depthLevel := mjoin ([d2; d3; d4] !! (i mod 3)%nat) in
         σ ← material_color_setHex (mesh qubit) depthLevel σ;
         so ← prop "solidOpacity" solidOpacity colors;
         σ ← material_opacity_set (mesh qubit) so σ;
         σ ← material_color_setHex (ring qubit) depthLevel σ;
         material_opacity_set (ring qubit) (Some 0.5) σ) σ
  else
    forEach (qubits this) 0
      (λ qubit i σ,
         qubitColor ← random_primary_or_secondary colors;
         σ ← material_color_setHex (mesh qubit) qubitColor σ;
         σ ← material_opacity_set (mesh qubit) (Some 0.9) σ;
         c ← prop "primary" primary colors;
         σ ← material_color_setHex (ring qubit) c σ;
         material_opacity_set (ring qubit) (Some 0.5) σ) σ.

End QuantumProcessorObjects.

(** ** The neural network scene by reference *)
Module NeuralNetworkObjects.
Import Store.
Local Open Scope R_scope.

Record NodeRef := { mesh : Ref; layer : nat }.

Record This := {
  camera : Ref;
  renderer : Ref;
  nodes : list NodeRef;
  connections : list Ref
}.

Definition alloc_node (n : NeuralNetworkScene.Node) : Alloc NodeRef := λ σ,
  let '(mesh1, σ) := alloc_mesh (NeuralNetworkScene.mesh n) [] σ in
  ({| mesh := mesh1; layer := NeuralNetworkScene.layer n |}, σ).

Definition allocate (s : NeuralNetworkScene.Scene) : Alloc This := λ σ,
  let '(camera1, σ) := new (CameraObject (NeuralNetworkScene.camera s)) σ in
  let '(renderer1, σ) := new (RendererObject (NeuralNetworkScene.renderer s)) σ in
  let '(ns, σ) := alloc_all alloc_node (NeuralNetworkScene.nodes s) σ in
  let '(cs, σ) :=
    alloc_all (λ c, alloc_mesh (NeuralNetworkScene.line c) [])
              (NeuralNetworkScene.connections s) σ in
  ({| camera := camera1; renderer := renderer1; nodes := ns; connections := cs |}, σ).

Definition updateColors (this : This) (σ : Heap) : M Heap :=
  colors ← getThemeColors;
  theme ← getCurrentTheme;
  if String.eqb theme "light" then
    σ ← forEach (nodes this) 0
          (λ node i σ,
             nodeColor ← (if NeuralNetworkScene.is_outer_layer (layer node)
                          then prop "depth2" depth2 colors
                          else if (layer node =? 2)%nat then prop "depth4" depth4 colors
                          else prop "depth3" depth3 colors);
             σ ← material_color_setHex (mesh node) nodeColor σ;
             so ← prop "solidOpacity" solidOpacity colors;
             material_opacity_set (mesh node) so σ) σ;
    forEach (connections this) 0
      (λ connection i σ,
         d5 ← prop "depth5" depth5 colors;
         σ ← material_color_setHex connection d5 σ;
         lo ← prop "lineOpacity" lineOpacity colors;
         material_opacity_set connection (times lo 0.6) σ) σ
  else
    σ ← forEach (nodes this) 0
          (λ node i σ,
             nodeColor ← (if NeuralNetworkScene.is_outer_layer (layer node)
                          then prop "primary" primary colors
                          else prop "secondary" secondary colors);
             σ ← material_color_setHex (mesh node) nodeColor σ;
             material_opacity_set (mesh node) (Some 0.8) σ) σ;
    forEach (connections this) 0
      (λ connection i σ,
         c1 ← prop "primary" primary colors;
         σ ← material_color_setHex connection c1 σ;
         material_opacity_set connection (Some 0.2) σ) σ.

End NeuralNetworkObjects.

(** ** The floating particles by reference *)
Module FloatingParticlesObjects.
Import Store.
Local Open Scope R_scope.

Record This := {
  camera : Ref;
  renderer : Ref;
  particles : Ref
}.

Definition allocate (s : FloatingParticlesScene.Scene) : Alloc This := λ σ,
  let '(camera1, σ) := new (CameraObject (FloatingParticlesScene.camera s)) σ in
  let '(renderer1, σ) := new (RendererObject (FloatingParticlesScene.renderer s)) σ in
  let '(particles1, σ) := alloc_points (FloatingParticlesScene.particles s) σ in
  ({| camera := camera1; renderer := renderer1; particles := particles1 |}, σ).

Definition updateColors (this : This) (σ : Heap) : M Heap :=
  colors ← getThemeColors;
  theme ← getCurrentTheme;
  if String.eqb theme "light" then
    po ← prop "particleOpacity" particleOpacity colors;
    material_opacity_set (particles this) (times po 0.8) σ
  else
    po ← prop "particleOpacity" particleOpacity colors;
    material_opacity_set (particles this) po σ.

End FloatingParticlesObjects.

(** ** The feature scene by reference *)
Module FeatureQuantumObjects.
Import Store.
Local Open Scope R_scope.

Record This := {
  camera : Ref;
  renderer : Ref;
  core : Ref;
  orbits : list Ref
}.

(** An orbit: the objects added to it, then the ring itself. *)
Definition alloc_orbit (o : FeatureQuantumScene.Orbit) : Alloc Ref := λ σ,
  let '(children, σ) :=
    alloc_all (λ e, alloc_mesh e []) (FeatureQuantumScene.children o) σ in
  alloc_mesh (FeatureQuantumScene.orbit_mesh o) children σ.

Definition allocate (s : FeatureQuantumScene.Scene) : Alloc This := λ σ,
  let '(camera1, σ) := new (CameraObject (FeatureQuantumScene.camera s)) σ in
  let '(renderer1, σ) := new (RendererObject (FeatureQuantumScene.renderer s)) σ in
  let '(core1, σ) := alloc_mesh (FeatureQuantumScene.core s) [] σ in
  let '(os, σ) := alloc_all alloc_orbit (FeatureQuantumScene.orbits s) σ in
  ({| camera := camera1; renderer := renderer1; core := core1; orbits := os |}, σ).

Definition updateColors (this : This) (σ : Heap) : M Heap :=
  colors ← getThemeColors;
  theme ← getCurrentTheme;
  if String.eqb theme "light" then
    d2 ← prop "depth2" depth2 colors;
    σ ← material_color_setHex (core this) d2 σ;
    wo ← prop "wireframeOpacity" wireframeOpacity colors;
    σ ← material_opacity_set (core this) wo σ;
    forEach (orbits this) 0
      (λ orbit i σ,
         d2 ← prop "depth2" depth2 colors;
         d3 ← prop "depth3" depth3 colors;
         d4 ← prop "depth4" depth4 colors;
         let orbitColor := mjoin ([d2; d3; d4] !! (i mod 3)%nat) in
         σ ← material_color_setHex orbit orbitColor σ;
         σ ← material_opacity_set orbit (Some 0.6) σ;
         match children_of orbit σ !! 0%nat with
         | Some electron =>
             σ ← material_color_setHex electron orbitColor σ;
             so ← prop "solidOpacity" solidOpacity colors;
             material_opacity_set electron so σ
         | None => mret σ
         end) σ
  else
    c1 ← prop "primary" primary colors;
    σ ← material_color_setHex (core this) c1 σ;
    σ ← material_opacity_set (core this) (Some 0.8) σ;
    forEach (orbits this) 0
      (λ orbit i σ,
         orbitColor ← (if (i mod 2 =? 0)%nat then prop "primary" primary colors
                       else prop "secondary" secondary colors);
         σ ← material_color_setHex orbit orbitColor σ;
         σ ← material_opacity_set orbit (Some 0.5) σ;
         match children_of orbit σ !! 0%nat with
         | Some electron => material_color_setHex electron orbitColor σ
         | None => mret σ
         end) σ.

End FeatureQuantumObjects.

(** ** Any scene by reference *)

Inductive AnyThis :=
| HeroThis (this : QuantumHeroObjects.This)
| ProcessorThis (this : QuantumProcessorObjects.This)
| NeuralThis (this : NeuralNetworkObjects.This)
| FloatingThis (this : FloatingParticlesObjects.This)
| FeatureThis (this : FeatureQuantumObjects.This).

(** The Three.js objects of a scene, created on top of the store given. *)
Definition allocate (s : AnyScene) : Store.Alloc AnyThis := λ σ,
  match s with
  | Hero x => let '(this, σ') := QuantumHeroObjects.allocate x σ in (HeroThis this, σ')
  | Processor x =>
      let '(this, σ') := QuantumProcessorObjects.allocate x σ in (ProcessorThis this, σ')
  | Neural x => let '(this, σ') := NeuralNetworkObjects.allocate x σ in (NeuralThis this, σ')
  | Floating x =>
      let '(this, σ') := FloatingParticlesObjects.allocate x σ in (FloatingThis this, σ')
  | Feature x => let '(this, σ') := FeatureQuantumObjects.allocate x σ in (FeatureThis this, σ')
  end.

Definition updateColors_in_place (this : AnyThis) (σ : Store.Heap) : M Store.Heap :=
  match this with
  | HeroThis x => QuantumHeroObjects.updateColors x σ
  | ProcessorThis x => QuantumProcessorObjects.updateColors x σ
  | NeuralThis x => NeuralNetworkObjects.updateColors x σ
  | FloatingThis x => FloatingParticlesObjects.updateColors x σ
  | FeatureThis x => FeatureQuantumObjects.updateColors x σ
  end.

(** The references a scene holds to objects with a material, the objects
    added to its orbits included. *)
Definition painted (this : AnyThis) (σ : Store.Heap) : list Store.Ref :=
  match this with
  | HeroThis x =>
      [QuantumHeroObjects.core x; QuantumHeroObjects.innerCore x;
       QuantumHeroObjects.glowSphere x; QuantumHeroObjects.particleSystem x]
      ++ QuantumHeroObjects.quantumOrbitals x ++ QuantumHeroObjects.entanglementLines x
  | ProcessorThis x =>
      QuantumProcessorObjects.gridHelper x
      :: (QuantumProcessorObjects.mesh <$> QuantumProcessorObjects.qubits x)
      ++ (QuantumProcessorObjects.ring <$> QuantumProcessorObjects.qubits x)
      ++ QuantumProcessorObjects.connectionLines x
  | NeuralThis x =>
      (NeuralNetworkObjects.mesh <$> NeuralNetworkObjects.nodes x)
      ++ NeuralNetworkObjects.connections x
  | FloatingThis x => [FloatingParticlesObjects.particles x]
  | FeatureThis x =>
      FeatureQuantumObjects.core x :: FeatureQuantumObjects.orbits x
      ++ mjoin ((λ o, Store.children_of o σ) <$> FeatureQuantumObjects.orbits x)
  end.
(* ================================================================== *)
(** * The page as a whole                                               *)
(* ================================================================== *)

(** The classes the [DOMContentLoaded] handler of [three-scenes.js]
    instantiates and the ids it gives them, in order. *)
Definition scene_bindings : list (SceneClass * string) :=
  [(QuantumHero, "hero-canvas"); (QuantumProcessor, "tech-canvas");
   (NeuralNetwork, "about-canvas"); (FloatingParticles, "cta-canvas");
   (FeatureQuantum, "feature-visual-1")].

(** The handler itself: five [new] expressions in sequence.  The script
    drops the objects; they are returned here so that they can be spoken
    about. *)
Definition initScenes : M (list (Constructed AnyScene)) :=
  hero ← construct QuantumHero "hero-canvas";
  tech ← construct QuantumProcessor "tech-canvas";
  about ← construct NeuralNetwork "about-canvas";
  cta ← construct FloatingParticles "cta-canvas";
  feature ← construct FeatureQuantum "feature-visual-1";
  mret [hero; tech; about; cta; feature].

(** [[c]] when the page has an element [id], nothing otherwise. *)
Definition built_if_present (w : World) (c : SceneClass) (id : string) : list SceneClass :=
  match document_elements w !! id with
  | Some _ => [c]
  | None => []
  end.

(** The classes of [scene_bindings] whose container is in the page. *)
Definition present_scenes (w : World) : list SceneClass :=
  mjoin ((λ b, built_if_present w b.1 b.2) <$> scene_bindings).

(** The class of the scene a constructor built, if it built one. *)
Definition built_class (r : Constructed AnyScene) : list SceneClass :=
  match r with
  | Built s => [class_of s]
  | NoContainer => []
  end.

(** A theme name for which [ThemeColors[name]] is [undefined]. *)
Definition no_palette (theme : string) : Prop :=
  ThemeColors !! theme = None ∧ theme ∉ object_prototype_keys.

(** The palette property [updateColors] of class [c] reads first outside
    the light theme. *)
Definition first_read (c : SceneClass) : string :=
  match c with
  | FloatingParticles => "particleOpacity"
  | _ => "primary"
  end.

Definition renderer_of (s : AnyScene) : WebGLRenderer :=
  match s with
  | Hero x => QuantumHeroScene.renderer x
  | Processor x => QuantumProcessorScene.renderer x
  | Neural x => NeuralNetworkScene.renderer x
  | Floating x => FloatingParticlesScene.renderer x
  | Feature x => FeatureQuantumScene.renderer x
  end.

(* ================================================================== *)
(** * What the frames write                                             *)
(* ================================================================== *)

(** The material opacities that [animate] rewrites on every frame: those
    of the entanglement lines of the hero scene, and those of the nodes and
    of the connections of the neural network. *)
Definition line_opacities (s : AnyScene) : list (option R) :=
  match s with
  | Hero x =>
      (λ l, opacity (material (QuantumHeroScene.line_mesh l)))
        <$> QuantumHeroScene.entanglementLines x
  | _ => []
  end.

Definition node_opacities (s : AnyScene) : list (option R) :=
  match s with
  | Neural x => (λ n, opacity (material (NeuralNetworkScene.mesh n))) <$> NeuralNetworkScene.nodes x
  | _ => []
  end.

Definition connection_opacities (s : AnyScene) : list (option R) :=
  match s with
  | Neural x =>
      (λ c, opacity (material (NeuralNetworkScene.line c))) <$> NeuralNetworkScene.connections x
  | _ => []
  end.


(* ================================================================== *)
(** * The life of a scene after it is built                             *)
(* ================================================================== *)

(** What the page delivers to a scene once its constructor has run. *)
Inductive PageEvent :=
| AnimationFrame (time : R)   (* the display refreshes; the clock reads [time] *)
| ThemeToggle                 (* a click on the toggle button *)
| WindowResize
| MouseMove (clientX clientY innerWidth innerHeight : R).

(** The scene's handler for each event: [animate], the mutation observer's
    callback after the click handler of [main.js], [onResize], and
    [onMouseMove], which only the hero scene registers. *)
Definition handle (e : PageEvent) (s : AnyScene) : M AnyScene :=
  match e with
  | AnimationFrame time => frame time s
  | ThemeToggle => toggle s
  | WindowResize =>
      r ← scene_onResize s;
      mret (match r with Built s' => s' | NoContainer => s end)
  | MouseMove clientX clientY innerWidth innerHeight =>
      mret (match s with
            | Hero x =>
                Hero (QuantumHeroScene.onMouseMove clientX clientY innerWidth innerHeight x)
            | _ => s
            end)
  end.

Fixpoint handle_all (es : list PageEvent) (s : AnyScene) : M AnyScene :=
  match es with
  | [] => mret s
  | e :: rest => s' ← handle e s; handle_all rest s'
  end.

(* ================================================================== *)
(** * The shape of the scenes as built                                  *)
(* ================================================================== *)

(** An orbit of the feature scene whose only child, the electron, sits on
    the ring: at the distance of the ring's radius from the centre. *)
Definition electron_on_ring (o : FeatureQuantumScene.Orbit) : Prop :=
  ∃ r tube radialSegments tubularSegments e,
    geometry (FeatureQuantumScene.orbit_mesh o)
      = TorusGeometry r tube radialSegments tubularSegments ∧
    FeatureQuantumScene.children o = [e] ∧
    position e = vec3 r 0 0.

Definition feature_orbits (s : AnyScene) : list FeatureQuantumScene.Orbit :=
  match s with
  | Feature x => FeatureQuantumScene.orbits x
  | _ => []
  end.

(** The position array of the floating particles. *)
Definition floating_positions (s : AnyScene) : list R :=
  match s with
  | Floating x => position_array (points_geometry (FloatingParticlesScene.particles x))
  | _ => []
  end.

(** The box of 60 × 30 × 30 around the origin. *)
Definition in_box (v : Vector3) : Prop :=
  (-30 <= vx v <= 30 ∧ -15 <= vy v <= 15 ∧ -15 <= vz v <= 15)%R.

Definition neural_nodes (s : AnyScene) : list NeuralNetworkScene.Node :=
  match s with
  | Neural x => NeuralNetworkScene.nodes x
  | _ => []
  end.

Definition neural_connections (s : AnyScene) : list NeuralNetworkScene.Connection :=
  match s with
  | Neural x => NeuralNetworkScene.connections x
  | _ => []
  end.

(** Where [createNeuralNetwork] puts node [i] of layer [l], a layer of
    [count] nodes: the layers are 8 apart and the nodes of a layer 4
    apart, both centred on the origin. *)
Definition node_place (count l i : nat) : Vector3 :=
  vec3 ((INR l - (INR (length NeuralNetworkScene.layers) - 1) / 2) * NeuralNetworkScene.layerSpacing)
       ((INR i - (INR count - 1) / 2) * NeuralNetworkScene.nodeSpacing)
       0%R.

(** A node reduced to its layer, its index in the layer and its place. *)
Definition node_key (n : NeuralNetworkScene.Node) : nat * nat * Vector3 :=
  (NeuralNetworkScene.layer n, NeuralNetworkScene.index n,
   position (NeuralNetworkScene.mesh n)).

(** The keys of the nodes of the network, layer by layer. *)
Definition layer_keys (l count : nat) : list (nat * nat * Vector3) :=
  (λ i, (l, i, node_place count l i)) <$> seq 0 count.

Definition network_keys : list (nat * nat * Vector3) :=
  mjoin (imap layer_keys NeuralNetworkScene.layers).

(** A connection from a node of one of the first four layers to a node of
    the layer after it. *)
Definition joins_next_layer (c : NeuralNetworkScene.Connection) : Prop :=
  fst (NeuralNetworkScene.from c) < 4 ∧
  fst (NeuralNetworkScene.to c) = S (fst (NeuralNetworkScene.from c)).

(** The number of pairs of nodes in consecutive layers, per layer. *)
Definition pair_counts : list nat :=
  zip_with Nat.mul NeuralNetworkScene.layers (tail NeuralNetworkScene.layers).

(* ================================================================== *)
(** * main.js: the Konami code                                          *)
(* ================================================================== *)

Module Konami.

Definition konamiCode : list string :=
  ["ArrowUp"; "ArrowUp"; "ArrowDown"; "ArrowDown"; "ArrowLeft"; "ArrowRight";
   "ArrowLeft"; "ArrowRight"; "b"; "a"].

(** [konamiIndex], and how many times [activateQuantumMode] was called. *)
Record State := {
  konamiIndex : nat;
  activations : nat
}.

Definition initial : State := {| konamiIndex := 0; activations := 0 |}.

(** The [keydown] listener.  [konamiCode[konamiIndex]] is [undefined] past
    the end of the array, which no key equals. *)
Definition keydown (key : string) (st : State) : State :=
  if bool_decide (konamiCode !! konamiIndex st = Some key) then
    let i := S (konamiIndex st) in
    if (i =? length konamiCode)%nat
    then {| konamiIndex := 0; activations := S (activations st) |}
    else {| konamiIndex := i; activations := activations st |}
  else {| konamiIndex := 0; activations := activations st |}.

(** The listener on the keys [keys], in order. *)
Definition keydowns (keys : list string) (st : State) : State :=
  fold_left (λ st' key, keydown key st') keys st.

End Konami.

(* ================================================================== *)
(** * main.js: the mobile menu                                          *)
(* ================================================================== *)

Module MobileMenu.

(** Whether the button and the menu carry the class [active] and the body
    the class [menu-open]. *)
Record State := {
  button_active : bool;
  menu_active : bool;
  body_menu_open : bool
}.

Inductive Event :=
| ButtonClick
| LinkClick
| Keydown (key : string).

(** [classList.toggle] on the three elements. *)
Definition toggleMenu (st : State) : State :=
  {| button_active := negb (button_active st);
     menu_active := negb (menu_active st);
     body_menu_open := negb (body_menu_open st) |}.

(** The three listeners [initMobileMenu] installs. *)
Definition handle (e : Event) (st : State) : State :=
  match e with
  | ButtonClick => toggleMenu st
  | LinkClick => {| button_active := false; menu_active := false; body_menu_open := false |}
  | Keydown key =>
      if String.eqb key "Escape" && menu_active st then toggleMenu st else st
  end.

Definition handle_all (es : list Event) (st : State) : State :=
  fold_left (λ st' e, handle e st') es st.

End MobileMenu.

(* ================================================================== *)
(** * main.js: the navigation bar                                       *)
(* ================================================================== *)

Module Navigation.
Local Open Scope R_scope.

(** The closure variables of [initNavigation], the two things
    [updateNavbar] writes on the bar, and the number of [updateNavbar]
    callbacks waiting for the next animation frame. *)
Record State := {
  lastScrollY : R;
  ticking : bool;
  scrolled : bool;            (* the class [scrolled] *)
  transform : string;         (* [navbar.style.transform] *)
  pending : nat
}.

Definition initial (scrollY : R) : State :=
  {| lastScrollY := scrollY; ticking := false; scrolled := false; transform := "";
     pending := 0 |}.

(** [updateNavbar], with [window.scrollY] as it is when the callback
    runs. *)
Definition updateNavbar (currentScrollY : R) (st : State) : State :=
  {| lastScrollY := currentScrollY;
     ticking := false;
     scrolled := if Rgt_dec currentScrollY 50 then true else false;
     transform :=
       if Rgt_dec currentScrollY (lastScrollY st) then
         if Rgt_dec currentScrollY 200 then "translateY(-100%)" else "translateY(0)"
       else "translateY(0)";
     pending := pending st |}.

(** The first [scroll] listener. *)
Definition onScroll (st : State) : State :=
  if ticking st then st
  else {| lastScrollY := lastScrollY st; ticking := true; scrolled := scrolled st;
          transform := transform st; pending := S (pending st) |}.

(** An animation frame: the callbacks that wait are run. *)
Definition onFrame (scrollY : R) (st : State) : State :=
  Nat.iter (pending st) (updateNavbar scrollY)
    {| lastScrollY := lastScrollY st; ticking := ticking st; scrolled := scrolled st;
       transform := transform st; pending := 0 |}.

Inductive Event :=
| Scroll
| Frame (scrollY : R).

Definition handle (e : Event) (st : State) : State :=
  match e with
  | Scroll => onScroll st
  | Frame scrollY => onFrame scrollY st
  end.

Definition handle_all (es : list Event) (st : State) : State :=
  fold_left (λ st' e, handle e st') es st.

(** A section of the page and a link of the navigation bar, as
    [setActiveLink] reads them. *)
Record PageSection := {
  offsetTop : R;
  sectionHeight : R;
  sectionId : string
}.

Record NavLink := {
  href : string;
  active : bool
}.

(** [scrollY >= sectionTop && scrollY < sectionTop + sectionHeight]. *)
Definition in_view (scrollY : R) (s : PageSection) : bool :=
  let sectionTop := offsetTop s - 100 in
  (if Rge_dec scrollY sectionTop then true else false)
  && (if Rlt_dec scrollY (sectionTop + sectionHeight s) then true else false).

(** The inner [forEach]: every link loses [active], and gets it back when
    it points to the section. *)
Definition activate (id : string) (links : list NavLink) : list NavLink :=
  (λ link, {| href := href link; active := String.eqb (href link) ("#" +:+ id) |}) <$> links.

Definition setActiveLink (scrollY : R) (sections : list PageSection) (links : list NavLink)
    : list NavLink :=
  fold_left (λ links' s, if in_view scrollY s then activate (sectionId s) links' else links')
            sections links.

End Navigation.

(* ================================================================== *)
(** * main.js: utility functions                                        *)
(* ================================================================== *)

Module Timing.

(** Time is counted in milliseconds.  [fires due now] tells whether the
    host has run a timer due at [due] by the time it delivers an event at
    [now]; a host never runs a timer early. *)
Definition never_early (fires : nat → nat → bool) : Prop :=
  ∀ due now, fires due now = true → due ≤ now.

(** The closure [throttle(func, limit)] returns: its variable [inThrottle],
    the due times of the timers it has set, and the calls it has passed on
    to [func], with their times. *)
Record Throttled (A : Type) := {
  inThrottle : bool;
  reset_timers : list nat;
  passed : list (nat * A)
}.
Arguments inThrottle {A} _.
Arguments reset_timers {A} _.
Arguments passed {A} _.

Definition throttle {A : Type} : Throttled A :=
  {| inThrottle := false; reset_timers := []; passed := [] |}.

(** The timers that have fired run first ([inThrottle = false]). *)
Definition throttle_timers {A : Type} (fires : nat → nat → bool) (now : nat)
    (st : Throttled A) : Throttled A :=
  {| inThrottle := inThrottle st && negb (existsb (λ due, fires due now) (reset_timers st));
     reset_timers := filter (λ due, fires due now = false) (reset_timers st);
     passed := passed st |}.

(** A call of the throttled function at time [now]. *)
Definition throttle_call {A : Type} (fires : nat → nat → bool) (limit : nat)
    (st : Throttled A) (call : nat * A) : Throttled A :=
  let now := call.1 in
  let st1 := throttle_timers fires now st in
  if inThrottle st1 then st1
  else {| inThrottle := true;
          reset_timers := reset_timers st1 ++ [now + limit];
          passed := passed st1 ++ [call] |}.

Definition throttle_calls {A : Type} (fires : nat → nat → bool) (limit : nat)
    (calls : list (nat * A)) : Throttled A :=
  fold_left (throttle_call fires limit) calls throttle.

(** The closure [debounce(func, wait)] returns: the timer [timeout] refers
    to while it is pending, with its due time and the arguments [later]
    will pass, and the calls of [func] so far, each with the due time of
    the timer that made it. *)
Record Debounced (A : Type) := {
  timeout : option (nat * A);
  delivered : list (nat * A)
}.
Arguments timeout {A} _.
Arguments delivered {A} _.

Definition debounce {A : Type} : Debounced A := {| timeout := None; delivered := [] |}.

(** The pending timer runs [later] when it has fired. *)
Definition debounce_timers {A : Type} (fires : nat → nat → bool) (now : nat)
    (st : Debounced A) : Debounced A :=
  match timeout st with
  | Some (due, args) =>
      if fires due now
      then {| timeout := None; delivered := delivered st ++ [(due, args)] |}
      else st
  | None => st
  end.

(** A call of the debounced function at time [now]:
    [clearTimeout(timeout); timeout = setTimeout(later, wait)]. *)
Definition debounce_call {A : Type} (fires : nat → nat → bool) (wait : nat)
    (st : Debounced A) (call : nat * A) : Debounced A :=
  let st1 := debounce_timers fires call.1 st in
  {| timeout := Some (call.1 + wait, call.2); delivered := delivered st1 |}.

Definition debounce_calls {A : Type} (fires : nat → nat → bool) (wait : nat)
    (calls : list (nat * A)) : Debounced A :=
  fold_left (debounce_call fires wait) calls debounce.

(** Once no call comes any more, the pending timer fires. *)
Definition settle {A : Type} (st : Debounced A) : Debounced A :=
  match timeout st with
  | Some (due, args) => {| timeout := None; delivered := delivered st ++ [(due, args)] |}
  | None => st
  end.

(** Calls in order of time, each less than [wait] after the one before. *)
Fixpoint burst {A : Type} (wait : nat) (calls : list (nat * A)) : Prop :=
  match calls with
  | [] => True
  | c :: rest =>
      match rest with
      | [] => True
      | c' :: _ => c.1 ≤ c'.1 ∧ c'.1 < c.1 + wait
      end ∧ burst wait rest
  end.

(** Calls in order of time. *)
Fixpoint in_order {A : Type} (calls : list (nat * A)) : Prop :=
  match calls with
  | [] => True
  | c :: rest =>
      match rest with
      | [] => True
      | c' :: _ => c.1 ≤ c'.1
      end ∧ in_order rest
  end.

(** Consecutive entries at least [limit] apart. *)
Fixpoint spaced {A : Type} (limit : nat) (calls : list (nat * A)) : Prop :=
  match calls with
  | [] => True
  | c :: rest =>
      match rest with
      | [] => True
      | c' :: _ => c.1 + limit ≤ c'.1
      end ∧ spaced limit rest
  end.

End Timing.


(** The three classes of the mobile menu agree. *)
Definition menu_in_sync (st : MobileMenu.State) : Prop :=
  MobileMenu.button_active st = MobileMenu.menu_active st ∧
  MobileMenu.body_menu_open st = MobileMenu.menu_active st.

(** A page as a reload finds it: the storage is kept, the attribute, the
    listeners and the observers are gone. *)
Definition reloaded (w : World) : World :=
  {| data_theme := None; document_elements := (λ e, {| offsetWidth := offsetWidth e;
                                                      offsetHeight := offsetHeight e;
                                                      canvases := [] |}) <$> document_elements w;
     localStorage := localStorage w;
     click_listeners := ∅; resize_listeners := []; mousemove_listeners := [];
     observers := []; frame_requests := []; random_source := random_source w;
     random_pos := random_pos w; elapsed := 0%R; devicePixelRatio := devicePixelRatio w;
     log := [] |}.

(** What the closure of [throttle] keeps true, [now] being the time of the
    last call: the calls passed on are [limit] apart; while [inThrottle]
    is set one timer is pending, set by the last call passed on; while it
    is not, no timer is pending and the last call passed on is at least
    [limit] old. *)
Definition throttle_inv {A : Type} (limit now : nat) (st : Timing.Throttled A) : Prop :=
  Timing.spaced limit (Timing.passed st) ∧
  (∀ c, last (Timing.passed st) = Some c → c.1 ≤ now) ∧
  (if Timing.inThrottle st
   then ∃ c, last (Timing.passed st) = Some c ∧ Timing.reset_timers st = [c.1 + limit]
   else Timing.reset_timers st = []
        ∧ ∀ c, last (Timing.passed st) = Some c → c.1 + limit ≤ now).

(** The first class of [scene_bindings] whose container is in the page,
    with the id of the container. *)
Definition first_present (w : World) : option (SceneClass * string) :=
  head (filter (λ b, is_Some (document_elements w !! b.2)) scene_bindings).




(** How many records of a batch of mutations are for [data-theme]. *)
Definition theme_records (mutations : list string) : nat :=
  length (filter (λ name, name = "data-theme") mutations).

(* ================================================================== *)
(** * Reasoning about [M]                                               *)
(* ================================================================== *)

Lemma bind_ok {A B : Type} (m : M A) (f : A → M B) w a w' :
  m w = (Ok a, w') → (m ≫= f) w = f a w'.
Proof. intros H. unfold mbind, M_bind. now rewrite H. Qed.

Lemma bind_throw {A B : Type} (m : M A) (f : A → M B) w e w' :
  m w = (Throw e, w') → (m ≫= f) w = (Throw e, w').
Proof. intros H. unfold mbind, M_bind. now rewrite H. Qed.

Lemma fmap_ok {A B : Type} (m : M A) (f : A → B) w a w' :
  m w = (Ok a, w') → (f <$> m) w = (Ok (f a), w').
Proof. intros H. unfold fmap, M_fmap. now rewrite (bind_ok _ _ _ _ _ H). Qed.

Lemma returns_eq {A : Type} (m : M A) w a w' (Q : A → World → Prop) :
  m w = (Ok a, w') → Q a w' → returns m w Q.
Proof. intros Hm HQ. now exists a, w'. Qed.

Lemma returns_ret {A : Type} (a : A) w (Q : A → World → Prop) :
  Q a w → returns (mret a) w Q.
Proof. intros H. now exists a, w. Qed.

Lemma returns_bind {A B : Type} (m : M A) (f : A → M B) w (Q : B → World → Prop) :
  returns m w (λ a w', returns (f a) w' Q) → returns (m ≫= f) w Q.
Proof.
  intros (a & w' & Hm & b & w'' & Hf & HQ).
  exists b, w''. split; [|exact HQ]. now rewrite (bind_ok _ _ _ _ _ Hm).
Qed.

Lemma returns_fmap {A B : Type} (m : M A) (f : A → B) w (Q : B → World → Prop) :
  returns m w (λ a w', Q (f a) w') → returns (f <$> m) w Q.
Proof.
  intros (a & w' & Hm & HQ). exists (f a), w'. split; [|exact HQ]. now apply fmap_ok.
Qed.

Lemma returns_mono {A : Type} (m : M A) w (P Q : A → World → Prop) :
  returns m w P → (∀ a w', P a w' → Q a w') → returns m w Q.
Proof. intros (a & w' & Hm & HP) H. exists a, w'. auto. Qed.

Lemma returns_gets {A : Type} (f : World → A) w (Q : A → World → Prop) :
  Q (f w) w → returns (gets f) w Q.
Proof. intros H. now exists (f w), w. Qed.

Lemma returns_modify (f : World → World) w (Q : unit → World → Prop) :
  Q tt (f w) → returns (modify f) w Q.
Proof. intros H. now exists tt, (f w). Qed.

Lemma returns_random w (Q : R → World → Prop) :
  Q (random_source w (random_pos w)) (advance 1 w) → returns Host.random w Q.
Proof.
  intros H. exists (random_source w (random_pos w)), (advance 1 w).
  split; [reflexivity | exact H].
Qed.

(** A loop that keeps an invariant returns in a state that satisfies it. *)
Lemma returns_for_loop {St : Type} (Inv : nat → St → World → Prop) (body : nat → St → M St) :
  ∀ count start s w,
    Inv start s w →
    (∀ i s' w', start ≤ i < start + count → Inv i s' w' →
                returns (body i s') w' (Inv (S i))) →
    returns (for_loop count start body s) w (Inv (start + count)).
Proof.
  induction count as [|count IH]; intros start s w H0 Hbody; simpl.
  - apply returns_ret. now rewrite Nat.add_0_r.
  - apply returns_bind.
    eapply returns_mono; [apply Hbody; [lia | exact H0]|].
    intros s' w' H1. replace (start + S count) with (S start + count) by lia.
    apply IH; [exact H1|]. intros i s'' w'' Hi. apply Hbody. lia.
Qed.

Lemma returns_forEach {A St : Type} (Inv : nat → St → World → Prop)
    (body : A → nat → St → M St) :
  ∀ xs i s w,
    Inv i s w →
    (∀ k x s' w', xs !! k = Some x → Inv (i + k) s' w' →
                  returns (body x (i + k) s') w' (Inv (S (i + k)))) →
    returns (forEach xs i body s) w (Inv (i + length xs)).
Proof.
  induction xs as [|x xs IH]; intros i s w H0 Hbody; simpl.
  - apply returns_ret. now rewrite Nat.add_0_r.
  - apply returns_bind.
    eapply returns_mono.
    { specialize (Hbody 0 x s w eq_refl). rewrite Nat.add_0_r in Hbody. now apply Hbody. }
    intros s' w' H1. replace (i + S (length xs)) with (S i + length xs) by lia.
    apply IH; [exact H1|]. intros k y s'' w'' Hk Hinv.
    replace (S i + k) with (i + S k) in * by lia. now apply Hbody.
Qed.

(** The world fields that drawing random values leaves alone. *)
Lemma advance_0 w : advance 0 w = w.
Proof. now destruct w. Qed.

Lemma advance_advance a b w : advance a (advance b w) = advance (a + b) w.
Proof. unfold advance, set_random_pos. simpl. f_equal. lia. Qed.

Lemma theme_of_advance k w : theme_of (advance k w) = theme_of w.
Proof. reflexivity. Qed.

Lemma ThemeColors_dark : ThemeColors !! "dark" = Some dark.
Proof. reflexivity. Qed.

Lemma ThemeColors_light : ThemeColors !! "light" = Some light.
Proof. reflexivity. Qed.

Lemma ThemeColors_other (t : string) :
  t ≠ "dark" → t ≠ "light" → ThemeColors !! t = None.
Proof.
  intros Hd Hl. unfold ThemeColors.
  rewrite lookup_insert_ne by congruence. rewrite lookup_insert_ne by congruence.
  apply lookup_empty.
Qed.

Lemma getCurrentTheme_eq w : getCurrentTheme w = (Ok (theme_of w), w).
Proof. reflexivity. Qed.

Lemma getThemeColors_eq w :
  getThemeColors w =
  (Ok (match ThemeColors !! theme_of w with
       | Some p => PaletteObject p
       | None => if bool_decide (theme_of w ∈ object_prototype_keys)
                 then PrototypeMember (theme_of w) else Undefined
       end), w).
Proof. reflexivity. Qed.

Lemma getThemeColors_dark w :
  theme_of w = "dark" → getThemeColors w = (Ok (PaletteObject dark), w).
Proof. intros H. rewrite getThemeColors_eq, H. reflexivity. Qed.

Lemma getThemeColors_light w :
  theme_of w = "light" → getThemeColors w = (Ok (PaletteObject light), w).
Proof. intros H. rewrite getThemeColors_eq, H. reflexivity. Qed.

(* ================================================================== *)
(** * Stores into a [Float32Array]                                      *)
(* ================================================================== *)

Section Float32Facts.
Import Float32Array.
Local Open Scope R_scope.

Lemma Rabs_le_inv (x b : R) : Rabs x <= b → - b <= x <= b.
Proof. unfold Rabs. destruct (Rcase_abs x); lra. Qed.

Lemma nearest_even_error (x : R) : Rabs (IZR (nearest_even x) - x) <= 1 / 2.
Proof.
  unfold nearest_even. pose proof (Zfloor_bound x) as [Hl Hu].
  destruct (Rlt_dec _ _) as [H1 | H1].
  - apply Rabs_le. lra.
  - destruct (Rlt_dec _ _) as [H2 | H2].
    + rewrite plus_IZR. apply Rabs_le. lra.
    + destruct (Z.even _); [|rewrite plus_IZR]; apply Rabs_le; lra.
Qed.

Lemma nearest_even_IZR (k : Z) : nearest_even (IZR k) = k.
Proof.
  unfold nearest_even. rewrite ZfloorZ.
  destruct (Rlt_dec _ _) as [H1 | H1]; [reflexivity | lra].
Qed.

Lemma nearest_even_le (x : R) (k : Z) : x <= IZR k → (nearest_even x <= k)%Z.
Proof.
  intros Hx. unfold nearest_even. pose proof (Zfloor_bound x) as [Hl Hu].
  assert (Hf : (Zfloor x <= k)%Z) by (apply le_IZR; lra).
  destruct (Rlt_dec _ _) as [H1 | H1]; [exact Hf|].
  assert (Hlt : (Zfloor x < k)%Z).
  { apply lt_IZR. lra. }
  destruct (Rlt_dec _ _); [lia|]. destruct (Z.even _); lia.
Qed.

Lemma nearest_even_ge (x : R) (k : Z) : IZR k <= x → (k <= nearest_even x)%Z.
Proof.
  intros Hx. unfold nearest_even. pose proof (Zfloor_bound x) as [Hl Hu].
  assert (Hf : (k <= Zfloor x)%Z) by now apply Zfloor_lub.
  destruct (Rlt_dec _ _); [exact Hf|].
  destruct (Rlt_dec _ _); [lia|]. destruct (Z.even _); lia.
Qed.

Lemma ln_powerRZ_2 (e : Z) : ln (powerRZ 2 e) = IZR e * ln 2.
Proof.
  rewrite powerRZ_Rpower by lra. unfold Rpower. now rewrite ln_exp.
Qed.

Lemma ln_2_pos : 0 < ln 2.
Proof. pose proof ln_lt_2. lra. Qed.

Lemma ln_nonpos (x : R) : x <= 0 → ln x = 0.
Proof. intros Hx. unfold ln. destruct (Rlt_dec 0 x); [exfalso; lra | reflexivity]. Qed.

Lemma mag_le (x : R) (e : Z) : (1 <= e)%Z → Rabs x < powerRZ 2 e → (mag x <= e)%Z.
Proof.
  intros He Hx. unfold mag.
  assert (Hfl : (Zfloor (ln (Rabs x) / ln 2) < e)%Z); [|lia].
  apply lt_IZR. pose proof (Zfloor_bound (ln (Rabs x) / ln 2)) as [Hl _].
  eapply Rle_lt_trans; [exact Hl|].
  pose proof ln_2_pos as H2.
  apply Rmult_lt_reg_r with (ln 2); [exact H2|].
  unfold Rdiv. rewrite Rmult_assoc, Rinv_l, Rmult_1_r by lra.
  rewrite <- ln_powerRZ_2.
  destruct (Rle_lt_dec (Rabs x) 0) as [H0 | H0].
  - rewrite (ln_nonpos _ H0), ln_powerRZ_2. apply Rmult_lt_0_compat; [apply IZR_lt; lia | exact H2].
  - now apply ln_increasing.
Qed.

Lemma mag_unique (x : R) (e : Z) :
  powerRZ 2 (e - 1) <= Rabs x < powerRZ 2 e → mag x = e.
Proof.
  intros [Hl Hu]. unfold mag.
  assert (Hpos : 0 < Rabs x).
  { eapply Rlt_le_trans; [|exact Hl]. apply powerRZ_lt. lra. }
  pose proof ln_2_pos as H2.
  rewrite (Zfloor_eq (e - 1)); [lia|].
  rewrite minus_IZR. split.
  - apply Rmult_le_reg_r with (ln 2); [exact H2|].
    unfold Rdiv. rewrite Rmult_assoc, Rinv_l, Rmult_1_r by lra.
    replace ((IZR e - 1) * ln 2) with (ln (powerRZ 2 (e - 1)))
      by (rewrite ln_powerRZ_2, minus_IZR; reflexivity).
    destruct Hl as [Hl | Hl]; [left; apply ln_increasing; [apply powerRZ_lt; lra | exact Hl]|].
    right. now rewrite Hl.
  - apply Rmult_lt_reg_r with (ln 2); [exact H2|].
    unfold Rdiv. rewrite Rmult_assoc, Rinv_l, Rmult_1_r by lra.
    replace ((IZR e - 1 + 1) * ln 2) with (ln (powerRZ 2 e))
      by (rewrite ln_powerRZ_2; ring).
    now apply ln_increasing.
Qed.

Lemma powerRZ_2_le (a b : Z) : (a <= b)%Z → powerRZ 2 a <= powerRZ 2 b.
Proof.
  intros Hab. replace b with (a + (b - a))%Z by lia.
  rewrite powerRZ_add by lra.
  assert (H1 : 1 <= powerRZ 2 (b - a)).
  { destruct (b - a)%Z eqn:E; try lia; simpl; [lra|].
    apply pow_R1_Rle. lra. }
  pose proof (powerRZ_lt 2 a ltac:(lra)). nra.
Qed.

Lemma powerRZ_2_cancel (e : Z) : powerRZ 2 (- e) * powerRZ 2 e = 1.
Proof. rewrite <- powerRZ_add by lra. now replace (- e + e)%Z with 0%Z by lia. Qed.

(** The error of a store is at most half a unit in the last place. *)
Lemma fround_error_ulp (x : R) :
  Rabs (fround x - x) <= powerRZ 2 (ulp_exponent x) / 2.
Proof.
  unfold fround. set (e := ulp_exponent x).
  pose proof (powerRZ_lt 2 e ltac:(lra)) as Hq.
  pose proof (nearest_even_error (x * powerRZ 2 (- e))) as Hn.
  replace (IZR (nearest_even (x * powerRZ 2 (- e))) * powerRZ 2 e - x)
    with ((IZR (nearest_even (x * powerRZ 2 (- e))) - x * powerRZ 2 (- e)) * powerRZ 2 e).
  2:{ rewrite Rmult_minus_distr_r, Rmult_assoc, powerRZ_2_cancel. ring. }
  rewrite Rabs_mult, (Rabs_pos_eq (powerRZ 2 e)) by lra. nra.
Qed.

Lemma ulp_exponent_le (x : R) (e : Z) :
  (1 <= e)%Z → (-125 <= e)%Z → Rabs x < powerRZ 2 e → (ulp_exponent x <= e - 24)%Z.
Proof.
  intros H1 H2 Hx. unfold ulp_exponent. pose proof (mag_le x e H1 Hx). lia.
Qed.

Lemma fround_error (x : R) (e : Z) :
  (1 <= e)%Z → Rabs x < powerRZ 2 e → Rabs (fround x - x) <= powerRZ 2 (e - 25).
Proof.
  intros He Hx. eapply Rle_trans; [apply fround_error_ulp|].
  pose proof (ulp_exponent_le x e He ltac:(lia) Hx) as Hu.
  pose proof (powerRZ_2_le _ _ Hu) as Hle.
  replace (e - 24)%Z with ((e - 25) + 1)%Z in Hle by lia.
  rewrite powerRZ_add in Hle by lra. simpl (powerRZ 2 1) in Hle. lra.
Qed.

Lemma powerRZ_2_IZR (d : Z) : (0 <= d)%Z → powerRZ 2 d = IZR (2 ^ d).
Proof.
  intros Hd. destruct d as [|p|p]; [reflexivity| |lia].
  unfold powerRZ. now rewrite pow_IZR, positive_nat_Z.
Qed.

(** A store does not cross a number of the grid it rounds to. *)
Lemma fround_le (x : R) (k j : Z) :
  (ulp_exponent x <= j)%Z → x <= IZR k * powerRZ 2 j → fround x <= IZR k * powerRZ 2 j.
Proof.
  intros Hj Hx. unfold fround. set (e := ulp_exponent x) in *.
  pose proof (powerRZ_lt 2 e ltac:(lra)) as Hq.
  replace j with ((j - e) + e)%Z in * by lia. rewrite powerRZ_add in * by lra.
  set (d := (j - e)%Z) in *.
  assert (Hd : powerRZ 2 d = IZR (2 ^ d)) by (apply powerRZ_2_IZR; lia).
  rewrite Hd in *. rewrite <- Rmult_assoc, <- mult_IZR in *.
  apply Rmult_le_compat_r; [lra|]. apply IZR_le, nearest_even_le.
  apply Rmult_le_reg_r with (powerRZ 2 e); [exact Hq|].
  rewrite Rmult_assoc, powerRZ_2_cancel. lra.
Qed.

Lemma fround_ge (x : R) (k j : Z) :
  (ulp_exponent x <= j)%Z → IZR k * powerRZ 2 j <= x → IZR k * powerRZ 2 j <= fround x.
Proof.
  intros Hj Hx. unfold fround. set (e := ulp_exponent x) in *.
  pose proof (powerRZ_lt 2 e ltac:(lra)) as Hq.
  replace j with ((j - e) + e)%Z in * by lia. rewrite powerRZ_add in * by lra.
  set (d := (j - e)%Z) in *.
  assert (Hd : powerRZ 2 d = IZR (2 ^ d)) by (apply powerRZ_2_IZR; lia).
  rewrite Hd in *. rewrite <- Rmult_assoc, <- mult_IZR in *.
  apply Rmult_le_compat_r; [lra|]. apply IZR_le, nearest_even_ge.
  apply Rmult_le_reg_r with (powerRZ 2 e); [exact Hq|].
  rewrite Rmult_assoc, powerRZ_2_cancel. lra.
Qed.

Lemma nearest_even_unique (x : R) (k : Z) : Rabs (x - IZR k) < 1 / 2 → nearest_even x = k.
Proof.
  intros Hx. apply Rabs_def2 in Hx. unfold nearest_even.
  pose proof (Zfloor_bound x) as [Hl Hu].
  assert (Hle : (Zfloor x <= k)%Z).
  { apply Z.lt_succ_r, lt_IZR. rewrite succ_IZR. lra. }
  assert (Hge : (k - 1 <= Zfloor x)%Z).
  { apply Z.lt_succ_r, lt_IZR. rewrite succ_IZR, minus_IZR. lra. }
  destruct (Z.eq_dec (Zfloor x) k) as [Hf | Hf].
  - rewrite Hf in *. destruct (Rlt_dec _ _) as [H1 | H1]; [reflexivity | lra].
  - assert (Hf' : Zfloor x = (k - 1)%Z) by lia.
    rewrite Hf' in *. rewrite minus_IZR in *.
    destruct (Rlt_dec _ _) as [H1 | H1]; [lra|].
    destruct (Rlt_dec _ _) as [H2 | H2]; [lia | lra].
Qed.

Lemma fround_0 : fround 0 = 0.
Proof. unfold fround. now rewrite Rmult_0_l, (nearest_even_IZR 0), Rmult_0_l. Qed.

(** The store of a number of a known binade, from the integer nearest to
    its significand. *)
Lemma fround_nearest (x : R) (e k : Z) :
  powerRZ 2 (e - 1) <= Rabs x < powerRZ 2 e → (-149 <= e - 24)%Z →
  Rabs (x * powerRZ 2 (- (e - 24)) - IZR k) < 1 / 2 →
  fround x = IZR k * powerRZ 2 (e - 24).
Proof.
  intros Hx He Hk. unfold fround, ulp_exponent. rewrite (mag_unique x e Hx).
  rewrite Z.max_l by lia. now rewrite (nearest_even_unique _ k Hk).
Qed.

(** A store keeps a number within the bounds it lies in, when they are
    whole numbers below 32. *)
Lemma fround_in_range (x : R) (k : Z) :
  (0 <= k < 32)%Z → - IZR k <= x <= IZR k → - IZR k <= fround x <= IZR k.
Proof.
  intros Hk Hx.
  assert (H32 : powerRZ 2 5 = 32) by (simpl; lra).
  assert (Hk' : IZR k < 32) by (apply IZR_lt; lia).
  assert (Hu : (ulp_exponent x <= 0)%Z).
  { pose proof (ulp_exponent_le x 5 ltac:(lia) ltac:(lia)) as HU. rewrite H32 in HU.
    assert (Rabs x < 32) by (apply Rabs_def1; lra). specialize (HU ltac:(assumption)). lia. }
  pose proof (fround_le x k 0 Hu) as Hup. pose proof (fround_ge x (- k) 0 Hu) as Hlow.
  rewrite opp_IZR in Hlow. simpl powerRZ in Hup, Hlow. lra.
Qed.

End Float32Facts.

(* ================================================================== *)
(** * Theme resolution and palette lookup                               *)
(* ================================================================== *)

(** C10: when [data-theme] is unset on the document root the current theme
    resolves to ["dark"], the palette lookup yields the dark palette, and so
    every palette property that is read comes from the dark palette. *)
Theorem unset_theme_resolves_to_dark (w : World) :
  data_theme w = None →
  getCurrentTheme w = (Ok "dark", w) ∧
  getThemeColors w = (Ok (PaletteObject dark), w) ∧
  ∀ (A : Type) (name : string) (field : Palette → option A),
    (getThemeColors ≫= prop name field) w = (Ok (field dark), w).
Proof.
  intros Hunset.
  assert (Htheme : theme_of w = "dark") by (unfold theme_of; now rewrite Hunset).
  split; [|split].
  - rewrite getCurrentTheme_eq. now rewrite Htheme.
  - now apply getThemeColors_dark.
  - intros A name field.
    now rewrite (bind_ok _ _ _ _ _ (getThemeColors_dark w Htheme)).
Qed.

Lemma unset_theme_resolves_to_dark_witness :
  data_theme (sample_page None 0.5) = None ∧
  getThemeColors (sample_page None 0.5) = (Ok (PaletteObject dark), sample_page None 0.5).
Proof.
  split; [reflexivity|].
  exact (proj1 (proj2 (unset_theme_resolves_to_dark (sample_page None 0.5) eq_refl))).
Defined.

(** [initTheme] of main.js stores ["dark"] in the attribute when no
    preference was saved. *)
Lemma initTheme_defaults_to_dark (w : World) :
  localStorage w !! "theme" = None →
  data_theme (snd (Main.initTheme w)) = Some "dark".
Proof.
  intros Hnone. unfold Main.initTheme.
  unfold mbind, M_bind, Host.getElementById, Host.localStorage_getItem, gets. simpl.
  rewrite Hnone. simpl.
  destruct (document_elements w !! "theme-toggle"); reflexivity.
Qed.

(** C3, as stated, fails: with the theme ["sepia"] the lookup ends normally
    with [undefined]; it does not signal anything. *)
Lemma unknown_theme_lookup_returns_undefined :
  getThemeColors (sample_page (Some "sepia") 0.5)
    = (Ok Undefined, sample_page (Some "sepia") 0.5)
  ∧ ¬ ∃ e w', getThemeColors (sample_page (Some "sepia") 0.5) = (Throw e, w').
Proof.
  split; [reflexivity|].
  intros (e & w' & H). discriminate H.
Qed.

(** C3, amended: for a theme value outside dark and light the palette lookup
    never fails.  It yields the dark palette for the empty string (which
    is falsy), the member of [Object.prototype] of that name when there is
    one, and [undefined] otherwise. *)
Theorem unknown_theme_lookup (w : World) (t : string) :
  data_theme w = Some t → t ≠ "dark" → t ≠ "light" →
  getThemeColors w =
    (Ok (if String.eqb t "" then PaletteObject dark
         else if bool_decide (t ∈ object_prototype_keys) then PrototypeMember t
         else Undefined), w).
Proof.
  intros Hattr Hd Hl. rewrite getThemeColors_eq.
  unfold theme_of. rewrite Hattr. simpl.
  destruct (String.eqb t "") eqn:He; [reflexivity|].
  now rewrite (ThemeColors_other t Hd Hl).
Qed.

Lemma unknown_theme_lookup_witness :
  getThemeColors (sample_page (Some "toString") 0.5)
    = (Ok (PrototypeMember "toString"), sample_page (Some "toString") 0.5).
Proof.
  exact (unknown_theme_lookup (sample_page (Some "toString") 0.5) "toString"
           eq_refl ltac:(discriminate) ltac:(discriminate)).
Defined.

(* ================================================================== *)
(** * Construction against a missing container                          *)
(* ================================================================== *)

(** C8: for each of the five classes, constructing against an id that no
    element has ends normally with an object that only holds the null
    container; the page is left exactly as it was, so no canvas was
    inserted, no listener or observer registered, no frame requested and no
    random value drawn. *)
Theorem missing_container_is_noop (c : SceneClass) (containerId : string) (w : World) :
  document_elements w !! containerId = None →
  construct c containerId w = (Ok NoContainer, w).
Proof.
  intros Hnone.
  assert (Hfind : Host.getElementById containerId w = (Ok None, w)).
  { unfold Host.getElementById, gets. now rewrite Hnone. }
  destruct c; unfold construct.
  - rewrite (fmap_ok _ _ w NoContainer w); [reflexivity|].
    unfold QuantumHeroScene.constructor. now rewrite (bind_ok _ _ _ _ _ Hfind).
  - rewrite (fmap_ok _ _ w NoContainer w); [reflexivity|].
    unfold QuantumProcessorScene.constructor. now rewrite (bind_ok _ _ _ _ _ Hfind).
  - rewrite (fmap_ok _ _ w NoContainer w); [reflexivity|].
    unfold NeuralNetworkScene.constructor. now rewrite (bind_ok _ _ _ _ _ Hfind).
  - rewrite (fmap_ok _ _ w NoContainer w); [reflexivity|].
    unfold FloatingParticlesScene.constructor. now rewrite (bind_ok _ _ _ _ _ Hfind).
  - rewrite (fmap_ok _ _ w NoContainer w); [reflexivity|].
    unfold FeatureQuantumScene.constructor. now rewrite (bind_ok _ _ _ _ _ Hfind).
Qed.

Lemma missing_container_is_noop_witness :
  document_elements (sample_page None 0.5) !! "no-such-canvas" = None ∧
  construct QuantumHero "no-such-canvas" (sample_page None 0.5)
    = (Ok NoContainer, sample_page None 0.5).
Proof.
  split; [reflexivity|].
  exact (missing_container_is_noop QuantumHero "no-such-canvas" (sample_page None 0.5) eq_refl).
Defined.

(* ================================================================== *)
(** * The render loop                                                   *)
(* ================================================================== *)


(* ================================================================== *)
(** * Resizing                                                          *)
(* ================================================================== *)

Section Binary64.
Import Floats.FloatOps Floats.SpecFloat Floats.FloatAxioms.

Lemma digits2_pos_size p : digits2_pos p = Pos.size p.
Proof. induction p; simpl; congruence. Qed.

Lemma digits2_pos_shift p k :
  digits2_pos (Pos.iter xO p k) = (digits2_pos p + k)%positive.
Proof.
  induction k using Pos.peano_ind.
  - simpl. lia.
  - rewrite Pos.iter_succ. simpl. rewrite IHk. lia.
Qed.

Lemma digits2_pos_le_53 p : (Z.pos p < 2 ^ 53)%Z → (Z.pos (digits2_pos p) <= 53)%Z.
Proof.
  intros H. rewrite digits2_pos_size.
  pose proof (Pos.size_le p) as Hle.
  destruct (Z_le_gt_dec (Z.pos (Pos.size p)) 53) as [|Hgt]; [assumption|exfalso].
  assert (H1 : (2 ^ 54 <= 2 ^ Z.pos (Pos.size p))%Z) by (apply Z.pow_le_mono_r; lia).
  assert (H2 : (Z.pos (2 ^ Pos.size p) <= Z.pos p~0)%Z) by exact Hle.
  rewrite Pos2Z.inj_pow in H2.
  change (2 ^ 54)%Z with (2 * 2 ^ 53)%Z in H1. lia.
Qed.

(** A 53-bit mantissa with a small exponent needs no rounding. *)
Lemma shr_fexp_exact m e :
  Z.pos (digits2_pos m) = 53%Z → (-52 <= e <= 0)%Z →
  shr_fexp prec emax (Z.pos m) e loc_Exact
    = ({| shr_m := Z.pos m; shr_r := false; shr_s := false |}, e).
Proof.
  intros Hd He. unfold shr_fexp, fexp, Zdigits2, emin, prec, emax.
  rewrite Hd.
  replace (Z.max (53 + e - 53) (3 - 1024 - 53) - e)%Z with 0%Z by lia.
  reflexivity.
Qed.

Lemma binary_round_aux_exact m e :
  Z.pos (digits2_pos m) = 53%Z → (-52 <= e <= 0)%Z →
  binary_round_aux prec emax false (Z.pos m) e loc_Exact = S754_finite false m e.
Proof.
  intros Hd He. unfold binary_round_aux.
  rewrite (shr_fexp_exact m e Hd He).
  cbn [shr_m shr_r shr_s loc_of_shr_record round_nearest_even].
  rewrite (shr_fexp_exact m e Hd He).
  cbn [shr_m]. unfold emax, prec.
  destruct (Z.leb_spec e (1024 - 53)); [reflexivity | lia].
Qed.

Lemma binary_normalize_small p :
  (Z.pos p < 2 ^ 53)%Z →
  ∃ m e, binary_normalize prec emax (Z.pos p) 0 false = S754_finite false m e.
Proof.
  intros Hp. pose proof (digits2_pos_le_53 p Hp) as Hd.
  unfold binary_normalize, binary_round, shl_align, fexp, emin, prec, emax.
  replace (Z.max (Z.pos (digits2_pos p) + 0 - 53) (3 - 1024 - 53))%Z
    with (Z.pos (digits2_pos p) - 53)%Z by lia.
  rewrite Z.sub_0_r.
  destruct (Z.pos (digits2_pos p) - 53)%Z as [|q|q] eqn:Hk; [|lia|].
  - exists p, 0%Z. apply binary_round_aux_exact; lia.
  - exists (Pos.iter xO p q), (Z.neg q). apply binary_round_aux_exact.
    + rewrite digits2_pos_shift. lia.
    + lia.
Qed.

(** A positive layout length is a positive finite float. *)
Lemma length_to_float_positive (z : Z) :
  (0 < z < 2 ^ 53)%Z →
  ∃ m e, Prim2SF (PrimFloat.of_uint63 (Uint63.of_Z z)) = S754_finite false m e.
Proof.
  intros Hz. rewrite of_uint63_spec, Uint63.of_Z_spec.
  rewrite Z.mod_small.
  - destruct z as [|p|p]; [lia| |lia]. apply binary_normalize_small. lia.
  - change Uint63.wB with (2 ^ 63)%Z.
    assert ((2 ^ 53 <= 2 ^ 63)%Z) by (apply Z.pow_le_mono_r; lia). lia.
Qed.

Lemma js_div_by_zero (z : Z) :
  (0 < z < 2 ^ 53)%Z → js_div z 0 = PrimFloat.infinity.
Proof.
  intros Hz. destruct (length_to_float_positive z Hz) as (m & e & Hm).
  unfold js_div. rewrite <- (SF2Prim_Prim2SF (PrimFloat.div _ _)).
  rewrite div_spec, Hm. reflexivity.
Qed.

Lemma js_div_zero_by_zero : js_div 0 0 = PrimFloat.nan.
Proof. reflexivity. Qed.

Lemma js_div_zero_by (z : Z) :
  (0 < z < 2 ^ 53)%Z → js_div 0 z = PrimFloat.zero.
Proof.
  intros Hz. destruct (length_to_float_positive z Hz) as (m & e & Hm).
  unfold js_div. rewrite <- (SF2Prim_Prim2SF (PrimFloat.div _ _)).
  rewrite div_spec, Hm. reflexivity.
Qed.

End Binary64.

Lemma element_box_eq w id el :
  document_elements w !! id = Some el →
  element_box id w = (Ok (offsetWidth el, offsetHeight el), w).
Proof.
  intros H. unfold element_box, Host.getElementById, gets, mbind, M_bind. now rewrite H.
Qed.

(** What [onResize] does to any scene: the camera aspect and the renderer
    size are rewritten from the current box of the container, whatever that
    box is. *)
Lemma onResize_eq (s : AnyScene) (w : World) (el : Element) :
  document_elements w !! container_of s = Some el →
  ∃ s', scene_onResize s w = (Ok (Built s'), w) ∧
        class_of s' = class_of s ∧
        aspect (camera_of s') = js_div (offsetWidth el) (offsetHeight el).
Proof.
  intros Hel. pose proof (element_box_eq w _ el Hel) as Hbox.
  destruct s as [x|x|x|x|x]; simpl in Hbox; unfold scene_onResize;
    eexists;
    (split;
      [ (erewrite fmap_ok;
          [| unfold QuantumHeroScene.onResize, QuantumProcessorScene.onResize,
               NeuralNetworkScene.onResize, FloatingParticlesScene.onResize,
               FeatureQuantumScene.onResize;
             rewrite (bind_ok _ _ _ _ _ Hbox); reflexivity ]);
        reflexivity
      | split; reflexivity ]).
Qed.

(** C2, amended: [onResize] on a container of height 0 or width 0 raises
    nothing and leaves the page alone, but the aspect-ratio update is not
    skipped.  With height 0 the camera aspect becomes [Infinity] when the
    width is positive and [NaN] when the width is 0 too; with width 0 and a
    positive height it becomes 0. *)
Theorem onResize_degenerate_box (s : AnyScene) (w : World) (el : Element) :
  document_elements w !! container_of s = Some el →
  (0 <= offsetWidth el < 2 ^ 53)%Z →
  (0 <= offsetHeight el < 2 ^ 53)%Z →
  ∃ s', scene_onResize s w = (Ok (Built s'), w) ∧
        (offsetHeight el = 0%Z → (0 < offsetWidth el)%Z →
           aspect (camera_of s') = PrimFloat.infinity) ∧
        (offsetHeight el = 0%Z → offsetWidth el = 0%Z →
           aspect (camera_of s') = PrimFloat.nan) ∧
        (offsetWidth el = 0%Z → (0 < offsetHeight el)%Z →
           aspect (camera_of s') = PrimFloat.zero).
Proof.
  intros Hel Hw Hh.
  destruct (onResize_eq s w el Hel) as (s' & Hrun & _ & Haspect).
  exists s'. split; [exact Hrun|]. rewrite Haspect.
  split; [|split].
  - intros -> Hpos. apply js_div_by_zero. lia.
  - intros -> ->. apply js_div_zero_by_zero.
  - intros -> Hpos. apply js_div_zero_by. lia.
Qed.

(* ================================================================== *)
(** * Building the scenes                                               *)
(* ================================================================== *)

Create HintDb host.
#[local] Hint Unfold Host.getAttribute Host.setAttribute Host.getElementById
  Host.appendCanvas Host.addResizeListener Host.addMousemoveListener
  Host.addClickListener Host.observe Host.emit Host.requestAnimationFrame
  Host.getElapsedTime Host.render Host.localStorage_getItem
  Host.localStorage_setItem : host.

(** One step of symbolic execution of a computation that returns. *)
Ltac mstep :=
  lazymatch goal with
  | |- returns (mret _) _ _ => apply returns_ret
  | |- returns (_ ≫= _) _ _ => apply returns_bind
  | |- returns Host.random _ _ => apply returns_random
  | |- returns (gets _) _ _ => apply returns_gets
  | |- returns (modify _) _ _ => apply returns_modify
  | |- returns (_ <$> _) _ _ => apply returns_fmap
  | |- returns (prop _ _ (PaletteObject _)) _ _ => apply returns_ret
  end; cbv beta.

Ltac msteps := repeat mstep.

Lemma returns_getCurrentTheme w (Q : string → World → Prop) :
  Q (theme_of w) w → returns getCurrentTheme w Q.
Proof. intros H. exists (theme_of w), w. now split. Qed.

Lemma returns_getThemeColors w p (Q : PaletteRef → World → Prop) :
  ThemeColors !! theme_of w = Some p →
  Q (PaletteObject p) w → returns getThemeColors w Q.
Proof.
  intros Hp H. exists (PaletteObject p), w. split; [|exact H].
  rewrite getThemeColors_eq. now rewrite Hp.
Qed.

Lemma supported_palette (theme : string) :
  supported theme →
  ∃ p, ThemeColors !! theme = Some p ∧
       (p = dark ∧ String.eqb theme "light" = false ∨
        p = light ∧ String.eqb theme "light" = true).
Proof.
  intros [-> | ->].
  - exists dark. split; [reflexivity|]. now left.
  - exists light. split; [reflexivity|]. now right.
Qed.

Lemma returns_random_primary_or_secondary w p (Q : option Z → World → Prop) :
  (∀ c, Q c (advance 1 w)) →
  returns (random_primary_or_secondary (PaletteObject p)) w Q.
Proof.
  intros H. unfold random_primary_or_secondary. mstep. mstep.
  destruct (Rgt_dec _ _); mstep; apply H.
Qed.

Section HeroBuild.
Import QuantumHeroScene.
Local Open Scope R_scope.

Lemma createQuantumCore_returns w p :
  ThemeColors !! theme_of w = Some p →
  returns createQuantumCore w (λ _ w', w' = w).
Proof.
  intros Hp. unfold createQuantumCore. mstep.
  apply (returns_getThemeColors _ p _ Hp). msteps. reflexivity.
Qed.

Lemma random_radius_bounds (u : R) : 0 <= u < 1 → 8 <= 8 + u * 20 < 28.
Proof. lra. Qed.

Lemma write3_length i a b c arr : length (write3 i a b c arr) = length arr.
Proof. unfold write3, Float32Array.store. now rewrite !length_insert. Qed.

Lemma particle_loop_inv_step k w0 i b p w' :
  particle_loop_inv k w0 i b (advance (k * i) w0) →
  w' = advance (k * S i) w0 →
  index p = i →
  seeded (random_source w0) p →
  ∀ pos cols szs, length pos = 1500%nat →
  particle_loop_inv k w0 (S i)
    {| positions := pos; particleColors := cols; sizes := szs; stored := stored b ++ [p] |} w'.
Proof.
  intros (_ & _ & Hstored & Hidx & Hrad) Hw Hp Hr pos cols szs Hpos.
  split; [exact Hw|]. split; [exact Hpos|]. simpl.
  split; [rewrite length_app; simpl; lia|]. split.
  - intros j q Hq. apply lookup_app_Some in Hq as [Hq | [Hj Hq]].
    + now apply Hidx.
    + rewrite Hstored in *. destruct (j - i)%nat as [|n] eqn:Hn; simpl in Hq; [|done].
      injection Hq as <-. lia.
  - intros q Hq. apply elem_of_app in Hq as [Hq | Hq].
    + now apply Hrad.
    + apply list_elem_of_singleton in Hq as ->. exact Hr.
Qed.

Lemma createParticle_dark_returns w0 c1 c2 i b :
  particle_loop_inv 7 w0 i b (advance (7 * i) w0) →
  returns (createParticle_dark c1 c2 i b) (advance (7 * i) w0) (particle_loop_inv 7 w0 (S i)).
Proof.
  intros Hinv. unfold createParticle_dark. msteps.
  apply (particle_loop_inv_step 7 w0 i b); try assumption.
  - rewrite !advance_advance. f_equal. lia.
  - reflexivity.
  - unfold seeded. simpl. now eexists _, _, _, _, _.
  - rewrite write3_length. apply Hinv.
Qed.

Lemma createParticle_light_returns w0 c1 c2 i b :
  particle_loop_inv 6 w0 i b (advance (6 * i) w0) →
  returns (createParticle_light c1 c2 i b) (advance (6 * i) w0) (particle_loop_inv 6 w0 (S i)).
Proof.
  intros Hinv. unfold createParticle_light. msteps.
  apply (particle_loop_inv_step 6 w0 i b); try assumption.
  - rewrite !advance_advance. f_equal. lia.
  - reflexivity.
  - unfold seeded. simpl. now eexists _, _, _, _, _.
  - rewrite write3_length. apply Hinv.
Qed.

Lemma particle_loop_inv_start k w0 : particle_loop_inv k w0 0 empty_buffers w0.
Proof.
  split; [|split; [|split; [|split]]].
  - now rewrite Nat.mul_0_r, advance_0.
  - reflexivity.
  - reflexivity.
  - intros j p Hp. discriminate Hp.
  - intros p Hp. now apply elem_of_nil in Hp.
Qed.

Lemma createParticles_returns w :
  supported (theme_of w) → returns createParticles w (particles_created w).
Proof.
  intros Hsup. destruct (supported_palette _ Hsup) as (p & Hp & [[-> Hl] | [-> Hl]]).
  - unfold createParticles. mstep. apply (returns_getThemeColors _ _ _ Hp).
    mstep. apply returns_getCurrentTheme. rewrite Hl. msteps.
    eapply returns_mono.
    { apply (returns_for_loop (particle_loop_inv 7 w)).
      - apply particle_loop_inv_start.
      - intros i b w' _ Hinv. pose proof Hinv as [-> _].
        now apply createParticle_dark_returns. }
    intros b w' (-> & Hpos & Hlen & Hidx & Hrad). msteps.
    split; [now eexists|]. simpl. auto.
  - unfold createParticles. mstep. apply (returns_getThemeColors _ _ _ Hp).
    mstep. apply returns_getCurrentTheme. rewrite Hl. msteps.
    eapply returns_mono.
    { apply (returns_for_loop (particle_loop_inv 6 w)).
      - apply particle_loop_inv_start.
      - intros i b w' _ Hinv. pose proof Hinv as [-> _].
        now apply createParticle_light_returns. }
    intros b w' (-> & Hpos & Hlen & Hidx & Hrad). msteps.
    split; [now eexists|]. simpl. auto.
Qed.

Lemma createOrbitalRings_returns w p :
  ThemeColors !! theme_of w = Some p →
  returns createOrbitalRings w (λ r w', w' = w ∧ length r = 3%nat).
Proof.
  intros Hp. unfold createOrbitalRings. mstep.
  apply (returns_getThemeColors _ p _ Hp). msteps. now split.
Qed.

Lemma createLinePoints_returns w startAngle r0 :
  returns (for_loop 51 0 (createLinePoint startAngle r0) []) w (λ _ w', w' = advance 51 w).
Proof.
  eapply returns_mono.
  { apply (returns_for_loop (λ j (_ : list Vector3) w', w' = advance j w)).
    - now rewrite advance_0.
    - intros j pts w' _ ->. unfold createLinePoint. msteps.
      now rewrite advance_advance. }
  intros pts w' ->. reflexivity.
Qed.

Lemma createEntanglementLines_returns w p :
  ThemeColors !! theme_of w = Some p →
  returns createEntanglementLines w
    (λ r w', w' = advance 1100 w ∧ length r = 20%nat).
Proof.
  intros Hp. unfold createEntanglementLines. mstep.
  apply (returns_getThemeColors _ p _ Hp).
  eapply returns_mono.
  { apply (returns_for_loop
             (λ i (ls : list EntanglementLine) w', w' = advance (55 * i) w ∧ length ls = i)).
    - split; [now rewrite advance_0 | reflexivity].
    - intros i ls w' _ [-> Hlen]. unfold createEntanglementLine. msteps.
      eapply returns_mono; [apply createLinePoints_returns|].
      intros pts w' ->. mstep. apply returns_random_primary_or_secondary.
      intros c. msteps. split.
      + rewrite !advance_advance. f_equal. lia.
      + rewrite length_app. simpl. lia. }
  intros ls w' [-> Hlen]. now split.
Qed.

(** ** The per-frame update of the particles *)

Lemma animateParticles_fst time ps positions :
  fst (animateParticles time ps positions) = advanceParticle <$> ps.
Proof.
  revert positions. induction ps as [|p ps IH]; intros positions; simpl; [reflexivity|].
  match goal with |- context [animateParticles time ps ?a] => specialize (IH a) end.
  destruct (animateParticles time ps _) as [rest' positions'']. simpl in *.
  now rewrite IH.
Qed.

Lemma animateParticles_length time ps positions :
  length (snd (animateParticles time ps positions)) = length positions.
Proof.
  revert positions. induction ps as [|p ps IH]; intros positions; simpl; [reflexivity|].
  match goal with |- context [animateParticles time ps ?a] => specialize (IH a) end.
  destruct (animateParticles time ps _) as [rest' positions'']. simpl in *.
  now rewrite IH, write3_length.
Qed.

Lemma tick_shape time s : hero_shape s → hero_shape (tick time s).
Proof.
  intros (Hn & Hidx & Hpos & Horb & Hlines).
  unfold hero_shape, tick. cbn [particles particleSystem points_geometry position_array
    quantumOrbitals entanglementLines].
  rewrite animateParticles_fst, animateParticles_length, !length_fmap.
  repeat split; try assumption.
  intros j p Hp. apply list_lookup_fmap_Some in Hp as (q & -> & Hq).
  simpl. now apply Hidx.
Qed.

End HeroBuild.

(** ** What [animate] does, class by class *)

Ltac run_animate :=
  autounfold with host;
  unfold modify, gets, mbind, M_bind, mret, M_ret, set_log, set_frame_requests,
    animate_events; cbn;
  rewrite <- !app_assoc; reflexivity.

Lemma hero_animate_eq s w :
  QuantumHeroScene.animate s w =
    (Ok (QuantumHeroScene.tick (elapsed w) s),
     set_log (log w ++ animate_events QuantumHero (elapsed w))
       (set_frame_requests (frame_requests w ++ [QuantumHero]) w)).
Proof. unfold QuantumHeroScene.animate. run_animate. Qed.

Lemma processor_animate_eq s w :
  QuantumProcessorScene.animate s w =
    (Ok (QuantumProcessorScene.tick (elapsed w) s),
     set_log (log w ++ animate_events QuantumProcessor (elapsed w))
       (set_frame_requests (frame_requests w ++ [QuantumProcessor]) w)).
Proof. unfold QuantumProcessorScene.animate. run_animate. Qed.

Lemma neural_animate_eq s w :
  NeuralNetworkScene.animate s w =
    (Ok (NeuralNetworkScene.tick (elapsed w) s),
     set_log (log w ++ animate_events NeuralNetwork (elapsed w))
       (set_frame_requests (frame_requests w ++ [NeuralNetwork]) w)).
Proof. unfold NeuralNetworkScene.animate. run_animate. Qed.

Lemma floating_animate_eq s w :
  FloatingParticlesScene.animate s w =
    (Ok (FloatingParticlesScene.tick (elapsed w) s),
     set_log (log w ++ animate_events FloatingParticles (elapsed w))
       (set_frame_requests (frame_requests w ++ [FloatingParticles]) w)).
Proof. unfold FloatingParticlesScene.animate. run_animate. Qed.

Lemma feature_animate_eq s w :
  FeatureQuantumScene.animate s w =
    (Ok (FeatureQuantumScene.tick (elapsed w) s),
     set_log (log w ++ animate_events FeatureQuantum (elapsed w))
       (set_frame_requests (frame_requests w ++ [FeatureQuantum]) w)).
Proof. unfold FeatureQuantumScene.animate. run_animate. Qed.

Lemma animate_eq (s : AnyScene) (w : World) :
  scene_animate s w =
    (Ok (scene_tick (elapsed w) s),
     set_log (log w ++ animate_events (class_of s) (elapsed w))
       (set_frame_requests (frame_requests w ++ [class_of s]) w)).
Proof.
  destruct s; unfold scene_animate; (erewrite fmap_ok; [reflexivity|]).
  - apply hero_animate_eq.
  - apply processor_animate_eq.
  - apply neural_animate_eq.
  - apply floating_animate_eq.
  - apply feature_animate_eq.
Qed.

Lemma returns_element_box w id el (Q : Z * Z → World → Prop) :
  document_elements w !! id = Some el →
  Q (offsetWidth el, offsetHeight el) w → returns (element_box id) w Q.
Proof.
  intros Hel H. exists (offsetWidth el, offsetHeight el), w.
  split; [now apply element_box_eq | exact H].
Qed.

(** Two pages with the same fields are the same page. *)
Lemma World_ext (w1 w2 : World) :
  data_theme w1 = data_theme w2 →
  document_elements w1 = document_elements w2 →
  localStorage w1 = localStorage w2 →
  click_listeners w1 = click_listeners w2 →
  resize_listeners w1 = resize_listeners w2 →
  mousemove_listeners w1 = mousemove_listeners w2 →
  observers w1 = observers w2 →
  frame_requests w1 = frame_requests w2 →
  random_source w1 = random_source w2 →
  random_pos w1 = random_pos w2 →
  elapsed w1 = elapsed w2 →
  devicePixelRatio w1 = devicePixelRatio w2 →
  log w1 = log w2 →
  w1 = w2.
Proof. destruct w1, w2. simpl. intros. now subst. Qed.

(** Closes a goal that equates the world after [init] with
    [page_after_init], field by field. *)
Ltac page_eq :=
  apply World_ext; cbn -[Nat.add Nat.mul];
  first [reflexivity | lia | now rewrite <- ?app_assoc | now rewrite app_nil_r].

Lemma hero_constructor_returns (id : string) (w : World) (el : Element) :
  document_elements w !! id = Some el →
  supported (theme_of w) →
  returns (QuantumHeroScene.constructor id) w (hero_built id w).
Proof.
  intros Hel Hsup. destruct (supported_palette _ Hsup) as (p & Hp & _).
  unfold QuantumHeroScene.constructor. mstep.
  unfold Host.getElementById. mstep. rewrite Hel. mstep.
  unfold QuantumHeroScene.init. mstep.
  apply (returns_element_box _ _ el _ Hel). cbv beta iota. mstep. mstep. mstep.
  unfold Host.appendCanvas. mstep. mstep.
  eapply returns_mono; [apply (createQuantumCore_returns _ p); exact Hp|].
  intros [[core1 innerCore1] glowSphere1] w1 ->. cbv beta iota. mstep.
  eapply returns_mono; [apply createParticles_returns; exact Hsup|].
  intros [ps psys] w2 ((k & ->) & Hn & Hidx & Hpos & Hrad). cbv beta iota. mstep.
  eapply returns_mono; [apply (createOrbitalRings_returns _ p); exact Hp|].
  intros orbitals w3 [-> Horb]. mstep.
  eapply returns_mono; [apply (createEntanglementLines_returns _ p); exact Hp|].
  intros lines w4 [-> Hlines]. autounfold with host.
  unfold QuantumHeroScene.setupThemeObserver, Host.observe. msteps.
  eapply returns_eq; [apply hero_animate_eq|]. mstep.
  eexists. split; [reflexivity|]. split; [reflexivity|]. split; [|split].
  - apply tick_shape. repeat split; assumption.
  - exists (1100 + k)%nat. page_eq.
  - intros q Hq. unfold QuantumHeroScene.tick in Hq.
    cbn [QuantumHeroScene.particles] in Hq. rewrite animateParticles_fst in Hq.
    apply list_elem_of_fmap in Hq as (q0 & -> & Hq0).
    exists q0. split; [now apply Hrad | reflexivity].
Qed.

(* ================================================================== *)
(** * Particle motion in the hero scene                                 *)
(* ================================================================== *)

Section HeroMotion.
Import QuantumHeroScene.
Local Open Scope R_scope.

Lemma read3_write3 i a b c arr :
  (i * 3 + 2 < length arr)%nat →
  read3 (write3 i a b c arr) i
    = Some (vec3 (Float32Array.fround a) (Float32Array.fround b) (Float32Array.fround c)).
Proof.
  intros Hlen.
  assert (Hx : write3 i a b c arr !! (i * 3)%nat = Some (Float32Array.fround a)).
  { unfold write3, Float32Array.store.
    rewrite (list_lookup_insert_ne _ (i * 3 + 2)%nat (i * 3)%nat) by lia.
    rewrite (list_lookup_insert_ne _ (i * 3 + 1)%nat (i * 3)%nat) by lia.
    apply list_lookup_insert_eq. lia. }
  assert (Hy : write3 i a b c arr !! (i * 3 + 1)%nat = Some (Float32Array.fround b)).
  { unfold write3, Float32Array.store.
    rewrite (list_lookup_insert_ne _ (i * 3 + 2)%nat (i * 3 + 1)%nat) by lia.
    apply list_lookup_insert_eq. rewrite length_insert. lia. }
  assert (Hz : write3 i a b c arr !! (i * 3 + 2)%nat = Some (Float32Array.fround c)).
  { unfold write3, Float32Array.store. apply list_lookup_insert_eq. rewrite !length_insert. lia. }
  unfold read3. rewrite Hx, Hy, Hz. reflexivity.
Qed.

Lemma write3_lookup_ne i j k a b c arr :
  i ≠ j → (k < 3)%nat → write3 i a b c arr !! (j * 3 + k)%nat = arr !! (j * 3 + k)%nat.
Proof.
  intros Hne Hk. unfold write3, Float32Array.store.
  rewrite (list_lookup_insert_ne _ (i * 3 + 2)%nat) by lia.
  rewrite (list_lookup_insert_ne _ (i * 3 + 1)%nat) by lia.
  rewrite (list_lookup_insert_ne _ (i * 3)%nat) by lia.
  reflexivity.
Qed.

Lemma read3_write3_ne i j a b c arr :
  i ≠ j → read3 (write3 i a b c arr) j = read3 arr j.
Proof.
  intros Hne. unfold read3.
  pose proof (write3_lookup_ne i j 0 a b c arr Hne ltac:(lia)) as H0.
  rewrite Nat.add_0_r in H0.
  rewrite H0, (write3_lookup_ne i j 1 a b c arr Hne), (write3_lookup_ne i j 2 a b c arr Hne)
    by lia.
  reflexivity.
Qed.

Lemma animateParticles_read3_other time ps positions j :
  (∀ p, p ∈ ps → index p ≠ j) →
  read3 (snd (animateParticles time ps positions)) j = read3 positions j.
Proof.
  revert positions. induction ps as [|p ps IH]; intros positions Hother; [reflexivity|].
  simpl.
  match goal with |- context [animateParticles time ps ?a] =>
    specialize (IH a); destruct (animateParticles time ps a) as [rest' positions''] end.
  simpl in *. rewrite IH.
  - apply read3_write3_ne. apply Hother. left.
  - intros q Hq. apply Hother. now right.
Qed.

Lemma animateParticles_read3 time ps :
  ∀ positions base,
    (∀ k p, ps !! k = Some p → index p = (base + k)%nat) →
    ((base + length ps) * 3 <= length positions)%nat →
    ∀ k p, ps !! k = Some p →
      read3 (snd (animateParticles time ps positions)) (base + k)
        = Some (particle_position time (advanceParticle p)).
Proof.
  induction ps as [|q ps IH]; intros positions base Hidx Hlen k p Hp; [discriminate Hp|].
  simpl in Hlen.
  assert (Hq : index q = base) by (rewrite (Hidx 0%nat q eq_refl); lia).
  pose proof (animateParticles_read3_other time ps
    (write3 (index (advanceParticle q))
       (instantRadius time (advanceParticle q) * sin (phi (advanceParticle q))
          * cos (theta (advanceParticle q)))
       (instantRadius time (advanceParticle q) * sin (phi (advanceParticle q))
          * sin (theta (advanceParticle q)))
       (instantRadius time (advanceParticle q) * cos (phi (advanceParticle q)))
       positions) base) as Hkeep.
  specialize (IH
    (write3 (index (advanceParticle q))
       (instantRadius time (advanceParticle q) * sin (phi (advanceParticle q))
          * cos (theta (advanceParticle q)))
       (instantRadius time (advanceParticle q) * sin (phi (advanceParticle q))
          * sin (theta (advanceParticle q)))
       (instantRadius time (advanceParticle q) * cos (phi (advanceParticle q)))
       positions) (S base)).
  simpl.
  destruct (animateParticles time ps _) as [rest' positions'']. simpl in *.
  destruct k as [|k].
  - injection Hp as ->. rewrite Nat.add_0_r, Hkeep.
    + rewrite Hq. apply read3_write3. lia.
    + intros r Hr. apply list_elem_of_lookup in Hr as [n Hn].
      rewrite (Hidx (S n) r Hn). lia.
  - replace (base + S k)%nat with (S base + k)%nat by lia.
    apply IH.
    + intros n r Hn. rewrite (Hidx (S n) r Hn). lia.
    + rewrite write3_length. lia.
    + exact Hp.
Qed.

(** One update moves each particle one step of its speed and writes its
    position for the given time into the array. *)
Lemma tick_particle time s j p :
  hero_shape s →
  particles s !! j = Some p →
  particles (QuantumHeroScene.tick time s) !! j = Some (advanceParticle p) ∧
  read3 (position_array (points_geometry (particleSystem (QuantumHeroScene.tick time s)))) j
    = Some (particle_position time (advanceParticle p)).
Proof.
  intros (Hn & Hidx & Hpos & _) Hp. unfold QuantumHeroScene.tick.
  cbn [particles particleSystem points_geometry position_array]. split.
  - rewrite animateParticles_fst, list_lookup_fmap, Hp. reflexivity.
  - apply (animateParticles_read3 time (particles s) _ 0%nat).
    + intros k q Hq. now apply Hidx.
    + rewrite Hn, Hpos. simpl. lia.
    + exact Hp.
Qed.

Lemma advanceParticle_after_steps n p :
  advanceParticle (after_steps n p) = after_steps (S n) p.
Proof.
  unfold advanceParticle, after_steps. cbn [index radius theta phi speed phaseOffset].
  f_equal. rewrite S_INR. lra.
Qed.

Lemma after_steps_0 p : after_steps 0 p = p.
Proof. destruct p. unfold after_steps. simpl. f_equal. lra. Qed.

End HeroMotion.

(** ** Runs of frames *)

Lemma class_of_tick t s : class_of (scene_tick t s) = class_of s.
Proof. now destruct s. Qed.

Lemma class_of_ticks ts s : class_of (ticks ts s) = class_of s.
Proof.
  revert s. induction ts as [|t ts IH]; intros s; [reflexivity|].
  unfold ticks in *. simpl. now rewrite IH, class_of_tick.
Qed.

Lemma frames_eq (ts : list R) (s : AnyScene) (w : World) :
  frames ts s w = (Ok (ticks ts s), page_after_frames (class_of s) ts w).
Proof.
  revert s w. induction ts as [|t ts IH]; intros s w; [reflexivity|].
  simpl. unfold frame.
  erewrite bind_ok; [|erewrite bind_ok; [apply animate_eq | reflexivity]].
  rewrite IH, class_of_tick. reflexivity.
Qed.


Section HeroFrames.
Import QuantumHeroScene.
Local Open Scope R_scope.

Lemma ticks_snoc ts t s : ticks (ts ++ [t]) s = scene_tick t (ticks ts s).
Proof. unfold ticks. now rewrite fold_left_app. Qed.

(** After [n] updates every particle has advanced [n] steps. *)
Lemma ticks_hero_particles ts s :
  hero_shape s →
  ∃ s', ticks ts (Hero s) = Hero s' ∧ hero_shape s' ∧
        ∀ j p, particles s !! j = Some p → particles s' !! j = Some (after_steps (length ts) p).
Proof.
  intros Hshape. induction ts as [|t ts IH] using rev_ind.
  - exists s. split; [reflexivity|]. split; [exact Hshape|].
    intros j p Hp. now rewrite after_steps_0.
  - destruct IH as (s' & Hrun & Hshape' & Hps).
    exists (QuantumHeroScene.tick t s'). rewrite ticks_snoc, Hrun.
    split; [reflexivity|]. split; [now apply tick_shape|].
    intros j p Hp.
    destruct (tick_particle t s' j _ Hshape' (Hps j p Hp)) as [H1 _].
    rewrite H1, advanceParticle_after_steps, length_app.
    now replace (length ts + length [t])%nat with (S (length ts)) by (simpl; lia).
Qed.

(** After the updates [ts] and then one at time [t], every particle has
    advanced [length ts + 1] steps and sits where that angle and [t] put
    it. *)
Lemma ticks_hero_positions ts t s :
  hero_shape s →
  ∃ s', ticks (ts ++ [t]) (Hero s) = Hero s' ∧ hero_shape s' ∧
        ∀ j p, particles s !! j = Some p →
          particles s' !! j = Some (after_steps (S (length ts)) p) ∧
          read3 (position_array (points_geometry (particleSystem s'))) j
            = Some (particle_position t (after_steps (S (length ts)) p)).
Proof.
  intros Hshape.
  destruct (ticks_hero_particles ts s Hshape) as (s' & Hrun & Hshape' & Hps).
  exists (QuantumHeroScene.tick t s'). rewrite ticks_snoc, Hrun.
  split; [reflexivity|]. split; [now apply tick_shape|].
  intros j p Hp.
  destruct (tick_particle t s' j _ Hshape' (Hps j p Hp)) as [H1 H2].
  now rewrite H1, H2, advanceParticle_after_steps.
Qed.

Lemma instantRadius_bounds time p :
  radius p - 2 <= instantRadius time p <= radius p + 2.
Proof.
  unfold instantRadius. pose proof (SIN_bound (time + phaseOffset p)). lra.
Qed.

(** The point [animate] computes lies at distance [instantRadius] from the
    centre of the scene. *)
Lemma particle_point_norm time p :
  0 <= instantRadius time p →
  distanceTo (particle_point time p) (vec3 0 0 0) = instantRadius time p.
Proof.
  intros Hr. unfold distanceTo, particle_point. simpl.
  set (r := instantRadius time p) in *.
  replace ((r * sin (phi p) * cos (theta p) - 0) * (r * sin (phi p) * cos (theta p) - 0)
           + (r * sin (phi p) * sin (theta p) - 0) * (r * sin (phi p) * sin (theta p) - 0)
           + (r * cos (phi p) - 0) * (r * cos (phi p) - 0))
    with (r * r * ((Rsqr (sin (phi p))) * (Rsqr (sin (theta p)) + Rsqr (cos (theta p)))
                   + Rsqr (cos (phi p)))) by (unfold Rsqr; ring).
  rewrite sin2_cos2, Rmult_1_r, sin2_cos2, Rmult_1_r.
  now apply sqrt_square.
Qed.

(** No coordinate of the point is further from zero than the point is from
    the centre. *)
Lemma particle_point_coordinates time p :
  Rabs (vx (particle_point time p)) <= Rabs (instantRadius time p) ∧
  Rabs (vy (particle_point time p)) <= Rabs (instantRadius time p) ∧
  Rabs (vz (particle_point time p)) <= Rabs (instantRadius time p).
Proof.
  unfold particle_point. cbn [vx vy vz vec3].
  set (r := instantRadius time p).
  pose proof (Rabs_pos r) as Hr.
  assert (Hs : ∀ x, Rabs (sin x) <= 1) by (intros x; apply Rabs_le, SIN_bound).
  assert (Hc : ∀ x, Rabs (cos x) <= 1) by (intros x; apply Rabs_le, COS_bound).
  pose proof (Hs (phi p)) as H1. pose proof (Hc (phi p)) as H2.
  pose proof (Hs (theta p)) as H3. pose proof (Hc (theta p)) as H4.
  pose proof (Rabs_pos (sin (phi p))). pose proof (Rabs_pos (cos (phi p))).
  pose proof (Rabs_pos (sin (theta p))). pose proof (Rabs_pos (cos (theta p))).
  rewrite !Rabs_mult.
  set (A := Rabs r) in *. set (sp := Rabs (sin (phi p))) in *.
  set (cp := Rabs (cos (phi p))) in *. set (st := Rabs (sin (theta p))) in *.
  set (ct := Rabs (cos (theta p))) in *.
  assert (0 <= sp * ct <= 1) by nra. assert (0 <= sp * st <= 1) by nra.
  rewrite !Rmult_assoc. repeat split; nra.
Qed.

(** Moving a point by [d] moves its distance from the centre by no more
    than the length of [d]. *)
Lemma norm_perturbed (a1 a2 a3 d1 d2 d3 D : R) :
  0 <= D → d1 * d1 + d2 * d2 + d3 * d3 <= D * D →
  sqrt ((a1 + d1) * (a1 + d1) + (a2 + d2) * (a2 + d2) + (a3 + d3) * (a3 + d3))
    <= sqrt (a1 * a1 + a2 * a2 + a3 * a3) + D.
Proof.
  intros HD Hd.
  set (B := a1 * a1 + a2 * a2 + a3 * a3).
  assert (HB : 0 <= B) by (unfold B; nra).
  pose proof (sqrt_pos B) as HsB. pose proof (sqrt_sqrt B HB) as HsB2.
  set (sB := sqrt B) in *.
  assert (Hdot : a1 * d1 + a2 * d2 + a3 * d3 <= D * sB).
  { assert (Hcs : (a1 * d1 + a2 * d2 + a3 * d3) * (a1 * d1 + a2 * d2 + a3 * d3)
                  <= B * (d1 * d1 + d2 * d2 + d3 * d3)).
    { unfold B.
      pose proof (Rle_0_sqr (a1 * d2 - a2 * d1)). pose proof (Rle_0_sqr (a1 * d3 - a3 * d1)).
      pose proof (Rle_0_sqr (a2 * d3 - a3 * d2)). unfold Rsqr in *. nra. }
    assert (Hsq : (a1 * d1 + a2 * d2 + a3 * d3) * (a1 * d1 + a2 * d2 + a3 * d3)
                  <= (D * sB) * (D * sB)) by nra.
    assert (HY : 0 <= D * sB) by nra.
    set (X := a1 * d1 + a2 * d2 + a3 * d3) in *. set (Y := D * sB) in *.
    destruct (Rle_lt_dec X Y) as [Hle | Hlt]; [exact Hle|].
    exfalso. assert (Y * Y < X * X) by nra. lra. }
  rewrite <- (sqrt_square (sB + D)) by lra.
  apply sqrt_le_1_alt.
  assert (HBe : B = a1 * a1 + a2 * a2 + a3 * a3) by reflexivity.
  clearbody sB. clearbody B. nra.
Qed.

(** What the position buffer holds for a point whose coordinates are below
    32 is less than two millionths away from the point. *)
Lemma stored_point_norm (v : Vector3) :
  Rabs (vx v) < 32 → Rabs (vy v) < 32 → Rabs (vz v) < 32 →
  Rabs (distanceTo (stored_point v) (vec3 0 0 0) - distanceTo v (vec3 0 0 0))
    <= 1 / 500000.
Proof.
  intros Hx Hy Hz.
  assert (H32 : powerRZ 2 5 = 32) by (simpl; lra).
  assert (Hq : powerRZ 2 (5 - 25) = / 1048576) by (simpl; lra).
  pose proof (fround_error (vx v) 5 ltac:(lia) ltac:(now rewrite H32)) as Ex.
  pose proof (fround_error (vy v) 5 ltac:(lia) ltac:(now rewrite H32)) as Ey.
  pose proof (fround_error (vz v) 5 ltac:(lia) ltac:(now rewrite H32)) as Ez.
  rewrite Hq in Ex, Ey, Ez.
  apply Rabs_le_inv in Ex, Ey, Ez.
  unfold distanceTo, stored_point. cbn [vx vy vz vec3].
  set (fx := Float32Array.fround (vx v)) in *. set (fy := Float32Array.fround (vy v)) in *.
  set (fz := Float32Array.fround (vz v)) in *.
  rewrite !Rminus_0_r.
  pose proof (norm_perturbed (vx v) (vy v) (vz v) (fx - vx v) (fy - vy v) (fz - vz v)
                (/ 524288) ltac:(lra) ltac:(nra)) as Hup.
  pose proof (norm_perturbed fx fy fz (vx v - fx) (vy v - fy) (vz v - fz)
                (/ 524288) ltac:(lra) ltac:(nra)) as Hdown.
  replace (vx v + (fx - vx v)) with fx in Hup by ring.
  replace (vy v + (fy - vy v)) with fy in Hup by ring.
  replace (vz v + (fz - vz v)) with fz in Hup by ring.
  replace (fx + (vx v - fx)) with (vx v) in Hdown by ring.
  replace (fy + (vy v - fy)) with (vy v) in Hdown by ring.
  replace (fz + (vz v - fz)) with (vz v) in Hdown by ring.
  apply Rabs_le. lra.
Qed.

Lemma seeded_radius_bounds src p :
  (∀ k, 0 <= src k < 1) → seeded src p → 8 <= radius p < 28.
Proof.
  intros Hsrc (k1 & k2 & k3 & k4 & k5 & Hr & _). rewrite Hr.
  specialize (Hsrc k1). lra.
Qed.

Lemma hero_construct (id : string) (w : World) (el : Element) :
  document_elements w !! id = Some el →
  supported (theme_of w) →
  ∃ s w', construct QuantumHero id w = (Ok (Built (Hero s)), w') ∧
          hero_built id w (Built s) w'.
Proof.
  intros Hel Hsup.
  destruct (hero_constructor_returns id w el Hel Hsup) as (r & w' & Hrun & Hbuilt).
  pose proof Hbuilt as (s & -> & _).
  exists s, w'. split; [|exact Hbuilt].
  unfold construct. now rewrite (fmap_ok _ _ _ _ _ Hrun).
Qed.

Lemma sixtieths_snoc n :
  sixtieths n = ((λ k, INR k / 60) <$> seq 0 n) ++ [INR n / 60].
Proof. unfold sixtieths. now rewrite seq_S, fmap_app. Qed.

End HeroFrames.

(** C7, amended: a hero scene built under the dark theme has 500
    particles, and after the frames at the clock readings 0, 1/60, ...,
    n/60 (for every n, so in particular up to 2 seconds) each particle
    keeps the radius it was built with, and the point the position buffer
    holds for it lies within 2 + 1/500000 of that radius from the centre:
    the radius [animate] computes stays within 2 of the built radius, and
    the single-precision store moves the point by less than two
    millionths. *)
Theorem hero_radius_stays_within_two (id : string) (w : World) (el : Element) :
  document_elements w !! id = Some el →
  theme_of w = "dark" →
  unit_interval_source w →
  ∃ s w', construct QuantumHero id w = (Ok (Built s), w') ∧
    length (hero_particles s) = 500 ∧
    ∀ n : nat, ∃ s_n w_n,
      frames (sixtieths n) s w' = (Ok s_n, w_n) ∧
      ∀ j p0, hero_particles s !! j = Some p0 →
        ∃ p v, hero_particles s_n !! j = Some p ∧
               QuantumHeroScene.radius p = QuantumHeroScene.radius p0 ∧
               read3 (hero_positions s_n) j = Some v ∧
               (QuantumHeroScene.radius p0 - 2 - 1 / 500000
                  <= distanceTo v (vec3 0 0 0)
                  <= QuantumHeroScene.radius p0 + 2 + 1 / 500000)%R.
Proof.
  intros Hel Hdark Hsrc.
  destruct (hero_construct id w el Hel (or_introl Hdark))
    as (s & w' & Hrun & s0 & [= <-] & _ & Hshape & _ & Hseed).
  exists (Hero s), w'. split; [exact Hrun|]. split; [apply Hshape|].
  intros n. rewrite sixtieths_snoc.
  destruct (ticks_hero_positions ((λ k, (INR k / 60)%R) <$> seq 0 n) (INR n / 60)%R s Hshape)
    as (s' & Hticks & _ & Hps).
  exists (Hero s'), (page_after_frames QuantumHero
                       (((λ k, (INR k / 60)%R) <$> seq 0 n) ++ [(INR n / 60)%R]) w').
  split; [now rewrite frames_eq, Hticks|].
  intros j p0 Hp0. simpl in Hp0. destruct (Hps j p0 Hp0) as [Hp Hv].
  eexists _, _. split; [exact Hp|]. split; [reflexivity|]. split; [exact Hv|].
  assert (Hin : p0 ∈ QuantumHeroScene.particles s) by (apply list_elem_of_lookup; eauto).
  destruct (Hseed p0 Hin) as (q & Hq & ->).
  pose proof (seeded_radius_bounds _ q Hsrc Hq) as Hrad.
  match goal with |- context [particle_position ?t ?p] =>
    pose proof (instantRadius_bounds t p) as Hb;
    pose proof (particle_point_norm t p) as Hnorm;
    pose proof (particle_point_coordinates t p) as (Hx & Hy & Hz);
    pose proof (stored_point_norm (particle_point t p)) as Hstored;
    set (r := QuantumHeroScene.instantRadius t p) in *
  end.
  cbn [QuantumHeroScene.radius after_steps QuantumHeroScene.advanceParticle] in Hb |- *.
  assert (Hr : (0 <= r)%R) by lra.
  rewrite (Rabs_pos_eq r Hr) in Hx, Hy, Hz.
  unfold particle_position.
  rewrite Hnorm in Hstored by exact Hr.
  apply Rabs_le_inv in Hstored; lra.
Qed.

Lemma hero_radius_stays_within_two_witness :
  ∃ s w', construct QuantumHero "hero-canvas" (sample_page (Some "dark") 0.5)
            = (Ok (Built s), w') ∧
          length (hero_particles s) = 500.
Proof.
  assert (Hsrc : unit_interval_source (sample_page (Some "dark") 0.5))
    by (intros k; simpl; lra).
  destruct (hero_radius_stays_within_two "hero-canvas" (sample_page (Some "dark") 0.5)
              {| offsetWidth := 800; offsetHeight := 600; canvases := [] |}
              eq_refl eq_refl Hsrc)
    as (s & w' & Hbuilt & Hcount & _).
  exists s, w'. split; [exact Hbuilt | exact Hcount].
Defined.



(* ================================================================== *)
(** * Recolouring on a theme change                                     *)
(* ================================================================== *)

Lemma draws_S w n :
  draws w (S n) = random_source w (random_pos w) :: draws (advance 1 w) n.
Proof.
  unfold draws. simpl. f_equal. rewrite <- fmap_S_seq, <- list_fmap_compose.
  apply list_fmap_ext. intros _ k _. simpl. f_equal. lia.
Qed.

(** A [forEach] whose body draws one value per element. *)
Lemma forEach_update_draws {A : Type} (body : A → nat → M A) (f : A → R → A) :
  (∀ x i w, body x i w = (Ok (f x (random_source w (random_pos w))), advance 1 w)) →
  ∀ xs i w,
    forEach_update xs i body w
      = (Ok (zip_with f xs (draws w (length xs))), advance (length xs) w).
Proof.
  intros Hbody. induction xs as [|x xs IH]; intros i w.
  - simpl. now rewrite advance_0.
  - simpl forEach_update. rewrite (bind_ok _ _ _ _ _ (Hbody x i w)).
    rewrite (bind_ok _ _ _ _ _ (IH (S i) (advance 1 w))).
    simpl length. rewrite draws_S, advance_advance.
    replace (length xs + 1)%nat with (S (length xs)) by lia. reflexivity.
Qed.

Lemma random_primary_or_secondary_dark w :
  random_primary_or_secondary (PaletteObject dark) w
    = (Ok (pick (random_source w (random_pos w))), advance 1 w).
Proof.
  unfold random_primary_or_secondary, pick.
  unfold mbind, M_bind, Host.random.
  now destruct (Rgt_dec _ _).
Qed.

Lemma recolorLine_dark_eq line i w :
  QuantumHeroScene.recolorLine_dark (PaletteObject dark) line i w
    = (Ok {| QuantumHeroScene.line_mesh :=
               recolor (pick (random_source w (random_pos w))) (Some 0.2%R)
                       (QuantumHeroScene.line_mesh line);
             QuantumHeroScene.phase := QuantumHeroScene.phase line |},
       advance 1 w).
Proof.
  unfold QuantumHeroScene.recolorLine_dark.
  now rewrite (bind_ok _ _ _ _ _ (random_primary_or_secondary_dark w)).
Qed.

Lemma recolorQubit_dark_eq qubit i w :
  QuantumProcessorScene.recolorQubit_dark (PaletteObject dark) qubit i w
    = (Ok (QuantumProcessorScene.setMeshes
             (recolor (pick (random_source w (random_pos w))) (Some 0.9%R)
                      (QuantumProcessorScene.mesh qubit))
             (recolor (primary dark) (Some 0.5%R) (QuantumProcessorScene.ring qubit))
             qubit),
       advance 1 w).
Proof.
  unfold QuantumProcessorScene.recolorQubit_dark.
  now rewrite (bind_ok _ _ _ _ _ (random_primary_or_secondary_dark w)).
Qed.

(** Under the light theme a recolouring draws nothing and returns
    [recolored_light]. *)
Lemma scene_updateColors_light (s : AnyScene) (w : World) :
  theme_of w = "light" →
  scene_updateColors s w = (Ok (recolored_light s), w).
Proof.
  intros Hl.
  destruct s as [x|x|x|x|x]; unfold scene_updateColors;
    (erewrite fmap_ok; [reflexivity|]);
    unfold QuantumHeroScene.updateColors, QuantumProcessorScene.updateColors,
      NeuralNetworkScene.updateColors, FloatingParticlesScene.updateColors,
      FeatureQuantumScene.updateColors;
    rewrite (bind_ok _ _ _ _ _ (getThemeColors_light w Hl));
    rewrite (bind_ok _ _ _ _ _ (getCurrentTheme_eq w));
    rewrite Hl; reflexivity.
Qed.

(** Under the dark theme a recolouring returns [recolored_dark] of the
    colours picked from the next random values: one value per entanglement
    line in the hero scene, one per qubit in the processor scene, none in
    the other scenes. *)
Lemma scene_updateColors_dark (s : AnyScene) (w : World) :
  theme_of w = "dark" →
  scene_updateColors s w
    = (Ok (recolored_dark (pick <$> draws w (random_colors_needed s)) s),
       advance (random_colors_needed s) w).
Proof.
  intros Hd.
  destruct s as [x|x|x|x|x]; unfold scene_updateColors;
    (erewrite fmap_ok; [reflexivity|]);
    unfold QuantumHeroScene.updateColors, QuantumProcessorScene.updateColors,
      NeuralNetworkScene.updateColors, FloatingParticlesScene.updateColors,
      FeatureQuantumScene.updateColors;
    rewrite (bind_ok _ _ _ _ _ (getThemeColors_dark w Hd));
    rewrite (bind_ok _ _ _ _ _ (getCurrentTheme_eq w));
    rewrite Hd; cbv [String.eqb Ascii.eqb Bool.eqb mbind M_bind mret M_ret prop].
  - rewrite (forEach_update_draws _
      (λ line u, {| QuantumHeroScene.line_mesh :=
                      recolor (pick u) (Some 0.2%R) (QuantumHeroScene.line_mesh line);
                    QuantumHeroScene.phase := QuantumHeroScene.phase line |})
      recolorLine_dark_eq).
    cbn [random_colors_needed recolored_dark]. rewrite zip_with_fmap_r. reflexivity.
  - rewrite (forEach_update_draws _
      (λ qubit u, QuantumProcessorScene.setMeshes
                    (recolor (pick u) (Some 0.9%R) (QuantumProcessorScene.mesh qubit))
                    (recolor (primary dark) (Some 0.5%R) (QuantumProcessorScene.ring qubit))
                    qubit)
      recolorQubit_dark_eq).
    cbn [random_colors_needed recolored_dark]. rewrite zip_with_fmap_r. reflexivity.
  - now rewrite advance_0.
  - now rewrite advance_0.
  - now rewrite advance_0.
Qed.

(** ** Recolouring touches colours and opacities only *)

Lemma bleach_recolor c op o : bleach_mesh (recolor c op o) = bleach_mesh o.
Proof. reflexivity. Qed.

Lemma bleach_setHex c o : bleach_mesh (setMaterial (setHex c (material o)) o) = bleach_mesh o.
Proof. reflexivity. Qed.

Lemma fmap_fmap_absorb {A B : Type} (f : A → B) (g : A → A) (l : list A) :
  (∀ x, f (g x) = f x) → f <$> (g <$> l) = f <$> l.
Proof.
  intros H. rewrite <- list_fmap_compose. apply list_fmap_ext. intros _ x _. apply H.
Qed.

Lemma fmap_imap_absorb {A B : Type} (f : A → B) (g : nat → A → A) (l : list A) :
  (∀ i x, f (g i x) = f x) → f <$> imap g l = f <$> l.
Proof.
  intros H. revert g H. induction l as [|x l IH]; intros g H; simpl; [reflexivity|].
  rewrite H. f_equal. apply IH. intros i y. apply H.
Qed.

Lemma fmap_zip_with_absorb {A B C : Type} (f : A → B) (g : A → C → A)
    (l : list A) (k : list C) :
  (∀ x y, f (g x y) = f x) → length l = length k → f <$> zip_with g l k = f <$> l.
Proof.
  intros H. revert k. induction l as [|x l IH]; intros [|y k] Hlen; simpl in *;
    try discriminate; [reflexivity|].
  rewrite H. f_equal. apply IH. lia.
Qed.

Lemma bleach_update_first_child f cs :
  (∀ e, bleach_mesh (f e) = bleach_mesh e) →
  FeatureQuantumScene.update_first_child bleach_mesh
    (FeatureQuantumScene.update_first_child f cs)
  = FeatureQuantumScene.update_first_child bleach_mesh cs.
Proof. intros H. destruct cs as [|c cs]; simpl; [reflexivity|]. now rewrite H. Qed.

Lemma bleach_recolored_light s : bleach (recolored_light s) = bleach s.
Proof.
  destruct s as [x|x|x|x|x]; unfold bleach, recolored_light; f_equal; f_equal;
    try reflexivity.
  - now apply fmap_imap_absorb.
  - now apply fmap_fmap_absorb.
  - now apply fmap_imap_absorb.
  - now apply fmap_fmap_absorb.
  - now apply fmap_fmap_absorb.
  - apply fmap_imap_absorb. intros i o. unfold bleach_orbit. simpl. f_equal.
    now apply bleach_update_first_child.
Qed.

Lemma bleach_recolored_dark cs s :
  length cs = random_colors_needed s → bleach (recolored_dark cs s) = bleach s.
Proof.
  intros Hlen.
  destruct s as [x|x|x|x|x]; unfold bleach, recolored_dark; simpl in Hlen; f_equal; f_equal;
    try reflexivity.
  - now apply fmap_imap_absorb.
  - now apply fmap_zip_with_absorb.
  - now apply fmap_zip_with_absorb.
  - now apply fmap_fmap_absorb.
  - now apply fmap_fmap_absorb.
  - apply fmap_imap_absorb. intros i o. unfold bleach_orbit. simpl. f_equal.
    now apply bleach_update_first_child.
Qed.

Lemma scene_geometries_bleach s : scene_geometries (bleach s) = scene_geometries s.
Proof.
  destruct s as [x|x|x|x|x]; unfold bleach, scene_geometries; simpl;
    rewrite <- ?list_fmap_compose; try reflexivity.
  f_equal. f_equal. apply list_fmap_ext. intros _ o _. simpl.
  f_equal. now destruct (FeatureQuantumScene.children o).
Qed.

Lemma camera_of_bleach s : camera_of (bleach s) = camera_of s.
Proof. now destruct s. Qed.

Lemma length_draws w n : length (pick <$> draws w n) = n.
Proof. unfold draws. now rewrite !length_fmap, length_seq. Qed.

(** Every recolouring under a supported theme returns, only draws random
    values from the page, and changes colours and opacities only. *)
Lemma scene_updateColors_bleach (s : AnyScene) (w : World) :
  supported (theme_of w) →
  ∃ s' k, scene_updateColors s w = (Ok s', advance k w) ∧ bleach s' = bleach s.
Proof.
  intros [Hd | Hl].
  - eexists _, _. split; [now apply scene_updateColors_dark|].
    apply bleach_recolored_dark, length_draws.
  - exists (recolored_light s), 0. rewrite advance_0.
    split; [now apply scene_updateColors_light | apply bleach_recolored_light].
Qed.

(** Under the dark and under the light theme [updateColors] of every
    scene returns a scene that differs from the one it was given in
    material colours and opacities only; in particular it has the same
    geometries in the same order, and the same camera.  On the page it
    only draws random values: no canvas, listener, observer or frame is
    added. *)
Lemma scene_updateColors_values (s : AnyScene) (w : World) :
  supported (theme_of w) →
  ∃ s' k, scene_updateColors s w = (Ok s', advance k w) ∧
          bleach s' = bleach s ∧
          scene_geometries s' = scene_geometries s ∧
          length (scene_geometries s') = length (scene_geometries s) ∧
          camera_of s' = camera_of s.
Proof.
  intros Hsup. destruct (scene_updateColors_bleach s w Hsup) as (s' & k & Hrun & Hb).
  exists s', k. split; [exact Hrun|]. split; [exact Hb|].
  assert (Hg : scene_geometries s' = scene_geometries s)
    by now rewrite <- (scene_geometries_bleach s'), Hb, scene_geometries_bleach.
  split; [exact Hg|]. split; [now rewrite Hg|].
  now rewrite <- (camera_of_bleach s'), Hb, camera_of_bleach.
Qed.

(* ================================================================== *)
(** * Repeated theme toggles                                            *)
(* ================================================================== *)

Lemma bind_ret {A : Type} (m : M A) w : (m ≫= mret) w = m w.
Proof. unfold mbind, M_bind, mret, M_ret. now destruct (m w) as [[a|e] w']. Qed.

Lemma themeToggle_click_eq w : Main.themeToggle_click w = (Ok tt, flipped w).
Proof. reflexivity. Qed.

Lemma toggle_eq (s : AnyScene) (w : World) :
  toggle s w = scene_updateColors s (flipped w).
Proof.
  unfold toggle. rewrite (bind_ok _ _ _ _ _ (themeToggle_click_eq w)).
  unfold themeObserver. simpl forEach. apply bind_ret.
Qed.

Lemma flipped_supported w : supported (theme_of (flipped w)).
Proof.
  unfold flipped, theme_of. simpl. destruct (bool_decide _); [now right | now left].
Qed.

Lemma flipped_observers w : observers (flipped w) = observers w.
Proof. reflexivity. Qed.

Lemma random_colors_needed_bleach s :
  random_colors_needed (bleach s) = random_colors_needed s.
Proof. destruct s; simpl; now rewrite ?length_fmap. Qed.

Lemma imap_fmap_absorb {A B : Type} (f : nat → A → B) (g : A → A) (l : list A) :
  (∀ i x, f i (g x) = f i x) → imap f (g <$> l) = imap f l.
Proof. intros H. rewrite imap_fmap. apply imap_ext. intros i x _. apply H. Qed.

Lemma recolored_light_bleach s : recolored_light (bleach s) = recolored_light s.
Proof.
  destruct s as [x|x|x|x|x]; unfold bleach, recolored_light; simpl; f_equal; f_equal;
    try reflexivity.
  - now apply imap_fmap_absorb.
  - now apply fmap_fmap_absorb.
  - now apply imap_fmap_absorb.
  - now apply fmap_fmap_absorb.
  - now apply fmap_fmap_absorb.
  - apply imap_fmap_absorb. intros i o. simpl. f_equal.
    now destruct (FeatureQuantumScene.children o).
Qed.

Lemma fmap_zip_with_const {A B C : Type} (f : A → B) (g : A → C → A) (h : A → B)
    (l : list A) (k : list C) :
  (∀ x y, f (g x y) = h x) → length l = length k → f <$> zip_with g l k = h <$> l.
Proof.
  intros H. revert k. induction l as [|x l IH]; intros [|y k] Hlen; simpl in *;
    try discriminate; [reflexivity|].
  rewrite H. f_equal. apply IH. lia.
Qed.

(** Apart from the unsettled fields, a recolouring under the dark theme
    depends on the bleached scene only. *)
Lemma settled_recolored_dark cs s :
  length cs = random_colors_needed s →
  settled_part (recolored_dark cs s)
    = settled_part (recolored_dark (replicate (random_colors_needed s) None) (bleach s)).
Proof.
  intros Hlen.
  destruct s as [x|x|x|x|x]; unfold bleach, recolored_dark, settled_part; simpl in *;
    f_equal; f_equal; try reflexivity.
  - symmetry. now apply imap_fmap_absorb.
  - rewrite zip_with_fmap_l.
    rewrite (fmap_zip_with_const _ _
      (λ l, {| QuantumHeroScene.line_mesh :=
                 recolor None (Some 0.2%R) (QuantumHeroScene.line_mesh l);
               QuantumHeroScene.phase := QuantumHeroScene.phase l |})) by done.
    rewrite (fmap_zip_with_const _ _
      (λ l, {| QuantumHeroScene.line_mesh :=
                 recolor None (Some 0.2%R) (QuantumHeroScene.line_mesh l);
               QuantumHeroScene.phase := QuantumHeroScene.phase l |}));
      [reflexivity | done | now rewrite length_replicate].
  - rewrite zip_with_fmap_l.
    rewrite (fmap_zip_with_const _ _
      (λ q, QuantumProcessorScene.setMeshes
              (recolor None (Some 0.9%R) (QuantumProcessorScene.mesh q))
              (recolor (primary dark) (Some 0.5%R) (QuantumProcessorScene.ring q)) q))
      by done.
    rewrite (fmap_zip_with_const _ _
      (λ q, QuantumProcessorScene.setMeshes
              (recolor None (Some 0.9%R) (QuantumProcessorScene.mesh q))
              (recolor (primary dark) (Some 0.5%R) (QuantumProcessorScene.ring q)) q));
      [reflexivity | done | now rewrite length_replicate].
  - symmetry. now apply fmap_fmap_absorb.
  - symmetry. now apply fmap_fmap_absorb.
  - rewrite !fmap_imap. rewrite imap_fmap. apply imap_ext. intros i o _. simpl.
    f_equal. now destruct (FeatureQuantumScene.children o).
Qed.

(* ================================================================== *)
(** * Building the other scenes                                         *)
(* ================================================================== *)

Lemma grid_index (i j : nat) :
  j < 5 → (5 * i + j) / 5 = i ∧ (5 * i + j) mod 5 = j.
Proof.
  intros Hj. split.
  - rewrite (Nat.mul_comm 5 i), Nat.div_add_l by lia. rewrite Nat.div_small by lia. lia.
  - rewrite Nat.add_comm, (Nat.mul_comm 5 i), Nat.Div0.mod_add. now apply Nat.mod_small.
Qed.

Section ProcessorBuild.
Import QuantumProcessorScene.
Local Open Scope R_scope.

Lemma createQuantumGrid_returns w p :
  ThemeColors !! theme_of w = Some p →
  returns createQuantumGrid w (λ _ w', w' = w).
Proof.
  intros Hp. unfold createQuantumGrid. mstep.
  apply (returns_getThemeColors _ p _ Hp). mstep. apply returns_getCurrentTheme.
  mstep. destruct (String.eqb _ _); msteps; reflexivity.
Qed.

Lemma createQubit_returns w0 p i j qs :
  (j < 5)%nat →
  qubits_inv w0 (5 * i + j) qs (advance (3 * (5 * i + j)) w0) →
  returns (createQubit (PaletteObject p) (Z.of_nat i - 2) (Z.of_nat j - 2) qs)
          (advance (3 * (5 * i + j)) w0)
          (qubits_inv w0 (5 * i + S j)).
Proof.
  intros Hj (_ & Hlen & Hpos). unfold createQubit. mstep.
  apply returns_random_primary_or_secondary. intros c. msteps.
  split; [|split].
  - rewrite !advance_advance. f_equal. lia.
  - rewrite length_app. simpl. lia.
  - intros k q Hq. apply lookup_app_Some in Hq as [Hq | [Hk Hq]]; [now apply Hpos|].
    rewrite Hlen in *. destruct (k - (5 * i + j))%nat as [|m] eqn:Hm; simpl in Hq; [|done].
    injection Hq as <-. simpl.
    replace k with (5 * i + j)%nat by lia.
    unfold grid_point. destruct (grid_index i j Hj) as [-> ->]. reflexivity.
Qed.

Lemma createQubits_returns w p :
  ThemeColors !! theme_of w = Some p →
  returns createQubits w (qubits_inv w 25).
Proof.
  intros Hp. unfold createQubits. mstep. apply (returns_getThemeColors _ p _ Hp).
  eapply returns_mono.
  { apply (returns_for_loop (λ i qs w', qubits_inv w (5 * i) qs w')).
    - split; [now rewrite advance_0|]. split; [reflexivity|]. intros k q Hq. discriminate Hq.
    - intros i qs w' Hi Hinv.
      eapply returns_mono.
      { apply (returns_for_loop (λ j qs' w'', qubits_inv w (5 * i + j) qs' w'')).
        - now rewrite Nat.add_0_r.
        - intros j qs' w'' Hj Hinv'. pose proof Hinv' as [-> _].
          apply createQubit_returns; [lia | exact Hinv']. }
      intros qs' w'' Hinv'. simpl in Hinv'.
      now replace (5 * S i)%nat with (5 * i + 5)%nat by lia. }
  intros qs w' Hinv. exact Hinv.
Qed.

Lemma createConnections_returns w p qs :
  ThemeColors !! theme_of w = Some p →
  returns (createConnections qs) w
    (λ r w', w' = w ∧
             r = connect {| color := primary p; transparent := true; opacity := Some 0.3;
                            wireframe := false |} qs).
Proof.
  intros Hp. unfold createConnections. mstep.
  apply (returns_getThemeColors _ p _ Hp). msteps. now split.
Qed.

Lemma processor_constructor_returns (id : string) (w : World) (el : Element) :
  document_elements w !! id = Some el →
  supported (theme_of w) →
  returns (QuantumProcessorScene.constructor id) w (processor_built id w).
Proof.
  intros Hel Hsup. destruct (supported_palette _ Hsup) as (p & Hp & _).
  unfold QuantumProcessorScene.constructor. mstep.
  unfold Host.getElementById. mstep. rewrite Hel. mstep.
  unfold QuantumProcessorScene.init. mstep.
  apply (returns_element_box _ _ el _ Hel). cbv beta iota. mstep. mstep. mstep.
  unfold Host.appendCanvas. mstep. mstep.
  eapply returns_mono; [apply (createQuantumGrid_returns _ p); exact Hp|].
  intros grid w1 ->. mstep.
  eapply returns_mono; [apply (createQubits_returns _ p); exact Hp|].
  intros qs w2 (-> & Hlen & Hpos). mstep.
  eapply returns_mono; [apply (createConnections_returns _ p); exact Hp|].
  intros lines w3 [-> ->]. autounfold with host.
  unfold QuantumProcessorScene.setupThemeObserver, Host.observe. msteps.
  eapply returns_eq; [apply processor_animate_eq|]. mstep.
  eexists _, qs, p. split; [reflexivity|]. split; [exact Hp|]. split; [reflexivity|].
  split; [exact Hlen|]. split; [exact Hpos|]. split; [reflexivity|].
  split; [reflexivity|]. page_eq.
Qed.

End ProcessorBuild.

Section OtherBuilds.
Local Open Scope R_scope.

Lemma createNode_returns w0 p n l x i ns w :
  (∃ k, w = advance k w0) →
  returns (NeuralNetworkScene.createNode (PaletteObject p) n l x i ns) w
          (λ _ w', ∃ k, w' = advance k w0).
Proof.
  intros [k ->]. unfold NeuralNetworkScene.createNode. mstep.
  destruct (_ || _); msteps; eexists; now rewrite advance_advance.
Qed.

Lemma createConnection_returns w0 p a b cs w :
  (∃ k, w = advance k w0) →
  returns (NeuralNetworkScene.createConnection (PaletteObject p) a b cs) w
          (λ _ w', ∃ k, w' = advance k w0).
Proof.
  intros [k ->]. unfold NeuralNetworkScene.createConnection. mstep. mstep.
  destruct (Rgt_dec _ _); msteps; eexists; now rewrite ?advance_advance.
Qed.

Lemma createNeuralNetwork_returns w p :
  ThemeColors !! theme_of w = Some p →
  returns NeuralNetworkScene.createNeuralNetwork w (λ _ w', ∃ k, w' = advance k w).
Proof.
  intros Hp. unfold NeuralNetworkScene.createNeuralNetwork. mstep.
  apply (returns_getThemeColors _ p _ Hp). mstep.
  eapply returns_mono.
  { apply (returns_forEach (λ _ (_ : list NeuralNetworkScene.Node) w', ∃ k, w' = advance k w)).
    - exists 0%nat. now rewrite advance_0.
    - intros k n ns w' _ Hw. unfold NeuralNetworkScene.createLayer.
      eapply returns_mono.
      { apply (returns_for_loop
                 (λ _ (_ : list NeuralNetworkScene.Node) w'', ∃ k, w'' = advance k w)).
        - exact Hw.
        - intros i ns' w'' _ Hw'. now apply createNode_returns. }
      intros ns' w'' Hw'. exact Hw'. }
  intros ns w' Hw. mstep.
  eapply returns_mono.
  { apply (returns_for_loop
             (λ _ (_ : list NeuralNetworkScene.Connection) w'', ∃ k, w'' = advance k w)).
    - exact Hw.
    - intros l cs w'' _ Hw'. unfold NeuralNetworkScene.connectLayers.
      eapply returns_mono.
      { apply (returns_forEach
                 (λ _ (_ : list NeuralNetworkScene.Connection) w3, ∃ k, w3 = advance k w)).
        - exact Hw'.
        - intros k a cs' w3 _ Hw3.
          eapply returns_mono.
          { apply (returns_forEach
                     (λ _ (_ : list NeuralNetworkScene.Connection) w4, ∃ k, w4 = advance k w)).
            - exact Hw3.
            - intros k' b cs'' w4 _ Hw4. now apply createConnection_returns. }
          intros cs'' w4 Hw4. exact Hw4. }
      intros cs' w3 Hw3. exact Hw3. }
  intros cs w'' Hw'. mstep. exact Hw'.
Qed.

Lemma floating_createParticles_returns w :
  supported (theme_of w) →
  returns FloatingParticlesScene.createParticles w (λ _ w', w' = advance 800 w).
Proof.
  intros Hsup. destruct (supported_palette _ Hsup) as (p & Hp & Hcase).
  unfold FloatingParticlesScene.createParticles. mstep.
  apply (returns_getThemeColors _ p _ Hp). mstep. apply returns_getCurrentTheme.
  assert (Hloop : ∀ c1 c2,
    returns (for_loop FloatingParticlesScene.particleCount 0
               (FloatingParticlesScene.createParticle c1 c2)
               (replicate (FloatingParticlesScene.particleCount * 3) 0,
                replicate (FloatingParticlesScene.particleCount * 3) 0))
            w (λ _ w', w' = advance 800 w)).
  { intros c1 c2. eapply returns_mono.
    { apply (returns_for_loop (λ i (_ : list R * list R) w', w' = advance (4 * i) w)).
      - now rewrite advance_0.
      - intros i b w' _ ->. unfold FloatingParticlesScene.createParticle. msteps.
        rewrite !advance_advance. f_equal. lia. }
    intros b w' ->. reflexivity. }
  mstep. destruct (String.eqb _ _); msteps.
  - eapply returns_mono; [apply Hloop|]. intros b w' ->. msteps. reflexivity.
  - eapply returns_mono; [apply Hloop|]. intros b w' ->. msteps. reflexivity.
Qed.

Lemma createScene_returns w p :
  ThemeColors !! theme_of w = Some p →
  returns FeatureQuantumScene.createScene w
    (λ r w', w' = w ∧
       snd r = FeatureQuantumScene.createOrbit (primary p) (secondary p) <$> seq 0 3).
Proof.
  intros Hp. unfold FeatureQuantumScene.createScene. mstep.
  apply (returns_getThemeColors _ p _ Hp). msteps. now split.
Qed.

End OtherBuilds.

(** Every constructor succeeds when its container exists and the theme has
    a palette, and leaves the page as [page_after_init] describes. *)
Lemma construct_returns (c : SceneClass) (id : string) (w : World) (el : Element) :
  document_elements w !! id = Some el →
  supported (theme_of w) →
  ∃ s k, construct c id w = (Ok (Built s), page_after_init c id k w) ∧
         class_of s = c ∧ container_of s = id.
Proof.
  intros Hel Hsup. destruct (supported_palette _ Hsup) as (p & Hp & _).
  destruct c; unfold construct.
  - destruct (hero_constructor_returns id w el Hel Hsup)
      as (r & w' & Hrun & s & -> & Hid & _ & [k ->] & _).
    exists (Hero s), k. rewrite (fmap_ok _ _ _ _ _ Hrun). now split.
  - destruct (processor_constructor_returns id w el Hel Hsup)
      as (r & w' & Hrun & s & qs0 & p' & -> & _ & Hid & _ & _ & _ & _ & ->).
    exists (Processor s), 75. rewrite (fmap_ok _ _ _ _ _ Hrun). now split.
  - assert (Hrun : returns (NeuralNetworkScene.constructor id) w
              (λ r w', ∃ s k, r = Built s ∧ NeuralNetworkScene.container s = id ∧
                              w' = page_after_init NeuralNetwork id k w)).
    { unfold NeuralNetworkScene.constructor. mstep.
      unfold Host.getElementById. mstep. rewrite Hel. mstep.
      unfold NeuralNetworkScene.init. mstep.
      apply (returns_element_box _ _ el _ Hel). cbv beta iota. mstep. mstep. mstep.
      unfold Host.appendCanvas. mstep. mstep.
      eapply returns_mono; [apply (createNeuralNetwork_returns _ p); exact Hp|].
      intros [ns cs] w1 [k ->]. cbv beta iota. autounfold with host.
      unfold NeuralNetworkScene.setupThemeObserver, Host.observe. msteps.
      eapply returns_eq; [apply neural_animate_eq|]. mstep.
      eexists _, k. split; [reflexivity|]. split; [reflexivity|]. page_eq. }
    destruct Hrun as (r & w' & Hrun & s & k & -> & Hid & ->).
    exists (Neural s), k. rewrite (fmap_ok _ _ _ _ _ Hrun). now split.
  - assert (Hrun : returns (FloatingParticlesScene.constructor id) w
              (λ r w', ∃ s k, r = Built s ∧ FloatingParticlesScene.container s = id ∧
                              w' = page_after_init FloatingParticles id k w)).
    { unfold FloatingParticlesScene.constructor. mstep.
      unfold Host.getElementById. mstep. rewrite Hel. mstep.
      unfold FloatingParticlesScene.init. mstep.
      apply (returns_element_box _ _ el _ Hel). cbv beta iota. mstep. mstep. mstep.
      unfold Host.appendCanvas. mstep. mstep.
      eapply returns_mono; [apply floating_createParticles_returns; exact Hsup|].
      intros ps w1 ->. autounfold with host.
      unfold FloatingParticlesScene.setupThemeObserver, Host.observe. msteps.
      eapply returns_eq; [apply floating_animate_eq|]. mstep.
      eexists _, 800. split; [reflexivity|]. split; [reflexivity|]. page_eq. }
    destruct Hrun as (r & w' & Hrun & s & k & -> & Hid & ->).
    exists (Floating s), k. rewrite (fmap_ok _ _ _ _ _ Hrun). now split.
  - assert (Hrun : returns (FeatureQuantumScene.constructor id) w
              (λ r w', ∃ s k, r = Built s ∧ FeatureQuantumScene.container s = id ∧
                              w' = page_after_init FeatureQuantum id k w)).
    { unfold FeatureQuantumScene.constructor. mstep.
      unfold Host.getElementById. mstep. rewrite Hel. mstep.
      unfold FeatureQuantumScene.init. mstep.
      apply (returns_element_box _ _ el _ Hel). cbv beta iota. mstep. mstep. mstep.
      unfold Host.appendCanvas. mstep. mstep.
      eapply returns_mono; [apply (createScene_returns _ p); exact Hp|].
      intros [core1 orbits1] w1 [-> _]. cbv beta iota. autounfold with host.
      unfold FeatureQuantumScene.setupThemeObserver, Host.observe. msteps.
      eapply returns_eq; [apply feature_animate_eq|]. mstep.
      eexists _, 0. split; [reflexivity|]. split; [reflexivity|]. page_eq. }
    destruct Hrun as (r & w' & Hrun & s & k & -> & Hid & ->).
    exists (Feature s), k. rewrite (fmap_ok _ _ _ _ _ Hrun). now split.
Qed.

(* ================================================================== *)
(** * Convergence of repeated toggles                                   *)
(* ================================================================== *)

Lemma toggle_bleach (s : AnyScene) (w : World) :
  ∃ s1 w1, toggle s w = (Ok s1, w1) ∧ bleach s1 = bleach s ∧
           observers w1 = observers w ∧ theme_of w1 = theme_of (flipped w).
Proof.
  destruct (scene_updateColors_bleach s (flipped w) (flipped_supported w))
    as (s1 & k & Hrun & Hb).
  exists s1, (advance k (flipped w)). rewrite toggle_eq. now repeat split.
Qed.

Lemma toggle_light (s : AnyScene) (w : World) :
  theme_of (flipped w) = "light" → toggle s w = (Ok (recolored_light s), flipped w).
Proof. intros Hl. rewrite toggle_eq. now apply scene_updateColors_light. Qed.

Lemma toggle_dark (s : AnyScene) (w : World) :
  theme_of (flipped w) = "dark" →
  ∃ cs, length cs = random_colors_needed s ∧
        toggle s w = (Ok (recolored_dark cs s), advance (random_colors_needed s) (flipped w)).
Proof.
  intros Hd. eexists. split; [|rewrite toggle_eq; now apply scene_updateColors_dark].
  apply length_draws.
Qed.

(** The state after [n + 1] toggles, in terms of the scene the toggles
    started from. *)
Lemma toggles_spec (n : nat) :
  ∀ (s : AnyScene) (w : World),
    ∃ s_n w_n,
      toggles (S n) s w = (Ok s_n, w_n) ∧
      bleach s_n = bleach s ∧
      observers w_n = observers w ∧
      supported (theme_of w_n) ∧
      (theme_of w_n = "light" → s_n = recolored_light s) ∧
      (theme_of w_n = "dark" →
         settled_part s_n
           = settled_part (recolored_dark (replicate (random_colors_needed s) None) (bleach s))).
Proof.
  induction n as [|n IH]; intros s w.
  - simpl toggles. destruct (flipped_supported w) as [Hd | Hl].
    + destruct (toggle_dark s w Hd) as (cs & Hlen & Hrun).
      eexists _, _. split; [rewrite bind_ret; exact Hrun|].
      split; [now apply bleach_recolored_dark|]. split; [reflexivity|].
      split; [now left|]. split.
      * intros Hl. change (theme_of (flipped w) = "light") in Hl. congruence.
      * intros _. now apply settled_recolored_dark.
    + eexists _, _. split; [rewrite bind_ret; now apply toggle_light|].
      split; [apply bleach_recolored_light|]. split; [reflexivity|].
      split; [now right|]. split; [reflexivity|]. intros Hd. congruence.
  - destruct (toggle_bleach s w) as (s1 & w1 & Hrun1 & Hb1 & Hobs1 & _).
    destruct (IH s1 w1) as (s_n & w_n & Hrun & Hb & Hobs & Hsup & Hlight & Hdark).
    exists s_n, w_n. split.
    { change (toggles (S (S n)) s w) with ((toggle s ≫= toggles (S n)) w).
      now rewrite (bind_ok _ _ _ _ _ Hrun1). }
    split; [congruence|]. split; [congruence|]. split; [exact Hsup|]. split.
    + intros Hl. rewrite (Hlight Hl).
      now rewrite <- (recolored_light_bleach s1), Hb1, recolored_light_bleach.
    + intros Hd. rewrite (Hdark Hd), Hb1.
      now rewrite <- (random_colors_needed_bleach s1), Hb1, random_colors_needed_bleach.
Qed.

(** C5, amended: a scene registers exactly one observer when it is built,
    and [n] ≥ 1 toggles in succession add none.  When the last toggle
    selects the light theme, the scene is exactly the one a single
    recolouring of the built scene to light produces.  When it selects the
    dark theme, the scene agrees with a single recolouring to dark on
    every colour and opacity except the colours drawn at random (hero
    entanglement lines, processor qubits); the opacity of the feature
    scene's electrons is left out of the comparison. *)
Theorem toggles_converge (c : SceneClass) (id : string) (w : World) (el : Element) :
  document_elements w !! id = Some el →
  supported (theme_of w) →
  ∃ s w', construct c id w = (Ok (Built s), w') ∧
    observers w' = observers w ++ [c] ∧
    ∀ n, 1 ≤ n → ∃ s_n w_n,
      toggles n s w' = (Ok s_n, w_n) ∧
      observers w_n = observers w' ∧
      supported (theme_of w_n) ∧
      (theme_of w_n = "light" →
         ∀ w0, theme_of w0 = "light" → scene_updateColors s w0 = (Ok s_n, w0)) ∧
      (theme_of w_n = "dark" →
         ∀ w0, theme_of w0 = "dark" →
           ∃ s_1 w_1, scene_updateColors s w0 = (Ok s_1, w_1) ∧
                      settled_part s_1 = settled_part s_n).
Proof.
  intros Hel Hsup.
  destruct (construct_returns c id w el Hel Hsup) as (s & k & Hrun & _ & _).
  exists s, (page_after_init c id k w). split; [exact Hrun|]. split; [reflexivity|].
  intros [|n] Hn; [lia|].
  destruct (toggles_spec n s (page_after_init c id k w))
    as (s_n & w_n & Htog & _ & Hobs & Hsup' & Hlight & Hdark).
  exists s_n, w_n. split; [exact Htog|]. split; [exact Hobs|]. split; [exact Hsup'|]. split.
  - intros Hl w0 Hl0. rewrite (Hlight Hl). now apply scene_updateColors_light.
  - intros Hd w0 Hd0. eexists _, _. split; [now apply scene_updateColors_dark|].
    rewrite (Hdark Hd). apply settled_recolored_dark, length_draws.
Qed.

Lemma toggles_converge_witness :
  ∃ s w', construct NeuralNetwork "about-canvas" (sample_page (Some "dark") 0.5)
            = (Ok (Built s), w') ∧
    observers w' = [NeuralNetwork] ∧
    ∃ s_3 w_3, toggles 3 s w' = (Ok s_3, w_3) ∧ observers w_3 = observers w'.
Proof.
  destruct (toggles_converge NeuralNetwork "about-canvas" (sample_page (Some "dark") 0.5)
              {| offsetWidth := 800; offsetHeight := 600; canvases := [] |}
              eq_refl (or_introl eq_refl))
    as (s & w' & Hbuilt & Hcount & Htoggles).
  exists s, w'. split; [exact Hbuilt|]. split; [exact Hcount|].
  destruct (Htoggles 3 ltac:(lia)) as (s_3 & w_3 & Hrun & Hobs & _).
  exists s_3, w_3. split; [exact Hrun | exact Hobs].
Defined.

(* ================================================================== *)
(** * The connections of the processor scene                            *)
(* ================================================================== *)

Section ProcessorConnections.
Import QuantumProcessorScene.
Local Open Scope R_scope.

Lemma sqrt_lt_4 (x : R) : 0 <= x → (sqrt x < 4 ↔ x < 16).
Proof.
  intros Hx. replace 4 with (sqrt 16) at 1.
  - split; intros H.
    + apply sqrt_lt_0_alt in H. exact H.
    + apply sqrt_lt_1; lra.
  - replace 16 with (4 * 4) by lra. apply sqrt_square. lra.
Qed.

Lemma distance_integers (a b c d : Z) :
  distanceTo (vec3 (IZR a) 0 (IZR c)) (vec3 (IZR b) 0 (IZR d)) < 4
  ↔ ((a - b) * (a - b) + (c - d) * (c - d) <? 16)%Z = true.
Proof.
  unfold distanceTo, vec3. cbn [vx vy vz].
  replace ((IZR a - IZR b) * (IZR a - IZR b) + (0 - 0) * (0 - 0)
           + (IZR c - IZR d) * (IZR c - IZR d))
    with (IZR ((a - b) * (a - b) + (c - d) * (c - d)))
    by (rewrite plus_IZR, !mult_IZR, !minus_IZR; ring).
  assert (Hpos : (0 <= (a - b) * (a - b) + (c - d) * (c - d))%Z).
  { pose proof (Z.square_nonneg (a - b)). pose proof (Z.square_nonneg (c - d)). lia. }
  rewrite sqrt_lt_4 by (apply IZR_le; exact Hpos).
  rewrite Z.ltb_lt. split; intros H.
  - now apply lt_IZR.
  - now apply IZR_lt.
Qed.

(** On the grid the test [dist < 4] of [createConnections] is the integer
    test [close_on_grid]. *)
Lemma distance_close (i j : nat) :
  distanceTo (grid_point i) (grid_point j) < 4 ↔ close_on_grid i j = true.
Proof. apply distance_integers. Qed.

Lemma imap_as_seq {A B : Type} (f : nat → A → B) (g : nat → B) (l : list A) :
  (∀ i x, l !! i = Some x → f i x = g i) → imap f l = g <$> seq 0 (length l).
Proof.
  intros H. rewrite <- (imap_seq l g 0). apply imap_ext. intros i x Hx. now apply H.
Qed.

Lemma fmap_mjoin {A B : Type} (f : A → B) (ls : list (list A)) :
  f <$> mjoin ls = mjoin (fmap f <$> ls).
Proof. induction ls as [|l ls IH]; simpl; [reflexivity|]. now rewrite fmap_app, IH. Qed.

(** The connections of 25 qubits that sit on the grid. *)
Lemma connect_grid (lineMaterial : Material) (qs : list Qubit) :
  length qs = 25%nat →
  (∀ i q, qs !! i = Some q → position (mesh q) = grid_point i) →
  connect lineMaterial qs
    = (λ ij, new_Mesh (line_between ij) lineMaterial) <$> close_pairs.
Proof.
  intros Hlen Hpos. unfold connect, close_pairs.
  rewrite fmap_mjoin, <- list_fmap_compose.
  rewrite (imap_as_seq _
    (λ i, mjoin ((λ j, if (i <? j)%nat && close_on_grid i j
                       then [new_Mesh (line_between (i, j)) lineMaterial] else [])
                   <$> seq 0 25))).
  - rewrite Hlen. reflexivity.
  - intros i q Hq. f_equal.
    rewrite (imap_as_seq _
      (λ j, if (i <? j)%nat && close_on_grid i j
            then [new_Mesh (line_between (i, j)) lineMaterial] else [])).
    + now rewrite Hlen.
    + intros j q' Hq'. rewrite (Hpos i q Hq), (Hpos j q' Hq').
      destruct (i <? j)%nat; [|reflexivity]. simpl.
      destruct (Rlt_dec _ _) as [Hlt | Hge].
      * apply distance_close in Hlt. now rewrite Hlt.
      * destruct (close_on_grid i j) eqn:Hc; [|reflexivity].
        apply distance_close in Hc. contradiction.
Qed.

Lemma close_pairs_spec (i j : nat) :
  (i, j) ∈ close_pairs ↔ (i < j < 25)%nat ∧ close_on_grid i j = true.
Proof.
  unfold close_pairs. rewrite list_elem_of_join. split.
  - intros (l & Hin & Hl). apply list_elem_of_fmap in Hl as (i' & -> & Hi').
    apply list_elem_of_join in Hin as (l' & Hin & Hl').
    apply list_elem_of_fmap in Hl' as (j' & -> & Hj').
    apply elem_of_seq in Hi', Hj'.
    destruct (i' <? j')%nat eqn:Hlt; simpl in Hin; [|now apply elem_of_nil in Hin].
    destruct (close_on_grid i' j') eqn:Hc; [|now apply elem_of_nil in Hin].
    apply list_elem_of_singleton in Hin. injection Hin as -> ->.
    apply Nat.ltb_lt in Hlt. split; [lia | exact Hc].
  - intros [[Hij Hj] Hc].
    exists (mjoin ((λ j', if (i <? j')%nat && close_on_grid i j' then [(i, j')] else [])
                     <$> seq 0 25)).
    split.
    + apply list_elem_of_join. exists [(i, j)]. split.
      * apply list_elem_of_singleton. reflexivity.
      * apply list_elem_of_fmap. exists j. split; [|apply elem_of_seq; lia].
        assert (Hlt : (i <? j)%nat = true) by now apply Nat.ltb_lt.
        now rewrite Hlt, Hc.
    + apply list_elem_of_fmap. exists i. split; [reflexivity|]. apply elem_of_seq. lia.
Qed.

Lemma close_pairs_count : length close_pairs = 40%nat.
Proof. vm_compute. reflexivity. Qed.

End ProcessorConnections.

(** C6: building the processor scene puts 25 qubits on the 5 × 5 grid and
    adds one line for each pair [i < j] of qubits whose grid points are less
    than 4 apart, and for no other pair: the geometries of the lines are
    those of [close_pairs], in order.  There are 40 of them, whatever the
    page and whatever [Math.random] returns, so every rebuild gives the same
    lines. *)
Theorem processor_connections (id : string) (w : World) (el : Element) :
  document_elements w !! id = Some el →
  supported (theme_of w) →
  ∃ s w', construct QuantumProcessor id w = (Ok (Built s), w') ∧
    length (processor_qubits s) = 25 ∧
    (∀ i q, processor_qubits s !! i = Some q →
       vx (position (QuantumProcessorScene.mesh q)) = vx (grid_point i) ∧
       vz (position (QuantumProcessorScene.mesh q)) = vz (grid_point i)) ∧
    geometry <$> processor_lines s = line_between <$> close_pairs ∧
    (∀ i j, (i, j) ∈ close_pairs
            ↔ i < j < 25 ∧ (distanceTo (grid_point i) (grid_point j) < 4)%R) ∧
    length (processor_lines s) = 40.
Proof.
  intros Hel Hsup.
  destruct (processor_constructor_returns id w el Hel Hsup)
    as (r & w' & Hrun & s & qs0 & p & -> & Hp & Hid & Hlen & Hpos & Hqs & Hlines & ->).
  exists (Processor s), (page_after_init QuantumProcessor id 75 w).
  split; [unfold construct; now rewrite (fmap_ok _ _ _ _ _ Hrun)|].
  assert (Hconn := connect_grid
    {| color := primary p; transparent := true; opacity := Some 0.3%R; wireframe := false |}
    qs0 Hlen Hpos).
  simpl processor_qubits. simpl processor_lines. rewrite Hqs, Hlines, Hconn.
  split; [now rewrite length_fmap|]. split; [|split; [|split]].
  - intros i q Hq. apply list_lookup_fmap_Some in Hq as (q0 & -> & Hq0).
    simpl. now rewrite (Hpos i q0 Hq0).
  - now rewrite <- list_fmap_compose.
  - intros i j. rewrite close_pairs_spec, distance_close. reflexivity.
  - now rewrite length_fmap, close_pairs_count.
Qed.

Lemma processor_connections_witness :
  ∃ s w', construct QuantumProcessor "tech-canvas" (sample_page (Some "light") 0.5)
            = (Ok (Built s), w') ∧
          length (processor_lines s) = 40.
Proof.
  destruct (processor_connections "tech-canvas" (sample_page (Some "light") 0.5)
              {| offsetWidth := 800; offsetHeight := 600; canvases := [] |}
              eq_refl (or_intror eq_refl))
    as (s & w' & Hbuilt & _ & _ & _ & _ & Hcount).
  exists s, w'. split; [exact Hbuilt | exact Hcount].
Defined.

(* ================================================================== *)
(** * Where the statements of the specification fail                    *)
(* ================================================================== *)


Lemma onResize_degenerate_box_witness :
  ∃ s w', construct QuantumHero "hero-canvas" (sample_page (Some "dark") 0.5)
            = (Ok (Built s), w') ∧
    ∃ s2, scene_onResize s (resize_element "hero-canvas" 0 0 w')
            = (Ok (Built s2), resize_element "hero-canvas" 0 0 w') ∧
          aspect (camera_of s2) = PrimFloat.nan.
Proof.
  destruct (construct_returns QuantumHero "hero-canvas" (sample_page (Some "dark") 0.5)
              {| offsetWidth := 800; offsetHeight := 600; canvases := [] |}
              eq_refl (or_introl eq_refl))
    as (s & k & Hbuilt & _ & Hid).
  eexists _, _. split; [exact Hbuilt|].
  destruct (onResize_degenerate_box s
              (resize_element "hero-canvas" 0 0
                 (page_after_init QuantumHero "hero-canvas" k (sample_page (Some "dark") 0.5)))
              {| offsetWidth := 0; offsetHeight := 0; canvases := [QuantumHero] |})
    as (s2 & Hrun & _ & Hnan & _).
  { rewrite Hid. reflexivity. }
  { simpl. lia. }
  { simpl. lia. }
  exists s2. split; [exact Hrun | exact (Hnan eq_refl eq_refl)].
Defined.

(** C2, as stated, fails: after the container of a built hero scene has
    been laid out 800 wide and 0 high, [onResize] does not skip the update:
    it sets the camera aspect to [Infinity]. *)
Lemma onResize_zero_height_gives_infinity :
  ∃ s w', construct QuantumHero "hero-canvas" (sample_page (Some "dark") 0.5)
            = (Ok (Built s), w') ∧
    ∃ s2, scene_onResize s (resize_element "hero-canvas" 800 0 w')
            = (Ok (Built s2), resize_element "hero-canvas" 800 0 w') ∧
          aspect (camera_of s2) = PrimFloat.infinity.
Proof.
  destruct (construct_returns QuantumHero "hero-canvas" (sample_page (Some "dark") 0.5)
              {| offsetWidth := 800; offsetHeight := 600; canvases := [] |}
              eq_refl (or_introl eq_refl))
    as (s & k & Hbuilt & _ & Hid).
  eexists _, _. split; [exact Hbuilt|].
  destruct (onResize_eq s
              (resize_element "hero-canvas" 800 0
                 (page_after_init QuantumHero "hero-canvas" k (sample_page (Some "dark") 0.5)))
              {| offsetWidth := 800; offsetHeight := 0; canvases := [QuantumHero] |})
    as (s2 & Hrun & _ & Haspect).
  { rewrite Hid. reflexivity. }
  exists s2. split; [exact Hrun|]. rewrite Haspect. reflexivity.
Qed.

Section HeroCounterexample.
Import QuantumHeroScene.
Local Open Scope R_scope.




End HeroCounterexample.


Section HeroStoredRadius.
Import QuantumHeroScene.
Local Open Scope R_scope.

Lemma for_loop_S {St : Type} (count start : nat) (body : nat → St → M St) (s : St) :
  for_loop (S count) start body s = (s' ← body start s; for_loop count (S start) body s').
Proof. reflexivity. Qed.

Lemma createParticle_dark_keeps_first c1 c2 i b w p0 :
  stored b !! 0%nat = Some p0 →
  returns (createParticle_dark c1 c2 i b) w (λ b' _, stored b' !! 0%nat = Some p0).
Proof.
  intros Hp0. unfold createParticle_dark. msteps. cbn [stored].
  now apply lookup_app_l_Some.
Qed.

Lemma createParticles_first_dark w :
  theme_of w = "dark" →
  returns createParticles w (λ r _, fst r !! 0%nat = Some (first_dark_particle w)).
Proof.
  intros Hdark. unfold createParticles. mstep.
  apply (returns_getThemeColors _ dark).
  { rewrite Hdark. apply ThemeColors_dark. }
  mstep. apply returns_getCurrentTheme. rewrite Hdark. cbn [String.eqb Ascii.eqb Bool.eqb].
  msteps. unfold particleCount. rewrite (for_loop_S 499). mstep.
  unfold createParticle_dark at 1. msteps.
  eapply returns_mono.
  { apply (returns_for_loop
             (λ (_ : nat) (b : Buffers) (_ : World),
                stored b !! 0%nat = Some (first_dark_particle w))).
    - reflexivity.
    - intros i b w' _ Hinv. now apply createParticle_dark_keeps_first. }
  intros b w' Hb. msteps. exact Hb.
Qed.

Lemma returns_conj {A : Type} (m : M A) (w : World) (P Q : A → World → Prop) :
  returns m w P → returns m w Q → returns m w (λ a w', P a w' ∧ Q a w').
Proof.
  intros (a & w' & Hrun & HP) (a' & w'' & Hrun' & HQ).
  rewrite Hrun in Hrun'. injection Hrun' as <- <-.
  exists a, w'. auto.
Qed.

Lemma hero_constructor_first_dark (id : string) (w : World) (el : Element) :
  document_elements w !! id = Some el →
  theme_of w = "dark" →
  returns (QuantumHeroScene.constructor id) w
    (λ r _, ∃ s, r = Built s ∧
                 particles s !! 0%nat = Some (advanceParticle (first_dark_particle w))).
Proof.
  intros Hel Hdark.
  assert (Hp : ThemeColors !! theme_of w = Some dark)
    by (rewrite Hdark; apply ThemeColors_dark).
  unfold QuantumHeroScene.constructor. mstep.
  unfold Host.getElementById. mstep. rewrite Hel. mstep.
  unfold QuantumHeroScene.init. mstep.
  apply (returns_element_box _ _ el _ Hel). cbv beta iota. mstep. mstep. mstep.
  unfold Host.appendCanvas. mstep. mstep.
  eapply returns_mono; [apply (createQuantumCore_returns _ dark); exact Hp|].
  intros [[core1 innerCore1] glowSphere1] w1 ->. cbv beta iota. mstep.
  eapply returns_mono.
  { apply returns_conj;
      [apply createParticles_returns; left; exact Hdark
      | apply createParticles_first_dark; exact Hdark]. }
  intros [ps psys] w2 (((k & ->) & _) & Hfirst). cbv beta iota. mstep.
  eapply returns_mono; [apply (createOrbitalRings_returns _ dark); exact Hp|].
  intros orbitals w3 [-> _]. mstep.
  eapply returns_mono; [apply (createEntanglementLines_returns _ dark); exact Hp|].
  intros lines w4 [-> _]. autounfold with host.
  unfold QuantumHeroScene.setupThemeObserver, Host.observe. msteps.
  eapply returns_eq; [apply hero_animate_eq|]. mstep.
  eexists. split; [reflexivity|].
  unfold QuantumHeroScene.tick. cbn [particles].
  rewrite animateParticles_fst, list_lookup_fmap.
  cbn [fst] in Hfirst. rewrite Hfirst. reflexivity.
Qed.

(** The particle built from [crest_source], two steps of its angle after
    the build: where the buffer holds it when the clock reads 0. *)
Lemma crest_particle_position (th sp : R) :
  particle_position (INR 0 / 60)
    {| index := 0; radius := 8 + (6 + 3 / 2097152) / 20 * 20; theta := th;
       phi := acos (2 * 0 - 1); speed := sp; phaseOffset := 1 / 4 * PI * 2 |}
  = vec3 0 0 (- (8388609 / 524288)).
Proof.
  unfold particle_position, stored_point, particle_point, instantRadius.
  cbn [vx vy vz vec3 index radius theta phi speed phaseOffset INR].
  replace (2 * 0 - 1) with (- (1)) by lra.
  rewrite acos_opp, acos_1, Rminus_0_r, sin_PI, cos_PI.
  replace (0 / 60 + 1 / 4 * PI * 2) with (PI / 2) by lra. rewrite sin_PI2.
  rewrite !Rmult_0_r, !Rmult_0_l, fround_0.
  f_equal.
  rewrite (fround_nearest _ 5 (-8388609)).
  - simpl. lra.
  - simpl. rewrite Rabs_left by lra. lra.
  - lia.
  - simpl. apply Rabs_def1; lra.
Qed.

End HeroStoredRadius.

(** C7, as stated, fails.  On a page whose [Math.random] returns the values
    of [crest_source], all of them in [0, 1), the first particle of the hero
    scene built under the dark theme has radius 14 + 3/2^21; after the frame
    at clock reading 0 the point the position buffer holds for it lies at
    distance 16 + 1/2^19 from the centre, which is more than 2 above that
    radius. *)
Lemma stored_radius_exceeds_two :
  unit_interval_source (sample_page_with (Some "dark") crest_source) ∧
  ∃ s w', construct QuantumHero "hero-canvas" (sample_page_with (Some "dark") crest_source)
            = (Ok (Built s), w') ∧
    ∃ s0 w0 p0 v,
      frames (sixtieths 0) s w' = (Ok s0, w0) ∧
      hero_particles s !! 0 = Some p0 ∧
      read3 (hero_positions s0) 0 = Some v ∧
      (QuantumHeroScene.radius p0 + 2 < distanceTo v (vec3 0 0 0))%R.
Proof.
  split.
  { intros k. cbn [sample_page_with random_source]. unfold crest_source.
    destruct k as [|[|[|[|[|[|[|k]]]]]]]; lra. }
  set (w := sample_page_with (Some "dark") crest_source).
  destruct (hero_construct "hero-canvas" w
              {| offsetWidth := 800; offsetHeight := 600; canvases := [] |}
              eq_refl (or_introl eq_refl))
    as (s & w' & Hrun & s1 & [= <-] & _ & Hshape & _ & _).
  destruct (hero_constructor_first_dark "hero-canvas" w
              {| offsetWidth := 800; offsetHeight := 600; canvases := [] |}
              eq_refl eq_refl)
    as (r & w'' & Hrun' & s2 & -> & Hfirst).
  unfold construct in Hrun. rewrite (fmap_ok _ _ _ _ _ Hrun') in Hrun.
  injection Hrun as -> ->.
  exists (Hero s), w'.
  split; [unfold construct; now rewrite (fmap_ok _ _ _ _ _ Hrun')|].
  change (sixtieths 0) with ([] ++ [(INR 0 / 60)%R]).
  destruct (ticks_hero_positions [] (INR 0 / 60)%R s Hshape) as (s' & Hticks & _ & Hps).
  destruct (Hps 0 _ Hfirst) as [_ Hv].
  eexists (Hero s'), (page_after_frames QuantumHero ([] ++ [(INR 0 / 60)%R]) w'), _, _.
  split; [now rewrite frames_eq, Hticks|].
  split; [exact Hfirst|]. split; [exact Hv|].
  unfold after_steps, QuantumHeroScene.advanceParticle, first_dark_particle.
  cbn [QuantumHeroScene.index QuantumHeroScene.radius QuantumHeroScene.theta
       QuantumHeroScene.phi QuantumHeroScene.speed QuantumHeroScene.phaseOffset
       w sample_page_with random_source random_pos crest_source Nat.add].
  rewrite crest_particle_position.
  unfold distanceTo. cbn [vx vy vz vec3].
  match goal with |- (?a < sqrt ?b)%R =>
    rewrite <- (sqrt_square a) by lra; apply sqrt_lt_1_alt; lra end.
Qed.

Lemma pick_low : pick 0.25 = secondary dark.
Proof. unfold pick. destruct (Rgt_dec 0.25 0.5); [lra | reflexivity]. Qed.

Lemma pick_high : pick 0.75 = primary dark.
Proof. unfold pick. destruct (Rgt_dec 0.75 0.5); [reflexivity | lra]. Qed.

Lemma first_qubit_color_dark (a : AnyScene) (w : World) q qs :
  processor_qubits a = q :: qs →
  first_qubit_color (recolored_dark (pick <$> draws w (random_colors_needed a)) a)
    = Some (pick (random_source w (random_pos w))).
Proof.
  destruct a as [x|x|x|x|x]; try discriminate. simpl. intros Hq.
  unfold first_qubit_color. simpl. rewrite Hq. simpl length.
  rewrite draws_S, fmap_cons. reflexivity.
Qed.

Lemma processor_qubits_recolored_light (a : AnyScene) q qs :
  processor_qubits a = q :: qs →
  ∃ q' qs', processor_qubits (recolored_light a) = q' :: qs'.
Proof.
  destruct a as [x|x|x|x|x]; try discriminate. simpl. intros ->.
  eexists _, _. reflexivity.
Qed.

Lemma processor_qubits_recolored_dark (a : AnyScene) w q qs :
  processor_qubits a = q :: qs →
  ∃ q' qs',
    processor_qubits (recolored_dark (pick <$> draws w (random_colors_needed a)) a) = q' :: qs'.
Proof.
  destruct a as [x|x|x|x|x]; try discriminate. simpl. intros ->. simpl length.
  rewrite draws_S, fmap_cons. eexists _, _. reflexivity.
Qed.

Lemma first_electron_opacity_dark cs (s : AnyScene) :
  first_electron_opacity (recolored_dark cs s) = first_electron_opacity s.
Proof.
  destruct s as [x|x|x|x|x]; try reflexivity. simpl.
  destruct (FeatureQuantumScene.orbits x) as [|o os]; [reflexivity|]. simpl.
  destruct (FeatureQuantumScene.children o) as [|e es]; reflexivity.
Qed.

Lemma first_electron_opacity_light (s : AnyScene) o :
  first_electron_opacity s = Some o →
  first_electron_opacity (recolored_light s) = Some (solidOpacity light).
Proof.
  destruct s as [x|x|x|x|x]; try discriminate. simpl.
  destruct (FeatureQuantumScene.orbits x) as [|o1 os]; [discriminate|]. simpl.
  destruct (FeatureQuantumScene.children o1) as [|e es]; [discriminate|]. reflexivity.
Qed.

Lemma toggles_1 (s : AnyScene) (w : World) : toggles 1 s w = toggle s w.
Proof. apply bind_ret. Qed.

Lemma theme_of_light_inv (w : World) : theme_of w = "light" → data_theme w = Some "light".
Proof.
  unfold theme_of, or_default. destruct (data_theme w) as [t|]; [|discriminate].
  destruct (String.eqb t ""); [discriminate | congruence].
Qed.

Lemma data_theme_flipped (w : World) :
  data_theme (flipped w)
    = Some (if bool_decide (data_theme w = Some "dark") then "light" else "dark").
Proof. reflexivity. Qed.

Lemma data_theme_advance (k : nat) (w : World) : data_theme (advance k w) = data_theme w.
Proof. reflexivity. Qed.

Lemma toggles_3_from_light (s : AnyScene) (w : World) :
  theme_of w = "light" →
  let n := random_colors_needed s in
  let s1 := recolored_dark (pick <$> draws (flipped w) n) s in
  let w1 := advance n (flipped w) in
  let n' := random_colors_needed (recolored_light s1) in
  toggles 3 s w
    = (Ok (recolored_dark (pick <$> draws (flipped (flipped w1)) n') (recolored_light s1)),
       advance n' (flipped (flipped w1))).
Proof.
  intros Hl n s1 w1 n'. apply theme_of_light_inv in Hl.
  assert (Hd : data_theme (flipped w) = Some "dark")
    by (rewrite data_theme_flipped, Hl; reflexivity).
  assert (Hl1 : data_theme (flipped w1) = Some "light")
    by (rewrite data_theme_flipped; unfold w1; rewrite data_theme_advance, Hd; reflexivity).
  assert (Hd2 : data_theme (flipped (flipped w1)) = Some "dark")
    by (rewrite data_theme_flipped, Hl1; reflexivity).
  change (toggles 3 s w)
    with ((toggle s ≫= λ a, toggle a ≫= λ b, toggle b ≫= mret) w).
  rewrite (bind_ok _ _ _ _ _ (eq_trans (toggle_eq s w) (scene_updateColors_dark s (flipped w)
             ltac:(unfold theme_of; rewrite Hd; reflexivity)))).
  fold n s1 w1.
  rewrite (bind_ok _ _ _ _ _ (toggle_light s1 w1
             ltac:(unfold theme_of; rewrite Hl1; reflexivity))).
  rewrite bind_ret, toggle_eq. apply scene_updateColors_dark.
  unfold theme_of. rewrite Hd2. reflexivity.
Qed.

(** The feature scene is built with electrons of opacity 1. *)
Lemma feature_construct_electron (id : string) (w : World) (el : Element) :
  document_elements w !! id = Some el →
  supported (theme_of w) →
  ∃ s, construct FeatureQuantum id w = (Ok (Built s), page_after_init FeatureQuantum id 0 w) ∧
       first_electron_opacity s = Some (Some 1%R).
Proof.
  intros Hel Hsup. destruct (supported_palette _ Hsup) as (p & Hp & _).
  assert (Hrun : returns (FeatureQuantumScene.constructor id) w
            (λ r w', ∃ s, r = Built s ∧ first_electron_opacity (Feature s) = Some (Some 1%R) ∧
                          w' = page_after_init FeatureQuantum id 0 w)).
  { unfold FeatureQuantumScene.constructor. mstep.
    unfold Host.getElementById. mstep. rewrite Hel. mstep.
    unfold FeatureQuantumScene.init. mstep.
    apply (returns_element_box _ _ el _ Hel). cbv beta iota. mstep. mstep. mstep.
    unfold Host.appendCanvas. mstep. mstep.
    eapply returns_mono; [apply (createScene_returns _ p); exact Hp|].
    intros [core1 orbits1] w1 [-> Horbits]. simpl in Horbits. subst orbits1.
    cbv beta iota. autounfold with host.
    unfold FeatureQuantumScene.setupThemeObserver, Host.observe. msteps.
    eapply returns_eq; [apply feature_animate_eq|]. mstep.
    eexists. split; [reflexivity|]. split; [reflexivity|]. page_eq. }
  destruct Hrun as (r & w' & Hrun & s & -> & Hop & ->).
  exists (Feature s). split; [|exact Hop].
  unfold construct. now rewrite (fmap_ok _ _ _ _ _ Hrun).
Qed.

(** C5, as stated, fails, for two reasons.  Take scenes built under the
    light theme; one toggle and three toggles both end under the dark
    theme.  In the processor scene the qubit colours are drawn at random by
    each recolouring to dark, and the third toggle draws other values than
    the first.  In the feature scene the second toggle sets the opacity of
    the electrons for the light theme and the third does not set it back,
    so it differs from the opacity after one toggle. *)
Lemma toggles_do_not_converge :
  (∃ s w', construct QuantumProcessor "tech-canvas"
             (sample_page_with (Some "light") low_then_high) = (Ok (Built s), w') ∧
     ∃ s_1 w_1 s_3 w_3,
       toggles 1 s w' = (Ok s_1, w_1) ∧ toggles 3 s w' = (Ok s_3, w_3) ∧
       theme_of w_1 = "dark" ∧ theme_of w_3 = "dark" ∧
       first_qubit_color s_1 = Some (secondary dark) ∧
       first_qubit_color s_3 = Some (primary dark) ∧
       s_1 ≠ s_3)
  ∧
  (∃ s w', construct FeatureQuantum "feature-visual-1" (sample_page (Some "light") 0.5)
             = (Ok (Built s), w') ∧
     ∃ s_1 w_1 s_3 w_3,
       toggles 1 s w' = (Ok s_1, w_1) ∧ toggles 3 s w' = (Ok s_3, w_3) ∧
       theme_of w_1 = "dark" ∧ theme_of w_3 = "dark" ∧
       first_electron_opacity s_1 = Some (Some 1%R) ∧
       first_electron_opacity s_3 = Some (Some 0.85%R) ∧
       s_1 ≠ s_3).
Proof.
  split.
  - destruct (processor_constructor_returns "tech-canvas"
                (sample_page_with (Some "light") low_then_high)
                {| offsetWidth := 800; offsetHeight := 600; canvases := [] |}
                eq_refl (or_intror eq_refl))
      as (r & w' & Hrun & s & qs0 & p & -> & Hp & Hid & Hlen & Hpos & Hqs & Hlines & ->).
    set (W := page_after_init QuantumProcessor "tech-canvas" 75
                (sample_page_with (Some "light") low_then_high)).
    exists (Processor s), W.
    split; [unfold construct; now rewrite (fmap_ok _ _ _ _ _ Hrun)|].
    destruct qs0 as [|q0 qs0]; [discriminate Hlen|].
    assert (Hn : random_colors_needed (Processor s) = 25)
      by (simpl; now rewrite Hqs, length_fmap).
    assert (Hq : processor_qubits (Processor s)
                 = QuantumProcessorScene.animateQubit 0 q0
                   :: (QuantumProcessorScene.animateQubit 0 <$> qs0))
      by exact Hqs.
    destruct (processor_qubits_recolored_dark _ (flipped W) _ _ Hq) as (q1 & qs1 & Hq1).
    destruct (processor_qubits_recolored_light _ _ _ Hq1) as (q2 & qs2 & Hq2).
    pose proof (first_qubit_color_dark _ (flipped W) _ _ Hq) as Hc1.
    pose proof (first_qubit_color_dark _
                  (flipped (flipped (advance (random_colors_needed (Processor s)) (flipped W))))
                  _ _ Hq2) as Hc3.
    change (random_source (flipped W) (random_pos (flipped W)))
      with (low_then_high 75) in Hc1.
    change (random_source
              (flipped (flipped (advance (random_colors_needed (Processor s)) (flipped W))))
              (random_pos
                 (flipped (flipped (advance (random_colors_needed (Processor s)) (flipped W))))))
      with (low_then_high (random_colors_needed (Processor s) + 75)) in Hc3.
    assert (Hhigh : pick (low_then_high (random_colors_needed (Processor s) + 75))
                    = primary dark)
      by (rewrite Hn; exact pick_high).
    rewrite Hhigh in Hc3.
    change (low_then_high 75) with 0.25%R in Hc1.
    rewrite pick_low in Hc1.
    eexists _, _, _, _.
    split; [rewrite toggles_1, toggle_eq; now apply scene_updateColors_dark|].
    split; [now apply toggles_3_from_light|].
    split; [reflexivity|]. split; [reflexivity|].
    split; [exact Hc1|]. split; [exact Hc3|].
    intros Heq. rewrite Heq, Hc3 in Hc1. discriminate Hc1.
  - destruct (feature_construct_electron "feature-visual-1" (sample_page (Some "light") 0.5)
                {| offsetWidth := 800; offsetHeight := 600; canvases := [] |}
                eq_refl (or_intror eq_refl))
      as (s & Hrun & Hop).
    set (W := page_after_init FeatureQuantum "feature-visual-1" 0
                (sample_page (Some "light") 0.5)) in *.
    exists s, W. split; [exact Hrun|].
    assert (Hc1 : first_electron_opacity
                    (recolored_dark (pick <$> draws (flipped W) (random_colors_needed s)) s)
                  = Some (Some 1%R))
      by now rewrite first_electron_opacity_dark.
    pose proof (first_electron_opacity_light _ _ Hc1) as Hc2.
    eexists _, _, _, _.
    split; [rewrite toggles_1, toggle_eq; now apply scene_updateColors_dark|].
    split; [now apply toggles_3_from_light|].
    split; [reflexivity|]. split; [reflexivity|].
    split; [exact Hc1|].
    assert (Hc3 : ∀ cs, first_electron_opacity
                          (recolored_dark cs
                             (recolored_light
                                (recolored_dark
                                   (pick <$> draws (flipped W) (random_colors_needed s)) s)))
                        = Some (Some 0.85%R))
      by (intros cs; now rewrite first_electron_opacity_dark).
    split; [apply Hc3|].
    intros Heq. rewrite Heq, Hc3 in Hc1. injection Hc1 as Hbad. lra.
Qed.
(* ================================================================== *)
(** * Recolouring in place                                              *)
(* ================================================================== *)

Section StoreFacts.
Import Store.

Lemma recoloured_refl (o : Object) : recoloured o o.
Proof. destruct o; simpl; auto. Qed.

Lemma recoloured_trans (a b c : Object) : recoloured a b → recoloured b c → recoloured a c.
Proof.
  destruct a, b; simpl; try discriminate; try (intros <-; exact id);
    destruct c; simpl; try discriminate; try (intros ? [= <-]; assumption);
    try (intros [? ?] [? ?]; split; congruence); congruence.
Qed.

Lemma recoloured_setHex_in (hex : option Z) (o : Object) : recoloured o (setHex_in hex o).
Proof. destruct o; simpl; auto. Qed.

Lemma recoloured_setOpacity_in (op : option R) (o : Object) :
  recoloured o (setOpacity_in op o).
Proof. destruct o; simpl; auto. Qed.

Lemma recoloured_heap_refl (σ : Heap) : Forall2 recoloured σ σ.
Proof. apply Forall_Forall2_diag, Forall_forall. intros o _. apply recoloured_refl. Qed.

Lemma recoloured_heap_trans (σ1 σ2 σ3 : Heap) :
  Forall2 recoloured σ1 σ2 → Forall2 recoloured σ2 σ3 → Forall2 recoloured σ1 σ3.
Proof.
  intros H12. revert σ3. induction H12; intros σ3 H23; inversion H23; subst; constructor.
  - eapply recoloured_trans; eassumption.
  - now apply IHForall2.
Qed.

Lemma recoloured_alter (f : Object → Object) (m : Ref) (σ0 σ : Heap) :
  (∀ o, recoloured o (f o)) → Forall2 recoloured σ0 σ → Forall2 recoloured σ0 (alter f m σ).
Proof.
  intros Hf H. apply Forall2_alter_r; [exact H|].
  intros x y _ _ Hxy. eapply recoloured_trans; [exact Hxy | apply Hf].
Qed.

(** A recolouring leaves [x.material] and [x.children] where they point. *)
Lemma recoloured_lookup (σ0 σ : Heap) (x : Ref) :
  Forall2 recoloured σ0 σ →
  match σ0 !! x, σ !! x with
  | Some o, Some o' => recoloured o o'
  | None, None => True
  | _, _ => False
  end.
Proof.
  intros H. revert x. induction H as [|o o' σ0 σ Ho H IH]; intros [|x]; simpl; auto.
  apply IH.
Qed.

Lemma recoloured_material_of (σ0 σ : Heap) (x : Ref) :
  Forall2 recoloured σ0 σ → material_of x σ = material_of x σ0.
Proof.
  intros H. pose proof (recoloured_lookup σ0 σ x H) as Hx. unfold material_of.
  destruct (σ0 !! x) as [o|], (σ !! x) as [o'|]; try done.
  destruct o, o'; simpl in Hx; try discriminate; try reflexivity; now injection Hx as -> ->.
Qed.

Lemma recoloured_children_of (σ0 σ : Heap) (x : Ref) :
  Forall2 recoloured σ0 σ → children_of x σ = children_of x σ0.
Proof.
  intros H. pose proof (recoloured_lookup σ0 σ x H) as Hx. unfold children_of.
  destruct (σ0 !! x) as [o|], (σ !! x) as [o'|]; try done.
  destruct o, o'; simpl in Hx; try discriminate; try reflexivity. now injection Hx.
Qed.

(** The two writes of a recolouring return when the object has a
    material, and recolour the store. *)
Lemma returns_material_color_setHex (σ0 σ : Heap) (x : Ref) (hex : option Z) (w : World)
    (Q : Heap → World → Prop) :
  has_material σ0 x →
  Forall2 recoloured σ0 σ →
  (∀ σ', Forall2 recoloured σ0 σ' → Q σ' w) →
  returns (material_color_setHex x hex σ) w Q.
Proof.
  intros [m Hm] H HQ. unfold material_color_setHex.
  rewrite (recoloured_material_of σ0 σ x H), Hm. apply returns_ret, HQ.
  apply recoloured_alter; [apply recoloured_setHex_in | exact H].
Qed.

Lemma returns_material_opacity_set (σ0 σ : Heap) (x : Ref) (op : option R) (w : World)
    (Q : Heap → World → Prop) :
  has_material σ0 x →
  Forall2 recoloured σ0 σ →
  (∀ σ', Forall2 recoloured σ0 σ' → Q σ' w) →
  returns (material_opacity_set x op σ) w Q.
Proof.
  intros [m Hm] H HQ. unfold material_opacity_set.
  rewrite (recoloured_material_of σ0 σ x H), Hm. apply returns_ret, HQ.
  apply recoloured_alter; [apply recoloured_setOpacity_in | exact H].
Qed.

(** A loop whose body recolours the store and draws [d] random values. *)
Lemma forEach_recolours {A : Type} (xs : list A) (body : A → nat → Heap → M Heap)
    (d : nat) (σ0 σ : Heap) (w : World) :
  (∀ k x σ1 w1, xs !! k = Some x → Forall2 recoloured σ0 σ1 →
     returns (body x k σ1) w1
       (λ σ2 w2, w2 = advance d w1 ∧ Forall2 recoloured σ0 σ2)) →
  Forall2 recoloured σ0 σ →
  returns (forEach xs 0 body σ) w
    (λ σ' w', w' = advance (d * length xs) w ∧ Forall2 recoloured σ0 σ').
Proof.
  intros Hbody H.
  apply (returns_forEach
           (λ i σ1 w1, w1 = advance (d * i) w ∧ Forall2 recoloured σ0 σ1) body xs 0 σ w).
  - split; [now rewrite Nat.mul_0_r, advance_0 | exact H].
  - intros k x σ1 w1 Hx [-> H1]. simpl.
    eapply returns_mono; [apply Hbody; eassumption|].
    intros σ2 w2 [-> H2]. split; [|exact H2].
    rewrite advance_advance. f_equal. lia.
Qed.

(** ** Creating the objects *)

Lemma material_of_app (σ τ : Heap) (x m : Ref) :
  material_of x σ = Some m → material_of x (σ ++ τ) = Some m.
Proof.
  unfold material_of. destruct (σ !! x) as [o|] eqn:Ho; [|discriminate].
  now rewrite (lookup_app_l_Some _ _ _ _ Ho).
Qed.

Lemma has_material_app (σ τ : Heap) (x : Ref) :
  has_material σ x → has_material (σ ++ τ) x.
Proof. intros [m Hm]. exists m. now apply material_of_app. Qed.

Lemma has_material_lookup (σ : Heap) (x : Ref) : has_material σ x → is_Some (σ !! x).
Proof.
  intros [m Hm]. unfold material_of in Hm. destruct (σ !! x); [now eexists | discriminate].
Qed.

Lemma children_of_app (σ τ : Heap) (x : Ref) :
  is_Some (σ !! x) → children_of x (σ ++ τ) = children_of x σ.
Proof.
  intros [o Ho]. unfold children_of. now rewrite (lookup_app_l_Some _ _ _ _ Ho), Ho.
Qed.

Lemma alloc_mesh_spec (o : Mesh) (children : list Ref) (σ : Heap) :
  ∃ τ, alloc_mesh o children σ = (length σ + 2, σ ++ τ) ∧
       has_material (σ ++ τ) (length σ + 2) ∧
       children_of (length σ + 2) (σ ++ τ) = children.
Proof.
  exists [GeometryObject (geometry o); MaterialObject (material o);
          MeshObject (length σ) (length σ + 1) (position o) (rotation o) (scale o) children].
  assert (Hcell : (σ ++ [GeometryObject (geometry o); MaterialObject (material o);
                         MeshObject (length σ) (length σ + 1) (position o) (rotation o)
                           (scale o) children]) !! (length σ + 2)
                  = Some (MeshObject (length σ) (length σ + 1) (position o) (rotation o)
                            (scale o) children)).
  { rewrite lookup_app_r by lia. now replace (length σ + 2 - length σ) with 2 by lia. }
  split; [|split].
  - unfold alloc_mesh, new. rewrite !length_app. simpl.
    rewrite <- !app_assoc. simpl. repeat (f_equal; try lia).
  - unfold has_material, material_of. rewrite Hcell. now eexists.
  - unfold children_of. now rewrite Hcell.
Qed.

Lemma alloc_points_spec (p : Points) (σ : Heap) :
  ∃ τ, alloc_points p σ = (length σ + 2, σ ++ τ) ∧
       has_material (σ ++ τ) (length σ + 2).
Proof.
  exists [BufferGeometryObject (points_geometry p); PointsMaterialObject (points_material p);
          PointsObject (length σ) (length σ + 1) (points_rotation p)].
  split.
  - unfold alloc_points, new. rewrite !length_app. simpl.
    rewrite <- !app_assoc. simpl. repeat (f_equal; try lia).
  - unfold has_material, material_of. rewrite lookup_app_r by lia.
    replace (length σ + 2 - length σ) with 2 by lia. now eexists.
Qed.

(** Objects created one after the other: each keeps what it was created
    with when the next ones are added. *)
Lemma alloc_all_spec {A B : Type} (f : A → Alloc B) (P : B → Heap → Prop) (xs : list A) :
  (∀ x σ, ∃ b τ, f x σ = (b, σ ++ τ) ∧ P b (σ ++ τ)) →
  (∀ b σ τ, P b σ → P b (σ ++ τ)) →
  ∀ σ, ∃ bs τ, alloc_all f xs σ = (bs, σ ++ τ) ∧ length bs = length xs ∧
               Forall (λ b, P b (σ ++ τ)) bs.
Proof.
  intros Hf Hmono. induction xs as [|x xs IH]; intros σ.
  - exists [], []. simpl. now rewrite app_nil_r.
  - destruct (Hf x σ) as (b & τ1 & Hb & HP).
    destruct (IH (σ ++ τ1)) as (bs & τ2 & Hbs & Hlen & Hall).
    exists (b :: bs), (τ1 ++ τ2). simpl. rewrite Hb, Hbs, app_assoc.
    split; [reflexivity|]. split; [now rewrite Hlen|].
    constructor; [now apply Hmono | exact Hall].
Qed.

Lemma Forall_has_material_app (σ τ : Heap) (xs : list Ref) :
  Forall (has_material σ) xs → Forall (has_material (σ ++ τ)) xs.
Proof.
  intros H. eapply Forall_impl; [exact H|]. intros x. apply has_material_app.
Qed.

Lemma alloc_meshes_spec {A : Type} (f : A → Mesh) (xs : list A) (σ : Heap) :
  ∃ rs τ, alloc_all (λ x, alloc_mesh (f x) []) xs σ = (rs, σ ++ τ) ∧
          length rs = length xs ∧ Forall (has_material (σ ++ τ)) rs.
Proof.
  apply (alloc_all_spec (λ x, alloc_mesh (f x) []) (λ r σ', has_material σ' r)).
  - intros x σ1. destruct (alloc_mesh_spec (f x) [] σ1) as (τ & E & Hm & _). eauto.
  - intros r σ1 τ. apply has_material_app.
Qed.

End StoreFacts.

(** Moves a fact about the store over the objects created after it. *)
Ltac kept :=
  solve [ repeat first [ eassumption
                       | apply has_material_app
                       | apply Forall_has_material_app ] ].

(** Runs the allocations of a scene, keeping what each one is known to
    have created. *)
Ltac allocs :=
  repeat match goal with
  | |- context [Store.alloc_mesh ?o ?ch ?σ] =>
      let τ := fresh "τ" in let Hm := fresh "Hm" in let Hc := fresh "Hc" in
      destruct (alloc_mesh_spec o ch σ) as (τ & -> & Hm & Hc); cbv beta iota
  | |- context [Store.alloc_points ?p ?σ] =>
      let τ := fresh "τ" in let Hm := fresh "Hm" in
      destruct (alloc_points_spec p σ) as (τ & -> & Hm); cbv beta iota
  | |- context [Store.alloc_all (λ x, Store.alloc_mesh (@?f x) []) ?xs ?σ] =>
      let rs := fresh "rs" in let τ := fresh "τ" in
      let Hlen := fresh "Hlen" in let Hall := fresh "Hall" in
      destruct (alloc_meshes_spec f xs σ) as (rs & τ & -> & Hlen & Hall); cbv beta iota
  end.

(** One statement of an [updateColors] that writes in place. *)
Ltac hstep σ0 :=
  lazymatch goal with
  | |- returns (Store.material_color_setHex _ _ _) _ _ =>
      apply (returns_material_color_setHex σ0);
      [ try assumption | first [assumption | apply recoloured_heap_refl] | intros ? ? ]
  | |- returns (Store.material_opacity_set _ _ _) _ _ =>
      apply (returns_material_opacity_set σ0);
      [ try assumption | first [assumption | apply recoloured_heap_refl] | intros ? ? ]
  | |- returns (random_primary_or_secondary _) _ _ =>
      apply returns_random_primary_or_secondary; intros ?
  | _ => mstep
  end.

Section HeroInPlace.
Import Store QuantumHeroObjects.

Lemma hero_allocate_spec (s : QuantumHeroScene.Scene) (σ0 : Heap) :
  ∃ this σ, allocate s σ0 = (this, σ) ∧
    Forall (has_material σ) (painted (HeroThis this) σ) ∧
    length (entanglementLines this) = length (QuantumHeroScene.entanglementLines s).
Proof.
  unfold allocate, new. allocs.
  match goal with H : length _ = length (QuantumHeroScene.entanglementLines s) |- _ =>
    rename H into Hcount end.
  eexists _, _. split; [reflexivity|]. split; [|exact Hcount].
  cbn [painted core innerCore glowSphere particleSystem quantumOrbitals entanglementLines].
  repeat first [apply Forall_app; split | apply Forall_cons; split | apply Forall_nil];
    try kept; try done.
Qed.

Lemma hero_updateColors_recolours (this : This) (σ0 : Heap) (w : World) :
  supported (theme_of w) →
  Forall (has_material σ0) (painted (HeroThis this) σ0) →
  returns (updateColors this σ0) w
    (λ σ' w', w' = advance (if String.eqb (theme_of w) "light" then 0
                            else length (entanglementLines this)) w ∧
              Forall2 recoloured σ0 σ').
Proof.
  intros Hsup Hwf. destruct (supported_palette _ Hsup) as (p & Hp & Hcase).
  cbn [painted] in Hwf.
  apply Forall_app in Hwf as [Hfix Hwf]. apply Forall_app in Hwf as [Horb Hlines].
  apply Forall_cons in Hfix as [Hcore Hfix]. apply Forall_cons in Hfix as [Hinner Hfix].
  apply Forall_cons in Hfix as [Hglow Hfix]. apply Forall_cons in Hfix as [Hps _].
  unfold updateColors. mstep. apply (returns_getThemeColors _ _ _ Hp).
  mstep. apply returns_getCurrentTheme.
  destruct Hcase as [[-> ->] | [-> ->]].
  - repeat hstep σ0.
    eapply returns_mono.
    { apply (forEach_recolours _ _ 0 σ0); [|assumption].
      intros k x σ1 w1 Hx Hs1. pose proof (Forall_lookup_1 _ _ _ _ Horb Hx).
      repeat hstep σ0. split; [now rewrite advance_0 | assumption]. }
    intros σ1 w1 [-> Hs1]. cbv beta.
    eapply returns_mono.
    { apply (forEach_recolours _ _ 1 σ0); [|assumption].
      intros k x σ2 w2 Hx Hs2. pose proof (Forall_lookup_1 _ _ _ _ Hlines Hx).
      repeat hstep σ0. split; [reflexivity | assumption]. }
    intros σ2 w2 [-> Hs2]. split; [|exact Hs2].
    rewrite advance_advance. f_equal. lia.
  - repeat hstep σ0.
    eapply returns_mono.
    { apply (forEach_recolours _ _ 0 σ0); [|assumption].
      intros k x σ1 w1 Hx Hs1. pose proof (Forall_lookup_1 _ _ _ _ Horb Hx).
      repeat hstep σ0. split; [now rewrite advance_0 | assumption]. }
    intros σ1 w1 [-> Hs1]. cbv beta.
    eapply returns_mono.
    { apply (forEach_recolours _ _ 0 σ0); [|assumption].
      intros k x σ2 w2 Hx Hs2. pose proof (Forall_lookup_1 _ _ _ _ Hlines Hx).
      repeat hstep σ0. split; [now rewrite advance_0 | assumption]. }
    intros σ2 w2 [-> Hs2]. split; [|exact Hs2].
    rewrite advance_advance. f_equal.
Qed.

End HeroInPlace.

Section ProcessorInPlace.
Import Store QuantumProcessorObjects.

Lemma alloc_qubits_spec (qs : list QuantumProcessorScene.Qubit) (σ : Heap) :
  ∃ rs τ, alloc_all alloc_qubit qs σ = (rs, σ ++ τ) ∧ length rs = length qs ∧
          Forall (λ q, has_material (σ ++ τ) (mesh q) ∧ has_material (σ ++ τ) (ring q)) rs.
Proof.
  apply (alloc_all_spec alloc_qubit (λ q σ', has_material σ' (mesh q) ∧ has_material σ' (ring q))).
  - intros q σ1. unfold alloc_qubit. allocs.
    eexists _, _. rewrite <- app_assoc. split; [reflexivity|].
    cbn [mesh ring]. rewrite app_assoc. split; kept.
  - intros q σ1 τ [Hm Hr]. split; now apply has_material_app.
Qed.

Lemma processor_allocate_spec (s : QuantumProcessorScene.Scene) (σ0 : Heap) :
  ∃ this σ, allocate s σ0 = (this, σ) ∧
    Forall (has_material σ) (painted (ProcessorThis this) σ) ∧
    length (qubits this) = length (QuantumProcessorScene.qubits s).
Proof.
  unfold allocate, new. allocs.
  match goal with |- context [alloc_all alloc_qubit ?qs ?σ] =>
    destruct (alloc_qubits_spec qs σ) as (qs' & τq & -> & Hcount & Hqs) end.
  cbv beta iota. allocs.
  eexists _, _. split; [reflexivity|]. split; [|exact Hcount].
  cbn [painted gridHelper qubits connectionLines].
  apply Forall_cons; split; [kept|].
  apply Forall_app; split; [|apply Forall_app; split; [|kept]].
  - apply Forall_fmap. eapply Forall_impl; [exact Hqs|].
    intros q [Hqm _]. simpl. kept.
  - apply Forall_fmap. eapply Forall_impl; [exact Hqs|].
    intros q [_ Hqr]. simpl. kept.
Qed.

Lemma processor_updateColors_recolours (this : This) (σ0 : Heap) (w : World) :
  supported (theme_of w) →
  Forall (has_material σ0) (painted (ProcessorThis this) σ0) →
  returns (updateColors this σ0) w
    (λ σ' w', w' = advance (if String.eqb (theme_of w) "light" then 0
                            else length (qubits this)) w ∧
              Forall2 recoloured σ0 σ').
Proof.
  intros Hsup Hwf. destruct (supported_palette _ Hsup) as (p & Hp & Hcase).
  cbn [painted] in Hwf.
  apply Forall_cons in Hwf as [Hgrid Hwf]. apply Forall_app in Hwf as [Hmesh Hwf].
  apply Forall_app in Hwf as [Hring _].
  rewrite Forall_fmap in Hmesh, Hring.
  unfold updateColors. mstep. apply (returns_getThemeColors _ _ _ Hp).
  mstep. apply returns_getCurrentTheme.
  destruct Hcase as [[-> ->] | [-> ->]].
  - repeat hstep σ0.
    eapply returns_mono.
    { apply (forEach_recolours _ _ 1 σ0); [|assumption].
      intros k x σ1 w1 Hx Hs1.
      pose proof (Forall_lookup_1 _ _ _ _ Hmesh Hx) as Hxm.
      pose proof (Forall_lookup_1 _ _ _ _ Hring Hx) as Hxr. simpl in Hxm, Hxr.
      repeat hstep σ0. split; [reflexivity | assumption]. }
    intros σ2 w2 [-> Hs2]. split; [|exact Hs2]. f_equal. lia.
  - repeat hstep σ0.
    eapply returns_mono.
    { apply (forEach_recolours _ _ 0 σ0); [|assumption].
      intros k x σ1 w1 Hx Hs1.
      pose proof (Forall_lookup_1 _ _ _ _ Hmesh Hx) as Hxm.
      pose proof (Forall_lookup_1 _ _ _ _ Hring Hx) as Hxr. simpl in Hxm, Hxr.
      repeat hstep σ0. split; [now rewrite advance_0 | assumption]. }
    intros σ2 w2 [-> Hs2]. split; [|exact Hs2]. reflexivity.
Qed.

End ProcessorInPlace.

Section NeuralInPlace.
Import Store NeuralNetworkObjects.

Lemma alloc_nodes_spec (ns : list NeuralNetworkScene.Node) (σ : Heap) :
  ∃ rs τ, alloc_all alloc_node ns σ = (rs, σ ++ τ) ∧
          Forall (λ n, has_material (σ ++ τ) (mesh n)) rs.
Proof.
  destruct (alloc_all_spec alloc_node (λ n σ', has_material σ' (mesh n)) ns)
    with (σ := σ) as (rs & τ & E & _ & Hall).
  - intros n σ1. unfold alloc_node. allocs. eauto.
  - intros n σ1 τ. apply has_material_app.
  - eauto.
Qed.

Lemma neural_allocate_spec (s : NeuralNetworkScene.Scene) (σ0 : Heap) :
  ∃ this σ, allocate s σ0 = (this, σ) ∧
    Forall (has_material σ) (painted (NeuralThis this) σ).
Proof.
  unfold allocate, new.
  match goal with |- context [alloc_all alloc_node ?ns ?σ] =>
    destruct (alloc_nodes_spec ns σ) as (ns' & τn & -> & Hns) end.
  cbv beta iota. allocs.
  eexists _, _. split; [reflexivity|].
  cbn [painted nodes connections].
  apply Forall_app; split; [|kept].
  apply Forall_fmap. eapply Forall_impl; [exact Hns|]. intros n Hn. simpl. kept.
Qed.

Lemma neural_updateColors_recolours (this : This) (σ0 : Heap) (w : World) :
  supported (theme_of w) →
  Forall (has_material σ0) (painted (NeuralThis this) σ0) →
  returns (updateColors this σ0) w (λ σ' w', w' = w ∧ Forall2 recoloured σ0 σ').
Proof.
  intros Hsup Hwf. destruct (supported_palette _ Hsup) as (p & Hp & Hcase).
  cbn [painted] in Hwf. apply Forall_app in Hwf as [Hnodes Hconn].
  rewrite Forall_fmap in Hnodes.
  unfold updateColors. mstep. apply (returns_getThemeColors _ _ _ Hp).
  mstep. apply returns_getCurrentTheme.
  destruct Hcase as [[-> ->] | [-> ->]].
  - mstep. eapply returns_mono.
    { apply (forEach_recolours _ _ 0 σ0); [|apply recoloured_heap_refl].
      intros k x σ1 w1 Hx Hs1.
      pose proof (Forall_lookup_1 _ _ _ _ Hnodes Hx) as Hxm. simpl in Hxm.
      mstep. destruct (NeuralNetworkScene.is_outer_layer _);
        repeat hstep σ0; (split; [now rewrite advance_0 | assumption]). }
    intros σ1 w1 [-> Hs1]. cbv beta.
    eapply returns_mono.
    { apply (forEach_recolours _ _ 0 σ0); [|assumption].
      intros k x σ2 w2 Hx Hs2. pose proof (Forall_lookup_1 _ _ _ _ Hconn Hx).
      repeat hstep σ0. split; [now rewrite advance_0 | assumption]. }
    intros σ2 w2 [-> Hs2]. split; [|exact Hs2]. now rewrite !Nat.mul_0_l, !advance_0.
  - mstep. eapply returns_mono.
    { apply (forEach_recolours _ _ 0 σ0); [|apply recoloured_heap_refl].
      intros k x σ1 w1 Hx Hs1.
      pose proof (Forall_lookup_1 _ _ _ _ Hnodes Hx) as Hxm. simpl in Hxm.
      mstep. destruct (NeuralNetworkScene.is_outer_layer _); [|destruct (_ =? _)%nat];
        repeat hstep σ0; (split; [now rewrite advance_0 | assumption]). }
    intros σ1 w1 [-> Hs1]. cbv beta.
    eapply returns_mono.
    { apply (forEach_recolours _ _ 0 σ0); [|assumption].
      intros k x σ2 w2 Hx Hs2. pose proof (Forall_lookup_1 _ _ _ _ Hconn Hx).
      repeat hstep σ0. split; [now rewrite advance_0 | assumption]. }
    intros σ2 w2 [-> Hs2]. split; [|exact Hs2]. now rewrite !Nat.mul_0_l, !advance_0.
Qed.

End NeuralInPlace.

Section FloatingInPlace.
Import Store FloatingParticlesObjects.

Lemma floating_allocate_spec (s : FloatingParticlesScene.Scene) (σ0 : Heap) :
  ∃ this σ, allocate s σ0 = (this, σ) ∧
    Forall (has_material σ) (painted (FloatingThis this) σ).
Proof.
  unfold allocate, new. allocs.
  eexists _, _. split; [reflexivity|].
  cbn [painted particles]. apply Forall_cons; split; [kept | constructor].
Qed.

Lemma floating_updateColors_recolours (this : This) (σ0 : Heap) (w : World) :
  supported (theme_of w) →
  Forall (has_material σ0) (painted (FloatingThis this) σ0) →
  returns (updateColors this σ0) w (λ σ' w', w' = w ∧ Forall2 recoloured σ0 σ').
Proof.
  intros Hsup Hwf. destruct (supported_palette _ Hsup) as (p & Hp & Hcase).
  cbn [painted] in Hwf. apply Forall_cons in Hwf as [Hps _].
  unfold updateColors. mstep. apply (returns_getThemeColors _ _ _ Hp).
  mstep. apply returns_getCurrentTheme.
  destruct Hcase as [[-> ->] | [-> ->]]; repeat hstep σ0; (split; [reflexivity | assumption]).
Qed.

End FloatingInPlace.

Section FeatureInPlace.
Import Store FeatureQuantumObjects.

Lemma alloc_orbits_spec (os : list FeatureQuantumScene.Orbit) (σ : Heap) :
  ∃ rs τ, alloc_all alloc_orbit os σ = (rs, σ ++ τ) ∧
          Forall (λ o, has_material (σ ++ τ) o ∧
                       Forall (has_material (σ ++ τ)) (children_of o (σ ++ τ))) rs.
Proof.
  destruct (alloc_all_spec alloc_orbit
              (λ o σ', has_material σ' o ∧ Forall (has_material σ') (children_of o σ')) os)
    with (σ := σ) as (rs & τ & E & _ & Hall).
  - intros o σ1. unfold alloc_orbit.
    destruct (alloc_meshes_spec (λ e : Mesh, e) (FeatureQuantumScene.children o) σ1)
      as (cs & τ1 & E1 & _ & Hcs).
    cbv beta in E1. rewrite E1. allocs.
    eexists _, _. rewrite <- app_assoc. split; [reflexivity|].
    rewrite app_assoc. split; [kept|].
    match goal with H : children_of _ _ = cs |- _ => rewrite H end. kept.
  - intros o σ1 τ [Ho Hc]. split; [now apply has_material_app|].
    rewrite children_of_app by now apply has_material_lookup.
    now apply Forall_has_material_app.
  - eauto.
Qed.

Lemma feature_allocate_spec (s : FeatureQuantumScene.Scene) (σ0 : Heap) :
  ∃ this σ, allocate s σ0 = (this, σ) ∧
    Forall (has_material σ) (painted (FeatureThis this) σ).
Proof.
  unfold allocate, new. allocs.
  match goal with |- context [alloc_all alloc_orbit ?os ?σ] =>
    destruct (alloc_orbits_spec os σ) as (os' & τo & -> & Hos) end.
  cbv beta iota.
  eexists _, _. split; [reflexivity|].
  cbn [painted core orbits].
  apply Forall_cons; split; [kept|].
  apply Forall_app; split.
  - eapply Forall_impl; [exact Hos|]. now intros o [Ho _].
  - apply Forall_forall. intros e He. apply list_elem_of_join in He as (cs & He & Hcs).
    apply list_elem_of_fmap in Hcs as (o & -> & Ho).
    rewrite Forall_forall in Hos. destruct (Hos o Ho) as [_ Hkids].
    rewrite Forall_forall in Hkids. now apply Hkids.
Qed.

Lemma feature_updateColors_recolours (this : This) (σ0 : Heap) (w : World) :
  supported (theme_of w) →
  Forall (has_material σ0) (painted (FeatureThis this) σ0) →
  returns (updateColors this σ0) w (λ σ' w', w' = w ∧ Forall2 recoloured σ0 σ').
Proof.
  intros Hsup Hwf. destruct (supported_palette _ Hsup) as (p & Hp & Hcase).
  cbn [painted] in Hwf. apply Forall_cons in Hwf as [Hcore Hwf].
  apply Forall_app in Hwf as [Horbits Hchildren].
  assert (Helectron : ∀ k o e, orbits this !! k = Some o → children_of o σ0 !! 0 = Some e →
                               has_material σ0 e).
  { intros k o e Ho He. rewrite Forall_forall in Hchildren. apply Hchildren.
    apply list_elem_of_join. exists (children_of o σ0).
    split; [eapply list_elem_of_lookup_2; exact He|].
    apply list_elem_of_fmap. exists o. split; [reflexivity|].
    eapply list_elem_of_lookup_2; exact Ho. }
  unfold updateColors. mstep. apply (returns_getThemeColors _ _ _ Hp).
  mstep. apply returns_getCurrentTheme.
  destruct Hcase as [[-> ->] | [-> ->]].
  - repeat hstep σ0.
    eapply returns_mono.
    { apply (forEach_recolours _ _ 0 σ0); [|assumption].
      intros k x σ1 w1 Hx Hs1. pose proof (Forall_lookup_1 _ _ _ _ Horbits Hx).
      mstep. destruct (_ =? _)%nat; repeat hstep σ0;
        (match goal with Hs : Forall2 recoloured σ0 ?σ |- context [children_of x ?σ] =>
           rewrite (recoloured_children_of σ0 σ x Hs) end;
         destruct (children_of x σ0 !! 0) as [e|] eqn:He;
         [pose proof (Helectron k x e Hx He) | ];
         repeat hstep σ0; (split; [now rewrite advance_0 | assumption])). }
    intros σ2 w2 [-> Hs2]. split; [|exact Hs2]. now rewrite !Nat.mul_0_l, !advance_0.
  - repeat hstep σ0.
    eapply returns_mono.
    { apply (forEach_recolours _ _ 0 σ0); [|assumption].
      intros k x σ1 w1 Hx Hs1. pose proof (Forall_lookup_1 _ _ _ _ Horbits Hx).
      repeat hstep σ0.
      match goal with Hs : Forall2 recoloured σ0 ?σ |- context [children_of x ?σ] =>
        rewrite (recoloured_children_of σ0 σ x Hs) end.
      destruct (children_of x σ0 !! 0) as [e|] eqn:He;
        [pose proof (Helectron k x e Hx He) | ];
        repeat hstep σ0; (split; [now rewrite advance_0 | assumption]). }
    intros σ2 w2 [-> Hs2]. split; [|exact Hs2]. now rewrite !Nat.mul_0_l, !advance_0.
Qed.

End FeatureInPlace.

(** The number of random values a recolouring draws is the same by value
    and in place. *)
Lemma updateColors_draws (s : AnyScene) (w : World) :
  supported (theme_of w) →
  ∃ s', scene_updateColors s w
          = (Ok s', advance (if String.eqb (theme_of w) "light" then 0
                             else random_colors_needed s) w).
Proof.
  intros [Hd | Hl].
  - rewrite (scene_updateColors_dark s w Hd), Hd. eauto.
  - rewrite (scene_updateColors_light s w Hl), Hl. simpl. rewrite advance_0. eauto.
Qed.

Lemma allocate_updateColors_in_place (s : AnyScene) (w : World) (σ0 : Store.Heap) :
  supported (theme_of w) →
  ∃ this σ σ', allocate s σ0 = (this, σ) ∧
    updateColors_in_place this σ w
      = (Ok σ', advance (if String.eqb (theme_of w) "light" then 0
                         else random_colors_needed s) w) ∧
    Forall2 Store.recoloured σ σ'.
Proof.
  intros Hsup. destruct s as [x|x|x|x|x]; unfold allocate.
  - destruct (hero_allocate_spec x σ0) as (this & σ & -> & Hwf & Hn).
    destruct (hero_updateColors_recolours this σ w Hsup Hwf) as (σ' & w' & Hrun & -> & Hrec).
    exists (HeroThis this), σ, σ'. simpl. rewrite <- Hn. auto.
  - destruct (processor_allocate_spec x σ0) as (this & σ & -> & Hwf & Hn).
    destruct (processor_updateColors_recolours this σ w Hsup Hwf)
      as (σ' & w' & Hrun & -> & Hrec).
    exists (ProcessorThis this), σ, σ'. simpl. rewrite <- Hn. auto.
  - destruct (neural_allocate_spec x σ0) as (this & σ & -> & Hwf).
    destruct (neural_updateColors_recolours this σ w Hsup Hwf) as (σ' & w' & Hrun & -> & Hrec).
    exists (NeuralThis this), σ, σ'. simpl.
    destruct (String.eqb _ _); rewrite advance_0; auto.
  - destruct (floating_allocate_spec x σ0) as (this & σ & -> & Hwf).
    destruct (floating_updateColors_recolours this σ w Hsup Hwf)
      as (σ' & w' & Hrun & -> & Hrec).
    exists (FloatingThis this), σ, σ'. simpl.
    destruct (String.eqb _ _); rewrite advance_0; auto.
  - destruct (feature_allocate_spec x σ0) as (this & σ & -> & Hwf).
    destruct (feature_updateColors_recolours this σ w Hsup Hwf) as (σ' & w' & Hrun & -> & Hrec).
    exists (FeatureThis this), σ, σ'. simpl.
    destruct (String.eqb _ _); rewrite advance_0; auto.
Qed.

(** C4: under the dark and under the light theme [updateColors] of every
    scene changes material colours and opacities only, and it changes them
    where they are.  By value: the scene it returns differs from the one it
    was given in material colours and opacities only, with the same
    geometries in the same order and the same camera, and on the page only
    random values are drawn.  By reference: with the objects of the scene
    in a store, on top of whatever the store [σ0] held, the recolouring
    returns with a store of the same size, so no object was created; every
    reference holds an object of the kind it held; every object other than
    a material is unchanged, so each mesh has the geometry and the material
    it had and the camera its parameters; and a material differs in colour
    and opacity at most. *)
Theorem updateColors_only_recolors (s : AnyScene) (w : World) (σ0 : Store.Heap) :
  supported (theme_of w) →
  ∃ s' k, scene_updateColors s w = (Ok s', advance k w) ∧
          bleach s' = bleach s ∧
          scene_geometries s' = scene_geometries s ∧
          length (scene_geometries s') = length (scene_geometries s) ∧
          camera_of s' = camera_of s ∧
          ∃ this σ σ', allocate s σ0 = (this, σ) ∧
            updateColors_in_place this σ w = (Ok σ', advance k w) ∧
            length σ' = length σ ∧
            ∀ x o, σ !! x = Some o →
                   ∃ o', σ' !! x = Some o' ∧ Store.recoloured o o'.
Proof.
  intros Hsup.
  destruct (updateColors_draws s w Hsup) as (s' & Hrun).
  destruct (scene_updateColors_values s w Hsup)
    as (s'' & k & Hrun' & Hb & Hg & Hn & Hc).
  rewrite Hrun in Hrun'. injection Hrun' as <- _.
  destruct (allocate_updateColors_in_place s w σ0 Hsup) as (this & σ & σ' & Ha & Hin & Hrec).
  eexists s', _. split; [exact Hrun|]. repeat (split; [assumption|]).
  exists this, σ, σ'. split; [exact Ha|]. split; [exact Hin|].
  split; [symmetry; eapply Forall2_length; exact Hrec|].
  intros x o Hx. pose proof (recoloured_lookup σ σ' x Hrec) as Hxx.
  rewrite Hx in Hxx. destruct (σ' !! x) as [o'|]; [eauto | contradiction].
Qed.

Lemma updateColors_only_recolors_witness :
  ∃ s w', construct QuantumProcessor "tech-canvas" (sample_page (Some "dark") 0.5)
            = (Ok (Built s), w') ∧
    ∃ s' k, scene_updateColors s w' = (Ok s', advance k w') ∧
            bleach s' = bleach s ∧
            scene_geometries s' = scene_geometries s ∧
            camera_of s' = camera_of s ∧
            ∃ this σ σ', allocate s [] = (this, σ) ∧
              updateColors_in_place this σ w' = (Ok σ', advance k w') ∧
              length σ' = length σ.
Proof.
  destruct (construct_returns QuantumProcessor "tech-canvas" (sample_page (Some "dark") 0.5)
              {| offsetWidth := 800; offsetHeight := 600; canvases := [] |}
              eq_refl (or_introl eq_refl))
    as (s & k & Hbuilt & _ & _).
  eexists _, _. split; [exact Hbuilt|].
  destruct (updateColors_only_recolors s
              (page_after_init QuantumProcessor "tech-canvas" k (sample_page (Some "dark") 0.5))
              [] (or_introl eq_refl))
    as (s' & k' & Hrun & Hbleach & Hgeom & _ & Hcam & this & σ & σ' & Ha & Hin & Hlen & _).
  exists s', k'. split; [exact Hrun|]. split; [exact Hbleach|]. split; [exact Hgeom|].
  split; [exact Hcam|]. exists this, σ, σ'. auto.
Defined.

(* ================================================================== *)
(** * What the constructors leave on the page                           *)
(* ================================================================== *)

Lemma construct_absent (c : SceneClass) (id : string) (w : World) :
  document_elements w !! id = None → construct c id w = (Ok NoContainer, w).
Proof.
  intros Hnone.
  assert (Hfind : Host.getElementById id w = (Ok None, w))
    by (unfold Host.getElementById, gets; now rewrite Hnone).
  destruct c; unfold construct;
    (rewrite (fmap_ok _ _ w NoContainer w); [reflexivity|]);
    unfold QuantumHeroScene.constructor, QuantumProcessorScene.constructor,
      NeuralNetworkScene.constructor, FloatingParticlesScene.constructor,
      FeatureQuantumScene.constructor;
    now rewrite (bind_ok _ _ _ _ _ Hfind).
Qed.

(** When the container exists and the theme has a palette, a constructor
    appends one canvas to its container and touches no other element; it
    registers one resize listener, one theme observer and one animation
    frame, and a mousemove listener for the hero scene only; the theme
    attribute, the storage and the click listeners are left alone. *)
Theorem construct_page_effects (c : SceneClass) (id : string) (w : World) (el : Element) :
  document_elements w !! id = Some el →
  supported (theme_of w) →
  ∃ s w', construct c id w = (Ok (Built s), w') ∧
    class_of s = c ∧ container_of s = id ∧
    document_elements w' !! id = Some (add_canvas c el) ∧
    (∀ id', id' ≠ id → document_elements w' !! id' = document_elements w !! id') ∧
    resize_listeners w' = resize_listeners w ++ [c] ∧
    observers w' = observers w ++ [c] ∧
    frame_requests w' = frame_requests w ++ [c] ∧
    mousemove_listeners w'
      = mousemove_listeners w ++ match c with QuantumHero => [c] | _ => [] end ∧
    data_theme w' = data_theme w ∧
    localStorage w' = localStorage w ∧
    click_listeners w' = click_listeners w.
Proof.
  intros Hel Hsup.
  destruct (construct_returns c id w el Hel Hsup) as (s & k & Hrun & Hclass & Hid).
  exists s, (page_after_init c id k w).
  split; [exact Hrun|]. split; [exact Hclass|]. split; [exact Hid|].
  split; [cbn [page_after_init document_elements]; now rewrite lookup_alter_eq, Hel|].
  split; [intros id' Hne; cbn [page_after_init document_elements];
          now rewrite lookup_alter_ne|].
  repeat split.
Qed.

Lemma construct_page_effects_witness :
  ∃ s w', construct QuantumHero "hero-canvas" (sample_page (Some "dark") 0.5)
            = (Ok (Built s), w') ∧
    observers w' = [QuantumHero] ∧ mousemove_listeners w' = [QuantumHero] ∧
    canvases <$> document_elements w' !! "hero-canvas" = Some [QuantumHero].
Proof.
  destruct (construct_page_effects QuantumHero "hero-canvas" (sample_page (Some "dark") 0.5)
              {| offsetWidth := 800; offsetHeight := 600; canvases := [] |}
              eq_refl (or_introl eq_refl))
    as (s & w' & Hrun & _ & _ & Hcanvas & _ & _ & Hobs & _ & Hmouse & _).
  exists s, w'. split; [exact Hrun|]. split; [exact Hobs|]. split; [exact Hmouse|].
  rewrite Hcanvas. reflexivity.
Defined.

Lemma alter_absent {A : Type} (f : A → A) (id : string) (m : gmap string A) :
  m !! id = None → alter f id m = m.
Proof.
  intros Hnone. apply map_eq. intros j. rewrite lookup_alter.
  case_decide; [subst; now rewrite Hnone | reflexivity].
Qed.

Lemma built_if_present_alter (w w' : World) (f : Element → Element) (id' : string) c id :
  document_elements w' = alter f id' (document_elements w) →
  built_if_present w' c id = built_if_present w c id.
Proof.
  intros H. unfold built_if_present. rewrite H, lookup_alter.
  case_decide; [subst|reflexivity]. now destruct (document_elements w !! id).
Qed.

(** A constructor under a theme that has a palette, whether or not its
    container exists. *)
Lemma construct_either (c : SceneClass) (id : string) (w : World) :
  supported (theme_of w) →
  ∃ r w', construct c id w = (Ok r, w') ∧
    built_class r = built_if_present w c id ∧
    data_theme w' = data_theme w ∧
    document_elements w' = alter (add_canvas c) id (document_elements w) ∧
    observers w' = observers w ++ built_if_present w c id ∧
    resize_listeners w' = resize_listeners w ++ built_if_present w c id ∧
    frame_requests w' = frame_requests w ++ built_if_present w c id ∧
    mousemove_listeners w'
      = mousemove_listeners w
        ++ match c with QuantumHero => built_if_present w c id | _ => [] end.
Proof.
  intros Hsup. unfold built_if_present.
  destruct (document_elements w !! id) as [el|] eqn:Hel.
  - destruct (construct_returns c id w el Hel Hsup) as (s & k & Hrun & Hclass & Hid).
    exists (Built s), (page_after_init c id k w).
    split; [exact Hrun|]. split; [simpl; now rewrite Hclass|].
    repeat split.
  - exists NoContainer, w. split; [now apply construct_absent|].
    split; [reflexivity|]. split; [reflexivity|].
    split; [symmetry; now apply alter_absent|].
    rewrite !app_nil_r. repeat split; try (destruct c; now rewrite ?app_nil_r).
Qed.

Lemma theme_of_data_theme (w w' : World) :
  data_theme w' = data_theme w → theme_of w' = theme_of w.
Proof. unfold theme_of. now intros ->. Qed.

(** The [DOMContentLoaded] handler, under a theme that has a palette, ends
    normally whatever containers the page has: it builds the scenes whose
    container exists, in the order of the script, and skips the others.
    Each scene built has registered one observer, one resize listener and
    one frame; only the hero scene listens to the pointer. *)
Theorem initScenes_builds_present (w : World) :
  supported (theme_of w) →
  ∃ rs w', initScenes w = (Ok rs, w') ∧
    mjoin (built_class <$> rs) = present_scenes w ∧
    observers w' = observers w ++ present_scenes w ∧
    resize_listeners w' = resize_listeners w ++ present_scenes w ∧
    frame_requests w' = frame_requests w ++ present_scenes w ∧
    mousemove_listeners w'
      = mousemove_listeners w ++ built_if_present w QuantumHero "hero-canvas" ∧
    data_theme w' = data_theme w.
Proof.
  intros Hsup0.
  destruct (construct_either QuantumHero "hero-canvas" w Hsup0)
    as (r1 & w1 & Hrun1 & Hb1 & Ht1 & He1 & Ho1 & Hr1 & Hf1 & Hm1).
  assert (Hsup1 : supported (theme_of w1)) by now rewrite (theme_of_data_theme _ _ Ht1).
  destruct (construct_either QuantumProcessor "tech-canvas" w1 Hsup1)
    as (r2 & w2 & Hrun2 & Hb2 & Ht2 & He2 & Ho2 & Hr2 & Hf2 & Hm2).
  assert (Hsup2 : supported (theme_of w2)) by now rewrite (theme_of_data_theme _ _ Ht2).
  destruct (construct_either NeuralNetwork "about-canvas" w2 Hsup2)
    as (r3 & w3 & Hrun3 & Hb3 & Ht3 & He3 & Ho3 & Hr3 & Hf3 & Hm3).
  assert (Hsup3 : supported (theme_of w3)) by now rewrite (theme_of_data_theme _ _ Ht3).
  destruct (construct_either FloatingParticles "cta-canvas" w3 Hsup3)
    as (r4 & w4 & Hrun4 & Hb4 & Ht4 & He4 & Ho4 & Hr4 & Hf4 & Hm4).
  assert (Hsup4 : supported (theme_of w4)) by now rewrite (theme_of_data_theme _ _ Ht4).
  destruct (construct_either FeatureQuantum "feature-visual-1" w4 Hsup4)
    as (r5 & w5 & Hrun5 & Hb5 & Ht5 & He5 & Ho5 & Hr5 & Hf5 & Hm5).
  assert (H2 : ∀ c id, built_if_present w1 c id = built_if_present w c id)
    by (intros; now apply (built_if_present_alter _ _ _ _ _ _ He1)).
  assert (H3 : ∀ c id, built_if_present w2 c id = built_if_present w c id)
    by (intros; now rewrite (built_if_present_alter _ _ _ _ _ _ He2)).
  assert (H4 : ∀ c id, built_if_present w3 c id = built_if_present w c id)
    by (intros; now rewrite (built_if_present_alter _ _ _ _ _ _ He3)).
  assert (H5 : ∀ c id, built_if_present w4 c id = built_if_present w c id)
    by (intros; now rewrite (built_if_present_alter _ _ _ _ _ _ He4)).
  exists [r1; r2; r3; r4; r5], w5. split.
  { unfold initScenes.
    rewrite (bind_ok _ _ _ _ _ Hrun1), (bind_ok _ _ _ _ _ Hrun2),
      (bind_ok _ _ _ _ _ Hrun3), (bind_ok _ _ _ _ _ Hrun4), (bind_ok _ _ _ _ _ Hrun5).
    reflexivity. }
  unfold present_scenes, scene_bindings. cbn [fmap list_fmap mjoin list_join fst snd].
  rewrite Hb1, Hb2, Hb3, Hb4, Hb5, Ho5, Ho4, Ho3, Ho2, Ho1, Hr5, Hr4, Hr3, Hr2, Hr1,
    Hf5, Hf4, Hf3, Hf2, Hf1, Hm5, Hm4, Hm3, Hm2, Hm1, Ht5, Ht4, Ht3, Ht2, Ht1,
    !H2, !H3, !H4, !H5, !app_nil_r, <- !app_assoc.
  repeat split.
Qed.

Lemma initScenes_builds_present_witness :
  ∃ rs w', initScenes (sample_page (Some "light") 0.5) = (Ok rs, w') ∧
    observers w' = [QuantumHero; QuantumProcessor; NeuralNetwork; FloatingParticles;
                    FeatureQuantum] ∧
    mousemove_listeners w' = [QuantumHero].
Proof.
  destruct (initScenes_builds_present (sample_page (Some "light") 0.5) (or_intror eq_refl))
    as (rs & w' & Hrun & _ & Hobs & _ & _ & Hmouse & _).
  exists rs, w'. split; [exact Hrun|]. split; [exact Hobs | exact Hmouse].
Defined.

(* ================================================================== *)
(** * A theme without a palette                                         *)
(* ================================================================== *)

Lemma getThemeColors_undefined (w : World) :
  no_palette (theme_of w) → getThemeColors w = (Ok Undefined, w).
Proof.
  intros [Hnone Hkey]. rewrite getThemeColors_eq, Hnone.
  now rewrite bool_decide_eq_false_2.
Qed.

Lemma no_palette_not_light (theme : string) :
  no_palette theme → String.eqb theme "light" = false.
Proof.
  intros [Hnone _]. destruct (String.eqb_spec theme "light") as [->|]; [|reflexivity].
  rewrite ThemeColors_light in Hnone. discriminate Hnone.
Qed.

(** Runs the host operations at the head of a computation. *)
Ltac run_host :=
  repeat (erewrite bind_ok;
          [| autounfold with host; unfold modify, gets, mbind, M_bind; reflexivity]);
  cbv beta iota.

(** A constructor under a theme without a palette. *)
Lemma construct_throws (c : SceneClass) (id : string) (w : World) (el : Element) :
  document_elements w !! id = Some el →
  no_palette (theme_of w) →
  construct c id w
    = (Throw (TypeError "primary"),
       set_elements (alter (add_canvas c) id (document_elements w)) w).
Proof.
  intros Hel Hnp.
  assert (Hfind : Host.getElementById id w = (Ok (Some el), w))
    by (unfold Host.getElementById, gets; now rewrite Hel).
  pose proof (element_box_eq w id el Hel) as Hbox.
  pose proof (no_palette_not_light _ Hnp) as Hnl.
  destruct c; unfold construct; unfold fmap, M_fmap; apply bind_throw.
  - unfold QuantumHeroScene.constructor. rewrite (bind_ok _ _ _ _ _ Hfind).
    apply bind_throw. unfold QuantumHeroScene.init.
    rewrite (bind_ok _ _ _ _ _ Hbox). run_host.
    apply bind_throw. unfold QuantumHeroScene.createQuantumCore.
    (erewrite bind_ok; [| apply getThemeColors_undefined; exact Hnp]). reflexivity.
  - unfold QuantumProcessorScene.constructor. rewrite (bind_ok _ _ _ _ _ Hfind).
    apply bind_throw. unfold QuantumProcessorScene.init.
    rewrite (bind_ok _ _ _ _ _ Hbox). run_host.
    apply bind_throw. unfold QuantumProcessorScene.createQuantumGrid.
    (erewrite bind_ok; [| apply getThemeColors_undefined; exact Hnp]).
    rewrite (bind_ok _ _ _ _ _ (getCurrentTheme_eq _)).
    change (theme_of (set_elements _ w)) with (theme_of w). now rewrite Hnl.
  - unfold NeuralNetworkScene.constructor. rewrite (bind_ok _ _ _ _ _ Hfind).
    apply bind_throw. unfold NeuralNetworkScene.init.
    rewrite (bind_ok _ _ _ _ _ Hbox). run_host.
    apply bind_throw. unfold NeuralNetworkScene.createNeuralNetwork.
    (erewrite bind_ok; [| apply getThemeColors_undefined; exact Hnp]). reflexivity.
  - unfold FloatingParticlesScene.constructor. rewrite (bind_ok _ _ _ _ _ Hfind).
    apply bind_throw. unfold FloatingParticlesScene.init.
    rewrite (bind_ok _ _ _ _ _ Hbox). run_host.
    apply bind_throw. unfold FloatingParticlesScene.createParticles.
    (erewrite bind_ok; [| apply getThemeColors_undefined; exact Hnp]).
    rewrite (bind_ok _ _ _ _ _ (getCurrentTheme_eq _)).
    change (theme_of (set_elements _ w)) with (theme_of w). now rewrite Hnl.
  - unfold FeatureQuantumScene.constructor. rewrite (bind_ok _ _ _ _ _ Hfind).
    apply bind_throw. unfold FeatureQuantumScene.init.
    rewrite (bind_ok _ _ _ _ _ Hbox). run_host.
    apply bind_throw. unfold FeatureQuantumScene.createScene.
    (erewrite bind_ok; [| apply getThemeColors_undefined; exact Hnp]). reflexivity.
Qed.

(** Under a theme for which [ThemeColors[theme]] is [undefined], every
    constructor whose container exists throws a [TypeError] on its first
    palette read, [colors.primary].  By then the canvas has been appended
    to the container, and nothing else has happened to the page: no
    listener, no observer, no animation frame, no random value drawn. *)
Theorem construct_without_palette (c : SceneClass) (id : string) (w : World) (el : Element) :
  document_elements w !! id = Some el →
  no_palette (theme_of w) →
  construct c id w
    = (Throw (TypeError "primary"),
       set_elements (alter (add_canvas c) id (document_elements w)) w).
Proof. intros Hel Hnp. now apply (construct_throws c id w el). Qed.

Lemma no_palette_sepia : no_palette "sepia".
Proof.
  split; [reflexivity|]. intros H.
  apply (bool_decide_pack ("sepia" ∈ object_prototype_keys)) in H.
  vm_compute in H. exact H.
Qed.

Lemma construct_without_palette_witness :
  construct NeuralNetwork "about-canvas" (sample_page (Some "sepia") 0.5)
    = (Throw (TypeError "primary"),
       set_elements (alter (add_canvas NeuralNetwork) "about-canvas" site_elements)
                    (sample_page (Some "sepia") 0.5)).
Proof.
  exact (construct_without_palette NeuralNetwork "about-canvas"
           (sample_page (Some "sepia") 0.5)
           {| offsetWidth := 800; offsetHeight := 600; canvases := [] |}
           eq_refl no_palette_sepia).
Defined.

Lemma construct_class (c : SceneClass) (id : string) (w0 w1 : World) (s : AnyScene) :
  construct c id w0 = (Ok (Built s), w1) → class_of s = c.
Proof.
  destruct c; unfold construct, fmap, M_fmap, mbind, M_bind, mret, M_ret;
    [destruct (QuantumHeroScene.constructor id w0) as [[[|x]|e] w']
    |destruct (QuantumProcessorScene.constructor id w0) as [[[|x]|e] w']
    |destruct (NeuralNetworkScene.constructor id w0) as [[[|x]|e] w']
    |destruct (FloatingParticlesScene.constructor id w0) as [[[|x]|e] w']
    |destruct (FeatureQuantumScene.constructor id w0) as [[[|x]|e] w']];
    simpl; intros H; try discriminate H; injection H as <- _; reflexivity.
Qed.

(** When the theme attribute is given a value for which
    [ThemeColors[theme]] is [undefined], [updateColors] of every scene that
    was built throws a [TypeError] on its first palette read, before it
    has drawn a random value or changed the page: [colors.particleOpacity]
    in the floating-particles scene, [colors.primary] in the others. *)
Theorem updateColors_without_palette (c : SceneClass) (id : string) (w0 w1 w : World)
    (s : AnyScene) :
  construct c id w0 = (Ok (Built s), w1) →
  no_palette (theme_of w) →
  scene_updateColors s w = (Throw (TypeError (first_read c)), w).
Proof.
  intros Hbuilt Hnp. rewrite <- (construct_class _ _ _ _ _ Hbuilt). clear Hbuilt.
  pose proof (no_palette_not_light _ Hnp) as Hnl.
  destruct s as [x|x|x|x|x]; unfold scene_updateColors; unfold fmap, M_fmap;
    apply bind_throw;
    unfold QuantumHeroScene.updateColors, QuantumProcessorScene.updateColors,
      NeuralNetworkScene.updateColors, FloatingParticlesScene.updateColors,
      FeatureQuantumScene.updateColors;
    rewrite (bind_ok _ _ _ _ _ (getThemeColors_undefined _ Hnp));
    rewrite (bind_ok _ _ _ _ _ (getCurrentTheme_eq _));
    rewrite ?Hnl; reflexivity.
Qed.

Lemma updateColors_without_palette_witness :
  ∃ s w', construct FloatingParticles "cta-canvas" (sample_page (Some "dark") 0.5)
            = (Ok (Built s), w') ∧
    scene_updateColors s (set_data_theme (Some "sepia") w')
      = (Throw (TypeError "particleOpacity"), set_data_theme (Some "sepia") w').
Proof.
  destruct (construct_returns FloatingParticles "cta-canvas" (sample_page (Some "dark") 0.5)
              {| offsetWidth := 800; offsetHeight := 600; canvases := [] |}
              eq_refl (or_introl eq_refl))
    as (s & k & Hbuilt & _ & _).
  eexists _, _. split; [exact Hbuilt|].
  exact (updateColors_without_palette FloatingParticles "cta-canvas" _ _
           (set_data_theme (Some "sepia")
              (page_after_init FloatingParticles "cta-canvas" k
                 (sample_page (Some "dark") 0.5)))
           s Hbuilt no_palette_sepia).
Defined.

(* ================================================================== *)
(** * Resizing a laid-out container                                     *)
(* ================================================================== *)

(** [onResize] sets the renderer to the container's box and the camera
    aspect to its quotient, keeps the scene bound to the same container
    and leaves the page alone; calling it again without a change of
    layout changes nothing more. *)
Theorem onResize_idempotent (s : AnyScene) (w : World) (el : Element) :
  document_elements w !! container_of s = Some el →
  ∃ s', scene_onResize s w = (Ok (Built s'), w) ∧
        renderer_size (renderer_of s') = (offsetWidth el, offsetHeight el) ∧
        aspect (camera_of s') = js_div (offsetWidth el) (offsetHeight el) ∧
        container_of s' = container_of s ∧
        scene_onResize s' w = (Ok (Built s'), w).
Proof.
  intros Hel. pose proof (element_box_eq w _ el Hel) as Hbox.
  destruct s as [x|x|x|x|x]; simpl in Hbox; unfold scene_onResize;
    eexists;
    (split;
      [ (erewrite fmap_ok;
          [| unfold QuantumHeroScene.onResize, QuantumProcessorScene.onResize,
               NeuralNetworkScene.onResize, FloatingParticlesScene.onResize,
               FeatureQuantumScene.onResize;
             rewrite (bind_ok _ _ _ _ _ Hbox); reflexivity ]);
        reflexivity
      | split; [reflexivity|]; split; [reflexivity|]; split; [reflexivity|];
        (erewrite fmap_ok;
          [| unfold QuantumHeroScene.onResize, QuantumProcessorScene.onResize,
               NeuralNetworkScene.onResize, FloatingParticlesScene.onResize,
               FeatureQuantumScene.onResize;
             cbn [QuantumHeroScene.container QuantumProcessorScene.container
                  NeuralNetworkScene.container FloatingParticlesScene.container
                  FeatureQuantumScene.container];
             rewrite (bind_ok _ _ _ _ _ Hbox); reflexivity ]);
        reflexivity ]).
Qed.

Lemma onResize_idempotent_witness :
  ∃ s w', construct FeatureQuantum "feature-visual-1" (sample_page (Some "dark") 0.5)
            = (Ok (Built s), w') ∧
    ∃ s2, scene_onResize s (resize_element "feature-visual-1" 400 300 w')
            = (Ok (Built s2), resize_element "feature-visual-1" 400 300 w') ∧
          renderer_size (renderer_of s2) = (400, 300)%Z.
Proof.
  destruct (construct_returns FeatureQuantum "feature-visual-1"
              (sample_page (Some "dark") 0.5)
              {| offsetWidth := 800; offsetHeight := 600; canvases := [] |}
              eq_refl (or_introl eq_refl))
    as (s & k & Hbuilt & _ & Hid).
  eexists _, _. split; [exact Hbuilt|].
  destruct (onResize_idempotent s
              (resize_element "feature-visual-1" 400 300
                 (page_after_init FeatureQuantum "feature-visual-1" k
                    (sample_page (Some "dark") 0.5)))
              {| offsetWidth := 400; offsetHeight := 300; canvases := [FeatureQuantum] |})
    as (s2 & Hrun & Hsize & _).
  { rewrite Hid. reflexivity. }
  exists s2. split; [exact Hrun | exact Hsize].
Defined.

(* ================================================================== *)
(** * What the frames write                                             *)
(* ================================================================== *)

Section Frames.
Local Open Scope R_scope.

(** Every frame leaves the opacity of each entanglement line of the hero
    scene and of each node of the neural network within [0, 1], whatever
    the clock reads and whatever the phases are: both stay valid
    opacities. *)
Theorem frame_opacities_valid (t : R) (s : AnyScene) :
  (∀ o, o ∈ line_opacities (scene_tick t s) → ∃ v, o = Some v ∧ 0 <= v <= 1) ∧
  (∀ o, o ∈ node_opacities (scene_tick t s) → ∃ v, o = Some v ∧ 0 <= v <= 1).
Proof.
  split; intros o Ho; destruct s as [x|x|x|x|x]; simpl in Ho;
    try (now apply elem_of_nil in Ho).
  - apply list_elem_of_fmap in Ho as (l & -> & Hl).
    apply list_elem_of_fmap in Hl as (l0 & -> & _). simpl.
    eexists. split; [reflexivity|].
    pose proof (SIN_bound (t * 2 + QuantumHeroScene.phase l0)). lra.
  - apply list_elem_of_fmap in Ho as (n & -> & Hn).
    apply list_elem_of_fmap in Hn as (n0 & -> & _). simpl.
    eexists. split; [reflexivity|].
    pose proof (SIN_bound (t * 3 + NeuralNetworkScene.phase n0)). lra.
Qed.

Lemma sin_minus_one_later (φ k : R) : 0 < k → ∃ t, 0 <= t ∧ sin (t * k + φ) = -1.
Proof.
  intros Hk. pose proof PI_RGT_0 as HPI.
  destruct (archimed (φ / (2 * PI))) as [Hup _].
  set (z := up (φ / (2 * PI))) in *. set (n := Z.to_nat z).
  assert (Hn : φ <= 2 * INR n * PI).
  { destruct (Rle_dec φ 0) as [Hle|Hgt].
    - pose proof (pos_INR n). nra.
    - assert (Hpos : 0 < φ / (2 * PI)) by (apply Rdiv_lt_0_compat; lra).
      assert (Hz : (0 < z)%Z) by (apply lt_IZR; lra).
      unfold n. rewrite INR_IZR_INZ, Z2Nat.id by lia.
      apply Rmult_lt_compat_r with (r := 2 * PI) in Hup; [|lra].
      unfold Rdiv in Hup. rewrite Rmult_assoc, Rinv_l in Hup by lra. lra. }
  exists ((3 * (PI / 2) + 2 * INR n * PI - φ) / k). split.
  - apply Rmult_le_pos; [lra|]. left. now apply Rinv_0_lt_compat.
  - replace ((3 * (PI / 2) + 2 * INR n * PI - φ) / k * k + φ)
      with (3 * (PI / 2) + 2 * INR n * PI) by (field; lra).
    rewrite sin_period. apply sin_3PI2.
Qed.

(** The opacity a frame gives a connection of the neural network is not
    kept within [0, 1]: for every connection there is a clock reading at
    which the frame sets its opacity to a negative number. *)
Theorem connection_opacity_goes_negative (c : NeuralNetworkScene.Connection) :
  ∃ t v,
    0 <= t ∧
    opacity (material (NeuralNetworkScene.line (NeuralNetworkScene.animateConnection t c)))
      = Some v ∧
    v < 0.
Proof.
  destruct (sin_minus_one_later (NeuralNetworkScene.connection_phase c) 4) as (t & Ht & Hsin);
    [lra|].
  eexists t, _. split; [exact Ht|]. split; [reflexivity|]. rewrite Hsin. lra.
Qed.

(** A frame of the processor scene keeps the camera within 25 of the
    vertical axis in both horizontal directions, at the height it had, and
    looking at the origin.  It moves each qubit vertically only and scales
    it by the same positive factor along the three axes; the number of
    qubits, the grid and the connection lines are unchanged. *)
Theorem processor_frame_layout (t : R) (s : QuantumProcessorScene.Scene) :
  let s' := QuantumProcessorScene.tick t s in
  let cam := camera_position (QuantumProcessorScene.camera s') in
  -25 <= vx cam <= 25 ∧ -25 <= vz cam <= 25 ∧
  vy cam = vy (camera_position (QuantumProcessorScene.camera s)) ∧
  lookAt (QuantumProcessorScene.camera s') = Some (vec3 0 0 0) ∧
  length (QuantumProcessorScene.qubits s') = length (QuantumProcessorScene.qubits s) ∧
  QuantumProcessorScene.gridHelper s' = QuantumProcessorScene.gridHelper s ∧
  QuantumProcessorScene.connectionLines s' = QuantumProcessorScene.connectionLines s ∧
  ∀ i q, QuantumProcessorScene.qubits s !! i = Some q →
    ∃ q' k, QuantumProcessorScene.qubits s' !! i = Some q' ∧
      vx (position (QuantumProcessorScene.mesh q')) = vx (position (QuantumProcessorScene.mesh q)) ∧
      vz (position (QuantumProcessorScene.mesh q')) = vz (position (QuantumProcessorScene.mesh q)) ∧
      scale (QuantumProcessorScene.mesh q') = vec3 k k k ∧ 0 < k.
Proof.
  cbn zeta. pose proof (SIN_bound (t * 0.2)). pose proof (COS_bound (t * 0.2)).
  split; [simpl; lra|]. split; [simpl; lra|].
  split; [reflexivity|]. split; [reflexivity|].
  split; [simpl; now rewrite length_fmap|]. split; [reflexivity|]. split; [reflexivity|].
  intros i q Hq. eexists _, _. split.
  - simpl. rewrite list_lookup_fmap, Hq. reflexivity.
  - simpl. split; [reflexivity|]. split; [reflexivity|].
    pose proof (SIN_bound (t * 3 + QuantumProcessorScene.phase q)).
    split; [reflexivity | lra].
Qed.

Lemma ticks_hero (ts : list R) (s : QuantumHeroScene.Scene) :
  ∃ x, ticks ts (Hero s) = Hero x ∧ QuantumHeroScene.mouse x = QuantumHeroScene.mouse s.
Proof.
  induction ts as [|t ts IH] using rev_ind.
  - now exists s.
  - destruct IH as (x & Hx & Hm). rewrite ticks_snoc, Hx.
    exists (QuantumHeroScene.tick t x). now split.
Qed.



(** [onMouseMove] maps a pointer inside the window to [-1, 1] × [-1, 1],
    and with such a pointer the frames keep a camera that is within
    [-5, 5] × [-3, 3] in that rectangle, however many they are. *)
Theorem pointer_keeps_camera_in_box (clientX clientY innerWidth innerHeight : R)
    (s : QuantumHeroScene.Scene) :
  0 < innerWidth → 0 < innerHeight →
  0 <= clientX <= innerWidth → 0 <= clientY <= innerHeight →
  let s1 := QuantumHeroScene.onMouseMove clientX clientY innerWidth innerHeight s in
  -1 <= fst (QuantumHeroScene.mouse s1) <= 1 ∧
  -1 <= snd (QuantumHeroScene.mouse s1) <= 1 ∧
  (-5 <= vx (camera_position (QuantumHeroScene.camera s)) <= 5 →
   -3 <= vy (camera_position (QuantumHeroScene.camera s)) <= 3 →
   ∀ ts, -5 <= vx (camera_position (camera_of (ticks ts (Hero s1)))) <= 5 ∧
         -3 <= vy (camera_position (camera_of (ticks ts (Hero s1)))) <= 3).
Proof.
  intros Hw Hh Hx Hy. cbn zeta.
  assert (Hmx : 0 <= clientX / innerWidth <= 1).
  { split; [apply Rmult_le_pos; [lra | left; now apply Rinv_0_lt_compat]|].
    apply Rmult_le_reg_r with innerWidth; [lra|].
    unfold Rdiv. rewrite Rmult_assoc, Rinv_l by lra. lra. }
  assert (Hmy : 0 <= clientY / innerHeight <= 1).
  { split; [apply Rmult_le_pos; [lra | left; now apply Rinv_0_lt_compat]|].
    apply Rmult_le_reg_r with innerHeight; [lra|].
    unfold Rdiv. rewrite Rmult_assoc, Rinv_l by lra. lra. }
  split; [simpl; lra|]. split; [simpl; lra|].
  intros Hcx Hcy ts.
  induction ts as [|t ts IH] using rev_ind.
  - simpl. lra.
  - destruct (ticks_hero ts
                (QuantumHeroScene.onMouseMove clientX clientY innerWidth innerHeight s))
      as (x & Hxs & Hm).
    rewrite ticks_snoc. rewrite Hxs in *. simpl in IH. simpl. rewrite Hm. simpl. lra.
Qed.

Lemma pointer_keeps_camera_in_box_witness :
  ∃ s w', construct QuantumHero "hero-canvas" (sample_page (Some "dark") 0.5)
            = (Ok (Built (Hero s)), w') ∧
    fst (QuantumHeroScene.mouse (QuantumHeroScene.onMouseMove 1280 0 1280 720 s)) <= 1.
Proof.
  destruct (hero_construct "hero-canvas" (sample_page (Some "dark") 0.5)
              {| offsetWidth := 800; offsetHeight := 600; canvases := [] |}
              eq_refl (or_introl eq_refl))
    as (s & w' & Hrun & _).
  exists s, w'. split; [exact Hrun|].
  destruct (pointer_keeps_camera_in_box 1280 0 1280 720 s
              ltac:(lra) ltac:(lra) ltac:(lra) ltac:(lra)) as ([_ Hle] & _).
  exact Hle.
Defined.

Lemma line_opacities_tick_bleach t s :
  line_opacities (scene_tick t (bleach s)) = line_opacities (scene_tick t s).
Proof.
  destruct s as [x|x|x|x|x]; try reflexivity. simpl.
  rewrite <- !list_fmap_compose. now apply list_fmap_ext.
Qed.

Lemma node_opacities_tick_bleach t s :
  node_opacities (scene_tick t (bleach s)) = node_opacities (scene_tick t s).
Proof.
  destruct s as [x|x|x|x|x]; try reflexivity. simpl.
  rewrite <- !list_fmap_compose. now apply list_fmap_ext.
Qed.

Lemma connection_opacities_tick_bleach t s :
  connection_opacities (scene_tick t (bleach s)) = connection_opacities (scene_tick t s).
Proof.
  destruct s as [x|x|x|x|x]; try reflexivity. simpl.
  rewrite <- !list_fmap_compose. now apply list_fmap_ext.
Qed.

(** The opacities that [updateColors] gives the entanglement lines of the
    hero scene and the nodes and connections of the neural network last
    until the next frame only: after a frame these opacities are what
    they would have been without the recolouring. *)
Theorem frame_overwrites_recolored_opacities (s : AnyScene) (w : World) (t : R) :
  supported (theme_of w) →
  ∃ s' k, scene_updateColors s w = (Ok s', advance k w) ∧
    line_opacities (scene_tick t s') = line_opacities (scene_tick t s) ∧
    node_opacities (scene_tick t s') = node_opacities (scene_tick t s) ∧
    connection_opacities (scene_tick t s') = connection_opacities (scene_tick t s).
Proof.
  intros Hsup. destruct (scene_updateColors_bleach s w Hsup) as (s' & k & Hrun & Hb).
  exists s', k. split; [exact Hrun|].
  rewrite <- (line_opacities_tick_bleach t s'), <- (node_opacities_tick_bleach t s'),
    <- (connection_opacities_tick_bleach t s'), Hb.
  now rewrite line_opacities_tick_bleach, node_opacities_tick_bleach,
    connection_opacities_tick_bleach.
Qed.

Lemma frame_overwrites_recolored_opacities_witness :
  ∃ s w', construct NeuralNetwork "about-canvas" (sample_page (Some "light") 0.5)
            = (Ok (Built s), w') ∧
    ∃ s' k, scene_updateColors s w' = (Ok s', advance k w') ∧
      connection_opacities (scene_tick 1 s') = connection_opacities (scene_tick 1 s).
Proof.
  destruct (construct_returns NeuralNetwork "about-canvas" (sample_page (Some "light") 0.5)
              {| offsetWidth := 800; offsetHeight := 600; canvases := [] |}
              eq_refl (or_intror eq_refl))
    as (s & k & Hbuilt & _ & _).
  eexists _, _. split; [exact Hbuilt|].
  destruct (frame_overwrites_recolored_opacities s
              (page_after_init NeuralNetwork "about-canvas" k
                 (sample_page (Some "light") 0.5))
              1 (or_intror eq_refl))
    as (s' & k' & Hrun & _ & _ & Hconn).
  exists s', k'. split; [exact Hrun | exact Hconn].
Defined.

End Frames.

(* ================================================================== *)
(** * The life of a scene after it is built                             *)
(* ================================================================== *)

Lemma length_join_fmap {A B : Type} (f : A → list B) (g : A → A) (l : list A) :
  (∀ x, length (f (g x)) = length (f x)) →
  length (mjoin (f <$> (g <$> l))) = length (mjoin (f <$> l)).
Proof.
  intros H. induction l as [|x l IH]; [reflexivity|].
  simpl. rewrite !length_app, H. now f_equal.
Qed.

Lemma length_join_imap {A B : Type} (f : A → list B) (g : nat → A → A) (l : list A) :
  (∀ i x, length (f (g i x)) = length (f x)) →
  length (mjoin (f <$> imap g l)) = length (mjoin (f <$> l)).
Proof.
  revert g. induction l as [|x l IH]; intros g H; [reflexivity|].
  simpl. rewrite !length_app, H. f_equal. apply IH. intros i y. apply H.
Qed.

Lemma tick_keeps_objects (t : R) (s : AnyScene) :
  class_of (scene_tick t s) = class_of s ∧
  container_of (scene_tick t s) = container_of s ∧
  length (scene_geometries (scene_tick t s)) = length (scene_geometries s).
Proof.
  destruct s as [x|x|x|x|x]; (split; [reflexivity|]); (split; [reflexivity|]); simpl;
    rewrite ?length_app, ?length_fmap, ?length_imap; try reflexivity.
  - now rewrite length_join_fmap.
  - now rewrite length_join_imap.
Qed.

Lemma bleach_keeps_identity (s : AnyScene) :
  class_of (bleach s) = class_of s ∧ container_of (bleach s) = container_of s.
Proof. now destruct s. Qed.

Lemma element_box_total (id : string) (w : World) :
  ∃ b, element_box id w = (Ok b, w).
Proof.
  unfold element_box, Host.getElementById, gets, mbind, M_bind.
  destruct (document_elements w !! id); eexists; reflexivity.
Qed.

Lemma onResize_total (s : AnyScene) (w : World) :
  ∃ s', scene_onResize s w = (Ok (Built s'), w) ∧
        class_of s' = class_of s ∧ container_of s' = container_of s ∧
        scene_geometries s' = scene_geometries s.
Proof.
  destruct (element_box_total (container_of s) w) as ([wd ht] & Hbox).
  destruct s as [x|x|x|x|x]; simpl in Hbox; unfold scene_onResize;
    eexists;
    (split;
      [ (erewrite fmap_ok;
          [| unfold QuantumHeroScene.onResize, QuantumProcessorScene.onResize,
               NeuralNetworkScene.onResize, FloatingParticlesScene.onResize,
               FeatureQuantumScene.onResize;
             rewrite (bind_ok _ _ _ _ _ Hbox); reflexivity ]);
        reflexivity
      | repeat split ]).
Qed.

(** One event, handled under a theme that has a palette. *)
Lemma handle_returns (e : PageEvent) (s : AnyScene) (w : World) :
  supported (theme_of w) →
  ∃ s' w', handle e s w = (Ok s', w') ∧
    class_of s' = class_of s ∧ container_of s' = container_of s ∧
    length (scene_geometries s') = length (scene_geometries s) ∧
    observers w' = observers w ∧ resize_listeners w' = resize_listeners w ∧
    mousemove_listeners w' = mousemove_listeners w ∧
    document_elements w' = document_elements w ∧
    supported (theme_of w').
Proof.
  intros Hsup. destruct e as [t| | |cx cy iw ih]; unfold handle.
  - destruct (tick_keeps_objects t s) as (Hc & Hid & Hg).
    eexists _, _. split.
    { unfold frame. erewrite bind_ok by reflexivity. apply animate_eq. }
    now repeat split.
  - destruct (scene_updateColors_bleach s (flipped w) (flipped_supported w))
      as (s' & k & Hrun & Hb).
    destruct (bleach_keeps_identity s) as (Hc & Hid).
    destruct (bleach_keeps_identity s') as (Hc' & Hid').
    exists s', (advance k (flipped w)). split; [now rewrite toggle_eq|].
    split; [now rewrite <- Hc', Hb|]. split; [now rewrite <- Hid', Hb|].
    split; [now rewrite <- (scene_geometries_bleach s'), Hb, scene_geometries_bleach|].
    repeat split. rewrite theme_of_advance. apply flipped_supported.
  - destruct (onResize_total s w) as (s' & Hrun & Hc & Hid & Hg).
    exists s', w. split; [now rewrite (bind_ok _ _ _ _ _ Hrun)|].
    split; [exact Hc|]. split; [exact Hid|]. split; [now rewrite Hg|]. now repeat split.
  - eexists _, w. split; [reflexivity|]. destruct s; now repeat split.
Qed.

(** A scene survives whatever the page sends it.  Under a theme that has a
    palette, any sequence of animation frames, theme toggles, window
    resizes and pointer moves is handled without an exception; the scene
    stays bound to its container and keeps the number of its objects, and
    no handler registers a listener or an observer or touches the
    containers.  The theme the sequence ends under has a palette again. *)
Theorem handlers_keep_scene (es : list PageEvent) (s : AnyScene) (w : World) :
  supported (theme_of w) →
  ∃ s' w', handle_all es s w = (Ok s', w') ∧
    class_of s' = class_of s ∧ container_of s' = container_of s ∧
    length (scene_geometries s') = length (scene_geometries s) ∧
    observers w' = observers w ∧ resize_listeners w' = resize_listeners w ∧
    mousemove_listeners w' = mousemove_listeners w ∧
    document_elements w' = document_elements w ∧
    supported (theme_of w').
Proof.
  revert s w. induction es as [|e es IH]; intros s w Hsup.
  - exists s, w. now repeat split.
  - destruct (handle_returns e s w Hsup)
      as (s1 & w1 & Hrun1 & Hc1 & Hid1 & Hg1 & Ho1 & Hr1 & Hm1 & He1 & Hsup1).
    destruct (IH s1 w1 Hsup1)
      as (s2 & w2 & Hrun2 & Hc2 & Hid2 & Hg2 & Ho2 & Hr2 & Hm2 & He2 & Hsup2).
    exists s2, w2. split; [simpl; now rewrite (bind_ok _ _ _ _ _ Hrun1)|].
    repeat split; try congruence; exact Hsup2.
Qed.

Lemma handlers_keep_scene_witness :
  ∃ s w', construct QuantumHero "hero-canvas" (sample_page (Some "dark") 0.5)
            = (Ok (Built s), w') ∧
    ∃ s2 w2,
      handle_all [AnimationFrame 0.016; MouseMove 10 20 1280 720; ThemeToggle;
                  WindowResize; AnimationFrame 0.033] s w' = (Ok s2, w2) ∧
      observers w2 = observers w'.
Proof.
  destruct (construct_returns QuantumHero "hero-canvas" (sample_page (Some "dark") 0.5)
              {| offsetWidth := 800; offsetHeight := 600; canvases := [] |}
              eq_refl (or_introl eq_refl))
    as (s & k & Hbuilt & _ & _).
  eexists _, _. split; [exact Hbuilt|].
  destruct (handlers_keep_scene
              [AnimationFrame 0.016; MouseMove 10 20 1280 720; ThemeToggle;
               WindowResize; AnimationFrame 0.033] s
              (page_after_init QuantumHero "hero-canvas" k (sample_page (Some "dark") 0.5))
              (or_introl eq_refl))
    as (s2 & w2 & Hrun & _ & _ & _ & Hobs & _).
  exists s2, w2. split; [exact Hrun | exact Hobs].
Defined.

(* ================================================================== *)
(** * The shape of the scenes as built                                  *)
(* ================================================================== *)

Section FeatureBuild.
Import FeatureQuantumScene.
Local Open Scope R_scope.

Lemma feature_constructor_orbits (id : string) (w : World) (el : Element) :
  document_elements w !! id = Some el →
  supported (theme_of w) →
  ∃ s0 c1 c2 w',
    construct FeatureQuantum id w = (Ok (Built (Feature (tick (elapsed w) s0))), w') ∧
    orbits s0 = createOrbit c1 c2 <$> seq 0 3.
Proof.
  intros Hel Hsup. destruct (supported_palette _ Hsup) as (p & Hp & _).
  assert (Hrun : returns (constructor id) w
            (λ r w', ∃ s0, r = Built (tick (elapsed w) s0) ∧
                           orbits s0 = createOrbit (primary p) (secondary p) <$> seq 0 3)).
  { unfold constructor. mstep.
    unfold Host.getElementById. mstep. rewrite Hel. mstep.
    unfold init. mstep.
    apply (returns_element_box _ _ el _ Hel). cbv beta iota. mstep. mstep. mstep.
    unfold Host.appendCanvas. mstep. mstep.
    eapply returns_mono; [apply (createScene_returns _ p); exact Hp|].
    intros [core1 orbits1] w1 [-> Horbits]. simpl in Horbits. subst orbits1.
    cbv beta iota. autounfold with host.
    unfold setupThemeObserver, Host.observe. msteps.
    eapply returns_eq; [apply feature_animate_eq|]. mstep.
    eexists. split; reflexivity. }
  destruct Hrun as (r & w' & Hrun & s0 & -> & Horbits).
  exists s0, (primary p), (secondary p), w'. split; [|exact Horbits].
  unfold construct. now rewrite (fmap_ok _ _ _ _ _ Hrun).
Qed.

(** The feature scene is built with three orbits, the ring of orbit [i] of
    radius [2 + 0.8 i], and each orbit has exactly one child, its electron,
    placed on the ring. *)
Theorem feature_electrons_on_rings (id : string) (w : World) (el : Element) :
  document_elements w !! id = Some el →
  supported (theme_of w) →
  ∃ s w', construct FeatureQuantum id w = (Ok (Built s), w') ∧
    length (feature_orbits s) = 3%nat ∧
    (∀ i o, feature_orbits s !! i = Some o →
       geometry (orbit_mesh o) = TorusGeometry (2 + INR i * 0.8) 0.02 8 64 ∧
       electron_on_ring o).
Proof.
  intros Hel Hsup.
  destruct (feature_constructor_orbits id w el Hel Hsup) as (s0 & c1 & c2 & w' & Hrun & Horbits).
  eexists _, w'. split; [exact Hrun|].
  cbn [feature_orbits tick orbits]. rewrite Horbits.
  split; [reflexivity|].
  intros i o Ho. destruct i as [|[|[|i]]]; simpl in Ho; try discriminate Ho;
    injection Ho as <-; (split; [reflexivity|]);
    eexists _, _, _, _, _; repeat split.
Qed.

Lemma feature_electrons_on_rings_witness :
  ∃ s w', construct FeatureQuantum "feature-visual-1" (sample_page (Some "dark") 0.5)
            = (Ok (Built s), w') ∧
    length (feature_orbits s) = 3%nat.
Proof.
  destruct (feature_electrons_on_rings "feature-visual-1" (sample_page (Some "dark") 0.5)
              {| offsetWidth := 800; offsetHeight := 600; canvases := [] |}
              eq_refl (or_introl eq_refl))
    as (s & w' & Hrun & Hlen & _).
  exists s, w'. split; [exact Hrun | exact Hlen].
Defined.

End FeatureBuild.

Section FloatingBuild.
Import FloatingParticlesScene.
Local Open Scope R_scope.

Lemma floating_loop_in_box (c1 c2 : Color) (w : World) :
  unit_interval_source w →
  returns (for_loop particleCount 0 (createParticle c1 c2)
             (replicate (particleCount * 3) 0, replicate (particleCount * 3) 0))
          w
          (λ b w', w' = advance 800 w ∧ length (fst b) = 600%nat ∧
                   ∀ j, (j < 200)%nat → ∃ v, read3 (fst b) j = Some v ∧ in_box v).
Proof.
  intros Hsrc. eapply returns_mono.
  { apply (returns_for_loop
             (λ i (b : list R * list R) w',
                w' = advance (4 * i) w ∧ length (fst b) = 600%nat ∧
                ∀ j, (j < i)%nat → ∃ v, read3 (fst b) j = Some v ∧ in_box v)).
    - split; [now rewrite advance_0|]. split; [apply length_replicate|]. intros j Hj. lia.
    - intros i b w' Hi (-> & Hlen & Hbox). unfold createParticle. msteps.
      split; [rewrite !advance_advance; f_equal; lia|].
      split; [cbn [fst]; now rewrite write3_length|].
      intros j Hj. cbn [fst].
      destruct (decide (j = i)) as [->|Hne].
      + eexists. split; [apply read3_write3; rewrite Hlen; unfold particleCount in Hi; lia|].
        unfold in_box. cbn [vx vy vz vec3].
        repeat match goal with
               | |- context [random_source ?a ?k] =>
                   let u := fresh "u" in
                   let Hu := fresh "Hu" in
                   assert (Hu : 0 <= random_source a k < 1) by apply Hsrc;
                   set (u := random_source a k) in *; clearbody u
               end.
        split; [|split].
        * apply (fround_in_range _ 30); [lia | lra].
        * apply (fround_in_range _ 15); [lia | lra].
        * apply (fround_in_range _ 15); [lia | lra].
      + rewrite read3_write3_ne by congruence. apply Hbox. lia. }
  intros b w' (-> & Hlen & Hbox). auto.
Qed.

Lemma floating_createParticles_in_box (w : World) :
  supported (theme_of w) →
  unit_interval_source w →
  returns createParticles w
    (λ ps w', w' = advance 800 w ∧
              length (position_array (points_geometry ps)) = 600%nat ∧
              ∀ j, (j < 200)%nat →
                ∃ v, read3 (position_array (points_geometry ps)) j = Some v ∧ in_box v).
Proof.
  intros Hsup Hsrc. destruct (supported_palette _ Hsup) as (p & Hp & Hcase).
  unfold createParticles. mstep.
  apply (returns_getThemeColors _ p _ Hp). mstep. apply returns_getCurrentTheme.
  mstep. destruct (String.eqb _ _); msteps.
  - eapply returns_mono; [apply floating_loop_in_box; exact Hsrc|].
    intros b w' (-> & Hlen & Hbox). msteps. auto.
  - eapply returns_mono; [apply floating_loop_in_box; exact Hsrc|].
    intros b w' (-> & Hlen & Hbox). msteps. auto.
Qed.

Lemma floating_positions_ticks (ts : list R) (s : AnyScene) :
  floating_positions (ticks ts s) = floating_positions s.
Proof.
  induction ts as [|t ts IH] using rev_ind; [reflexivity|].
  rewrite ticks_snoc, <- IH. now destruct (ticks ts s).
Qed.

(** The floating-particles scene is built with 200 points, each inside the
    box of 60 × 30 × 30 around the origin when [Math.random] returns values
    in [0, 1), and no frame moves a point within the cloud: the frames only
    turn the cloud as a whole. *)
Theorem floating_particles_in_box (id : string) (w : World) (el : Element) :
  document_elements w !! id = Some el →
  supported (theme_of w) →
  unit_interval_source w →
  ∃ s w', construct FloatingParticles id w = (Ok (Built s), w') ∧
    length (floating_positions s) = 600%nat ∧
    (∀ j, (j < 200)%nat → ∃ v, read3 (floating_positions s) j = Some v ∧ in_box v) ∧
    (∀ ts, floating_positions (ticks ts s) = floating_positions s).
Proof.
  intros Hel Hsup Hsrc.
  assert (Hrun : returns (constructor id) w
            (λ r w', ∃ s, r = Built s ∧
               length (floating_positions (Floating s)) = 600%nat ∧
               ∀ j, (j < 200)%nat →
                 ∃ v, read3 (floating_positions (Floating s)) j = Some v ∧ in_box v)).
  { unfold constructor. mstep.
    unfold Host.getElementById. mstep. rewrite Hel. mstep.
    unfold init. mstep.
    apply (returns_element_box _ _ el _ Hel). cbv beta iota. mstep. mstep. mstep.
    unfold Host.appendCanvas. mstep. mstep.
    eapply returns_mono; [apply floating_createParticles_in_box; [exact Hsup | exact Hsrc]|].
    intros ps w1 (-> & Hlen & Hbox). autounfold with host.
    unfold setupThemeObserver, Host.observe. msteps.
    eapply returns_eq; [apply floating_animate_eq|]. mstep.
    eexists. split; [reflexivity|]. split; [exact Hlen | exact Hbox]. }
  destruct Hrun as (r & w' & Hrun & s & -> & Hlen & Hbox).
  exists (Floating s), w'. split; [unfold construct; now rewrite (fmap_ok _ _ _ _ _ Hrun)|].
  split; [exact Hlen|]. split; [exact Hbox|]. intros ts. apply floating_positions_ticks.
Qed.

Lemma floating_particles_in_box_witness :
  ∃ s w', construct FloatingParticles "cta-canvas" (sample_page (Some "dark") 0.5)
            = (Ok (Built s), w') ∧
    length (floating_positions s) = 600%nat.
Proof.
  assert (Hsrc : unit_interval_source (sample_page (Some "dark") 0.5))
    by (intros k; simpl; lra).
  destruct (floating_particles_in_box "cta-canvas" (sample_page (Some "dark") 0.5)
              {| offsetWidth := 800; offsetHeight := 600; canvases := [] |}
              eq_refl (or_introl eq_refl) Hsrc)
    as (s & w' & Hrun & Hlen & _).
  exists s, w'. split; [exact Hrun | exact Hlen].
Defined.

End FloatingBuild.

Section NeuralBuild.
Import NeuralNetworkScene.
Local Open Scope R_scope.

Lemma createNode_key w0 p count l i ns w :
  (∃ k, w = advance k w0) →
  returns (createNode (PaletteObject p) count l
             ((INR l - (INR (length layers) - 1) / 2) * layerSpacing) i ns) w
          (λ ns' w', (∃ k, w' = advance k w0) ∧
                     node_key <$> ns' = (node_key <$> ns) ++ [(l, i, node_place count l i)]).
Proof.
  intros [k ->]. unfold createNode. mstep.
  destruct (_ || _); msteps;
    (split; [eexists; now rewrite advance_advance | now rewrite fmap_app]).
Qed.

Lemma createLayer_keys w0 p count l ns w :
  (∃ k, w = advance k w0) →
  returns (createLayer (PaletteObject p) count l ns) w
          (λ ns' w', (∃ k, w' = advance k w0) ∧
                     node_key <$> ns' = (node_key <$> ns) ++ layer_keys l count).
Proof.
  intros Hw. unfold createLayer.
  apply (returns_for_loop
           (λ i ns' w', (∃ k, w' = advance k w0) ∧
                        node_key <$> ns'
                          = (node_key <$> ns)
                            ++ ((λ i, (l, i, node_place count l i)) <$> seq 0 i))).
  - split; [exact Hw|]. simpl. now rewrite app_nil_r.
  - intros i ns' w' _ (Hw' & Hkeys).
    eapply returns_mono; [apply (createNode_key w0); exact Hw'|].
    intros ns'' w'' (Hw'' & Hkeys'). split; [exact Hw''|].
    rewrite Hkeys', Hkeys, seq_S, fmap_app, <- app_assoc. reflexivity.
Qed.

Lemma network_keys_step (k count : nat) :
  layers !! k = Some count →
  mjoin (imap layer_keys (take (S k) layers))
    = mjoin (imap layer_keys (take k layers)) ++ layer_keys k count.
Proof.
  intros Hk. pose proof (lookup_lt_Some _ _ _ Hk) as Hlt.
  rewrite (take_S_r _ _ _ Hk), imap_app, join_app. simpl.
  rewrite length_take, Nat.min_l, Nat.add_0_r, app_nil_r by lia. reflexivity.
Qed.

Lemma createNodes_keys w0 p w :
  (∃ k, w = advance k w0) →
  returns (forEach layers 0 (createLayer (PaletteObject p)) []) w
          (λ ns w', (∃ k, w' = advance k w0) ∧ node_key <$> ns = network_keys).
Proof.
  intros Hw. eapply returns_mono.
  { apply (returns_forEach
             (λ k ns w', (∃ j, w' = advance j w0) ∧
                         node_key <$> ns = mjoin (imap layer_keys (take k layers)))).
    - split; [exact Hw | reflexivity].
    - intros k count ns w' Hk (Hw' & Hkeys). change (0 + k)%nat with k in *.
      eapply returns_mono; [apply (createLayer_keys w0); exact Hw'|].
      intros ns' w'' (Hw'' & Hkeys'). split; [exact Hw''|].
      now rewrite Hkeys', Hkeys, (network_keys_step _ _ Hk). }
  intros ns w' (Hw' & Hkeys). split; [exact Hw'|]. exact Hkeys.
Qed.

Lemma layer_keys_tags (l count : nat) :
  (λ k : nat * nat * Vector3, k.1.1) <$> layer_keys l count = replicate count l.
Proof.
  unfold layer_keys. rewrite <- list_fmap_compose.
  generalize 0%nat. induction count as [|count IH]; intros start; [reflexivity|].
  simpl. f_equal. apply IH.
Qed.

Lemma network_keys_tags :
  (λ k : nat * nat * Vector3, k.1.1) <$> network_keys
    = replicate 4 0%nat ++ replicate 6 1%nat ++ replicate 8 2%nat
      ++ replicate 6 3%nat ++ replicate 4 4%nat.
Proof.
  unfold network_keys, layers. cbn [imap mjoin list_join compose].
  rewrite !fmap_app, !layer_keys_tags. reflexivity.
Qed.

Lemma filter_layer_length (l : nat) (ns : list Node) :
  length (filter (λ n, layer n = l) ns)
    = length (filter (λ t, t = l) (layer <$> ns)).
Proof.
  induction ns as [|n ns IH]; [reflexivity|].
  rewrite fmap_cons, !filter_cons. destruct (decide (layer n = l)); simpl; now rewrite IH.
Qed.

Lemma layer_sizes (ns : list Node) (l : nat) :
  node_key <$> ns = network_keys →
  (l < 5)%nat →
  layers !! l = Some (length (filter (λ n, layer n = l) ns)).
Proof.
  intros Hkeys Hl. rewrite filter_layer_length.
  replace (layer <$> ns) with ((λ k : nat * nat * Vector3, k.1.1) <$> (node_key <$> ns))
    by (rewrite <- list_fmap_compose; reflexivity).
  rewrite Hkeys, network_keys_tags.
  destruct l as [|[|[|[|[|l]]]]]; [reflexivity..|lia].
Qed.

Lemma createConnection_joins w0 p a b cs w :
  (∃ k, w = advance k w0) →
  (layer a < 4)%nat → layer b = S (layer a) →
  Forall joins_next_layer cs →
  returns (createConnection (PaletteObject p) a b cs) w
          (λ cs' w', (∃ k, w' = advance k w0) ∧
                     (length cs' <= S (length cs))%nat ∧
                     Forall joins_next_layer cs').
Proof.
  intros [k ->] Ha Hb Hcs. unfold createConnection. mstep. mstep.
  destruct (Rgt_dec _ _); msteps.
  - split; [eexists; now rewrite !advance_advance|].
    split; [rewrite length_app; simpl; lia|].
    apply Forall_app. split; [exact Hcs|]. apply Forall_singleton. now split.
  - split; [eexists; now rewrite ?advance_advance|]. split; [lia | exact Hcs].
Qed.

Lemma connectLayers_joins w0 p ns l cs w :
  (∃ k, w = advance k w0) →
  (l < 4)%nat →
  Forall joins_next_layer cs →
  returns (connectLayers (PaletteObject p) ns l cs) w
          (λ cs' w', (∃ k, w' = advance k w0) ∧
                     (length cs' <= length cs
                                    + length (filter (λ n, layer n = l) ns)
                                      * length (filter (λ n, layer n = S l) ns))%nat ∧
                     Forall joins_next_layer cs').
Proof.
  intros Hw Hl Hcs. unfold connectLayers. rewrite Nat.add_1_r.
  set (cur := filter (λ n, layer n = l) ns).
  set (next := filter (λ n, layer n = S l) ns).
  eapply returns_mono.
  { apply (returns_forEach
             (λ k cs' w', (∃ j, w' = advance j w0) ∧
                          (length cs' <= length cs + k * length next)%nat ∧
                          Forall joins_next_layer cs')).
    - split; [exact Hw|]. split; [simpl; lia | exact Hcs].
    - intros k a cs1 w1 Ha (Hw1 & Hlen1 & Hcs1). simpl in *.
      assert (Hla : layer a = l).
      { apply list_elem_of_lookup_2 in Ha. now apply list_elem_of_filter in Ha as [Ha _]. }
      eapply returns_mono.
      { apply (returns_forEach
                 (λ k' cs'' w'', (∃ j, w'' = advance j w0) ∧
                                 (length cs'' <= length cs1 + k')%nat ∧
                                 Forall joins_next_layer cs'')).
        - split; [exact Hw1|]. split; [simpl; lia | exact Hcs1].
        - intros k' b cs2 w2 Hb (Hw2 & Hlen2 & Hcs2). simpl in *.
          assert (Hlb : layer b = S l).
          { apply list_elem_of_lookup_2 in Hb.
            now apply list_elem_of_filter in Hb as [Hb _]. }
          eapply returns_mono.
          { apply (createConnection_joins w0 p a b cs2 w2 Hw2);
              [rewrite Hla; exact Hl | now rewrite Hla, Hlb | exact Hcs2]. }
          intros cs3 w3 (Hw3 & Hlen3 & Hcs3). split; [exact Hw3|].
          split; [lia | exact Hcs3]. }
      intros cs2 w2 (Hw2 & Hlen2 & Hcs2). split; [exact Hw2|].
      split; [simpl in Hlen2; lia | exact Hcs2]. }
  intros cs' w' (Hw' & Hlen' & Hcs'). split; [exact Hw'|].
  split; [simpl in Hlen'; lia | exact Hcs'].
Qed.

Lemma createNeuralNetwork_layout w p :
  ThemeColors !! theme_of w = Some p →
  returns createNeuralNetwork w
    (λ r w', node_key <$> fst r = network_keys ∧
             (length (snd r) <= 144)%nat ∧
             Forall joins_next_layer (snd r)).
Proof.
  intros Hp. unfold createNeuralNetwork. mstep.
  apply (returns_getThemeColors _ p _ Hp). mstep.
  eapply returns_mono.
  { apply (createNodes_keys w). exists 0%nat. now rewrite advance_0. }
  intros ns w1 (Hw1 & Hkeys). mstep.
  eapply returns_mono.
  { apply (returns_for_loop
             (λ l cs w', (∃ j, w' = advance j w) ∧
                         (length cs <= sum_list (take l pair_counts))%nat ∧
                         Forall joins_next_layer cs)).
    - split; [exact Hw1|]. split; [simpl; lia | constructor].
    - intros l cs w2 Hl (Hw2 & Hlen & Hcs). simpl in Hl.
      assert (Hl4 : (l < 4)%nat) by (unfold layers in Hl; simpl in Hl; lia).
      eapply returns_mono; [apply (connectLayers_joins w p ns l cs w2 Hw2 Hl4 Hcs)|].
      intros cs' w3 (Hw3 & Hlen' & Hcs'). split; [exact Hw3|]. split; [|exact Hcs'].
      pose proof (layer_sizes ns l Hkeys ltac:(lia)) as Hcur.
      pose proof (layer_sizes ns (S l) Hkeys ltac:(lia)) as Hnext.
      destruct l as [|[|[|[|l]]]]; [| | | |lia];
        injection Hcur as Hcur; injection Hnext as Hnext;
        rewrite <- Hcur, <- Hnext in Hlen'; simpl in Hlen, Hlen' |- *; lia. }
  intros cs w2 (Hw2 & Hlen & Hcs). mstep. split; [exact Hkeys|]. split; [|exact Hcs].
  simpl in Hlen. exact Hlen.
Qed.

(** The neural network is built with 28 nodes in layers of 4, 6, 8, 6 and
    4, the layers 8 apart and the nodes of a layer 4 apart, both centred on
    the origin.  Every connection goes from a node of one of the first four
    layers to a node of the layer after it, and there are at most 144
    connections, one per pair of nodes in consecutive layers. *)
Theorem neural_network_layout (id : string) (w : World) (el : Element) :
  document_elements w !! id = Some el →
  supported (theme_of w) →
  ∃ s w', construct NeuralNetwork id w = (Ok (Built s), w') ∧
    node_key <$> neural_nodes s = network_keys ∧
    length (neural_nodes s) = 28%nat ∧
    layer <$> neural_nodes s
      = replicate 4 0%nat ++ replicate 6 1%nat ++ replicate 8 2%nat
        ++ replicate 6 3%nat ++ replicate 4 4%nat ∧
    Forall joins_next_layer (neural_connections s) ∧
    (length (neural_connections s) <= 144)%nat.
Proof.
  intros Hel Hsup. destruct (supported_palette _ Hsup) as (p & Hp & _).
  assert (Hrun : returns (constructor id) w
            (λ r w', ∃ s, r = Built s ∧
               node_key <$> nodes s = network_keys ∧
               (length (connections s) <= 144)%nat ∧
               Forall joins_next_layer (connections s))).
  { unfold constructor. mstep.
    unfold Host.getElementById. mstep. rewrite Hel. mstep.
    unfold init. mstep.
    apply (returns_element_box _ _ el _ Hel). cbv beta iota. mstep. mstep. mstep.
    unfold Host.appendCanvas. mstep. mstep.
    eapply returns_mono; [apply (createNeuralNetwork_layout _ p); exact Hp|].
    intros [ns cs] w1 (Hkeys & Hlen & Hcs). cbv beta iota. autounfold with host.
    unfold setupThemeObserver, Host.observe. msteps.
    eapply returns_eq; [apply neural_animate_eq|]. mstep.
    eexists. split; [reflexivity|]. cbn [tick nodes connections fst snd] in *.
    split; [rewrite <- list_fmap_compose; exact Hkeys|].
    split; [now rewrite length_fmap|].
    apply Forall_fmap. exact Hcs. }
  destruct Hrun as (r & w' & Hrun & s & -> & Hkeys & Hlen & Hcs).
  exists (Neural s), w'. split; [unfold construct; now rewrite (fmap_ok _ _ _ _ _ Hrun)|].
  cbn [neural_nodes neural_connections].
  assert (Htags : layer <$> nodes s
                  = replicate 4 0%nat ++ replicate 6 1%nat ++ replicate 8 2%nat
                    ++ replicate 6 3%nat ++ replicate 4 4%nat).
  { rewrite <- network_keys_tags, <- Hkeys, <- list_fmap_compose. reflexivity. }
  split; [exact Hkeys|].
  split; [rewrite <- (length_fmap layer), Htags; reflexivity|].
  split; [exact Htags|]. split; [exact Hcs | exact Hlen].
Qed.

Lemma neural_network_layout_witness :
  ∃ s w', construct NeuralNetwork "about-canvas" (sample_page (Some "dark") 0.5)
            = (Ok (Built s), w') ∧
    length (neural_nodes s) = 28%nat.
Proof.
  destruct (neural_network_layout "about-canvas" (sample_page (Some "dark") 0.5)
              {| offsetWidth := 800; offsetHeight := 600; canvases := [] |}
              eq_refl (or_introl eq_refl))
    as (s & w' & Hrun & _ & Hlen & _).
  exists s, w'. split; [exact Hrun | exact Hlen].
Defined.

End NeuralBuild.

(* ================================================================== *)
(** * main.js: the theme toggle                                         *)
(* ================================================================== *)

(** A click on the toggle button always leaves a theme that has a palette,
    in the attribute and in the storage alike: light when the attribute
    was exactly ["dark"], dark in every other case, a missing or an unknown
    value included.  It touches nothing else the scenes depend on. *)
Theorem theme_click_flips_and_persists (w : World) :
  ∃ t w', Main.themeToggle_click w = (Ok tt, w') ∧
    data_theme w' = Some t ∧
    localStorage w' !! "theme" = Some t ∧
    supported t ∧
    (t = "light" ↔ data_theme w = Some "dark") ∧
    document_elements w' = document_elements w ∧
    observers w' = observers w ∧
    random_pos w' = random_pos w.
Proof.
  exists (if bool_decide (data_theme w = Some "dark") then "light" else "dark"), (flipped w).
  split; [apply themeToggle_click_eq|]. split; [reflexivity|].
  split; [unfold flipped; cbn [localStorage set_localStorage]; apply lookup_insert_eq|].
  case_bool_decide as Hd.
  - split; [now right|]. now repeat split.
  - split; [now left|]. repeat split; try discriminate. intros H. now destruct Hd.
Qed.

(** Two clicks bring a dark or a light page back to its theme, in the
    attribute and in the storage; a page whose attribute is missing or
    unknown is light after two clicks. *)
Theorem theme_double_click (w : World) :
  ∃ w2, (Main.themeToggle_click;; Main.themeToggle_click) w = (Ok tt, w2) ∧
    data_theme w2 = Some (if bool_decide (data_theme w = Some "dark") then "dark" else "light") ∧
    localStorage w2 !! "theme" = data_theme w2 ∧
    (∀ t, data_theme w = Some t → supported t → data_theme w2 = Some t).
Proof.
  exists (flipped (flipped w)).
  split; [rewrite (bind_ok _ _ _ _ _ (themeToggle_click_eq w)); apply themeToggle_click_eq|].
  assert (Hattr : data_theme (flipped (flipped w))
                  = Some (if bool_decide (data_theme w = Some "dark") then "dark" else "light")).
  { rewrite !data_theme_flipped.
    now destruct (bool_decide (data_theme w = Some "dark")). }
  split; [exact Hattr|].
  split; [unfold flipped at 1; cbn [localStorage set_localStorage data_theme set_data_theme];
          now rewrite lookup_insert_eq|].
  intros t Ht [-> | ->]; rewrite Hattr, Ht.
  - now rewrite bool_decide_eq_true_2.
  - now rewrite bool_decide_eq_false_2.
Qed.

(** The theme survives a reload: when the page is loaded again with the
    storage a click has left, [initTheme] ends normally and sets the
    attribute to the theme the click chose.  It installs one click
    listener when the toggle button exists and none when it does not. *)
Theorem theme_survives_reload (w w1 : World) :
  Main.themeToggle_click w = (Ok tt, w1) →
  ∃ w2, Main.initTheme (reloaded w1) = (Ok tt, w2) ∧
    data_theme w2 = data_theme w1 ∧
    localStorage w2 = localStorage w1 ∧
    click_listeners w2 !! "theme-toggle"
      = (λ _, 1) <$> document_elements w1 !! "theme-toggle".
Proof.
  rewrite themeToggle_click_eq. intros [= <-].
  unfold Main.initTheme.
  assert (Hsaved : localStorage (reloaded (flipped w)) !! "theme"
                   = Some (if bool_decide (data_theme w = Some "dark")
                           then "light" else "dark")).
  { unfold reloaded, flipped. cbn [localStorage set_localStorage]. apply lookup_insert_eq. }
  unfold mbind, M_bind, Host.getElementById, Host.localStorage_getItem, gets.
  rewrite Hsaved.
  assert (Hbutton : document_elements (reloaded (flipped w)) !! "theme-toggle"
                    = (λ e, {| offsetWidth := offsetWidth e; offsetHeight := offsetHeight e;
                               canvases := [] |}) <$> document_elements w !! "theme-toggle").
  { unfold reloaded. cbn [document_elements]. now rewrite lookup_fmap. }
  rewrite Hbutton.
  change (document_elements (flipped w)) with (document_elements w).
  destruct (document_elements w !! "theme-toggle") as [button|]; simpl.
  - eexists. split; [reflexivity|]. simpl. rewrite lookup_insert_eq.
    now case_bool_decide.
  - eexists. split; [reflexivity|]. simpl. now case_bool_decide.
Qed.

Lemma theme_survives_reload_witness :
  ∃ w1 w2, Main.themeToggle_click (sample_page (Some "dark") 0.5) = (Ok tt, w1) ∧
    Main.initTheme (reloaded w1) = (Ok tt, w2) ∧ data_theme w2 = Some "light".
Proof.
  destruct (theme_survives_reload (sample_page (Some "dark") 0.5)
              (flipped (sample_page (Some "dark") 0.5)) eq_refl)
    as (w2 & Hrun & Hattr & _).
  exists (flipped (sample_page (Some "dark") 0.5)), w2.
  split; [reflexivity|]. split; [exact Hrun|]. rewrite Hattr. reflexivity.
Defined.

(* ================================================================== *)
(** * main.js: the Konami code                                          *)
(* ================================================================== *)

Section KonamiCode.
Import Konami.

Lemma keydowns_snoc keys key st :
  keydowns (keys ++ [key]) st = keydown key (keydowns keys st).
Proof. unfold keydowns. now rewrite fold_left_app. Qed.

(** The index counts how many of the last keys match the start of the
    code. *)
Lemma konamiIndex_matches (keys : list string) :
  konamiIndex (keydowns keys initial) < 10 ∧
  take (konamiIndex (keydowns keys initial)) konamiCode `suffix_of` keys.
Proof.
  induction keys as [|key keys IH] using rev_ind.
  - split; [simpl; lia | apply suffix_nil].
  - destruct IH as [Hlt Hsuf]. rewrite keydowns_snoc.
    set (st := keydowns keys initial) in *. unfold keydown.
    case_bool_decide as Hkey.
    + change (length konamiCode) with 10.
      destruct (S (konamiIndex st) =? 10) eqn:Hend; cbn [konamiIndex].
      * split; [lia | apply suffix_nil].
      * apply Nat.eqb_neq in Hend. split; [lia|].
        rewrite (take_S_r _ _ _ Hkey). now apply suffix_app.
    + cbn [konamiIndex]. split; [lia | apply suffix_nil].
Qed.

(** [activateQuantumMode] is only called on a key that completes the code:
    when a key raises the number of activations, it raises it by one and
    the keys typed so far end with the ten keys of the code.  The converse
    fails: a key that does not fit resets the index even when it is the
    first key of the code, so the code typed after one more [ArrowUp] is
    missed. *)
Theorem konami_activation_sound :
  (∀ keys key,
     activations (keydowns (keys ++ [key]) initial) ≠ activations (keydowns keys initial) →
     activations (keydowns (keys ++ [key]) initial) = S (activations (keydowns keys initial)) ∧
     konamiCode `suffix_of` keys ++ [key]) ∧
  (konamiCode `suffix_of` "ArrowUp" :: konamiCode ∧
   activations (keydowns ("ArrowUp" :: konamiCode) initial) = 0).
Proof.
  split.
  - intros keys key. destruct (konamiIndex_matches keys) as [Hlt Hsuf].
    rewrite keydowns_snoc. set (st := keydowns keys initial) in *. unfold keydown.
    case_bool_decide as Hkey; [|cbn [activations]; congruence].
    change (length konamiCode) with 10.
    destruct (S (konamiIndex st) =? 10) eqn:Hend; cbn [activations]; [|congruence].
    intros _. split; [reflexivity|].
    apply Nat.eqb_eq in Hend.
    replace konamiCode with (take (S (konamiIndex st)) konamiCode)
      by (rewrite Hend; reflexivity).
    rewrite (take_S_r _ _ _ Hkey). now apply suffix_app.
  - split; [now exists ["ArrowUp"] | reflexivity].
Qed.

(** From an index of 0, that is at the start and after every key that did
    not fit, the ten keys of the code call [activateQuantumMode] exactly
    once and leave the index at 0 again. *)
Theorem konami_code_activates (st : State) :
  konamiIndex st = 0 →
  keydowns konamiCode st = {| konamiIndex := 0; activations := S (activations st) |}.
Proof. destruct st as [i n]. simpl. intros ->. reflexivity. Qed.

Lemma konami_code_activates_witness :
  keydowns ("x" :: konamiCode) initial = {| konamiIndex := 0; activations := 1 |}.
Proof.
  exact (konami_code_activates (keydown "x" initial) eq_refl).
Defined.

End KonamiCode.

(* ================================================================== *)
(** * main.js: the mobile menu                                          *)
(* ================================================================== *)

Section MobileMenuEvents.
Import MobileMenu.

Lemma menu_handle_in_sync e st : menu_in_sync st → menu_in_sync (handle e st).
Proof.
  intros [Hb Hm]. destruct st as [b m o]. simpl in *. subst.
  destruct e as [| |key]; simpl; [now split | now split |].
  destruct (String.eqb key "Escape" && m); now split.
Qed.

Lemma menu_handle_all_snoc es e st :
  handle_all (es ++ [e]) st = handle e (handle_all es st).
Proof. unfold handle_all. now rewrite fold_left_app. Qed.

(** When the three classes of the mobile menu agree to begin with, they
    agree after any sequence of button clicks, link clicks and keys.  A
    click on a link and the Escape key always leave the menu closed, and
    no key opens a closed menu. *)
Theorem menu_stays_in_sync (es : list Event) (st : State) :
  menu_in_sync st →
  menu_in_sync (handle_all es st) ∧
  menu_active (handle_all (es ++ [LinkClick]) st) = false ∧
  menu_active (handle_all (es ++ [Keydown "Escape"]) st) = false ∧
  (∀ key, menu_active (handle_all es st) = false →
          handle_all (es ++ [Keydown key]) st = handle_all es st).
Proof.
  intros Hsync.
  assert (Hall : menu_in_sync (handle_all es st)).
  { induction es as [|e es IH] using rev_ind; [exact Hsync|].
    rewrite menu_handle_all_snoc. now apply menu_handle_in_sync. }
  split; [exact Hall|]. rewrite !menu_handle_all_snoc.
  split; [reflexivity|]. split.
  - destruct (handle_all es st) as [b m o]. simpl. now destruct m.
  - intros key Hclosed. rewrite menu_handle_all_snoc. simpl.
    now rewrite Hclosed, andb_false_r.
Qed.

Lemma menu_stays_in_sync_witness :
  menu_in_sync
    (handle_all [ButtonClick; Keydown "Tab"; Keydown "Escape"; ButtonClick; LinkClick]
       {| button_active := false; menu_active := false; body_menu_open := false |}).
Proof.
  exact (proj1 (menu_stays_in_sync
                  [ButtonClick; Keydown "Tab"; Keydown "Escape"; ButtonClick; LinkClick]
                  {| button_active := false; menu_active := false; body_menu_open := false |}
                  (conj eq_refl eq_refl))).
Defined.

End MobileMenuEvents.

(* ================================================================== *)
(** * main.js: the navigation bar                                       *)
(* ================================================================== *)

Section NavigationBar.
Import Navigation.
Local Open Scope R_scope.

Lemma nav_handle_all_snoc es e st :
  handle_all (es ++ [e]) st = handle e (handle_all es st).
Proof. unfold handle_all. now rewrite fold_left_app. Qed.

(** However many scroll events arrive between two animation frames, at
    most one [updateNavbar] waits for the next frame, and one waits
    exactly while [ticking] is set.  The bar is only ever hidden while it
    carries the class [scrolled], at a scroll position beyond 200. *)
Theorem navbar_updates_coalesce (es : list Event) (scrollY0 : R) :
  let st := handle_all es (initial scrollY0) in
  (pending st <= 1)%nat ∧
  (ticking st = true ↔ pending st = 1%nat) ∧
  (transform st = "translateY(-100%)" → scrolled st = true ∧ lastScrollY st > 200).
Proof.
  cbn zeta. induction es as [|e es IH] using rev_ind.
  - simpl. split; [lia|]. split; [split; discriminate | discriminate].
  - rewrite nav_handle_all_snoc.
    destruct (handle_all es (initial scrollY0)) as [last tick scr tr pend].
    cbn [pending ticking transform scrolled lastScrollY] in IH.
    destruct IH as (Hle & Htick & Hhide).
    destruct e as [|y]; simpl.
    + unfold onScroll. cbn [ticking]. destruct tick; simpl.
      * split; [exact Hle|]. split; [exact Htick | exact Hhide].
      * assert (pend = 0%nat).
        { destruct pend as [|[|pend]]; [reflexivity| |lia].
          discriminate (proj2 Htick eq_refl). }
        subst. split; [lia|]. split; [now split | exact Hhide].
    + unfold onFrame. cbn [pending]. destruct pend as [|[|pend]]; [| |lia].
      * simpl. split; [lia|]. split; [exact Htick | exact Hhide].
      * simpl. split; [lia|]. split; [split; discriminate|].
        destruct (Rgt_dec y last); [|discriminate].
        destruct (Rgt_dec y 200); [|discriminate].
        intros _. destruct (Rgt_dec y 50); [now split | lra].
Qed.

Lemma activate_activate id id' links : activate id (activate id' links) = activate id links.
Proof. unfold activate. rewrite <- list_fmap_compose. now apply list_fmap_ext. Qed.

Lemma setActiveLink_none_in_view scrollY sections links :
  Forall (λ s, in_view scrollY s = false) sections →
  setActiveLink scrollY sections links = links.
Proof.
  unfold setActiveLink. intros H. revert links.
  induction H as [|s sections Hs _ IH]; intros links; [reflexivity|].
  simpl. rewrite Hs. apply IH.
Qed.

Lemma setActiveLink_then_activate scrollY sections id links :
  activate id (setActiveLink scrollY sections links) = activate id links.
Proof.
  unfold setActiveLink. revert links.
  induction sections as [|s sections IH]; intros links; [reflexivity|].
  simpl. rewrite IH. destruct (in_view scrollY s); [apply activate_activate | reflexivity].
Qed.

(** [setActiveLink] marks exactly the links that point to the last section
    the scroll position lies in: every link gets [active] when its [href]
    is [#] followed by that section's id, and loses it otherwise.  When
    the scroll position lies in no section, the links are left as they
    were. *)
Theorem setActiveLink_last_in_view (scrollY : R) (sections : list PageSection)
    (links : list NavLink) :
  (Forall (λ s, in_view scrollY s = false) sections →
   setActiveLink scrollY sections links = links) ∧
  (∀ before s after,
     sections = before ++ s :: after →
     in_view scrollY s = true →
     Forall (λ s', in_view scrollY s' = false) after →
     setActiveLink scrollY sections links = activate (sectionId s) links ∧
     ∀ link, link ∈ setActiveLink scrollY sections links →
             (active link = true ↔ href link = "#" +:+ sectionId s)).
Proof.
  split; [apply setActiveLink_none_in_view|].
  intros before s after -> Hs Hafter.
  assert (Heq : setActiveLink scrollY (before ++ s :: after) links
                = activate (sectionId s) links).
  { unfold setActiveLink. rewrite fold_left_app. simpl. rewrite Hs.
    fold (setActiveLink scrollY before links).
    fold (setActiveLink scrollY after
            (activate (sectionId s) (setActiveLink scrollY before links))).
    rewrite (setActiveLink_none_in_view _ _ _ Hafter).
    apply setActiveLink_then_activate. }
  split; [exact Heq|]. intros link Hlink. rewrite Heq in Hlink.
  unfold activate in Hlink. apply list_elem_of_fmap in Hlink as (l0 & -> & _).
  simpl. apply String.eqb_eq.
Qed.

End NavigationBar.

(* ================================================================== *)
(** * main.js: utility functions                                        *)
(* ================================================================== *)

Section Throttling.
Import Timing.
Context {A : Type}.
Variable fires : nat → nat → bool.
Variable limit : nat.
Hypothesis Hfires : never_early fires.

Lemma spaced_snoc (l : list (nat * A)) (c : nat * A) :
  spaced limit l →
  (∀ c0, last l = Some c0 → c0.1 + limit ≤ c.1) →
  spaced limit (l ++ [c]).
Proof.
  induction l as [|c1 l IH]; intros Hl Hlast; [now split|].
  destruct Hl as [Hhead Htail]. destruct l as [|c2 l].
  - simpl. split; [apply Hlast; reflexivity | now split].
  - split; [exact Hhead|]. apply IH; [exact Htail|].
    intros c0 Hc0. apply Hlast. exact Hc0.
Qed.

Lemma throttle_call_inv (now : nat) (st : Throttled A) (call : nat * A) :
  throttle_inv limit now st → now ≤ call.1 →
  throttle_inv limit call.1 (throttle_call fires limit st call) ∧
  passed st `prefix_of` passed (throttle_call fires limit st call).
Proof using Hfires.
  intros (Hsp & Hle & Hcase) Hnow. unfold throttle_call, throttle_timers.
  destruct st as [inT timers ps]. cbn [inThrottle reset_timers passed] in *.
  destruct inT.
  - destruct Hcase as (c0 & Hlast & ->). simpl existsb. simpl filter.
    rewrite orb_false_r.
    destruct (fires (c0.1 + limit) call.1) eqn:Hf; cbn [negb andb inThrottle].
    + pose proof (Hfires _ _ Hf) as Hdue.
      rewrite filter_cons_False, filter_nil by congruence.
      unfold throttle_inv. cbn [inThrottle reset_timers passed app].
      split; [|now apply prefix_app_r].
      split; [apply spaced_snoc; [exact Hsp|]; intros c1 Hc1; replace c1 with c0 by congruence; exact Hdue|].
      split; [intros c Hc; rewrite last_snoc in Hc; now injection Hc as <-|].
      exists call. now rewrite last_snoc.
    + rewrite filter_cons_True, filter_nil by assumption.
      unfold throttle_inv. cbn [inThrottle reset_timers passed].
      split; [|reflexivity]. split; [exact Hsp|].
      split; [intros c Hc; specialize (Hle c Hc); lia|].
      exists c0. now split.
  - destruct Hcase as (-> & Hfree). simpl existsb. rewrite filter_nil.
    cbn [negb andb inThrottle reset_timers passed].
    unfold throttle_inv. cbn [inThrottle reset_timers passed app].
    split; [|now apply prefix_app_r].
    split; [apply spaced_snoc; [exact Hsp|]; intros c1 Hc1; specialize (Hfree c1 Hc1); lia|].
    split; [intros c Hc; rewrite last_snoc in Hc; now injection Hc as <-|].
    exists call. now rewrite last_snoc.
Qed.

Lemma throttle_calls_inv (calls : list (nat * A)) (now : nat) (st : Throttled A) :
  throttle_inv limit now st →
  in_order calls →
  (∀ c, head calls = Some c → now ≤ c.1) →
  spaced limit (passed (fold_left (throttle_call fires limit) calls st)) ∧
  passed st `prefix_of` passed (fold_left (throttle_call fires limit) calls st).
Proof using Hfires.
  revert now st. induction calls as [|c calls IH]; intros now st Hinv Hord Hhead.
  - simpl. split; [apply Hinv | reflexivity].
  - destruct (throttle_call_inv now st c Hinv (Hhead c eq_refl)) as [Hinv' Hpre].
    destruct Hord as [Hnext Hord].
    destruct (IH c.1 _ Hinv' Hord) as [Hsp Hpre'].
    { intros c' Hc'. destruct calls; [discriminate|]. now injection Hc' as <-. }
    split; [exact Hsp|]. now transitivity (passed (throttle_call fires limit st c)).
Qed.

(** The throttled function lets the first call through, and of the calls
    that follow only those that come at least [limit] milliseconds after
    the last call it let through: whatever the calls are, two calls passed
    on to [func] are never less than [limit] apart, provided the host runs
    no timer early. *)
Theorem throttle_spacing (calls : list (nat * A)) :
  in_order calls →
  spaced limit (passed (throttle_calls fires limit calls)) ∧
  (∀ c rest, calls = c :: rest → passed (throttle_calls fires limit calls) !! 0 = Some c).
Proof using Hfires.
  intros Hord. unfold throttle_calls. split.
  - destruct calls as [|c calls]; [now split|].
    apply (throttle_calls_inv (c :: calls) c.1 throttle); [|exact Hord|].
    + split; [exact I|]. split; [discriminate|]. split; [reflexivity | discriminate].
    + intros c' [= <-]. lia.
  - intros c rest ->. simpl.
    assert (Hinv : throttle_inv limit c.1 (throttle_call fires limit throttle c)).
    { apply (throttle_call_inv c.1 throttle c); [|lia].
      split; [exact I|]. split; [discriminate|]. split; [reflexivity | discriminate]. }
    destruct Hord as [Hnext Hord].
    destruct (throttle_calls_inv rest c.1 _ Hinv Hord) as [_ Hpre].
    { intros c' Hc'. destruct rest; [discriminate|]. now injection Hc' as <-. }
    eapply prefix_lookup_Some; [|exact Hpre]. reflexivity.
Qed.

End Throttling.

Lemma throttle_spacing_witness :
  Timing.spaced 100
    (Timing.passed
       (Timing.throttle_calls Nat.leb 100 [(0, "a"); (40, "b"); (100, "c"); (150, "d")])).
Proof.
  assert (Hfires : Timing.never_early Nat.leb) by (intros due now H; now apply Nat.leb_le).
  exact (proj1 (throttle_spacing Nat.leb 100 Hfires
                  [(0, "a"); (40, "b"); (100, "c"); (150, "d")]
                  ltac:(simpl; lia))).
Defined.

Section Debouncing.
Import Timing.
Context {A : Type}.
Variable fires : nat → nat → bool.
Variable wait : nat.
Hypothesis Hfires : never_early fires.

Lemma debounce_burst_from (calls : list (nat * A)) (st : Debounced A) :
  burst wait calls →
  (∀ due args c, timeout st = Some (due, args) → head calls = Some c → c.1 < due) →
  ∀ c, last calls = Some c →
    delivered (fold_left (debounce_call fires wait) calls st) = delivered st ∧
    timeout (fold_left (debounce_call fires wait) calls st) = Some (c.1 + wait, c.2).
Proof using Hfires.
  revert st. induction calls as [|c0 calls IH]; intros st Hburst Hpending c Hlast;
    [discriminate|].
  assert (Hquiet : debounce_timers fires c0.1 st = st).
  { unfold debounce_timers. destruct (timeout st) as [[due args]|] eqn:Ht; [|reflexivity].
    destruct (fires due c0.1) eqn:Hf; [|reflexivity].
    apply Hfires in Hf. specialize (Hpending due args c0 eq_refl eq_refl). lia. }
  simpl fold_left. destruct Hburst as [Hnext Hburst].
  destruct calls as [|c1 calls].
  - injection Hlast as <-. simpl. unfold debounce_call. now rewrite Hquiet.
  - destruct (IH (debounce_call fires wait st c0) Hburst) with (c := c) as [Hd Ht].
    { intros due args c' [= <- <-] [= <-]. apply Hnext. }
    { exact Hlast. }
    split; [|exact Ht]. rewrite Hd. unfold debounce_call. cbn [delivered].
    now rewrite Hquiet.
Qed.

(** While the calls of a debounced function follow one another by less
    than [wait] milliseconds, [func] is not called at all; once they stop
    it is called exactly once, with the arguments of the last call, by the
    timer that call set, provided the host runs no timer early. *)
Theorem debounce_delivers_last (calls : list (nat * A)) (c : nat * A) :
  burst wait calls →
  last calls = Some c →
  delivered (debounce_calls fires wait calls) = [] ∧
  timeout (debounce_calls fires wait calls) = Some (c.1 + wait, c.2) ∧
  delivered (settle (debounce_calls fires wait calls)) = [(c.1 + wait, c.2)].
Proof using Hfires.
  intros Hburst Hlast. unfold debounce_calls.
  destruct (debounce_burst_from calls debounce Hburst) with (c := c) as [Hd Ht];
    [discriminate | exact Hlast |].
  split; [exact Hd|]. split; [exact Ht|].
  unfold settle. now rewrite Ht, Hd.
Qed.

End Debouncing.

Lemma debounce_delivers_last_witness :
  Timing.delivered
    (Timing.settle (Timing.debounce_calls Nat.leb 100 [(0, "a"); (40, "b"); (130, "c")]))
    = [(230, "c")].
Proof.
  assert (Hfires : Timing.never_early Nat.leb) by (intros due now H; now apply Nat.leb_le).
  destruct (debounce_delivers_last Nat.leb 100 Hfires [(0, "a"); (40, "b"); (130, "c")]
              (130, "c") ltac:(simpl; lia) eq_refl) as (_ & _ & Hsettled).
  exact Hsettled.
Defined.

(* ================================================================== *)
(** * More on themes, frames and observers                              *)
(* ================================================================== *)

(** Under a theme for which [ThemeColors[theme]] is [undefined], the
    [DOMContentLoaded] handler stops at the first scene whose container
    exists: that constructor throws after appending its canvas, and the
    scenes after it are never constructed.  Only when no container exists
    does the handler end normally. *)
Theorem initScenes_without_palette (w : World) :
  no_palette (theme_of w) →
  match first_present w with
  | Some (c, id) =>
      initScenes w
        = (Throw (TypeError "primary"),
           set_elements (alter (add_canvas c) id (document_elements w)) w)
  | None =>
      initScenes w
        = (Ok [NoContainer; NoContainer; NoContainer; NoContainer; NoContainer], w)
  end.
Proof.
  intros Hnp. unfold first_present, scene_bindings, initScenes.
  repeat (rewrite filter_cons; cbn [snd]; case_decide as Hel;
          [ destruct Hel as [el Hel]; cbn [head fst snd];
            apply bind_throw; now apply (construct_throws _ _ _ el)
          | apply eq_None_not_Some in Hel;
            rewrite (bind_ok _ _ _ _ _ (construct_absent _ _ _ Hel)); clear Hel ]).
  reflexivity.
Qed.

Lemma initScenes_without_palette_witness :
  initScenes (sample_page (Some "sepia") 0.5)
    = (Throw (TypeError "primary"),
       set_elements (alter (add_canvas QuantumHero) "hero-canvas" site_elements)
                    (sample_page (Some "sepia") 0.5)).
Proof.
  exact (initScenes_without_palette (sample_page (Some "sepia") 0.5) no_palette_sepia).
Defined.

Section HeroRings.
Import QuantumHeroScene.
Local Open Scope R_scope.



End HeroRings.

Lemma themeObserver_cons name ms s w :
  themeObserver (name :: ms) s w
    = ((if String.eqb name "data-theme" then scene_updateColors s else mret s)
       ≫= themeObserver ms) w.
Proof.
  unfold themeObserver. simpl forEach.
  assert (Hshift : ∀ (l : list string) i j s0 w0,
            forEach l i (λ attributeName (_ : nat) s',
                           if String.eqb attributeName "data-theme"
                           then scene_updateColors s' else mret s') s0 w0
            = forEach l j (λ attributeName (_ : nat) s',
                             if String.eqb attributeName "data-theme"
                             then scene_updateColors s' else mret s') s0 w0).
  { induction l as [|x l IH]; intros i j s0 w0; [reflexivity|].
    simpl. unfold mbind, M_bind. destruct (_ w0) as [[a|e] w1]; [apply IH | reflexivity]. }
  unfold mbind, M_bind.
  destruct ((if String.eqb name "data-theme" then scene_updateColors s else mret s) w)
    as [[a|e] w1]; [apply Hshift | reflexivity].
Qed.

Lemma theme_records_cons name ms :
  theme_records (name :: ms)
    = ((if String.eqb name "data-theme" then 1 else 0) + theme_records ms)%nat.
Proof.
  unfold theme_records. rewrite filter_cons.
  destruct (String.eqb_spec name "data-theme") as [->|Hne].
  - now rewrite decide_True.
  - now rewrite decide_False.
Qed.

(** The mutation observer of a scene reacts to records for [data-theme]
    only.  A batch without such a record leaves the scene and the page as
    they are, under any theme.  Under a theme that has a palette every
    such record of a batch runs [updateColors] once: the scene ends up
    recoloured, with its objects unchanged, and under the dark theme the
    random colours are drawn once per record. *)
Theorem themeObserver_filters (mutations : list string) (s : AnyScene) (w : World) :
  (theme_records mutations = 0 → themeObserver mutations s w = (Ok s, w)) ∧
  (supported (theme_of w) →
   ∃ s', themeObserver mutations s w
           = (Ok s', advance (if String.eqb (theme_of w) "light" then 0
                              else theme_records mutations * random_colors_needed s) w) ∧
         bleach s' = bleach s).
Proof.
  split.
  - revert s w. induction mutations as [|name ms IH]; intros s w Hnone; [reflexivity|].
    rewrite theme_records_cons in Hnone. rewrite themeObserver_cons.
    destruct (String.eqb name "data-theme"); [discriminate Hnone|].
    rewrite (bind_ok _ _ w s w eq_refl). now apply IH.
  - intros Hsup. revert s w Hsup.
    induction mutations as [|name ms IH]; intros s w Hsup.
    + exists s. split; [|reflexivity].
      change (theme_records []) with 0%nat. simpl.
      destruct (String.eqb _ _); now rewrite advance_0.
    + rewrite theme_records_cons, themeObserver_cons.
      destruct (String.eqb name "data-theme").
      * destruct Hsup as [Hd | Hl].
        -- rewrite (bind_ok _ _ _ _ _ (scene_updateColors_dark s w Hd)).
           destruct (IH (recolored_dark (pick <$> draws w (random_colors_needed s)) s)
                        (advance (random_colors_needed s) w))
             as (s' & Hrun & Hb); [left; now rewrite theme_of_advance|].
           exists s'. rewrite Hrun, theme_of_advance, Hd. simpl String.eqb.
           rewrite Hb, bleach_recolored_dark by apply length_draws.
           split; [|reflexivity]. rewrite advance_advance. do 2 f_equal.
           rewrite <- (random_colors_needed_bleach (recolored_dark _ s)),
             bleach_recolored_dark, random_colors_needed_bleach by apply length_draws.
           lia.
        -- rewrite (bind_ok _ _ _ _ _ (scene_updateColors_light s w Hl)).
           destruct (IH (recolored_light s) w) as (s' & Hrun & Hb); [now right|].
           exists s'. rewrite Hrun, Hl in *. simpl String.eqb in *.
           split; [reflexivity|]. now rewrite Hb, bleach_recolored_light.
      * rewrite (bind_ok _ _ w s w eq_refl).
        destruct (IH s w Hsup) as (s' & Hrun & Hb). exists s'. now rewrite Hrun.
Qed.
